(** * SQL DDL code generation (src/box/sql/build.c): a shallow embedding

    The routines of [build.c] are called by the SQL parser while it
    reduces the grammar of CREATE TABLE / CREATE INDEX / DROP TABLE.
    They mutate a per-statement [struct Parse] and append instructions
    to a VDBE program.  Here every routine is a function from the parse
    context to the parse context; the pieces of the context a routine
    touches are record fields with the names of the C structures. *)

From Stdlib Require Import Ascii String DecimalString Arith NArith Bool Lia.
From Stdlib Require Import DecimalFacts DecimalNat.
From stdpp Require Import base option list strings.

Local Open Scope string_scope.
Local Open Scope list_scope.
Local Open Scope nat_scope.

(** ** Characters and C strings *)

(** The two quote characters recognised by [trim_space_snprintf]. *)
Definition squote : ascii := ascii_of_nat 39.
Definition dquote : ascii := ascii_of_nat 34.
(** The C string terminator, also the "not inside a quote" marker. *)
Definition NUL : ascii := ascii_of_nat 0.

(** [isspace] of <ctype.h> in the C locale: space, \t, \n, \v, \f, \r. *)
Definition isspace (c : ascii) : bool :=
  let n := nat_of_ascii c in
  (n =? 32) || ((9 <=? n) && (n <=? 13)).

(** ** trim_space_snprintf (build.c:647)

    The loop reads [str] left to right and stores through [wptr++].
    [trim_space_text] is the sequence of characters stored before the
    terminator, in the order they are stored. *)
Fixpoint trim_space_text (quote_type : ascii) (is_prev_chr_space : bool)
    (str : string) : string :=
  match str with
  | EmptyString => EmptyString
  | String c rest =>
      if Ascii.eqb quote_type NUL then
        if Ascii.eqb c squote || Ascii.eqb c dquote then
          (* quote_type = *str; fall through to the copy *)
          String c (trim_space_text c false rest)
        else if isspace c then
          if is_prev_chr_space then trim_space_text quote_type true rest
          else String " " (trim_space_text quote_type true rest)
        else String c (trim_space_text quote_type false rest)
      else if Ascii.eqb c quote_type then
        String c (trim_space_text NUL false rest)
      else String c (trim_space_text quote_type false rest)
  end.

(** A store through the destination pointer, [*wptr = c]: [None] when
    the offset is outside the destination buffer (the C code would
    overrun it). *)
Definition store (buf : list ascii) (off : nat) (c : ascii)
    : option (list ascii) :=
  if off <? length buf then Some (<[off := c]> buf) else None.

(** [*wptr++ = c] for each character of [cs] in turn. *)
Fixpoint store_seq (buf : list ascii) (wptr : nat) (cs : string)
    : option (list ascii * nat) :=
  match cs with
  | EmptyString => Some (buf, wptr)
  | String c rest =>
      match store buf wptr c with
      | Some buf' => store_seq buf' (S wptr) rest
      | None => None
      end
  end.

(** [trim_space_snprintf wptr str str_len], with [str_len] the length
    of [str]: the loop's stores followed by the terminator.  The result
    is the destination buffer after the call. *)
Definition trim_space_snprintf (wptr : list ascii) (str : string)
    : option (list ascii) :=
  match store_seq wptr 0 (trim_space_text NUL false str) with
  | Some (buf, off) => store buf off NUL
  | None => None
  end.

(** The text of a C string held in a buffer: the bytes before the first
    terminator. *)
Fixpoint cstring (buf : list ascii) : string :=
  match buf with
  | [] => EmptyString
  | c :: rest =>
      if Ascii.eqb c NUL then EmptyString else String c (cstring rest)
  end.

(** ** Data model *)

(** [enum on_conflict_action]. [ON_CONFLICT_ACTION_DEFAULT] is the
    marker a fresh column carries until NULL / NOT NULL is declared. *)
Inductive on_conflict_action :=
  | ON_CONFLICT_ACTION_NONE
  | ON_CONFLICT_ACTION_ROLLBACK
  | ON_CONFLICT_ACTION_ABORT
  | ON_CONFLICT_ACTION_FAIL
  | ON_CONFLICT_ACTION_IGNORE
  | ON_CONFLICT_ACTION_REPLACE
  | ON_CONFLICT_ACTION_DEFAULT.

#[global] Instance on_conflict_action_eq_dec : EqDecision on_conflict_action.
Proof. solve_decision. Defined.

(** Modelled from the spec: [action_is_nullable] is declared in
    field_def.h; a column is nullable exactly when no NOT NULL action
    is attached to it. *)
Definition action_is_nullable (a : on_conflict_action) : bool :=
  bool_decide (a = ON_CONFLICT_ACTION_NONE).

Inductive field_type :=
  | FIELD_TYPE_ANY
  | FIELD_TYPE_UNSIGNED
  | FIELD_TYPE_STRING
  | FIELD_TYPE_NUMBER
  | FIELD_TYPE_INTEGER
  | FIELD_TYPE_BOOLEAN
  | FIELD_TYPE_VARBINARY
  | FIELD_TYPE_SCALAR.

#[global] Instance field_type_eq_dec : EqDecision field_type.
Proof. solve_decision. Defined.

(** Identifier of the absent collation (UINT32_MAX). *)
Definition COLL_NONE : N := 4294967295%N.

(** [struct field_def]. *)
Record field_def := mk_field_def {
  field_name : string;
  field_type_of : field_type;
  nullable_action : on_conflict_action;
  is_nullable : bool;
  field_coll_id : N;
  default_value : option string
}.

(** [struct key_part]: [coll] is the address of the collation object
    the part compares with (0 for none). *)
Record key_part := mk_key_part {
  fieldno : nat;
  part_type : field_type;
  part_nullable_action : on_conflict_action;
  part_is_nullable : bool;
  part_coll_id : N;
  coll : nat
}.

(** [struct index_def] with its [key_def]: [parts] has [part_count]
    elements. *)
Record index_def := mk_index_def {
  index_name : string;
  iid : nat;
  is_unique : bool;
  parts : list key_part
}.

Inductive fk_constraint_match :=
  | FKEY_MATCH_SIMPLE | FKEY_MATCH_PARTIAL | FKEY_MATCH_FULL.

Inductive fk_constraint_action :=
  | FKEY_NO_ACTION | FKEY_ACTION_SET_NULL | FKEY_ACTION_SET_DEFAULT
  | FKEY_ACTION_CASCADE | FKEY_ACTION_RESTRICT.

(** [struct fk_constraint_def]; [links] holds [field_count] pairs
    (parent_field, child_field). *)
Record fk_constraint_def := mk_fk_constraint_def {
  fk_name : string;
  child_id : nat;
  parent_id : nat;
  links : list (nat * nat);
  fk_is_deferred : bool;
  fk_match : fk_constraint_match;
  on_delete : fk_constraint_action;
  on_update : fk_constraint_action
}.

(** [struct ck_constraint_def]. *)
Record ck_constraint_def := mk_ck_constraint_def {
  ck_name : string;
  expr_str : string;
  ck_space_id : option nat
}.

(** [struct space] together with its [struct space_def]. *)
Record space := mk_space {
  space_id : nat;
  space_name : string;
  engine_name : string;
  is_view : bool;
  is_temporary : bool;
  (** [def->fields[0 .. field_count)] *)
  fields : list field_def;
  (** capacity of the [fields] array *)
  exact_field_count : nat;
  (** [space->index[0 .. index_count)] *)
  index : list index_def;
  index_id_max : nat;
  (** foreign keys in which this space is the parent / the child *)
  parent_fk_constraint : list fk_constraint_def;
  child_fk_constraint : list fk_constraint_def;
  ck_constraint : list ck_constraint_def;
  sql_triggers : list string;
  (** id of the attached sequence *)
  sequence : option nat
}.

Definition field_count (sp : space) : nat := length (fields sp).
Definition index_count (sp : space) : nat := length (index sp).

Definition set_fields (sp : space) (fs : list field_def) (cap : nat) : space :=
  mk_space (space_id sp) (space_name sp) (engine_name sp) (is_view sp)
    (is_temporary sp) fs cap (index sp) (index_id_max sp)
    (parent_fk_constraint sp) (child_fk_constraint sp) (ck_constraint sp)
    (sql_triggers sp) (sequence sp).

Definition set_index (sp : space) (ix : list index_def) (idmax : nat) : space :=
  mk_space (space_id sp) (space_name sp) (engine_name sp) (is_view sp)
    (is_temporary sp) (fields sp) (exact_field_count sp) ix idmax
    (parent_fk_constraint sp) (child_fk_constraint sp) (ck_constraint sp)
    (sql_triggers sp) (sequence sp).

Definition set_iid (i : index_def) (n : nat) : index_def :=
  mk_index_def (index_name i) n (is_unique i) (parts i).

Definition set_parts (i : index_def) (ps : list key_part) : index_def :=
  mk_index_def (index_name i) (iid i) (is_unique i) ps.

Definition set_nullable (f : field_def) (a : on_conflict_action) (n : bool)
    : field_def :=
  mk_field_def (field_name f) (field_type_of f) a n (field_coll_id f)
    (default_value f).

(** ** The VDBE program under construction *)

Inductive opcode :=
  | OP_Init | OP_Halt | OP_Goto | OP_TTransaction
  | OP_Integer | OP_Int64 | OP_Bool | OP_String8 | OP_Blob
  | OP_SCopy | OP_IntCopy | OP_MakeRecord
  | OP_SInsert | OP_SDelete
  | OP_IncMaxid | OP_NextSequenceId
  | OP_IteratorOpen | OP_Close | OP_NoConflict | OP_Found
  | OP_CheckViewReferences | OP_DropTrigger.

#[global] Instance opcode_eq_dec : EqDecision opcode.
Proof. solve_decision. Defined.

(** The P4 operand.  Encoded (MsgPack) payloads are kept as the byte
    string the encoder returned. *)
Inductive p4_operand :=
  | P4_NOTUSED
  | P4_STATIC (z : string)
  | P4_DYNAMIC (z : string)
  | P4_INT32 (n : nat)
  | P4_INT64 (n : N)
  | P4_SPACEPTR (id : nat).

(** [struct VdbeOp]. *)
Record VdbeOp := mk_op {
  op : opcode;
  p1 : nat;
  p2 : nat;
  p3 : nat;
  p4 : p4_operand;
  p5 : nat
}.

(** Modelled from the spec: the ids of the catalog spaces ("_space",
    "_index", "_sequence", ...) and the flag and status values passed
    to the VDBE are declared outside build.c (schema_def.h, sqlInt.h);
    the statements below only rely on the space ids being distinct. *)
Definition BOX_SPACE_ID : nat := 280.
Definition BOX_SEQUENCE_ID : nat := 284.
Definition BOX_SEQUENCE_DATA_ID : nat := 285.
Definition BOX_INDEX_ID : nat := 288.
Definition BOX_TRUNCATE_ID : nat := 330.
Definition BOX_SPACE_SEQUENCE_ID : nat := 340.
Definition BOX_FK_CONSTRAINT_ID : nat := 356.
Definition BOX_CK_CONSTRAINT_ID : nat := 364.
Definition BOX_INDEX_FIELD_ID : nat := 1.
Definition BOX_NAME_MAX : N := 65000%N.
Definition BOX_INVALID_NAME_MAX : nat := 64.
Definition SQL_TARANTOOL_ERROR : nat := 1.
Definition SQL_SUBTYPE_MSGPACK : nat := 77.
Definition OPFLAG_NCHANGE : nat := 1.
Definition OPFLAG_SYSTEMSP : nat := 32.
Definition LLONG_MAX : N := 9223372036854775807%N.

(** Error codes raised through [diag_set(ClientError, ...)] here. *)
Inductive box_error_code :=
  | ER_IDENTIFIER | ER_SPACE_FIELD_IS_DUPLICATE | ER_SQL
  | ER_SQL_COLUMN_COUNT_MAX | ER_SQL_PARSER_LIMIT | ER_CREATE_SPACE
  | ER_NULLABLE_PRIMARY | ER_INDEX_DEF_UNSUPPORTED | ER_UNSUPPORTED
  | ER_MODIFY_INDEX | ER_NO_SUCH_SPACE | ER_DROP_SPACE
  | ER_NO_SUCH_COLLATION | ER_NO_SUCH_FIELD_NAME
  | ER_CREATE_FK_CONSTRAINT | ER_SPACE_EXISTS | ER_CONSTRAINT_EXISTS
  | ER_NO_SUCH_CONSTRAINT.

#[global] Instance box_error_code_eq_dec : EqDecision box_error_code.
Proof. solve_decision. Defined.

(** The diagnostics area: the error code and the arguments of its
    message. *)
Record diag_error := ClientError {
  errcode : box_error_code;
  errargs : list string
}.

(** [struct saved_record] (build.c:64). *)
Record saved_record := mk_saved_record {
  rec_space_id : nat;
  reg_key : nat;
  reg_key_count : nat;
  insertion_opcode : nat
}.

(** [struct fk_constraint_parse]. *)
Record fk_constraint_parse := mk_fk_constraint_parse {
  fk_def : fk_constraint_def;
  selfref_cols : option (list string);
  is_self_referenced : bool
}.

(** A row of the collation cache: name, id, address of the collation
    object. *)
Record coll_id := mk_coll_id {
  coll_name : string;
  coll_id_of : N;
  coll_ptr : nat
}.

(** [struct Parse], with the parts of [struct sql], of the session and
    of the schema cache that the routines below read.  [rlist]s are
    lists whose head is the first entry of the [rlist]. *)
Record Parse := mk_Parse {
  (** db->aLimit[SQL_LIMIT_COLUMN] *)
  limit_column : nat;
  (** effective_user()->uid *)
  effective_uid : nat;
  (** sql_storage_engine_strs[current_session()->sql_default_engine] *)
  default_engine : string;
  (** the space cache read by space_by_name *)
  space_cache : list space;
  (** the collation cache read by coll_by_name / coll_by_id *)
  coll_cache : list coll_id;
  is_aborted : bool;
  diag : option diag_error;
  (** create_table_def *)
  new_space : option space;
  has_autoinc : bool;
  if_not_exist : bool;
  check_count : nat;
  new_check : list ck_constraint_def;
  new_fkey : list fk_constraint_parse;
  (** the VDBE: [None] until sqlGetVdbe creates it *)
  pVdbe : option (list VdbeOp);
  nMem : nat;
  nTab : nat;
  iRangeReg : nat;
  nRangeReg : nat;
  record_list : list saved_record;
  isMultiWrite : bool;
  initiateTTrans : bool
}.

Definition set_abort (p : Parse) (d : option diag_error) : Parse :=
  mk_Parse (limit_column p) (effective_uid p) (default_engine p)
    (space_cache p) (coll_cache p) true d (new_space p) (has_autoinc p)
    (if_not_exist p) (check_count p) (new_check p) (new_fkey p) (pVdbe p)
    (nMem p) (nTab p) (iRangeReg p) (nRangeReg p) (record_list p)
    (isMultiWrite p) (initiateTTrans p).

(** [diag_set(ClientError, code, ...); parser->is_aborted = true]. *)
Definition raise (p : Parse) (code : box_error_code) (args : list string)
    : Parse :=
  set_abort p (Some (ClientError code args)).

Definition set_new_space (p : Parse) (s : option space) : Parse :=
  mk_Parse (limit_column p) (effective_uid p) (default_engine p)
    (space_cache p) (coll_cache p) (is_aborted p) (diag p) s (has_autoinc p)
    (if_not_exist p) (check_count p) (new_check p) (new_fkey p) (pVdbe p)
    (nMem p) (nTab p) (iRangeReg p) (nRangeReg p) (record_list p)
    (isMultiWrite p) (initiateTTrans p).

Definition set_checks (p : Parse) (n : nat) (cs : list ck_constraint_def)
    : Parse :=
  mk_Parse (limit_column p) (effective_uid p) (default_engine p)
    (space_cache p) (coll_cache p) (is_aborted p) (diag p) (new_space p)
    (has_autoinc p) (if_not_exist p) n cs (new_fkey p) (pVdbe p)
    (nMem p) (nTab p) (iRangeReg p) (nRangeReg p) (record_list p)
    (isMultiWrite p) (initiateTTrans p).

Definition set_new_fkey (p : Parse) (fs : list fk_constraint_parse) : Parse :=
  mk_Parse (limit_column p) (effective_uid p) (default_engine p)
    (space_cache p) (coll_cache p) (is_aborted p) (diag p) (new_space p)
    (has_autoinc p) (if_not_exist p) (check_count p) (new_check p) fs
    (pVdbe p) (nMem p) (nTab p) (iRangeReg p) (nRangeReg p) (record_list p)
    (isMultiWrite p) (initiateTTrans p).

Definition set_pVdbe (p : Parse) (v : option (list VdbeOp)) : Parse :=
  mk_Parse (limit_column p) (effective_uid p) (default_engine p)
    (space_cache p) (coll_cache p) (is_aborted p) (diag p) (new_space p)
    (has_autoinc p) (if_not_exist p) (check_count p) (new_check p)
    (new_fkey p) v (nMem p) (nTab p) (iRangeReg p) (nRangeReg p)
    (record_list p) (isMultiWrite p) (initiateTTrans p).

Definition set_nMem (p : Parse) (n : nat) : Parse :=
  mk_Parse (limit_column p) (effective_uid p) (default_engine p)
    (space_cache p) (coll_cache p) (is_aborted p) (diag p) (new_space p)
    (has_autoinc p) (if_not_exist p) (check_count p) (new_check p)
    (new_fkey p) (pVdbe p) n (nTab p) (iRangeReg p) (nRangeReg p)
    (record_list p) (isMultiWrite p) (initiateTTrans p).

Definition set_nTab (p : Parse) (n : nat) : Parse :=
  mk_Parse (limit_column p) (effective_uid p) (default_engine p)
    (space_cache p) (coll_cache p) (is_aborted p) (diag p) (new_space p)
    (has_autoinc p) (if_not_exist p) (check_count p) (new_check p)
    (new_fkey p) (pVdbe p) (nMem p) n (iRangeReg p) (nRangeReg p)
    (record_list p) (isMultiWrite p) (initiateTTrans p).

Definition set_range (p : Parse) (i n : nat) : Parse :=
  mk_Parse (limit_column p) (effective_uid p) (default_engine p)
    (space_cache p) (coll_cache p) (is_aborted p) (diag p) (new_space p)
    (has_autoinc p) (if_not_exist p) (check_count p) (new_check p)
    (new_fkey p) (pVdbe p) (nMem p) (nTab p) i n
    (record_list p) (isMultiWrite p) (initiateTTrans p).

Definition set_record_list (p : Parse) (l : list saved_record) : Parse :=
  mk_Parse (limit_column p) (effective_uid p) (default_engine p)
    (space_cache p) (coll_cache p) (is_aborted p) (diag p) (new_space p)
    (has_autoinc p) (if_not_exist p) (check_count p) (new_check p)
    (new_fkey p) (pVdbe p) (nMem p) (nTab p) (iRangeReg p) (nRangeReg p)
    l (isMultiWrite p) (initiateTTrans p).

Definition set_isMultiWrite (p : Parse) (b : bool) : Parse :=
  mk_Parse (limit_column p) (effective_uid p) (default_engine p)
    (space_cache p) (coll_cache p) (is_aborted p) (diag p) (new_space p)
    (has_autoinc p) (if_not_exist p) (check_count p) (new_check p)
    (new_fkey p) (pVdbe p) (nMem p) (nTab p) (iRangeReg p) (nRangeReg p)
    (record_list p) b (initiateTTrans p).

(** ** Collaborators outside build.c

    The identifier validator, the index definition validator, the
    MsgPack encoders of the catalog rows, the region allocator and the
    trigger dropper are defined in other files.  The routines below are
    written against this interface and the theorems hold for every
    implementation of it. *)
Class BoxApi := {
  (** identifier_check: [true] when the name is acceptable *)
  identifier_check : string -> bool;
  (** index_def_is_valid(index_def, space_name) *)
  index_def_is_valid : index_def -> string -> bool;
  sql_encode_table_opts : space -> string;
  sql_encode_table : space -> string;
  sql_encode_index_opts : index_def -> string;
  sql_encode_index_parts : list field_def -> index_def -> string;
  (** fk_constraint_encode_links(fk, FIELD_LINK_PARENT / _CHILD) *)
  fk_constraint_encode_links : fk_constraint_def -> bool -> string;
  (** the bytes found in a fresh region allocation of the given size *)
  region_alloc : nat -> list ascii;
  region_alloc_length : forall n, length (region_alloc n) = n;
  (** vdbe_code_drop_trigger(parser, trigger_name, account_changes) *)
  vdbe_code_drop_trigger : Parse -> string -> bool -> Parse;
  (** the number of an error code, and tt_sprintf(tnt_errcode_desc(code),
      name) *)
  tnt_errcode : box_error_code -> nat;
  tnt_errcode_desc : box_error_code -> string -> string
}.

(** ** The instruction builder

    Modelled from the spec: the VDBE builder (vdbeaux.c) is the
    append-only builder interface of the excluded virtual machine; an
    emit call appends one instruction and returns its index, and a
    patch call rewrites the jump target of an instruction already
    emitted. *)
Definition aOp (p : Parse) : list VdbeOp := default [] (pVdbe p).

(** [v->nOp], also sqlVdbeCurrentAddr. *)
Definition nOp (p : Parse) : nat := length (aOp p).

(** sqlGetVdbe: the program is created on first use and starts with
    OP_Init. *)
Definition sqlGetVdbe (p : Parse) : Parse :=
  match pVdbe p with
  | Some _ => p
  | None => set_pVdbe p (Some [mk_op OP_Init 0 1 0 P4_NOTUSED 0])
  end.

Definition sqlVdbeAddOp4 (p : Parse) (o : opcode) (a b c : nat)
    (d : p4_operand) : Parse :=
  set_pVdbe p (Some (aOp p ++ [mk_op o a b c d 0])).

Definition sqlVdbeAddOp3 (p : Parse) (o : opcode) (a b c : nat) : Parse :=
  sqlVdbeAddOp4 p o a b c P4_NOTUSED.
Definition sqlVdbeAddOp2 (p : Parse) (o : opcode) (a b : nat) : Parse :=
  sqlVdbeAddOp3 p o a b 0.
Definition sqlVdbeAddOp1 (p : Parse) (o : opcode) (a : nat) : Parse :=
  sqlVdbeAddOp3 p o a 0 0.
Definition sqlVdbeAddOp0 (p : Parse) (o : opcode) : Parse :=
  sqlVdbeAddOp3 p o 0 0 0.
Definition sqlVdbeAddOp4Int (p : Parse) (o : opcode) (a b c n : nat) : Parse :=
  sqlVdbeAddOp4 p o a b c (P4_INT32 n).

Definition set_p2 (o : VdbeOp) (v : nat) : VdbeOp :=
  mk_op (op o) (p1 o) v (p3 o) (p4 o) (p5 o).
Definition set_p5 (o : VdbeOp) (v : nat) : VdbeOp :=
  mk_op (op o) (p1 o) (p2 o) (p3 o) (p4 o) v.

(** sqlVdbeChangeP2(v, addr, val). *)
Definition sqlVdbeChangeP2 (p : Parse) (addr val : nat) : Parse :=
  set_pVdbe p (Some (alter (fun o => set_p2 o val) addr (aOp p))).

(** sqlVdbeChangeP5(v, val): P5 of the instruction emitted last. *)
Definition sqlVdbeChangeP5 (p : Parse) (val : nat) : Parse :=
  set_pVdbe p (Some (alter (fun o => set_p5 o val) (nOp p - 1) (aOp p))).

(** Modelled from the spec: sqlGetTempRange / sqlReleaseTempRange
    (expr.c) pre-allocate virtual registers; a released range is kept
    for the next request that fits in it, otherwise registers come
    from the high-water mark. *)
Definition sqlGetTempRange (p : Parse) (nReg : nat) : Parse * nat :=
  if nReg <=? nRangeReg p then
    (set_range p (iRangeReg p + nReg) (nRangeReg p - nReg), iRangeReg p)
  else (set_nMem p (nMem p + nReg), nMem p + 1).

Definition sqlReleaseTempRange (p : Parse) (iReg nReg : nat) : Parse :=
  if nRangeReg p <? nReg then set_range p iReg nReg else p.

(** sql_set_multi_write (build.c:3176). *)
Definition sql_set_multi_write (p : Parse) (is_set : bool) : Parse :=
  set_isMultiWrite p (isMultiWrite p || is_set).

(** save_record (build.c:87): [rlist_add_entry] links the record in
    at the head of [record_list]. *)
Definition save_record (p : Parse) (space_id reg_key reg_key_count
    insertion_opcode : nat) : Parse :=
  set_record_list p
    (mk_saved_record space_id reg_key reg_key_count insertion_opcode
       :: record_list p).

(** ** Names *)

(** The "%d" conversion. *)
Definition decimal (n : nat) : string :=
  NilZero.string_of_uint (Nat.to_uint n).

(** Modelled from the spec: tt_cstr (trivia/util.h) gives the string
    made of the first [len] bytes of [str]. *)
Definition tt_cstr (str : string) (len : nat) : string :=
  String.substring 0 len str.

(** sqlCheckIdentifierName (build.c:248): [true] stands for 0.  The
    error of a name that is too long shows its first
    BOX_INVALID_NAME_MAX bytes. *)
Definition sqlCheckIdentifierName `{BoxApi} (p : Parse) (zName : string)
    : Parse * bool :=
  if (BOX_NAME_MAX <? N.of_nat (String.length zName))%N then
    (raise p ER_IDENTIFIER [tt_cstr zName BOX_INVALID_NAME_MAX], false)
  else if negb (identifier_check zName) then
    (set_abort p (Some (ClientError ER_IDENTIFIER [zName])), false)
  else (p, true).

(** constraint_is_named (build.c:2319): strncmp against the three
    prefixes of generated names. *)
Definition constraint_is_named (name : string) : bool :=
  negb (String.prefix "sql_autoindex_" name)
  && negb (String.prefix "pk_unnamed_" name)
  && negb (String.prefix "unique_unnamed_" name).

(** ** The table builder *)

(** Modelled from the spec: sql_ephemeral_space_new (select.c) creates
    the draft of the table: a temporary space with the given name, no
    columns and no indexes. *)
Definition sql_ephemeral_space_new (name : string) : space :=
  mk_space 0 name "" false true [] 0 [] 0 [] [] [] [] None.

Definition set_engine_name (sp : space) (e : string) : space :=
  mk_space (space_id sp) (space_name sp) e (is_view sp) (is_temporary sp)
    (fields sp) (exact_field_count sp) (index sp) (index_id_max sp)
    (parent_fk_constraint sp) (child_fk_constraint sp) (ck_constraint sp)
    (sql_triggers sp) (sequence sp).

(** sql_space_primary_key (build.c:279). *)
Definition sql_space_primary_key (sp : space) : option index_def :=
  match index sp with
  | [] => None
  | i :: _ => if iid i =? 0 then Some i else None
  end.

(** sqlStartTable (build.c:306); [db->init.busy] is false while a
    statement is compiled. *)
Definition sqlStartTable `{BoxApi} (p : Parse) (pName : string)
    : Parse * option space :=
  let p := sqlGetVdbe p in
  let '(p, ok) := sqlCheckIdentifierName p pName in
  if negb ok then (p, None)
  else
    let new_space := sql_ephemeral_space_new pName in
    let new_space := set_engine_name new_space (default_engine p) in
    (sql_set_multi_write p true, Some new_space).

(** The grammar action of "CREATE TABLE name": the draft becomes
    [create_table_def.new_space]. *)
Definition create_table `{BoxApi} (p : Parse) (pName : string) : Parse :=
  let '(p, sp) := sqlStartTable p pName in set_new_space p sp.

(** Modelled from the spec: [field_def_default] (field_def.c), the
    column-creation defaults. *)
Definition field_def_default : field_def :=
  mk_field_def "" FIELD_TYPE_ANY ON_CONFLICT_ACTION_DEFAULT false COLL_NONE
    None.

(** The capacity sql_field_retrieve (build.c:351) leaves after making
    room for column [id]. *)
Definition sql_field_retrieve (sp : space) (id : nat) : space :=
  if exact_field_count sp <=? id then
    let columns_new := exact_field_count sp in
    let columns_new := if 0 <? columns_new then 2 * columns_new else 1 in
    set_fields sp (fields sp) columns_new
  else sp.

(** sqlAddColumn (build.c:395). *)
Definition sqlAddColumn (p : Parse) (pName : string) (type : field_type)
    : Parse :=
  match new_space p with
  | None => p
  | Some def =>
      if limit_column p <? field_count def + 1 then
        raise p ER_SQL_COLUMN_COUNT_MAX
          [space_name def; decimal (field_count def + 1);
           decimal (limit_column p)]
      else
        let def := sql_field_retrieve def (field_count def) in
        let p := set_new_space p (Some def) in
        let z := pName in
        if existsb (fun f => String.eqb z (field_name f)) (fields def) then
          raise p ER_SPACE_FIELD_IS_DUPLICATE [z]
        else
          let column_def :=
            mk_field_def z type ON_CONFLICT_ACTION_DEFAULT true
              (field_coll_id field_def_default)
              (default_value field_def_default) in
          set_new_space p
            (Some (set_fields def (fields def ++ [column_def])
                     (exact_field_count def)))
  end.

Definition on_conflict_action_strs (a : on_conflict_action) : string :=
  match a with
  | ON_CONFLICT_ACTION_NONE => "none"
  | ON_CONFLICT_ACTION_ROLLBACK => "rollback"
  | ON_CONFLICT_ACTION_ABORT => "abort"
  | ON_CONFLICT_ACTION_FAIL => "fail"
  | ON_CONFLICT_ACTION_IGNORE => "ignore"
  | ON_CONFLICT_ACTION_REPLACE => "replace"
  | ON_CONFLICT_ACTION_DEFAULT => "default"
  end.

(** The message of the conflicting NULL declaration error. *)
Definition nullable_conflict_msg (column table action : string) : string :=
  "NULL declaration for column '" +:+ column +:+ "' of table '" +:+ table
  +:+ "' has been already set to '" +:+ action +:+ "'".

(** sql_column_add_nullable_action (build.c:447): the column is the
    one added last. *)
Definition sql_column_add_nullable_action (p : Parse)
    (action : on_conflict_action) : Parse :=
  match new_space p with
  | None => p
  | Some def =>
      match fields def !! (field_count def - 1) with
      | None => p
      | Some field =>
          if bool_decide (nullable_action field <> ON_CONFLICT_ACTION_DEFAULT)
             && bool_decide (action <> nullable_action field) then
            raise p ER_SQL
              [nullable_conflict_msg (field_name field) (space_name def)
                 (on_conflict_action_strs (nullable_action field))]
          else
            let field := set_nullable field action (action_is_nullable action) in
            set_new_space p
              (Some (set_fields def
                       (<[field_count def - 1 := field]> (fields def))
                       (exact_field_count def)))
      end
  end.

(** field_def_create_for_pk (build.c:521). *)
Definition field_def_create_for_pk (p : Parse) (field : field_def)
    (space_name : string) : Parse * field_def :=
  if bool_decide (nullable_action field <> ON_CONFLICT_ACTION_ABORT)
     && bool_decide (nullable_action field <> ON_CONFLICT_ACTION_DEFAULT) then
    (raise p ER_NULLABLE_PRIMARY [space_name], field)
  else if bool_decide (nullable_action field = ON_CONFLICT_ACTION_DEFAULT) then
    (p, set_nullable field ON_CONFLICT_ACTION_ABORT false)
  else (p, field).

(** ** Column lists *)

(** [struct Expr] as far as index column lists go: a name, a name under
    COLLATE, a resolved column, or any other expression. *)
Inductive Expr :=
  | TK_ID (zToken : string)
  | TK_COLLATE (zToken : string) (pLeft : Expr)
  | TK_COLUMN (iColumn : nat)
  | TK_OTHER.

(** Modelled from the spec: sqlExprSkipCollate (expr.c) strips the
    COLLATE operators off an expression. *)
Fixpoint sqlExprSkipCollate (e : Expr) : Expr :=
  match e with
  | TK_COLLATE _ e' => sqlExprSkipCollate e'
  | _ => e
  end.

(** The loop "for idx < field_count: if strcmp(name, fields[idx].name)
    == 0" that build.c uses to find a column by name. *)
Definition field_by_name (fs : list field_def) (name : string) : option nat :=
  fst <$> list_find (fun f => field_name f = name) fs.

(** The constraint kinds sql_create_index accepts while a table is
    being created (asserted at build.c:2449). *)
Inductive sql_index_type :=
  | SQL_INDEX_TYPE_CONSTRAINT_UNIQUE
  | SQL_INDEX_TYPE_CONSTRAINT_PK.

#[global] Instance sql_index_type_eq_dec : EqDecision sql_index_type.
Proof. solve_decision. Defined.

(** [struct create_index_def] for a constraint of CREATE TABLE (no
    table name): [cid_name] is absent when the name token is empty,
    [cols] is absent for a column constraint. *)
Record create_index_def := mk_create_index_def {
  cid_name : option string;
  cols : option (list Expr);
  idx_type : sql_index_type
}.

(** The name sql_create_index invents for the index of a constraint
    (build.c:2451-2467). *)
Definition constraint_index_name (t : sql_index_type)
    (constraint_name : option string) (space_name : string)
    (idx_count : nat) : string :=
  let prefix :=
    match t, constraint_name with
    | SQL_INDEX_TYPE_CONSTRAINT_UNIQUE, None => "unique_unnamed_"
    | SQL_INDEX_TYPE_CONSTRAINT_UNIQUE, Some _ => "unique_"
    | SQL_INDEX_TYPE_CONSTRAINT_PK, None => "pk_unnamed_"
    | SQL_INDEX_TYPE_CONSTRAINT_PK, Some _ => "pk_"
    end in
  let who :=
    match constraint_name with
    | None => space_name
    | Some c => if String.eqb c "" then space_name else c
    end in
  prefix +:+ who +:+ "_" +:+ decimal (idx_count + 1).

(** Modelled from the spec: coll_by_id (coll_id_cache.c) maps a
    collation id to its collation object; no object for COLL_NONE. *)
Definition coll_by_id (cache : list coll_id) (id : N) : nat :=
  if (id =? COLL_NONE)%N then 0
  else
    match list_find (fun c => coll_id_of c = id) cache with
    | Some (_, c) => coll_ptr c
    | None => 0
    end.

(** Modelled from the spec: sql_get_coll_seq (callback.c) resolves a
    collation by name; an unknown name is an error. *)
Definition sql_get_coll_seq (p : Parse) (name : string)
    : Parse * option (N * nat) :=
  match list_find (fun c => coll_name c = name) (coll_cache p) with
  | Some (_, c) => (p, Some (coll_id_of c, coll_ptr c))
  | None => (raise p ER_NO_SUCH_COLLATION [name], None)
  end.

(** Modelled from the spec: sql_resolve_self_reference (resolve.c)
    turns the column names of an expression into positions in the
    target table; key parts reference only fields that exist in the
    table at resolution time. *)
Fixpoint resolve_names (fs : list field_def) (e : Expr) : Expr + string :=
  match e with
  | TK_ID z =>
      match field_by_name fs z with
      | Some i => inl (TK_COLUMN i)
      | None => inr z
      end
  | TK_COLLATE c e' =>
      match resolve_names fs e' with
      | inl r => inl (TK_COLLATE c r)
      | inr z => inr z
      end
  | _ => inl e
  end.

Definition sql_resolve_self_reference (p : Parse) (def : space) (e : Expr)
    : Parse * Expr :=
  match resolve_names (fields def) e with
  | inl r => (p, r)
  | inr z => (raise p ER_NO_SUCH_FIELD_NAME [z], e)
  end.

(** ** The index builder *)

(** The collation of a key part (build.c:2271-2278): the one named by
    COLLATE, otherwise the one of the column. *)
Definition part_collation (p : Parse) (space_def : space) (expr : Expr)
    (fieldno : nat) : Parse * option N :=
  match expr with
  | TK_COLLATE z _ =>
      match sql_get_coll_seq p z with
      | (p, Some (id, ptr)) =>
          if ptr =? 0 then (set_abort p (diag p), None) else (p, Some id)
      | (p, None) => (set_abort p (diag p), None)
      end
  | _ =>
      (* sql_column_collation on a space under construction *)
      (p, Some (default COLL_NONE
                  (field_coll_id <$> fields space_def !! fieldno)))
  end.

(** The key parts index_fill_def (build.c:2237) derives from the
    column list; the loop stops at the first error. *)
Fixpoint index_fill_parts (p : Parse) (space_def : space) (l : list Expr)
    : Parse * option (list key_part) :=
  match l with
  | [] => (p, Some [])
  | expr :: rest =>
      let '(p, expr) := sql_resolve_self_reference p space_def expr in
      if is_aborted p then (p, None)
      else
        match sqlExprSkipCollate expr with
        | TK_COLUMN fieldno =>
            let '(p, c) := part_collation p space_def expr fieldno in
            match c, fields space_def !! fieldno with
            | Some coll_id, Some f =>
                let part :=
                  mk_key_part fieldno (field_type_of f) (nullable_action f)
                    (bool_decide (nullable_action f = ON_CONFLICT_ACTION_NONE))
                    coll_id (coll_by_id (coll_cache p) coll_id) in
                match index_fill_parts p space_def rest with
                | (p, Some ps) => (p, Some (part :: ps))
                | (p, None) => (p, None)
                end
            | _, _ => (p, None)
            end
        | _ =>
            (set_abort p
               (Some (ClientError ER_UNSUPPORTED
                        ["Tarantool"; "functional indexes"])), None)
        end
  end.

(** index_fill_def: the index definition, or nothing on error. *)
Definition index_fill_def (p : Parse) (space_def : space) (iid : nat)
    (name : string) (expr_list : list Expr) : Parse * option index_def :=
  match index_fill_parts p space_def expr_list with
  | (p, Some key_parts) => (p, Some (mk_index_def name iid true key_parts))
  | (p, None) => (p, None)
  end.

(** The inner loop of build.c:2543: is [fieldno] among the parts kept
    so far? *)
Definition part_is_kept (kept : list key_part) (part : key_part) : bool :=
  existsb (fun q => fieldno part =? fieldno q) kept.

(** The loop of build.c:2538-2551 over [parts[1 .. part_count)]:
    [kept] is [parts[0 .. new_part_count)]. *)
Fixpoint remove_redundant_loop (kept rest : list key_part) : list key_part :=
  match rest with
  | [] => kept
  | part :: rest' =>
      if part_is_kept kept part then remove_redundant_loop kept rest'
      else remove_redundant_loop (kept ++ [part]) rest'
  end.

(** A column list has at least one column, so [parts[0]] exists and
    [new_part_count] starts at 1. *)
Definition remove_redundant_parts (parts : list key_part) : list key_part :=
  match parts with
  | [] => []
  | part0 :: rest => remove_redundant_loop [part0] rest
  end.

(** The comparison of build.c:2593-2607: same number of parts, and the
    same field and collation at every position. *)
Definition same_key_parts (key_def exst_key_def : list key_part) : bool :=
  bool_decide (map (fun k => (fieldno k, coll k)) key_def
               = map (fun k => (fieldno k, coll k)) exst_key_def).

(** The loop of build.c:2586-2622 over the indexes already attached:
    [Some] is the exit through [exit_create_index] (with the attached
    indexes as they are then), [None] means the loop ran to its end. *)
Fixpoint merge_with_existing (t : sql_index_type) (new_index : index_def)
    (existing : list index_def) : option (list index_def) :=
  match existing with
  | [] => None
  | existing_idx :: rest =>
      if same_key_parts (parts new_index) (parts existing_idx) then
        let is_named := constraint_is_named (index_name existing_idx) in
        if bool_decide (t = SQL_INDEX_TYPE_CONSTRAINT_PK)
           && negb (iid existing_idx =? 0) && negb is_named then
          Some (set_iid existing_idx 0 :: rest)
        else if bool_decide (t = SQL_INDEX_TYPE_CONSTRAINT_UNIQUE)
                && negb (constraint_is_named (index_name new_index)) then
          Some (existing_idx :: rest)
        else cons existing_idx <$> merge_with_existing t new_index rest
      else cons existing_idx <$> merge_with_existing t new_index rest
  end.

(** table_add_index (build.c:2187): a primary key is swapped into the
    first slot and the index that was there goes to the end. *)
Definition table_add_index (sp : space) (idx : index_def) : space :=
  match index sp with
  | first :: others =>
      if iid idx =? 0 then
        set_index sp (idx :: others ++ [first])
          (Nat.max (index_id_max sp) (iid first))
      else
        set_index sp (index sp ++ [idx]) (Nat.max (index_id_max sp) (iid idx))
  | [] => set_index sp [idx] (Nat.max (index_id_max sp) (iid idx))
  end.

(** The first half of sql_create_index (build.c:2327-2554) for a UNIQUE
    or PRIMARY KEY constraint of the table under construction
    ([tbl_name] is NULL): the checks, the name, the key parts.  The
    result is the table and the index to attach, or nothing when the
    routine has left through [exit_create_index]. *)
Definition sql_create_index_prepare `{BoxApi} (p : Parse)
    (cid : create_index_def) : Parse * option (space * index_def) :=
  if is_aborted p then (p, None)
  else
    match new_space p with
    | None => (p, None)
    | Some def =>
        if is_view def then
          (raise p ER_MODIFY_INDEX
             [default "" (cid_name cid); space_name def;
              "views can not be indexed"], None)
        else if field_count def =? 0 then
          (raise p ER_UNSUPPORTED ["SQL"; "space without format"], None)
        else
          let name :=
            constraint_index_name (idx_type cid) (cid_name cid)
              (space_name def) (index_count def) in
          let '(p, ok) := sqlCheckIdentifierName p name in
          if negb ok then (p, None)
          else
            let '(p, col_list) :=
              match cols cid with
              | None =>
                  (p, [TK_ID (default ""
                         (field_name <$> fields def !! (field_count def - 1)))])
              | Some l =>
                  if limit_column p <? length l then
                    (raise p ER_SQL_PARSER_LIMIT
                       ["The number of columns in index"; decimal (length l);
                        decimal (limit_column p)], l)
                  else (p, l)
              end in
            let iid :=
              match idx_type cid with
              | SQL_INDEX_TYPE_CONSTRAINT_PK => 0
              | _ => index_id_max def + 1
              end in
            match index_fill_def p def iid name col_list with
            | (p, None) => (p, None)
            | (p, Some idx) =>
                let idx := set_parts idx (remove_redundant_parts (parts idx)) in
                if negb (index_def_is_valid idx (space_name def)) then (p, None)
                else (p, Some (def, idx))
            end
    end.

(** sql_create_index: the second half (build.c:2585-2676) looks for an
    attached index over the same columns and otherwise attaches the new
    index. *)
Definition sql_create_index `{BoxApi} (p : Parse) (cid : create_index_def)
    : Parse :=
  match sql_create_index_prepare p cid with
  | (p, None) => p
  | (p, Some (def, idx)) =>
      match merge_with_existing (idx_type cid) idx (index def) with
      | Some ix => set_new_space p (Some (set_index def ix (index_id_max def)))
      | None => set_new_space p (Some (table_add_index def idx))
      end
  end.

(** The loop of sqlAddPrimaryKey over the column list
    (build.c:569-587): [None] when a term is not a plain column name,
    otherwise the value [iCol] is left with ([None] for -1). *)
Fixpoint pk_scan_columns (fs : list field_def) (pList : list Expr)
    (iCol : option nat) : option (option nat) :=
  match pList with
  | [] => Some iCol
  | e :: rest =>
      match sqlExprSkipCollate e with
      | TK_ID name =>
          pk_scan_columns fs rest
            (match field_by_name fs name with
             | Some idx => Some idx
             | None => iCol
             end)
      | _ => None
      end
  end.

(** The loop of build.c:623-627. *)
Fixpoint pk_fields_not_null (p : Parse) (fs : list field_def)
    (space_name : string) (pk_parts : list key_part)
    : Parse * list field_def :=
  match pk_parts with
  | [] => (p, fs)
  | part :: rest =>
      match fs !! fieldno part with
      | Some field =>
          let '(p, field) := field_def_create_for_pk p field space_name in
          pk_fields_not_null p (<[fieldno part := field]> fs) space_name rest
      | None => pk_fields_not_null p fs space_name rest
      end
  end.

Definition set_cols (cid : create_index_def) (l : option (list Expr))
    : create_index_def :=
  mk_create_index_def (cid_name cid) l (idx_type cid).

(** sqlAddPrimaryKey (build.c:549).  [None] is the failure of
    [assert(pk != NULL)] at build.c:621. *)
Definition sqlAddPrimaryKey `{BoxApi} (p : Parse) (cid : create_index_def)
    : option Parse :=
  match new_space p with
  | None => Some p
  | Some space =>
      if bool_decide (sql_space_primary_key space <> None) then
        Some (raise p ER_CREATE_SPACE
                [space_name space; "primary key has been already declared"])
      else
        let scan :=
          match cols cid with
          | None =>
              Some (if field_count space =? 0 then None
                    else Some (field_count space - 1), 1)
          | Some pList =>
              match pk_scan_columns (fields space) pList None with
              | Some iCol => Some (iCol, length pList)
              | None => None
              end
          end in
        match scan with
        | None => Some (raise p ER_INDEX_DEF_UNSUPPORTED ["Expressions"])
        | Some (iCol, nTerm) =>
            let int_column :=
              match iCol with
              | Some i =>
                  match fields space !! i with
                  | Some f =>
                      if (nTerm =? 1)
                         && bool_decide (field_type_of f = FIELD_TYPE_INTEGER)
                      then Some (field_name f) else None
                  | None => None
                  end
              | None => None
              end in
            let '(p, go_on) :=
              match int_column with
              | Some name =>
                  (sql_create_index p (set_cols cid (Some [TK_ID name])), true)
              | None =>
                  if has_autoinc p then
                    (raise p ER_CREATE_SPACE
                       [space_name space;
                        "AUTOINCREMENT is only allowed on an INTEGER PRIMARY KEY or INT PRIMARY KEY"],
                     false)
                  else
                    let p := sql_create_index p cid in
                    (p, negb (is_aborted p))
              end in
            if go_on then
              match new_space p with
              | Some space =>
                  match sql_space_primary_key space with
                  | Some pk =>
                      let '(p, fs) :=
                        pk_fields_not_null p (fields space) (space_name space)
                          (parts pk) in
                      Some (set_new_space p
                              (Some (set_fields space fs
                                       (exact_field_count space))))
                  | None => None
                  end
              | None => None
              end
            else Some p
        end
  end.

(** ** Emission of catalog rows *)

(** vdbe_emit_open_cursor (build.c:803). *)
Definition vdbe_emit_open_cursor (p : Parse) (cursor index_id space_id : nat)
    : Parse :=
  sqlVdbeAddOp4 p OP_IteratorOpen cursor index_id 0 (P4_SPACEPTR space_id).

(** vdbe_emit_halt_with_presence_test (build.c:3312). *)
Definition vdbe_emit_halt_with_presence_test `{BoxApi} (p : Parse)
    (space_id index_id key_reg key_len : nat)
    (tarantool_error_code : box_error_code) (error_src : string)
    (no_error : bool) (cond_opcode : opcode) : Parse :=
  let p := sqlGetVdbe p in
  let cursor := nTab p in
  let p := set_nTab p (nTab p + 1) in
  let p := vdbe_emit_open_cursor p cursor index_id space_id in
  let p := sqlVdbeChangeP5 p OPFLAG_SYSTEMSP in
  let label := nOp p in
  let p := sqlVdbeAddOp4Int p cond_opcode cursor (label + 3) key_reg key_len in
  let p :=
    if no_error then sqlVdbeAddOp0 p OP_Halt
    else
      let p :=
        sqlVdbeAddOp4 p OP_Halt SQL_TARANTOOL_ERROR 0 0 (P4_DYNAMIC error_src) in
      sqlVdbeChangeP5 p (tnt_errcode tarantool_error_code) in
  sqlVdbeAddOp1 p OP_Close cursor.

(** getNewSpaceId (build.c:817). *)
Definition getNewSpaceId (p : Parse) : Parse * nat :=
  let p := sqlGetVdbe p in
  let iRes := nMem p + 1 in
  let p := set_nMem p iRes in
  (sqlVdbeAddOp1 p OP_IncMaxid iRes, iRes).

(** vdbe_emit_create_index (build.c:838). *)
Definition vdbe_emit_create_index `{BoxApi} (p : Parse) (def : space)
    (idx_def : index_def) (space_id_reg index_id_reg : nat) : Parse :=
  let p := sqlGetVdbe p in
  let entry_reg := nMem p + 1 in
  let p := set_nMem p entry_reg in
  let tuple_reg := nMem p + 6 in
  let p := set_nMem p tuple_reg in
  let index_opts := sql_encode_index_opts idx_def in
  let index_parts := sql_encode_index_parts (fields def) idx_def in
  let p :=
    match new_space p with
    | Some _ =>
        let p := sqlVdbeAddOp2 p OP_SCopy space_id_reg entry_reg in
        sqlVdbeAddOp2 p OP_Integer (iid idx_def) (entry_reg + 1)
    | None =>
        let p := sqlVdbeAddOp2 p OP_Integer space_id_reg entry_reg in
        sqlVdbeAddOp2 p OP_SCopy index_id_reg (entry_reg + 1)
    end in
  let p :=
    sqlVdbeAddOp4 p OP_String8 0 (entry_reg + 2) 0
      (P4_DYNAMIC (index_name idx_def)) in
  let p := sqlVdbeAddOp4 p OP_String8 0 (entry_reg + 3) 0 (P4_STATIC "tree") in
  let p :=
    sqlVdbeAddOp4 p OP_Blob (String.length index_opts) (entry_reg + 4)
      SQL_SUBTYPE_MSGPACK (P4_DYNAMIC index_opts) in
  let p :=
    sqlVdbeAddOp4 p OP_Blob (String.length index_parts) (entry_reg + 5)
      SQL_SUBTYPE_MSGPACK (P4_STATIC index_parts) in
  let p := sqlVdbeAddOp3 p OP_MakeRecord entry_reg 6 tuple_reg in
  let p := sqlVdbeAddOp3 p OP_SInsert BOX_INDEX_ID 0 tuple_reg in
  save_record p BOX_INDEX_ID entry_reg 2 (nOp p - 1).

(** vdbe_emit_space_create (build.c:910). *)
Definition vdbe_emit_space_create `{BoxApi} (p : Parse)
    (space_id_reg space_name_reg : nat) (sp : space) : Parse :=
  let p := sqlGetVdbe p in
  let iFirstCol := nMem p + 1 in
  let p := set_nMem p iFirstCol in
  let tuple_reg := nMem p + 7 in
  let p := set_nMem p tuple_reg in
  let table_opts_stmt := sql_encode_table_opts sp in
  let table_stmt := sql_encode_table sp in
  let p := sqlVdbeAddOp2 p OP_SCopy space_id_reg iFirstCol in
  let p := sqlVdbeAddOp2 p OP_Integer (effective_uid p) (iFirstCol + 1) in
  let p := sqlVdbeAddOp2 p OP_SCopy space_name_reg (iFirstCol + 2) in
  let p :=
    sqlVdbeAddOp4 p OP_String8 0 (iFirstCol + 3) 0
      (P4_DYNAMIC (engine_name sp)) in
  let p := sqlVdbeAddOp2 p OP_Integer (field_count sp) (iFirstCol + 4) in
  let p :=
    sqlVdbeAddOp4 p OP_Blob (String.length table_opts_stmt) (iFirstCol + 5)
      SQL_SUBTYPE_MSGPACK (P4_DYNAMIC table_opts_stmt) in
  let p :=
    sqlVdbeAddOp4 p OP_Blob (String.length table_stmt) (iFirstCol + 6)
      SQL_SUBTYPE_MSGPACK (P4_STATIC table_stmt) in
  let p := sqlVdbeAddOp3 p OP_MakeRecord iFirstCol 7 tuple_reg in
  let p := sqlVdbeAddOp3 p OP_SInsert BOX_SPACE_ID 0 tuple_reg in
  let p := sqlVdbeChangeP5 p OPFLAG_NCHANGE in
  save_record p BOX_SPACE_ID iFirstCol 1 (nOp p - 1).

(** emitNewSysSequenceRecord (build.c:961). *)
Definition emitNewSysSequenceRecord (p : Parse) (reg_seq_id : nat)
    (seq_name : string) : Parse * nat :=
  let p := sqlGetVdbe p in
  let first_col := nMem p + 1 in
  let p := set_nMem p (nMem p + 10) in
  let p := sqlVdbeAddOp2 p OP_SCopy reg_seq_id (first_col + 1) in
  let p := sqlVdbeAddOp2 p OP_Integer (effective_uid p) (first_col + 2) in
  let p :=
    sqlVdbeAddOp4 p OP_String8 0 (first_col + 3) 0 (P4_DYNAMIC seq_name) in
  let p := sqlVdbeAddOp2 p OP_Integer 1 (first_col + 4) in
  let p := sqlVdbeAddOp4 p OP_Int64 0 (first_col + 5) 0 (P4_INT64 0) in
  let p := sqlVdbeAddOp4 p OP_Int64 0 (first_col + 6) 0 (P4_INT64 LLONG_MAX) in
  let p := sqlVdbeAddOp2 p OP_Integer 1 (first_col + 7) in
  let p := sqlVdbeAddOp2 p OP_Integer 0 (first_col + 8) in
  let p := sqlVdbeAddOp2 p OP_Bool 0 (first_col + 9) in
  let p := sqlVdbeAddOp3 p OP_MakeRecord (first_col + 1) 9 first_col in
  (p, first_col).

(** emitNewSysSpaceSequenceRecord (build.c:1006); index_fill_def
    leaves the path of a key part empty. *)
Definition emitNewSysSpaceSequenceRecord (p : Parse)
    (reg_space_id reg_seq_id : nat) (idx_def : index_def) : Parse * nat :=
  let fieldno := default 0 (fieldno <$> parts idx_def !! 0) in
  let p := sqlGetVdbe p in
  let first_col := nMem p + 1 in
  let p := set_nMem p (nMem p + 6) in
  let p := sqlVdbeAddOp2 p OP_SCopy reg_space_id (first_col + 1) in
  let p := sqlVdbeAddOp2 p OP_IntCopy reg_seq_id (first_col + 2) in
  let p := sqlVdbeAddOp2 p OP_Bool 1 (first_col + 3) in
  let p := sqlVdbeAddOp2 p OP_Integer fieldno (first_col + 4) in
  let p := sqlVdbeAddOp4 p OP_String8 0 (first_col + 5) 0 (P4_STATIC "") in
  let p := sqlVdbeAddOp3 p OP_MakeRecord (first_col + 1) 5 first_col in
  (p, first_col).

(** vdbe_emit_ck_constraint_create (build.c:1052). *)
Definition vdbe_emit_ck_constraint_create `{BoxApi} (p : Parse)
    (ck_def : ck_constraint_def) (reg_space_id : nat) : Parse :=
  let p := sqlGetVdbe p in
  let '(p, ck_constraint_reg) := sqlGetTempRange p 6 in
  let p := sqlVdbeAddOp2 p OP_SCopy reg_space_id ck_constraint_reg in
  let p :=
    sqlVdbeAddOp4 p OP_String8 0 (ck_constraint_reg + 1) 0
      (P4_DYNAMIC (ck_name ck_def)) in
  let p := sqlVdbeAddOp2 p OP_Bool 0 (ck_constraint_reg + 2) in
  let p :=
    sqlVdbeAddOp4 p OP_String8 0 (ck_constraint_reg + 3) 0 (P4_STATIC "SQL") in
  let p :=
    sqlVdbeAddOp4 p OP_String8 0 (ck_constraint_reg + 4) 0
      (P4_DYNAMIC (expr_str ck_def)) in
  let p :=
    sqlVdbeAddOp3 p OP_MakeRecord ck_constraint_reg 5 (ck_constraint_reg + 5) in
  let error_msg := tnt_errcode_desc ER_CONSTRAINT_EXISTS (ck_name ck_def) in
  let p :=
    vdbe_emit_halt_with_presence_test p BOX_CK_CONSTRAINT_ID 0
      ck_constraint_reg 2 ER_CONSTRAINT_EXISTS error_msg false OP_NoConflict in
  let p :=
    sqlVdbeAddOp3 p OP_SInsert BOX_CK_CONSTRAINT_ID 0 (ck_constraint_reg + 5) in
  let p := save_record p BOX_CK_CONSTRAINT_ID ck_constraint_reg 2 (nOp p - 1) in
  sqlReleaseTempRange p ck_constraint_reg 5.

Definition fk_constraint_match_strs (m : fk_constraint_match) : string :=
  match m with
  | FKEY_MATCH_SIMPLE => "simple"
  | FKEY_MATCH_PARTIAL => "partial"
  | FKEY_MATCH_FULL => "full"
  end.

Definition fk_constraint_action_strs (a : fk_constraint_action) : string :=
  match a with
  | FKEY_NO_ACTION => "no_action"
  | FKEY_ACTION_SET_NULL => "set_null"
  | FKEY_ACTION_SET_DEFAULT => "set_default"
  | FKEY_ACTION_CASCADE => "cascade"
  | FKEY_ACTION_RESTRICT => "restrict"
  end.

(** Modelled from the spec: fk_constraint_is_self_referenced
    (fk_constraint.h); a foreign key is a self-reference when its child
    table is its parent table. *)
Definition fk_constraint_is_self_referenced (fk : fk_constraint_def) : bool :=
  child_id fk =? parent_id fk.

(** vdbe_emit_fk_constraint_create (build.c:1094). *)
Definition vdbe_emit_fk_constraint_create `{BoxApi} (p : Parse)
    (fk : fk_constraint_def) : Parse :=
  let p := sqlGetVdbe p in
  let '(p, constr_tuple_reg) := sqlGetTempRange p 10 in
  let name_copy := fk_name fk in
  let p :=
    sqlVdbeAddOp4 p OP_String8 0 constr_tuple_reg 0 (P4_DYNAMIC name_copy) in
  let creating := bool_decide (new_space p <> None) in
  let p :=
    if creating then sqlVdbeAddOp2 p OP_SCopy (child_id fk) (constr_tuple_reg + 1)
    else sqlVdbeAddOp2 p OP_Integer (child_id fk) (constr_tuple_reg + 1) in
  let p :=
    if creating && fk_constraint_is_self_referenced fk then
      sqlVdbeAddOp2 p OP_SCopy (parent_id fk) (constr_tuple_reg + 2)
    else sqlVdbeAddOp2 p OP_Integer (parent_id fk) (constr_tuple_reg + 2) in
  let error_msg := tnt_errcode_desc ER_CONSTRAINT_EXISTS name_copy in
  let p :=
    vdbe_emit_halt_with_presence_test p BOX_FK_CONSTRAINT_ID 0
      constr_tuple_reg 2 ER_CONSTRAINT_EXISTS error_msg false OP_NoConflict in
  let p :=
    sqlVdbeAddOp2 p OP_Bool (if fk_is_deferred fk then 1 else 0)
      (constr_tuple_reg + 3) in
  let p :=
    sqlVdbeAddOp4 p OP_String8 0 (constr_tuple_reg + 4) 0
      (P4_STATIC (fk_constraint_match_strs (fk_match fk))) in
  let p :=
    sqlVdbeAddOp4 p OP_String8 0 (constr_tuple_reg + 5) 0
      (P4_STATIC (fk_constraint_action_strs (on_delete fk))) in
  let p :=
    sqlVdbeAddOp4 p OP_String8 0 (constr_tuple_reg + 6) 0
      (P4_STATIC (fk_constraint_action_strs (on_update fk))) in
  let parent_links := fk_constraint_encode_links fk true in
  let child_links := fk_constraint_encode_links fk false in
  let p :=
    sqlVdbeAddOp4 p OP_Blob (String.length child_links) (constr_tuple_reg + 7)
      SQL_SUBTYPE_MSGPACK (P4_STATIC child_links) in
  let p :=
    sqlVdbeAddOp4 p OP_Blob (String.length parent_links) (constr_tuple_reg + 8)
      SQL_SUBTYPE_MSGPACK (P4_DYNAMIC parent_links) in
  let p :=
    sqlVdbeAddOp3 p OP_MakeRecord constr_tuple_reg 9 (constr_tuple_reg + 9) in
  let p :=
    sqlVdbeAddOp3 p OP_SInsert BOX_FK_CONSTRAINT_ID 0 (constr_tuple_reg + 9) in
  let p := if creating then p else sqlVdbeChangeP5 p OPFLAG_NCHANGE in
  let p := save_record p BOX_FK_CONSTRAINT_ID constr_tuple_reg 2 (nOp p - 1) in
  sqlReleaseTempRange p constr_tuple_reg 10.

(** resolve_link (build.c:1210). *)
Definition resolve_link (p : Parse) (def : space) (field_name fk_name : string)
    : Parse * option nat :=
  match field_by_name (fields def) field_name with
  | Some j => (p, Some j)
  | None =>
      (raise p ER_CREATE_FK_CONSTRAINT
         [fk_name;
          "unknown column " +:+ field_name +:+ " in foreign key definition"],
       None)
  end.

(** The loop of sqlEndTable over the columns of a self-reference
    (build.c:1332-1338): the links with their parent fields resolved. *)
Fixpoint resolve_selfref_links (p : Parse) (def : space) (fk_name : string)
    (cols : list string) (ls : list (nat * nat))
    : Parse * option (list (nat * nat)) :=
  match ls, cols with
  | (_, child) :: ls', c :: cols' =>
      match resolve_link p def c fk_name with
      | (p, Some parent) =>
          match resolve_selfref_links p def fk_name cols' ls' with
          | (p, Some r) => (p, Some ((parent, child) :: r))
          | (p, None) => (p, None)
          end
      | (p, None) => (p, None)
      end
  | _, _ => (p, Some ls)
  end.

Definition set_fk_ids (fk : fk_constraint_def) (child parent : nat)
    (ls : list (nat * nat)) : fk_constraint_def :=
  mk_fk_constraint_def (fk_name fk) child parent ls (fk_is_deferred fk)
    (fk_match fk) (on_delete fk) (on_update fk).

(** The loop of sqlEndTable over [new_fkey] (build.c:1327-1359); the
    flag is false when the routine returns from inside the loop. *)
Fixpoint emit_new_fkeys `{BoxApi} (p : Parse) (new_space : space)
    (reg_space_id : nat) (fks : list fk_constraint_parse) : Parse * bool :=
  match fks with
  | [] => (p, true)
  | fk_parse :: rest =>
      let fk := fk_def fk_parse in
      let '(p, resolved) :=
        match selfref_cols fk_parse with
        | Some cols =>
            match resolve_selfref_links p new_space (fk_name fk) cols (links fk)
            with
            | (p, Some ls) =>
                (p, Some (set_fk_ids fk (child_id fk) reg_space_id ls))
            | (p, None) => (p, None)
            end
        | None =>
            if is_self_referenced fk_parse then
              let pk_parts :=
                default [] (parts <$> sql_space_primary_key new_space) in
              if negb (length pk_parts =? length (links fk)) then
                (raise p ER_CREATE_FK_CONSTRAINT
                   [fk_name fk;
                    "number of columns in foreign key does not match the number of columns in the primary index of referenced table"],
                 None)
              else
                (p, Some (set_fk_ids fk (child_id fk) reg_space_id
                            (zip_with (fun part l => (fieldno part, snd l))
                               pk_parts (links fk))))
            else (p, Some fk)
        end in
      match resolved with
      | None => (p, false)
      | Some fk =>
          let fk := set_fk_ids fk reg_space_id (parent_id fk) (links fk) in
          let p := vdbe_emit_fk_constraint_create p fk in
          emit_new_fkeys p new_space reg_space_id rest
      end
  end.

(** sqlEndTable, first block (build.c:1252-1292): the defaults for the
    columns without NULL / NOT NULL, the name register, the run-time
    test that no such table exists and the register of the new space
    id.  The result is the context, the table, [name_reg] and
    [reg_space_id]. *)
Definition sqlEndTable_begin `{BoxApi} (p : Parse) (new_space : space)
    : Parse * space * nat * nat :=
  let fs :=
    map (fun field =>
           if bool_decide (nullable_action field = ON_CONFLICT_ACTION_DEFAULT)
           then set_nullable field ON_CONFLICT_ACTION_NONE true
           else field) (fields new_space) in
  let new_space := set_fields new_space fs (exact_field_count new_space) in
  let p := set_new_space p (Some new_space) in
  let p := sqlGetVdbe p in
  let space_name_copy := space_name new_space in
  let name_reg := nMem p + 1 in
  let p := set_nMem p name_reg in
  let p :=
    sqlVdbeAddOp4 p OP_String8 0 name_reg 0 (P4_DYNAMIC space_name_copy) in
  let error_msg := tnt_errcode_desc ER_SPACE_EXISTS space_name_copy in
  let no_err := if_not_exist p in
  let p :=
    vdbe_emit_halt_with_presence_test p BOX_SPACE_ID 2 name_reg 1
      ER_SPACE_EXISTS error_msg no_err OP_NoConflict in
  let '(p, reg_space_id) := getNewSpaceId p in
  (p, new_space, name_reg, reg_space_id).

(** Second block (build.c:1293-1298): the row of the table, then one
    row per attached index, in the order of the slots. *)
Definition sqlEndTable_rows `{BoxApi} (p : Parse) (new_space : space)
    (name_reg reg_space_id : nat) : Parse :=
  let p := vdbe_emit_space_create p reg_space_id name_reg new_space in
  fold_left
    (fun p idx => vdbe_emit_create_index p new_space idx reg_space_id (iid idx))
    (index new_space) p.

(** Third block (build.c:1300-1324): the rows of the sequence of an
    AUTOINCREMENT column. *)
Definition sqlEndTable_sequence `{BoxApi} (p : Parse) (new_space : space)
    (reg_space_id : nat) : Parse :=
  if has_autoinc p then
    let reg_seq_id := nMem p + 1 in
    let p := set_nMem p reg_seq_id in
    let p := sqlVdbeAddOp2 p OP_NextSequenceId 0 reg_seq_id in
    let '(p, reg_seq_record) :=
      emitNewSysSequenceRecord p reg_seq_id (space_name new_space) in
    let p := sqlVdbeAddOp3 p OP_SInsert BOX_SEQUENCE_ID 0 reg_seq_record in
    let p := save_record p BOX_SEQUENCE_ID (reg_seq_record + 1) 1 (nOp p - 1) in
    let '(p, reg_space_seq_record) :=
      emitNewSysSpaceSequenceRecord p reg_space_id reg_seq_id
        (default (mk_index_def "" 0 true []) (index new_space !! 0)) in
    let p :=
      sqlVdbeAddOp3 p OP_SInsert BOX_SPACE_SEQUENCE_ID 0 reg_space_seq_record in
    save_record p BOX_SPACE_SEQUENCE_ID (reg_space_seq_record + 1) 1 (nOp p - 1)
  else p.

(** Last block (build.c:1325-1365): the rows of the foreign keys and of
    the check constraints. *)
Definition sqlEndTable_constraints `{BoxApi} (p : Parse) (new_space : space)
    (reg_space_id : nat) : Parse :=
  match emit_new_fkeys p new_space reg_space_id (new_fkey p) with
  | (p, false) => p
  | (p, true) =>
      fold_left
        (fun p ck_def => vdbe_emit_ck_constraint_create p ck_def reg_space_id)
        (new_check p) p
  end.

(** sqlEndTable (build.c:1235). *)
Definition sqlEndTable `{BoxApi} (p : Parse) : Parse :=
  match new_space p with
  | None => p
  | Some new_space =>
      if bool_decide (sql_space_primary_key new_space = None) then
        raise p ER_CREATE_SPACE [space_name new_space; "PRIMARY KEY missing"]
      else
        let '(p, new_space, name_reg, reg_space_id) :=
          sqlEndTable_begin p new_space in
        let p := sqlEndTable_rows p new_space name_reg reg_space_id in
        let p := sqlEndTable_sequence p new_space reg_space_id in
        sqlEndTable_constraints p new_space reg_space_id
  end.

(** ** Statement finalization *)

(** The body of the loop of sql_finish_coding (build.c:131-143). *)
Definition emit_record_cleanup (p : Parse) (record : saved_record) : Parse :=
  let record_reg := nMem p + 1 in
  let p := set_nMem p record_reg in
  let p :=
    sqlVdbeAddOp3 p OP_MakeRecord (reg_key record) (reg_key_count record)
      record_reg in
  let p := sqlVdbeAddOp2 p OP_SDelete (rec_space_id record) record_reg in
  sqlVdbeChangeP2 p (insertion_opcode record) (nOp p).

(** The clean-up block of sql_finish_coding (build.c:121-146): the
    record linked in last is taken off the ledger and its insertion is
    sent to the start of the clean-up code, every other record gets its
    two instructions, and one halt with an error status closes the
    block. *)
Definition sql_finish_coding_cleanup (p : Parse) : Parse :=
  match record_list p with
  | [] => p
  | record :: rest =>
      (* rlist_shift_entry *)
      let p := set_record_list p rest in
      let p := sqlVdbeChangeP2 p (insertion_opcode record) (nOp p) in
      let p := fold_left emit_record_cleanup rest p in
      sqlVdbeAddOp1 p OP_Halt SQL_TARANTOOL_ERROR
  end.

(** The termination code of sql_finish_coding (build.c:150-180).  A DDL
    statement has no constant expressions factored out ([pConstExpr] is
    NULL). *)
Definition sql_finish_coding_termination (p : Parse) : Parse :=
  if is_aborted p then p
  else
    let last_instruction := nOp p in
    let p := if initiateTTrans p then sqlVdbeAddOp0 p OP_TTransaction else p in
    if initiateTTrans p then
      let p := sqlVdbeChangeP2 p 0 last_instruction in
      sqlVdbeAddOp3 p OP_Goto 0 1 0
    else p.

(** sql_finish_coding (build.c:106). *)
Definition sql_finish_coding (p : Parse) : Parse :=
  let p := sqlGetVdbe p in
  let p := sqlVdbeAddOp0 p OP_Halt in
  let p := sql_finish_coding_cleanup p in
  sql_finish_coding_termination p.

(** ** What the program does when an insertion fails *)

(** Modelled from the spec: the virtual machine is external.  An
    OP_SInsert whose insertion fails continues at its P2; OP_MakeRecord
    and OP_SDelete fall through to the next instruction; OP_Halt stops
    the program.  [vdbe_exec prog pc fuel] is the sequence of
    instructions executed from [pc] up to and including the halt. *)
Fixpoint vdbe_exec (prog : list VdbeOp) (pc fuel : nat)
    : option (list VdbeOp) :=
  match fuel with
  | 0 => None
  | S fuel =>
      match prog !! pc with
      | None => None
      | Some o =>
          match op o with
          | OP_Halt => Some [o]
          | OP_MakeRecord | OP_SDelete =>
              cons o <$> vdbe_exec prog (S pc) fuel
          | _ => None
          end
      end
  end.

(** Modelled from the spec: the instructions executed after the
    insertion of the OP_SInsert at [addr] fails. *)
Definition vdbe_on_insert_failure (prog : list VdbeOp) (addr : nat)
    : option (list VdbeOp) :=
  match prog !! addr with
  | Some o =>
      if bool_decide (op o = OP_SInsert) then
        vdbe_exec prog (p2 o) (length prog)
      else None
  | None => None
  end.

(** The catalog spaces the executed OP_SDelete instructions delete
    from, in execution order. *)
Definition deletes_of (trace : list VdbeOp) : list nat :=
  p1 <$> filter (fun o => op o = OP_SDelete) trace.

(** The two instructions of the clean-up code for one record
    (build.c:133-136): the key of the row is packed into [record_reg]
    and the row is deleted from its catalog space. *)
Definition cleanup_of (r : saved_record) (record_reg : nat) : list VdbeOp :=
  [mk_op OP_MakeRecord (reg_key r) (reg_key_count r) record_reg P4_NOTUSED 0;
   mk_op OP_SDelete (rec_space_id r) record_reg 0 P4_NOTUSED 0].

(** The clean-up code for the records [l], in the order of the ledger,
    when [mem] registers are in use. *)
Fixpoint cleanup_code (l : list saved_record) (mem : nat) : list VdbeOp :=
  match l with
  | [] => []
  | r :: l => cleanup_of r (mem + 1) ++ cleanup_code l (mem + 1)
  end.

(** The jump targets the clean-up loop writes into the insertions of
    the records [l] when the program has [addr] instructions: each
    insertion continues after the two instructions of its own record. *)
Fixpoint patch_all (prog : list VdbeOp) (l : list saved_record) (addr : nat)
    : list VdbeOp :=
  match l with
  | [] => prog
  | r :: l =>
      patch_all (alter (fun o => set_p2 o (addr + 2)) (insertion_opcode r) prog)
        l (addr + 2)
  end.

(** The instruction that closes the clean-up code (build.c:144). *)
Definition halt_with_error : VdbeOp :=
  mk_op OP_Halt SQL_TARANTOOL_ERROR 0 0 P4_NOTUSED 0.

(** ** Check constraints *)

(** sql_create_check_contraint (build.c:673): [name_token] is absent
    when the constraint has no name, [expr_span] is the source text
    between [zStart] and [zEnd].  The region chunk keeps
    [expr_str_len + 1] bytes for the expression
    (ck_constraint_def_sizeof).  [None] is a failed assertion or a
    store outside the chunk. *)
Definition sql_create_check_contraint `{BoxApi} (p : Parse)
    (name_token : option string) (expr_span : string) : option Parse :=
  match new_space p with
  | None => None
  | Some space =>
      let '(p, name) :=
        match name_token with
        | Some n => (p, n)
        | None =>
            let ck_idx := check_count p + 1 in
            (set_checks p ck_idx (new_check p),
             "CK_CONSTRAINT_" +:+ decimal ck_idx +:+ "_" +:+ space_name space)
        end in
      let expr_str_len := String.length expr_span in
      let chunk := region_alloc (expr_str_len + 1) in
      match trim_space_snprintf chunk expr_span with
      | None => None
      | Some buf =>
          let ck_def := mk_ck_constraint_def name (cstring buf) None in
          Some (set_checks p (check_count p) (ck_def :: new_check p))
      end
  end.

(** ** DROP TABLE *)

(** vdbe_emit_fk_constraint_drop (build.c:1552). *)
Definition vdbe_emit_fk_constraint_drop `{BoxApi} (p : Parse)
    (constraint_name : string) (child_id : nat) : Parse :=
  let p := sqlGetVdbe p in
  let '(p, key_reg) := sqlGetTempRange p 3 in
  let p :=
    sqlVdbeAddOp4 p OP_String8 0 key_reg 0 (P4_DYNAMIC constraint_name) in
  let p := sqlVdbeAddOp2 p OP_Integer child_id (key_reg + 1) in
  let error_msg := tnt_errcode_desc ER_NO_SUCH_CONSTRAINT constraint_name in
  let p :=
    vdbe_emit_halt_with_presence_test p BOX_FK_CONSTRAINT_ID 0 key_reg 2
      ER_NO_SUCH_CONSTRAINT error_msg false OP_Found in
  let p := sqlVdbeAddOp3 p OP_MakeRecord key_reg 2 (key_reg + 2) in
  let p := sqlVdbeAddOp2 p OP_SDelete BOX_FK_CONSTRAINT_ID (key_reg + 2) in
  sqlReleaseTempRange p key_reg 3.

(** vdbe_emit_ck_constraint_drop (build.c:1586). *)
Definition vdbe_emit_ck_constraint_drop `{BoxApi} (p : Parse)
    (ck_name : string) (space_id : nat) : Parse :=
  let p := sqlGetVdbe p in
  let '(p, key_reg) := sqlGetTempRange p 3 in
  let p := sqlVdbeAddOp2 p OP_Integer space_id key_reg in
  let p := sqlVdbeAddOp4 p OP_String8 0 (key_reg + 1) 0 (P4_DYNAMIC ck_name) in
  let error_msg := tnt_errcode_desc ER_NO_SUCH_CONSTRAINT ck_name in
  let p :=
    vdbe_emit_halt_with_presence_test p BOX_CK_CONSTRAINT_ID 0 key_reg 2
      ER_NO_SUCH_CONSTRAINT error_msg false OP_Found in
  let p := sqlVdbeAddOp3 p OP_MakeRecord key_reg 2 (key_reg + 2) in
  let p := sqlVdbeAddOp2 p OP_SDelete BOX_CK_CONSTRAINT_ID (key_reg + 2) in
  sqlReleaseTempRange p key_reg 3.

(** sql_code_drop_table (build.c:1619). *)
Definition sql_code_drop_table `{BoxApi} (p : Parse) (sp : space)
    (is_view : bool) : Parse :=
  let p := sqlGetVdbe p in
  let p :=
    fold_left (fun p zName => vdbe_code_drop_trigger p zName false)
      (sql_triggers sp) p in
  let idx_rec_reg := nMem p + 1 in
  let space_id_reg := nMem p + 2 in
  let index_id_reg := nMem p + 3 in
  let p := set_nMem p (nMem p + 3) in
  let space_id := space_id sp in
  let p := sqlVdbeAddOp2 p OP_Integer space_id space_id_reg in
  let p := sqlVdbeAddOp1 p OP_CheckViewReferences space_id_reg in
  let p :=
    match sequence sp with
    | Some seq_id =>
        let sequence_id_reg := nMem p + 1 in
        let p := set_nMem p sequence_id_reg in
        let p := sqlVdbeAddOp2 p OP_Integer seq_id sequence_id_reg in
        let p := sqlVdbeAddOp3 p OP_MakeRecord sequence_id_reg 1 idx_rec_reg in
        let p := sqlVdbeAddOp2 p OP_SDelete BOX_SEQUENCE_DATA_ID idx_rec_reg in
        let p := sqlVdbeAddOp3 p OP_MakeRecord space_id_reg 1 idx_rec_reg in
        let p := sqlVdbeAddOp2 p OP_SDelete BOX_SPACE_SEQUENCE_ID idx_rec_reg in
        let p := sqlVdbeAddOp3 p OP_MakeRecord sequence_id_reg 1 idx_rec_reg in
        sqlVdbeAddOp2 p OP_SDelete BOX_SEQUENCE_ID idx_rec_reg
    | None => p
    end in
  let p :=
    fold_left
      (fun p child_fk => vdbe_emit_fk_constraint_drop p (fk_name child_fk) space_id)
      (child_fk_constraint sp) p in
  let p :=
    fold_left
      (fun p ck => vdbe_emit_ck_constraint_drop p (ck_name ck) space_id)
      (ck_constraint sp) p in
  let p :=
    if negb is_view then
      let p :=
        fold_left
          (fun p idx =>
             let p := sqlVdbeAddOp2 p OP_Integer (iid idx) index_id_reg in
             let p := sqlVdbeAddOp3 p OP_MakeRecord space_id_reg 2 idx_rec_reg in
             sqlVdbeAddOp2 p OP_SDelete BOX_INDEX_ID idx_rec_reg)
          (drop 1 (index sp)) p in
      let p := sqlVdbeAddOp2 p OP_Integer 0 index_id_reg in
      let p := sqlVdbeAddOp3 p OP_MakeRecord space_id_reg 2 idx_rec_reg in
      sqlVdbeAddOp2 p OP_SDelete BOX_INDEX_ID idx_rec_reg
    else p in
  let p := sqlVdbeAddOp3 p OP_MakeRecord space_id_reg 1 idx_rec_reg in
  let p := sqlVdbeAddOp2 p OP_SDelete BOX_TRUNCATE_ID idx_rec_reg in
  let p := sqlVdbeAddOp3 p OP_MakeRecord space_id_reg 1 idx_rec_reg in
  let p := sqlVdbeAddOp2 p OP_SDelete BOX_SPACE_ID idx_rec_reg in
  sqlVdbeChangeP5 p OPFLAG_NCHANGE.

(** Modelled from the spec: space_by_name (schema.h) resolves a table
    by name in the space cache. *)
Definition space_by_name (p : Parse) (name : string) : option space :=
  snd <$> list_find (fun sp => space_name sp = name) (space_cache p).

(** [struct drop_entity_def] of DROP TABLE / DROP VIEW. *)
Record drop_table_def := mk_drop_table_def {
  entity_name : string;
  if_exist : bool;
  (** entity_type == ENTITY_TYPE_VIEW *)
  drop_view : bool
}.

(** sql_drop_table (build.c:1738). *)
Definition sql_drop_table `{BoxApi} (p : Parse) (drop_def : drop_table_def)
    : Parse :=
  let p := sqlGetVdbe p in
  let view := drop_view drop_def in
  let space_name := entity_name drop_def in
  match space_by_name p space_name with
  | None =>
      if negb (if_exist drop_def) then raise p ER_NO_SUCH_SPACE [space_name]
      else p
  | Some sp =>
      if view && negb (is_view sp) then
        raise p ER_DROP_SPACE [space_name; "use DROP TABLE"]
      else if negb view && is_view sp then
        raise p ER_DROP_SPACE [space_name; "use DROP VIEW"]
      else if existsb (fun fk => negb (fk_constraint_is_self_referenced fk))
                (parent_fk_constraint sp) then
        raise p ER_DROP_SPACE [space_name; "other objects depend on it"]
      else sql_code_drop_table p sp view
  end.

(** ** A reference implementation of the interface

    Used to run the routines on concrete statements: names are
    acceptable when they are non-empty and free of control characters,
    an index definition when it has at least one part, and the encoders
    return an empty payload. *)
Definition printable_name (s : string) : bool :=
  negb (String.eqb s "")
  && forallb (fun c => 32 <=? nat_of_ascii c) (list_ascii_of_string s).

Definition reference_api : BoxApi :=
  {| identifier_check := printable_name;
     index_def_is_valid := fun i _ => negb (length (parts i) =? 0);
     sql_encode_table_opts := fun _ => "";
     sql_encode_table := fun _ => "";
     sql_encode_index_opts := fun _ => "";
     sql_encode_index_parts := fun _ _ => "";
     fk_constraint_encode_links := fun _ _ => "";
     region_alloc := fun n => replicate n NUL;
     region_alloc_length := fun n => length_replicate n NUL;
     vdbe_code_drop_trigger := fun p _ _ => p;
     tnt_errcode := fun _ => 0;
     tnt_errcode_desc := fun _ s => s |}.

(** A parse context at the start of a statement. *)
Definition fresh_parse : Parse :=
  mk_Parse 2000 1 "memtx" [] [] false None None false false 0 [] [] None
    0 0 0 0 [] false false.

(** The parser's calls for the column constraints of the examples. *)
Definition unique_constraint (name : option string) (columns : list string)
    : create_index_def :=
  mk_create_index_def name (Some (map TK_ID columns))
    SQL_INDEX_TYPE_CONSTRAINT_UNIQUE.

Definition primary_key_constraint (name : option string)
    (columns : list string) : create_index_def :=
  mk_create_index_def name (Some (map TK_ID columns))
    SQL_INDEX_TYPE_CONSTRAINT_PK.

(** ** The parser's calls for one CREATE TABLE

    Between "CREATE TABLE name (" and the closing parenthesis the
    parser calls one builder routine per column, per NULL / NOT NULL
    clause and per constraint.  A failed assertion ends the run. *)
Inductive builder_call :=
  | AddColumn (name : string) (type : field_type)
  | AddNullableAction (action : on_conflict_action)
  | AddUnique (name : option string) (columns : option (list Expr))
  | AddPrimaryKey (name : option string) (columns : option (list Expr))
  | AddCheck (name : option string) (expr_span : string).

Definition is_primary_key_call (c : builder_call) : bool :=
  match c with
  | AddPrimaryKey _ _ => true
  | _ => false
  end.

Definition run_builder_call `{BoxApi} (p : Parse) (c : builder_call)
    : option Parse :=
  match c with
  | AddColumn name type => Some (sqlAddColumn p name type)
  | AddNullableAction action => Some (sql_column_add_nullable_action p action)
  | AddUnique name columns =>
      Some (sql_create_index p
              (mk_create_index_def name columns
                 SQL_INDEX_TYPE_CONSTRAINT_UNIQUE))
  | AddPrimaryKey name columns =>
      sqlAddPrimaryKey p
        (mk_create_index_def name columns SQL_INDEX_TYPE_CONSTRAINT_PK)
  | AddCheck name expr_span => sql_create_check_contraint p name expr_span
  end.

Fixpoint run_builder_calls `{BoxApi} (p : Parse) (cs : list builder_call)
    : option Parse :=
  match cs with
  | [] => Some p
  | c :: rest =>
      match run_builder_call p c with
      | Some p => run_builder_calls p rest
      | None => None
      end
  end.

(** The parse context with its error state replaced: what a routine
    that only reports an error leaves behind. *)
Definition with_errors (p : Parse) (aborted : bool) (d : option diag_error)
    : Parse :=
  mk_Parse (limit_column p) (effective_uid p) (default_engine p)
    (space_cache p) (coll_cache p) aborted d (new_space p) (has_autoinc p)
    (if_not_exist p) (check_count p) (new_check p) (new_fkey p) (pVdbe p)
    (nMem p) (nTab p) (iRangeReg p) (nRangeReg p) (record_list p)
    (isMultiWrite p) (initiateTTrans p).

(** [errors_only p p']: [p'] is [p] up to the error state. *)
Definition errors_only (p p' : Parse) : Prop :=
  exists b d, p' = with_errors p b d.

(** No catalog insertion has been emitted or recorded so far. *)
Definition no_catalog_insert (p : Parse) : Prop :=
  record_list p = [] /\ Forall (fun o => op o <> OP_SInsert) (aOp p).

(** No index attached to the table under construction has the id of a
    primary key. *)
Definition no_primary_key_attached (p : Parse) : Prop :=
  forall def, new_space p = Some def -> Forall (fun i => iid i <> 0) (index def).

(** A record of the ledger linked in while the program grew from
    [base] instructions to [prog]: it points at an OP_SInsert into its
    catalog space, emitted at [base] or later. *)
Definition new_record_ok (prog : list VdbeOp) (base : nat) (r : saved_record)
    : Prop :=
  base <= insertion_opcode r
  /\ exists o,
       prog !! insertion_opcode r = Some o
       /\ op o = OP_SInsert /\ p1 o = rec_space_id r.

(** [emits_recs p q recs]: from [p] to [q] instructions were appended
    to the program and the records [recs] were linked in at the head of
    the ledger, each for an insertion emitted on the way. *)
Definition emits_recs (p q : Parse) (recs : list saved_record) : Prop :=
  (exists ops, aOp q = aOp p ++ ops)
  /\ record_list q = recs ++ record_list p
  /\ Forall (new_record_ok (aOp q) (nOp p)) recs
  /\ NoDup (insertion_opcode <$> recs).

Definition emits (p q : Parse) : Prop := exists recs, emits_recs p q recs.

(** The ledger of [p] is well formed: its records point at distinct
    instructions of the program, each an OP_SInsert into the catalog
    space of the record, none at address 0. *)
Definition ledger_wf (p : Parse) : Prop :=
  NoDup (insertion_opcode <$> record_list p)
  /\ Forall (new_record_ok (aOp p) 1) (record_list p).

(** The ledger in the order of emission: the record of the insertion
    emitted first comes first. *)
Definition ledger_of (p : Parse) : list saved_record :=
  reverse (record_list p).

(** ** The deduplication rule as the specification words it *)

(** The rule in the words of the specification: go through the key
    parts once and keep a part when its field position has not been
    seen before. *)
Fixpoint first_occurrences (seen : list nat) (l : list key_part)
    : list key_part :=
  match l with
  | [] => []
  | part :: rest =>
      if bool_decide (fieldno part ∈ seen) then first_occurrences seen rest
      else part :: first_occurrences (fieldno part :: seen) rest
  end.

(** Two tables of a schema: P is referenced by a foreign key of C, S
    only by a foreign key of its own. *)
Definition schema_with_foreign_keys : Parse :=
  let fk_c := mk_fk_constraint_def "FK_C" 513 512 [(0, 0)] false
                FKEY_MATCH_SIMPLE FKEY_NO_ACTION FKEY_NO_ACTION in
  let fk_s := mk_fk_constraint_def "FK_S" 514 514 [(0, 1)] false
                FKEY_MATCH_SIMPLE FKEY_NO_ACTION FKEY_NO_ACTION in
  let column n := mk_field_def n FIELD_TYPE_INTEGER ON_CONFLICT_ACTION_ABORT
                    false COLL_NONE None in
  let pk := mk_index_def "pk" 0 true
              [mk_key_part 0 FIELD_TYPE_INTEGER ON_CONFLICT_ACTION_ABORT false
                 COLL_NONE 0] in
  mk_Parse 2000 1 "memtx"
    [mk_space 512 "P" "memtx" false false [column "A"] 1 [pk] 0 [fk_c] []
       [] [] None;
     mk_space 513 "C" "memtx" false false [column "A"] 1 [pk] 0 [] [fk_c]
       [] [] None;
     mk_space 514 "S" "memtx" false false [column "A"; column "B"] 2 [pk] 0
       [fk_s] [fk_s] [] [] None]
    [] false None None false false 0 [] [] None 0 0 0 0 [] false false.

(** An attached index the primary key [idx] takes over: same columns
    and collations, not a primary key yet, and a generated name. *)
Definition repurposable (idx e : index_def) : bool :=
  same_key_parts (parts idx) (parts e)
  && negb (iid e =? 0)
  && negb (constraint_is_named (index_name e)).

(** The statements of the examples, as the calls the parser makes. *)
Definition run_create_table (calls : list builder_call) : option Parse :=
  @run_builder_calls reference_api
    (@create_table reference_api fresh_parse "T") calls.

(** The attached indexes of the table under construction: name and id. *)
Definition attached_indexes (p : option Parse) : option (list (string * nat)) :=
  p ← p; def ← new_space p;
  Some ((fun i => (index_name i, iid i)) <$> index def).

(** ** ALTER TABLE DROP CONSTRAINT *)

(** sql_drop_foreign_key (build.c:2072): [table_name] is the name in
    the statement's source list, [constraint_name] the name token. *)
Definition sql_drop_foreign_key `{BoxApi} (p : Parse)
    (table_name constraint_name : string) : Parse :=
  match space_by_name p table_name with
  | None => raise p ER_NO_SUCH_SPACE [table_name]
  | Some child =>
      let p := vdbe_emit_fk_constraint_drop p constraint_name (space_id child) in
      let p := sqlGetVdbe p in
      sqlVdbeChangeP5 p OPFLAG_NCHANGE
  end.

(** [appends_deleting p q spaces]: from [p] to [q] instructions were
    appended to the program, and the OP_SDelete instructions among them
    delete from [spaces], in this order. *)
Definition appends_deleting (p q : Parse) (spaces : list nat) : Prop :=
  exists ops, aOp q = aOp p ++ ops /\ deletes_of ops = spaces.

(** [code_only p q]: [q] is [p] up to the program, the registers and
    cursors in use and the ledger: what a routine that only generates
    code may change. *)
Definition code_only (p q : Parse) : Prop :=
  exists v m t i n l,
    q = mk_Parse (limit_column p) (effective_uid p) (default_engine p)
          (space_cache p) (coll_cache p) (is_aborted p) (diag p) (new_space p)
          (has_autoinc p) (if_not_exist p) (check_count p) (new_check p)
          (new_fkey p) v m t i n l (isMultiWrite p) (initiateTTrans p).

(** [inserts p q spaces]: from [p] to [q] only code was generated, and
    the insertions recorded in the ledger on the way go to the catalog
    spaces [spaces], in this order. *)
Definition inserts (p q : Parse) (spaces : list nat) : Prop :=
  code_only p q
  /\ exists recs,
       record_list q = recs ++ record_list p
       /\ rec_space_id <$> reverse recs = spaces.

(** ** Invariants of the table under construction *)

(** [draft_only p q]: [q] is [p] up to the error state, the table
    under construction and the pending check constraints: what the
    builder routines of CREATE TABLE may change before sqlEndTable. *)
Definition draft_only (p q : Parse) : Prop :=
  exists b d s n c,
    q = mk_Parse (limit_column p) (effective_uid p) (default_engine p)
          (space_cache p) (coll_cache p) b d s (has_autoinc p) (if_not_exist p)
          n c (new_fkey p) (pVdbe p) (nMem p) (nTab p) (iRangeReg p)
          (nRangeReg p) (record_list p) (isMultiWrite p) (initiateTTrans p).

(** The columns of a draft: the array has room for them, their names
    are pairwise distinct and their number is within the limit. *)
Definition columns_wf (limit : nat) (def : space) : Prop :=
  field_count def <= exact_field_count def
  /\ NoDup (field_name <$> fields def)
  /\ field_count def <= limit.

(** The key parts of an index of a draft with [count] columns: no
    column occurs twice and every part is a column of the draft. *)
Definition parts_wf (count : nat) (i : index_def) : Prop :=
  NoDup (fieldno <$> parts i)
  /\ Forall (fun k => fieldno k < count) (parts i).

(** The indexes attached to a draft: their ids are pairwise distinct
    and bounded by [index_id_max], the id 0 of a primary key occurs in
    the first slot only, and the key parts of every index are well
    formed. *)
Definition indexes_wf (def : space) : Prop :=
  NoDup (iid <$> index def)
  /\ Forall (fun i => iid i <= index_id_max def) (index def)
  /\ Forall (fun i => iid i <> 0) (drop 1 (index def))
  /\ Forall (parts_wf (field_count def)) (index def).

(** ** Identifier lists and FROM lists *)

(** The values of a C [int].  An [int] computation whose result is
    not among them is undefined; the routines below give [None]
    then. *)
Definition int_ok (z : Z) : bool := ((- 2 ^ 31 <=? z) && (z <? 2 ^ 31))%Z.

(** The conversions between [int] and [u32]. *)
Definition int_of_u32 (z : Z) : Z := (if z <? 2 ^ 31 then z else z - 2 ^ 32)%Z.

Definition u32_of_int (z : Z) : Z := (z mod 2 ^ 32)%Z.

(** Modelled from the spec: sql_name_from_token (util.c) copies the
    name a token stands for to the heap; the result is the null
    pointer when the allocation fails.  A token is modelled by the
    name it stands for. *)
Definition sql_name_from_token (oom : bool) (name_token : string)
    : option string :=
  if oom then None else Some name_token.

(** Heap arrays are modelled slot by slot, one slot for one element;
    a slot that has not been written holds [None]. *)

(** Modelled from the spec: sqlDbRealloc (malloc.c) resizes an
    allocation to [sz] slots and keeps the contents that fit; a null
    pointer is an allocation of no slot. *)
Definition sqlDbRealloc {A} (cells : list (option A)) (sz : nat)
    : list (option A) :=
  take sz cells ++ replicate (sz - length cells) None.

(** [memset(&a[start], 0, n * sizeof(a[0]))]: [zero] is the element
    whose bytes are all zero; [None] is a store outside the
    allocation. *)
Definition memset_zero {A} (zero : A) (cells : list (option A))
    (start n : nat) : option (list (option A)) :=
  if start + n <=? length cells then
    Some (take start cells ++ replicate n (Some zero)
            ++ drop (start + n) cells)
  else None.

(** [memmove(&a[dst], &a[src], n * sizeof(a[0]))]; [None] is an access
    outside the allocation. *)
Definition memmove {A} (cells : list (option A)) (dst src n : nat)
    : option (list (option A)) :=
  if (src + n <=? length cells) && (dst + n <=? length cells) then
    Some (take dst cells ++ take n (drop src cells)
            ++ drop (dst + n) cells)
  else None.

(** sqlArrayAllocate (build.c:2766): the array, [*pnEntry] and
    [*pIdx] on return.  [oom] says that sqlDbRealloc fails. *)
Definition sqlArrayAllocate {A} (zero : A) (oom : bool)
    (pArray : list (option A)) (szEntry : Z) (pnEntry : Z)
    : option (list (option A) * Z * Z) :=
  let n := pnEntry in
  if negb (int_ok (n - 1)) then None
  else
    let grow := (Z.land n (n - 1) =? 0)%Z in
    let sz := if (n =? 0)%Z then 1%Z else (2 * n)%Z in
    if grow && negb (int_ok sz && int_ok (sz * szEntry)) then None
    else if grow && oom then Some (pArray, n, (-1)%Z)
    else
      let pArray := if grow then sqlDbRealloc pArray (Z.to_nat sz)
                    else pArray in
      if negb (int_ok (n * szEntry) && int_ok (n + 1)) then None
      else
        match (if (n <? 0)%Z then None
               else memset_zero zero pArray (Z.to_nat n) 1) with
        | Some pArray => Some (pArray, (n + 1)%Z, n)
        | None => None
        end.

(** [struct IdList_item], as far as build.c reads it, and
    [struct IdList]. *)
Record IdList_item := mk_IdList_item {
  id_zName : option string
}.

Record IdList := mk_IdList {
  id_a : list (option IdList_item);
  nId : Z
}.

(** A store to a member of [a[i]]; [None] is a store outside the
    allocation. *)
Definition store_member {A} (a : list (option A)) (i : Z) (f : A -> A)
    : option (list (option A)) :=
  if ((0 <=? i) && (i <? Z.of_nat (length a)))%Z then
    Some (alter (fmap f) (Z.to_nat i) a)
  else None.

(** sql_id_list_append (build.c:2792): [sz_item] is
    [sizeof(list->a[0])].  The inner [None] is the null pointer. *)
Definition sql_id_list_append (oom : bool) (sz_item : Z)
    (list : option IdList) (name_token : string)
    : option (option IdList) :=
  match list, oom with
  | None, true => Some None
  | _, _ =>
      let list := default (mk_IdList [] 0%Z) list in
      match sqlArrayAllocate (mk_IdList_item None) oom (id_a list) sz_item
              (nId list) with
      | None => None
      | Some (a, n, i) =>
          if (0 <=? i)%Z then
            let zName := sql_name_from_token oom name_token in
            a ← store_member a i (fun _ => mk_IdList_item zName);
            if zName is Some _ then Some (Some (mk_IdList a n))
            else Some None
          else Some None
      end
  end.

(** The loop of sqlIdListIndex over [a[i .. nId)]; [None] is a read of
    a slot that holds no name. *)
Fixpoint sqlIdListIndex_from (a : list (option IdList_item))
    (zName : string) (i count : nat) : option Z :=
  match count with
  | 0 => Some (-1)%Z
  | S count =>
      match a !! i with
      | Some (Some (mk_IdList_item (Some z))) =>
          if String.eqb z zName then Some (Z.of_nat i)
          else sqlIdListIndex_from a zName (S i) count
      | _ => None
      end
  end.

(** sqlIdListIndex (build.c:2833). *)
Definition sqlIdListIndex (pList : option IdList) (zName : string)
    : option Z :=
  match pList with
  | None => Some (-1)%Z
  | Some pList =>
      sqlIdListIndex_from (id_a pList) zName 0 (Z.to_nat (nId pList))
  end.

(** The identifier list the parser builds of a sequence of names. *)
Definition sql_id_list_of (sz_item : Z) (names : list string)
    : option (option IdList) :=
  foldl (fun list name =>
           list ← list; sql_id_list_append false sz_item list name)
    (Some None) names.

(** The position of the first [z] among [names], -1 when there is
    none. *)
Definition first_index (names : list string) (z : string) : Z :=
  match list_find (fun n => n = z) names with
  | Some (i, _) => Z.of_nat i
  | None => (-1)%Z
  end.

(** [struct SrcList_item], as far as the routines below touch it, and
    [struct SrcList]: [src_a] are the [nAlloc] slots of the
    allocation. *)
Record SrcList_item := mk_SrcList_item {
  src_zName : option string;
  src_zAlias : option string;
  jointype : Z;
  iCursor : Z
}.

Record SrcList := mk_SrcList {
  nSrc : Z;
  nAlloc : Z;
  src_a : list (option SrcList_item)
}.

Definition set_iCursor (it : SrcList_item) (c : Z) : SrcList_item :=
  mk_SrcList_item (src_zName it) (src_zAlias it) (jointype it) c.

Definition set_jointype (it : SrcList_item) (j : Z) : SrcList_item :=
  mk_SrcList_item (src_zName it) (src_zAlias it) j (iCursor it).

Definition set_src_zName (it : SrcList_item) (z : option string)
    : SrcList_item :=
  mk_SrcList_item z (src_zAlias it) (jointype it) (iCursor it).

(** The item whose bytes are all zero. *)
Definition SrcList_item_zero : SrcList_item :=
  mk_SrcList_item None None 0%Z 0%Z.

(** The loop [for (i = start; i < start + n; i++) a[i].iCursor = -1]
    of sql_src_list_enlarge. *)
Fixpoint reset_cursors (a : list (option SrcList_item)) (i n : nat)
    : option (list (option SrcList_item)) :=
  match n with
  | 0 => Some a
  | S n =>
      a ← store_member a (Z.of_nat i) (fun it => set_iCursor it (-1)%Z);
      reset_cursors a (S i) n
  end.

(** sql_src_list_enlarge (build.c:2846).  [sz_head] and [sz_item] are
    [sizeof(struct SrcList)] and [sizeof(src_list->a[0])]; the outer [None]
    is a failed assertion, an undefined computation or a size that is
    no [int], the inner [None] the null pointer. *)
Definition sql_src_list_enlarge (oom : bool) (sz_head sz_item : Z)
    (src_list : SrcList) (new_slots start_idx : Z)
    : option (option SrcList) :=
  if negb ((0 <=? start_idx) && (1 <=? new_slots)
           && (start_idx <=? nSrc src_list))%Z then None
  else if negb (int_ok (nSrc src_list + new_slots)) then None
  else
    let grown :=
      if (int_of_u32 (nAlloc src_list) <? nSrc src_list + new_slots)%Z then
        let to_alloc := (nSrc src_list * 2 + new_slots)%Z in
        let size := (sz_head + (to_alloc - 1) * sz_item)%Z in
        if negb (int_ok (nSrc src_list * 2) && int_ok to_alloc
                 && int_ok size) then None
        else if oom then Some None
        else Some (Some (mk_SrcList (nSrc src_list) (u32_of_int to_alloc)
                           (sqlDbRealloc (src_a src_list)
                              (Z.to_nat to_alloc))))
      else Some (Some src_list) in
    match grown with
    | None => None
    | Some None => Some None
    | Some (Some src_list) =>
        let start := Z.to_nat start_idx in
        let new := Z.to_nat new_slots in
        a ← memmove (src_a src_list) (start + new) start
              (Z.to_nat (nSrc src_list - start_idx));
        a ← memset_zero SrcList_item_zero a start new;
        a ← reset_cursors a start new;
        Some (Some (mk_SrcList (nSrc src_list + new_slots)
                      (nAlloc src_list) a))
    end.

(** sql_src_list_new (build.c:2885): the allocation has one slot. *)
Definition sql_src_list_new (oom : bool) : option (option SrcList) :=
  if oom then Some None
  else
    a ← memset_zero SrcList_item_zero [None] 0 1;
    a ← store_member a 0%Z (fun it => set_iCursor it (-1)%Z);
    Some (Some (mk_SrcList 1 1 a)).

(** sql_src_list_append (build.c:2901): [name_token] is absent when
    the token is the null pointer. *)
Definition sql_src_list_append (oom : bool) (sz_head sz_item : Z)
    (list : option SrcList) (name_token : option string)
    : option (option SrcList) :=
  list ← match list with
         | None => sql_src_list_new oom
         | Some list =>
             sql_src_list_enlarge oom sz_head sz_item list 1 (nSrc list)
         end;
  match list with
  | None => Some None
  | Some list =>
      if negb (int_ok (nSrc list - 1)) then None
      else
        match name_token with
        | Some name_token =>
            let zName := sql_name_from_token oom name_token in
            a ← store_member (src_a list) (nSrc list - 1)
                  (fun it => set_src_zName it zName);
            if zName is Some _ then
              Some (Some (mk_SrcList (nSrc list) (nAlloc list) a))
            else Some None
        | None => Some (Some list)
        end
  end.

(** The loop of sqlSrcListShiftJoinType over [i], from [i] down to
    1; [None] is an access to a slot that holds no item. *)
Fixpoint shift_jointypes (a : list (option SrcList_item)) (i : nat)
    : option (list (option SrcList_item)) :=
  match i with
  | 0 => Some a
  | S j =>
      match a !! j with
      | Some (Some prev) =>
          a ← store_member a (Z.of_nat i)
                (fun it => set_jointype it (jointype prev));
          shift_jointypes a j
      | _ => None
      end
  end.

(** sqlSrcListShiftJoinType (build.c:3109). *)
Definition sqlSrcListShiftJoinType (p : option SrcList)
    : option (option SrcList) :=
  match p with
  | None => Some None
  | Some p =>
      if negb (int_ok (nSrc p - 1)) then None
      else
        a ← shift_jointypes (src_a p) (Z.to_nat (nSrc p - 1));
        a ← store_member a 0%Z (fun it => set_jointype it 0%Z);
        Some (Some (mk_SrcList (nSrc p) (nAlloc p) a))
  end.

(** The items of a FROM list: the slots in use. *)
Definition src_items (l : SrcList) : list (option SrcList_item) :=
  take (Z.to_nat (nSrc l)) (src_a l).

(** A FROM list whose allocation holds its items: [nAlloc] is the
    number of slots of the allocation and the first [nSrc] of them
    are the items. *)
Definition src_list_wf (l : SrcList) (items : list SrcList_item) : Prop :=
  nSrc l = Z.of_nat (length items)
  /\ (nSrc l <= nAlloc l < 2 ^ 31)%Z
  /\ nAlloc l = Z.of_nat (length (src_a l))
  /\ src_items l = Some <$> items.

Definition src_list_holds (pList : option SrcList)
    (items : list SrcList_item) : Prop :=
  match pList with
  | None => items = []
  | Some l => src_list_wf l items
  end.

(** The items with the join type of each moved to its successor:
    [prev] is the join type for the first item. *)
Fixpoint shift_from (prev : Z) (items : list SrcList_item)
    : list SrcList_item :=
  match items with
  | [] => []
  | it :: items => set_jointype it prev :: shift_from (jointype it) items
  end.

(** The item of a fresh slot. *)
Definition SrcList_item_fresh : SrcList_item :=
  set_iCursor SrcList_item_zero (-1)%Z.

(** The FROM list the parser builds of a sequence of table names. *)
Definition sql_src_list_of (sz_head sz_item : Z)
    (names : list (option string)) : option (option SrcList) :=
  foldl (fun list name =>
           list ← list; sql_src_list_append false sz_head sz_item list name)
    (Some None) names.

(** An identifier list that holds [names], in this order. *)
Definition id_list_holds (pList : option IdList) (names : list string)
    : Prop :=
  match pList with
  | None => names = []
  | Some l =>
      nId l = Z.of_nat (length names)
      /\ take (length names) (id_a l)
         = (fun z => Some (mk_IdList_item (Some z))) <$> names
  end.

(** ** Generated names *)

(** The name sql_create_check_contraint gives to the [i]-th CHECK
    constraint without a name. *)
Definition unnamed_check_name (space_name : string) (i : nat) : string :=
  "CK_CONSTRAINT_" +:+ decimal i +:+ "_" +:+ space_name.

(** [checks_kept p q]: the pending CHECK constraints of [q] are those
    of [p]. *)
Definition checks_kept (p q : Parse) : Prop :=
  check_count q = check_count p /\ new_check q = new_check p.

Definition is_named_check (c : builder_call) : bool :=
  match c with
  | AddCheck (Some _) _ => true
  | _ => false
  end.

(** [numbered name n]: [name] ends with "_<n>", as the names
    sql_create_index generates. *)
Definition numbered (name : string) (n : nat) : Prop :=
  exists base, name = base +:+ "_" +:+ decimal n.

(** Index names that are pairwise distinct and end with numbers no
    larger than the number of the names. *)
Definition index_names_wf (names : list string) : Prop :=
  NoDup names
  /\ Forall (fun name => exists n, numbered name n /\ n <= length names) names.

(** A column whose nullability is decided, or still open: the marker
    ON_CONFLICT_ACTION_DEFAULT stands for "no NULL / NOT NULL clause
    seen so far". *)
Definition nullability_decided (f : field_def) : Prop :=
  nullable_action f <> ON_CONFLICT_ACTION_DEFAULT
  /\ is_nullable f = action_is_nullable (nullable_action f).

Definition nullability_open_or_decided (f : field_def) : Prop :=
  nullable_action f = ON_CONFLICT_ACTION_DEFAULT
  \/ is_nullable f = action_is_nullable (nullable_action f).

(** ** The code of DROP TABLE, block by block *)

(** The three instructions with which sql_code_drop_table deletes the
    row of the index [index_id] of the dropped table from _index
    (build.c:1702-1707 for a secondary index, 1713-1716 for the
    primary one): the id is loaded into [index_id_reg], which follows
    the register of the space id, and the two registers make the key
    of the row. *)
Definition drop_index_row (space_id_reg index_id_reg idx_rec_reg
    index_id : nat) : list VdbeOp :=
  [mk_op OP_Integer index_id index_id_reg 0 P4_NOTUSED 0;
   mk_op OP_MakeRecord space_id_reg 2 idx_rec_reg P4_NOTUSED 0;
   mk_op OP_SDelete BOX_INDEX_ID idx_rec_reg 0 P4_NOTUSED 0].

(** The eight instructions of vdbe_emit_fk_constraint_drop
    (build.c:1553) for the key (constraint name, child id) held in the
    registers from [key_reg], with the presence test on [cursor] that
    jumps to [target] when the row exists. *)
Definition fk_constraint_drop_code `{BoxApi} (key_reg cursor target : nat)
    (constraint_name : string) (child_id : nat) : list VdbeOp :=
  [mk_op OP_String8 0 key_reg 0 (P4_DYNAMIC constraint_name) 0;
   mk_op OP_Integer child_id (key_reg + 1) 0 P4_NOTUSED 0;
   mk_op OP_IteratorOpen cursor 0 0 (P4_SPACEPTR BOX_FK_CONSTRAINT_ID)
     OPFLAG_SYSTEMSP;
   mk_op OP_Found cursor target key_reg (P4_INT32 2) 0;
   mk_op OP_Halt SQL_TARANTOOL_ERROR 0 0
     (P4_DYNAMIC (tnt_errcode_desc ER_NO_SUCH_CONSTRAINT constraint_name))
     (tnt_errcode ER_NO_SUCH_CONSTRAINT);
   mk_op OP_Close cursor 0 0 P4_NOTUSED 0;
   mk_op OP_MakeRecord key_reg 2 (key_reg + 2) P4_NOTUSED 0;
   mk_op OP_SDelete BOX_FK_CONSTRAINT_ID (key_reg + 2) 0 P4_NOTUSED 0].

(** The eight instructions of vdbe_emit_ck_constraint_drop
    (build.c:1586) for the key (space id, constraint name). *)
Definition ck_constraint_drop_code `{BoxApi} (key_reg cursor target : nat)
    (constraint_name : string) (space_id : nat) : list VdbeOp :=
  [mk_op OP_Integer space_id key_reg 0 P4_NOTUSED 0;
   mk_op OP_String8 0 (key_reg + 1) 0 (P4_DYNAMIC constraint_name) 0;
   mk_op OP_IteratorOpen cursor 0 0 (P4_SPACEPTR BOX_CK_CONSTRAINT_ID)
     OPFLAG_SYSTEMSP;
   mk_op OP_Found cursor target key_reg (P4_INT32 2) 0;
   mk_op OP_Halt SQL_TARANTOOL_ERROR 0 0
     (P4_DYNAMIC (tnt_errcode_desc ER_NO_SUCH_CONSTRAINT constraint_name))
     (tnt_errcode ER_NO_SUCH_CONSTRAINT);
   mk_op OP_Close cursor 0 0 P4_NOTUSED 0;
   mk_op OP_MakeRecord key_reg 2 (key_reg + 2) P4_NOTUSED 0;
   mk_op OP_SDelete BOX_CK_CONSTRAINT_ID (key_reg + 2) 0 P4_NOTUSED 0].

(** * Theorems *)

(** ** Whitespace normalization of check expressions *)

Section TrimSpace.

Lemma trim_space_text_length quote_type is_prev_chr_space str :
  String.length (trim_space_text quote_type is_prev_chr_space str)
  <= String.length str.
Proof.
  revert quote_type is_prev_chr_space.
  induction str as [|c rest IH]; intros q b; simpl; [lia|].
  pose proof (IH q true); pose proof (IH q false);
    pose proof (IH c false); pose proof (IH NUL false).
  repeat case_match; simpl; lia.
Qed.

Lemma store_seq_spec cs : forall buf wptr,
  wptr + String.length cs <= length buf ->
  store_seq buf wptr cs
  = Some (take wptr buf ++ list_ascii_of_string cs
            ++ drop (wptr + String.length cs) buf,
          wptr + String.length cs).
Proof.
  induction cs as [|c rest IH]; intros buf wptr Hlen; simpl in *.
  - rewrite Nat.add_0_r, take_drop. reflexivity.
  - unfold store.
    destruct (Nat.ltb_spec wptr (length buf)) as [Hlt|Hge]; [|lia].
    rewrite IH by (rewrite length_insert; lia).
    f_equal. f_equal; [|lia].
    rewrite (take_S_r _ _ c) by (apply list_lookup_insert_eq; lia).
    rewrite take_insert_ge by lia.
    rewrite drop_insert_lt by lia.
    rewrite <- app_assoc. simpl.
    replace (S (wptr + String.length rest))
      with (wptr + S (String.length rest)) by lia.
    reflexivity.
Qed.

Lemma length_list_ascii_of_string s :
  length (list_ascii_of_string s) = String.length s.
Proof. induction s; simpl; congruence. Qed.

Lemma isspace_not_quote c :
  isspace c = true -> Ascii.eqb c squote = false /\ Ascii.eqb c dquote = false.
Proof.
  destruct c as [[] [] [] [] [] [] [] []]; vm_compute; intros; try discriminate;
    split; reflexivity.
Qed.

(** Inside a quoted region everything up to the closing quote is
    copied as it is. *)
Lemma trim_space_text_inside_quote q body rest b :
  q <> NUL ->
  Forall (fun c => c <> q) (list_ascii_of_string body) ->
  trim_space_text q b (body +:+ String q rest)
  = body +:+ String q (trim_space_text NUL false rest).
Proof.
  intros Hq. revert b.
  induction body as [|c body IH]; intros b Hbody; simpl.
  - rewrite (proj2 (Ascii.eqb_neq q NUL) Hq), Ascii.eqb_refl. reflexivity.
  - inversion Hbody as [|? ? Hc Hrest]; subst.
    rewrite (proj2 (Ascii.eqb_neq q NUL) Hq).
    rewrite (proj2 (Ascii.eqb_neq c q) Hc).
    rewrite IH by assumption. reflexivity.
Qed.

(** After a space has been stored, further whitespace stores nothing. *)
Lemma trim_space_text_skip_spaces ws rest :
  Forall (fun c => isspace c = true) (list_ascii_of_string ws) ->
  trim_space_text NUL true (ws +:+ rest) = trim_space_text NUL true rest.
Proof.
  induction ws as [|c ws IH]; intros Hws; simpl; [reflexivity|].
  inversion Hws as [|? ? Hc Hrest]; subst.
  destruct (isspace_not_quote c Hc) as [-> ->]. rewrite Hc. simpl.
  apply IH; assumption.
Qed.

(** The flag only matters in front of whitespace. *)
Lemma trim_space_text_flag rest :
  match rest with String c _ => isspace c | EmptyString => false end = false ->
  trim_space_text NUL true rest = trim_space_text NUL false rest.
Proof.
  destruct rest as [|c rest]; simpl; [reflexivity|].
  intros ->. reflexivity.
Qed.

(** C10: for a source text of length L and a destination of L+1
    bytes, trim_space_snprintf stores every byte inside the
    destination: at most L characters followed by the terminator. *)
Theorem trim_space_snprintf_fits (wptr : list ascii) (str : string) :
  length wptr = String.length str + 1 ->
  exists buf,
    let text := trim_space_text NUL false str in
    trim_space_snprintf wptr str = Some buf
    /\ buf = list_ascii_of_string text ++ NUL :: drop (String.length text + 1) wptr
    /\ String.length text <= String.length str
    /\ String.length text + 1 <= length wptr
    /\ length buf = length wptr.
Proof.
  intros Hlen. pose proof (trim_space_text_length NUL false str) as Hle.
  unfold trim_space_snprintf.
  rewrite store_seq_spec by (simpl; lia). simpl.
  set (text := trim_space_text NUL false str) in *.
  assert (Hins : <[String.length text:=NUL]>
                   (list_ascii_of_string text ++ drop (String.length text) wptr)
                 = list_ascii_of_string text
                   ++ NUL :: drop (String.length text + 1) wptr).
  { rewrite <- (length_list_ascii_of_string text) at 1.
    rewrite <- (Nat.add_0_r (length (list_ascii_of_string text))).
    rewrite insert_app_r.
    destruct (drop (String.length text) wptr) as [|x l] eqn:Hd.
    - apply (f_equal length) in Hd. rewrite length_drop in Hd. simpl in Hd. lia.
    - simpl. do 2 f_equal.
      rewrite <- drop_drop, Hd. reflexivity. }
  unfold store.
  rewrite length_app, length_list_ascii_of_string, length_drop.
  destruct (Nat.ltb_spec (String.length text)
              (String.length text + (length wptr - String.length text)))
    as [Hlt|Hge]; [|lia].
  eexists. split; [reflexivity|].
  split; [exact Hins|].
  split; [exact Hle|].
  split; [lia|].
  rewrite Hins, length_app, length_list_ascii_of_string. simpl.
  rewrite length_drop. lia.
Qed.

Lemma trim_space_snprintf_fits_witness :
  exists buf,
    trim_space_snprintf (replicate 5 "z"%char) "a  b" = Some buf
    /\ buf = ["a"; " "; "b"; NUL; "z"]%char.
Proof.
  destruct (trim_space_snprintf_fits (replicate 5 "z"%char) "a  b" eq_refl)
    as (buf & H1 & H2 & _).
  exists buf. split; [exact H1|exact H2].
Defined.

(** The destination after a call: the stored text, the terminator and
    what was there before. *)
Lemma trim_space_snprintf_stores wptr str :
  length wptr = String.length str + 1 ->
  trim_space_snprintf wptr str
  = Some (list_ascii_of_string (trim_space_text NUL false str)
          ++ NUL :: drop (String.length (trim_space_text NUL false str) + 1)
                      wptr).
Proof.
  intros Hlen. pose proof (trim_space_text_length NUL false str) as Hle.
  unfold trim_space_snprintf.
  rewrite store_seq_spec by (simpl; lia). simpl.
  set (text := trim_space_text NUL false str) in *.
  unfold store.
  rewrite length_app, length_list_ascii_of_string, length_drop.
  destruct (Nat.ltb_spec (String.length text)
              (String.length text + (length wptr - String.length text)))
    as [Hlt|Hge]; [|lia].
  f_equal.
  rewrite <- (length_list_ascii_of_string text) at 1.
  rewrite <- (Nat.add_0_r (length (list_ascii_of_string text))).
  rewrite insert_app_r.
  destruct (drop (String.length text) wptr) as [|x l] eqn:Hd.
  - apply (f_equal length) in Hd. rewrite length_drop in Hd. simpl in Hd. lia.
  - simpl. do 2 f_equal. rewrite <- drop_drop, Hd. reflexivity.
Qed.

(** A check constraint of a table under construction never overruns
    the chunk it allocates for the expression text. *)
Lemma sql_create_check_contraint_no_overrun `{BoxApi} p name_token expr_span :
  new_space p <> None ->
  sql_create_check_contraint p name_token expr_span <> None.
Proof.
  intros Hsp. unfold sql_create_check_contraint.
  destruct (new_space p) as [sp|]; [|congruence].
  pose proof (trim_space_snprintf_stores
                (region_alloc (String.length expr_span + 1)) expr_span)
    as Hbuf.
  specialize (Hbuf ltac:(apply region_alloc_length)).
  destruct name_token; simpl; rewrite Hbuf; discriminate.
Qed.

(** C4 (amended): outside quoted regions every run of whitespace,
    leading and trailing runs included, is stored as one space; a
    quoted region is copied as it is up to its closing quote; any other
    character is copied.  The source [  a  =  'x   y'  ] is stored as
    [ a = 'x   y' ], with one space before and one space after. *)
Theorem trim_space_text_normalizes :
  (forall q body rest b,
      q = squote \/ q = dquote ->
      Forall (fun c => c <> q) (list_ascii_of_string body) ->
      trim_space_text NUL b (String q (body +:+ String q rest))
      = String q (body +:+ String q (trim_space_text NUL false rest)))
  /\ (forall ws rest,
      ws <> "" ->
      Forall (fun c => isspace c = true) (list_ascii_of_string ws) ->
      match rest with String c _ => isspace c | EmptyString => false end
      = false ->
      trim_space_text NUL false (ws +:+ rest)
      = String " " (trim_space_text NUL false rest))
  /\ (forall c rest b,
      isspace c = false -> c <> squote -> c <> dquote ->
      trim_space_text NUL b (String c rest)
      = String c (trim_space_text NUL false rest))
  /\ trim_space_text NUL false "  a  =  'x   y'  " = " a = 'x   y' "
  /\ cstring <$> trim_space_snprintf (replicate 18 NUL) "  a  =  'x   y'  "
     = Some " a = 'x   y' ".
Proof.
  split; [|split; [|split; [|split]]].
  - intros q body rest b Hq Hbody.
    assert (Hnul : q <> NUL) by (destruct Hq; subst; discriminate).
    simpl.
    replace (Ascii.eqb q squote || Ascii.eqb q dquote) with true
      by (destruct Hq; subst; reflexivity).
    rewrite trim_space_text_inside_quote by assumption. reflexivity.
  - intros ws rest Hne Hws Hrest.
    destruct ws as [|c ws]; [congruence|].
    inversion Hws as [|? ? Hc Hws']; subst. simpl.
    destruct (isspace_not_quote c Hc) as [-> ->]. rewrite Hc. simpl.
    rewrite trim_space_text_skip_spaces by assumption.
    rewrite trim_space_text_flag by assumption. reflexivity.
  - intros c rest b Hc Hs Hd. simpl.
    rewrite (proj2 (Ascii.eqb_neq c squote) Hs).
    rewrite (proj2 (Ascii.eqb_neq c dquote) Hd).
    rewrite Hc. reflexivity.
  - reflexivity.
  - reflexivity.
Qed.

Lemma trim_space_text_normalizes_witness :
  trim_space_text NUL false ("'x   y'" +:+ "  z")
  = "'x   y'" +:+ trim_space_text NUL false "  z"
  /\ trim_space_text NUL false ("   " +:+ "a")
     = String " " (trim_space_text NUL false "a").
Proof.
  destruct trim_space_text_normalizes as (Hquote & Hrun & _).
  split.
  - apply (Hquote squote "x   y" "  z" false).
    + left; reflexivity.
    + repeat constructor; discriminate.
  - apply (Hrun "   " "a").
    + discriminate.
    + repeat constructor.
    + reflexivity.
Defined.

(** C4 as stated fails on its own example: the leading and the
    trailing run of blanks are not removed. *)
Lemma trim_space_keeps_outer_blanks :
  trim_space_text NUL false "  a  =  'x   y'  " <> "a = 'x   y'"
  /\ cstring <$> trim_space_snprintf (replicate 18 NUL) "  a  =  'x   y'  "
     <> Some "a = 'x   y'".
Proof. split; vm_compute; discriminate. Qed.

End TrimSpace.

(** ** Declaring the nullability of a column *)

Section Nullability.

Lemma set_nullable_twice f a n b m :
  set_nullable (set_nullable f a n) b m = set_nullable f b m.
Proof. reflexivity. Qed.





End Nullability.

(** ** Redundant columns of a key *)

Section RedundantParts.

Lemma part_is_kept_spec kept part :
  part_is_kept kept part = bool_decide (fieldno part ∈ fieldno <$> kept).
Proof.
  unfold part_is_kept.
  induction kept as [|q kept IH].
  - symmetry. apply bool_decide_eq_false_2. apply not_elem_of_nil.
  - simpl. rewrite IH. destruct (Nat.eqb_spec (fieldno part) (fieldno q)) as [Heq|Hne];
      simpl.
    + symmetry. apply bool_decide_eq_true_2. rewrite Heq. apply list_elem_of_here.
    + apply bool_decide_ext. rewrite elem_of_cons. tauto.
Qed.

Lemma first_occurrences_ext seen seen' l :
  (forall f, f ∈ seen <-> f ∈ seen') ->
  first_occurrences seen l = first_occurrences seen' l.
Proof.
  revert seen seen'. induction l as [|part rest IH]; intros seen seen' Hs;
    simpl; [reflexivity|].
  rewrite (bool_decide_ext _ _ (Hs (fieldno part))).
  destruct (bool_decide (fieldno part ∈ seen')); [apply IH; assumption|].
  f_equal. apply IH. intros f. rewrite !elem_of_cons, Hs. tauto.
Qed.

Lemma remove_redundant_loop_spec rest : forall kept,
  remove_redundant_loop kept rest
  = kept ++ first_occurrences (fieldno <$> kept) rest.
Proof.
  induction rest as [|part rest IH]; intros kept; simpl.
  - rewrite app_nil_r. reflexivity.
  - rewrite part_is_kept_spec.
    destruct (bool_decide (fieldno part ∈ fieldno <$> kept)); [apply IH|].
    rewrite IH, <- app_assoc. simpl. do 2 f_equal.
    apply first_occurrences_ext. intros f.
    rewrite fmap_app, elem_of_app, elem_of_cons. simpl.
    rewrite list_elem_of_singleton. tauto.
Qed.

Lemma first_occurrences_fresh seen l :
  Forall (fun p => fieldno p ∉ seen) (first_occurrences seen l).
Proof.
  revert seen. induction l as [|part rest IH]; intros seen; simpl; [constructor|].
  destruct (bool_decide_reflect (fieldno part ∈ seen)) as [Hin|Hnin]; [apply IH|].
  constructor; [exact Hnin|].
  eapply Forall_impl; [apply IH|]. simpl. intros p Hp Hin. apply Hp.
  apply elem_of_cons. right. exact Hin.
Qed.

Lemma first_occurrences_NoDup seen l :
  NoDup (fieldno <$> first_occurrences seen l).
Proof.
  revert seen. induction l as [|part rest IH]; intros seen; simpl; [constructor|].
  destruct (bool_decide (fieldno part ∈ seen)); [apply IH|].
  simpl. constructor; [|apply IH].
  intros Hin. apply list_elem_of_fmap in Hin as (q & Hq & Hin).
  pose proof (first_occurrences_fresh (fieldno part :: seen) rest) as Hfresh.
  rewrite Forall_forall in Hfresh. apply (Hfresh q Hin).
  rewrite <- Hq. apply list_elem_of_here.
Qed.

Lemma first_occurrences_sublist seen l : sublist (first_occurrences seen l) l.
Proof.
  revert seen. induction l as [|part rest IH]; intros seen; simpl; [constructor|].
  destruct (bool_decide (fieldno part ∈ seen)).
  - apply sublist_cons. apply IH.
  - apply sublist_skip. apply IH.
Qed.

Lemma first_occurrences_complete seen l f :
  f ∈ fieldno <$> l -> f ∈ seen \/ f ∈ fieldno <$> first_occurrences seen l.
Proof.
  revert seen. induction l as [|part rest IH]; intros seen; simpl.
  - intros Hin. apply elem_of_nil in Hin. contradiction.
  - rewrite elem_of_cons. intros [-> | Hin].
    + destruct (bool_decide_reflect (fieldno part ∈ seen)); [left; assumption|].
      right. simpl. apply list_elem_of_here.
    + destruct (bool_decide_reflect (fieldno part ∈ seen)); [apply IH; assumption|].
      destruct (IH (fieldno part :: seen) Hin) as [Hs | Hr].
      * apply elem_of_cons in Hs as [-> | Hs]; [|left; assumption].
        right. simpl. apply list_elem_of_here.
      * right. simpl. apply elem_of_cons. right. assumption.
Qed.

(** A kept part is the first part of the list with its field. *)
Lemma first_occurrences_first seen l i part :
  first_occurrences seen l !! i = Some part ->
  exists k, l !! k = Some part
            /\ forall k' q, k' < k -> l !! k' = Some q -> fieldno q <> fieldno part.
Proof.
  revert seen i. induction l as [|p0 rest IH]; intros seen i; simpl.
  - intros Hl. rewrite lookup_nil in Hl. discriminate.
  - destruct (bool_decide_reflect (fieldno p0 ∈ seen)) as [Hin|Hnin].
    + intros Hl. destruct (IH _ _ Hl) as (k & Hk & Hfirst).
      exists (S k). split; [exact Hk|].
      intros [|k'] q Hlt Hq; simpl in Hq.
      * injection Hq as <-. intros Heq.
        pose proof (first_occurrences_fresh seen rest) as Hfresh.
        rewrite Forall_forall in Hfresh.
        apply (Hfresh part); [eapply list_elem_of_lookup_2; exact Hl|].
        rewrite <- Heq. exact Hin.
      * apply (Hfirst k' q); [lia|exact Hq].
    + destruct i as [|i]; simpl.
      * intros [= <-]. exists 0. split; [reflexivity|]. intros k' q Hlt. lia.
      * intros Hl. destruct (IH _ _ Hl) as (k & Hk & Hfirst).
        exists (S k). split; [exact Hk|].
        intros [|k'] q Hlt Hq; simpl in Hq.
        -- injection Hq as <-. intros Heq.
           pose proof (first_occurrences_fresh (fieldno p0 :: seen) rest) as Hfresh.
           rewrite Forall_forall in Hfresh.
           apply (Hfresh part); [eapply list_elem_of_lookup_2; exact Hl|].
           rewrite <- Heq. apply list_elem_of_here.
        -- apply (Hfirst k' q); [lia|exact Hq].
Qed.

(** C5: the key parts left by the loop of sql_create_index are the
    first occurrences of the distinct field positions, in their
    original order: no field position is repeated, none is lost, the
    kept parts form a subsequence of the declared ones and each kept
    part is the first one of the column list with its field.
    PRIMARY KEY(b,a,b,c,a) on a table (a,b,c) yields the key parts
    [b,a,c]. *)
Theorem primary_key_parts_deduplicated :
  (forall parts : list key_part,
      let kept := remove_redundant_parts parts in
      kept = first_occurrences [] parts
      /\ NoDup (fieldno <$> kept)
      /\ sublist kept parts
      /\ (forall f, f ∈ fieldno <$> parts <-> f ∈ fieldno <$> kept)
      /\ (forall i part,
            kept !! i = Some part ->
            exists k, parts !! k = Some part
                      /\ forall k' q, k' < k -> parts !! k' = Some q ->
                                      fieldno q <> fieldno part))
  /\ (let p :=
        sqlAddColumn
          (sqlAddColumn
             (sqlAddColumn (@create_table reference_api fresh_parse "T") "A"
                FIELD_TYPE_STRING) "B" FIELD_TYPE_STRING) "C" FIELD_TYPE_STRING in
      (p' ← @sqlAddPrimaryKey reference_api p
              (primary_key_constraint None ["B"; "A"; "B"; "C"; "A"]);
       def ← new_space p';
       pk ← sql_space_primary_key def;
       Some (fieldno <$> parts pk))
      = Some [1; 0; 2]).
Proof.
  split; [|vm_compute; reflexivity].
  intros parts kept.
  assert (Hspec : kept = first_occurrences [] parts).
  { unfold kept, remove_redundant_parts. destruct parts as [|p0 rest];
      [reflexivity|].
    rewrite remove_redundant_loop_spec. reflexivity. }
  split; [exact Hspec|]. rewrite Hspec.
  split; [apply first_occurrences_NoDup|].
  split; [apply first_occurrences_sublist|].
  split.
  - intros f. split.
    + intros Hin. destruct (first_occurrences_complete [] parts f Hin) as [Hn|Hk];
        [apply elem_of_nil in Hn; contradiction|exact Hk].
    + intros Hin. apply list_elem_of_fmap in Hin as (q & -> & Hin).
      apply list_elem_of_fmap. exists q. split; [reflexivity|].
      eapply elem_of_sublist; [exact Hin|]. apply first_occurrences_sublist.
  - intros i part Hl. eapply first_occurrences_first. exact Hl.
Qed.

End RedundantParts.

(** ** Routines that only report errors *)

Section ErrorsOnly.
Context `{BoxApi}.

Lemma with_errors_same p : with_errors p (is_aborted p) (diag p) = p.
Proof. destruct p; reflexivity. Qed.

Lemma errors_only_refl p : errors_only p p.
Proof. exists (is_aborted p), (diag p). symmetry. apply with_errors_same. Qed.

Lemma errors_only_trans p q r :
  errors_only p q -> errors_only q r -> errors_only p r.
Proof. intros (b & d & ->) (b' & d' & ->). exists b', d'. reflexivity. Qed.

Lemma errors_only_set_abort p d : errors_only p (set_abort p d).
Proof. exists true, d. reflexivity. Qed.

Lemma errors_only_raise p c a : errors_only p (raise p c a).
Proof. apply errors_only_set_abort. Qed.

Lemma sqlCheckIdentifierName_errors p zName p' ok :
  sqlCheckIdentifierName p zName = (p', ok) ->
  errors_only p p' /\ (ok = true -> p' = p).
Proof.
  unfold sqlCheckIdentifierName. intros Heq.
  repeat case_match; injection Heq as <- <-.
  - split; [apply errors_only_raise|discriminate].
  - split; [apply errors_only_set_abort|discriminate].
  - split; [apply errors_only_refl|reflexivity].
Qed.

Lemma sql_get_coll_seq_errors p name p' r :
  sql_get_coll_seq p name = (p', r) -> errors_only p p'.
Proof.
  unfold sql_get_coll_seq. intros Heq.
  repeat case_match; injection Heq as <- <-;
    [apply errors_only_refl|apply errors_only_raise].
Qed.

Lemma sql_resolve_self_reference_errors p def e p' e' :
  sql_resolve_self_reference p def e = (p', e') -> errors_only p p'.
Proof.
  unfold sql_resolve_self_reference. intros Heq.
  repeat case_match; injection Heq as <- <-;
    [apply errors_only_refl|apply errors_only_raise].
Qed.

Lemma part_collation_errors p def expr fieldno p' c :
  part_collation p def expr fieldno = (p', c) -> errors_only p p'.
Proof.
  unfold part_collation. intros Hc.
  destruct expr; try (injection Hc as <- <-; apply errors_only_refl).
  destruct (sql_get_coll_seq p zToken) as [p3 [[id ptr]|]] eqn:Hg;
    apply sql_get_coll_seq_errors in Hg.
  - destruct (ptr =? 0); injection Hc as <- <-; [|exact Hg].
    eapply errors_only_trans; [exact Hg|apply errors_only_set_abort].
  - injection Hc as <- <-.
    eapply errors_only_trans; [exact Hg|apply errors_only_set_abort].
Qed.

Lemma index_fill_parts_errors def l : forall p p' r,
  index_fill_parts p def l = (p', r) -> errors_only p p'.
Proof.
  induction l as [|e rest IH]; intros p p' r; simpl.
  - intros [= <- <-]. apply errors_only_refl.
  - destruct (sql_resolve_self_reference p def e) as [p1 e1] eqn:Hres.
    apply sql_resolve_self_reference_errors in Hres.
    destruct (is_aborted p1); [intros [= <- <-]; exact Hres|].
    destruct (sqlExprSkipCollate e1) as [| | fieldno |];
      try (intros [= <- <-];
           eapply errors_only_trans; [exact Hres|apply errors_only_set_abort]).
    destruct (part_collation p1 def e1 fieldno) as [p2 c] eqn:Hc.
    apply part_collation_errors in Hc.
    assert (H12 : errors_only p p2) by (eapply errors_only_trans; eassumption).
    destruct c as [cid|]; [|intros [= <- <-]; exact H12].
    destruct (fields def !! fieldno) as [f|]; [|intros [= <- <-]; exact H12].
    destruct (index_fill_parts p2 def rest) as [p3 [ps|]] eqn:Hrec;
      apply IH in Hrec; intros [= <- <-];
      eapply errors_only_trans; eassumption.
Qed.

Lemma index_fill_def_errors p def iid name l p' r :
  index_fill_def p def iid name l = (p', r) -> errors_only p p'.
Proof.
  unfold index_fill_def.
  destruct (index_fill_parts p def l) as [p1 [ps|]] eqn:Hp;
    apply index_fill_parts_errors in Hp; intros [= <- <-]; exact Hp.
Qed.

Lemma index_fill_def_iid p def i name l p' idx :
  index_fill_def p def i name l = (p', Some idx) ->
  iid idx = i /\ index_name idx = name.
Proof.
  unfold index_fill_def.
  destruct (index_fill_parts p def l) as [p1 [ps|]]; intros [= <- <-].
  split; reflexivity.
Qed.

(** The first half of sql_create_index reports errors at most; when it
    hands over an index, the table is the one under construction, the
    index id is 0 for a primary key and one more than the largest id
    otherwise, and the name is the generated one. *)
Lemma sql_create_index_prepare_spec p cid p' r :
  sql_create_index_prepare p cid = (p', r) ->
  errors_only p p'
  /\ forall def idx,
       r = Some (def, idx) ->
       new_space p = Some def
       /\ iid idx = match idx_type cid with
                    | SQL_INDEX_TYPE_CONSTRAINT_PK => 0
                    | _ => index_id_max def + 1
                    end
       /\ index_name idx
          = constraint_index_name (idx_type cid) (cid_name cid)
              (space_name def) (index_count def).
Proof.
  unfold sql_create_index_prepare.
  destruct (is_aborted p);
    [intros [= <- <-]; split; [apply errors_only_refl|discriminate]|].
  destruct (new_space p) as [def|];
    [|intros [= <- <-]; split; [apply errors_only_refl|discriminate]].
  destruct (is_view def);
    [intros [= <- <-]; split; [apply errors_only_raise|discriminate]|].
  destruct (field_count def =? 0);
    [intros [= <- <-]; split; [apply errors_only_raise|discriminate]|].
  destruct (sqlCheckIdentifierName p _) as [p1 ok] eqn:Hname.
  apply sqlCheckIdentifierName_errors in Hname as [Hname _].
  destruct ok; simpl; [|intros [= <- <-]; split; [exact Hname|discriminate]].
  match goal with
  | |- (let '(_, _) := ?X in _) = _ -> _ => destruct X as [p2 col_list] eqn:Hcols
  end.
  assert (H12 : errors_only p1 p2).
  { destruct (cols cid); [destruct (limit_column p1 <? length l)|];
      injection Hcols as <- <-;
      [apply errors_only_raise|apply errors_only_refl|apply errors_only_refl]. }
  destruct (index_fill_def p2 def _ _ col_list) as [p3 [idx|]] eqn:Hfill.
  - pose proof (index_fill_def_errors _ _ _ _ _ _ _ Hfill) as H23.
    apply index_fill_def_iid in Hfill as [Hiid Hnm].
    assert (H03 : errors_only p p3)
      by (eapply errors_only_trans; [|exact H23];
          eapply errors_only_trans; eassumption).
    destruct (index_def_is_valid _ _); simpl; intros [= <- <-];
      (split; [exact H03|]); [|discriminate].
    intros def' idx' [= <- <-]. simpl. auto.
  - apply index_fill_def_errors in Hfill. intros [= <- <-].
    split; [|discriminate].
    eapply errors_only_trans; [|exact Hfill].
    eapply errors_only_trans; eassumption.
Qed.

End ErrorsOnly.

(** ** The program and the ledger under the setters *)

Section Frames.

(** sqlGetVdbe returns the program when there is one. *)
Lemma sqlGetVdbe_created p : pVdbe p <> None -> sqlGetVdbe p = p.
Proof. unfold sqlGetVdbe. destruct (pVdbe p); [reflexivity|congruence]. Qed.

Lemma sqlGetVdbe_nOp p : 1 <= nOp p -> sqlGetVdbe p = p.
Proof.
  intros Hn. apply sqlGetVdbe_created. intros Hnone.
  unfold nOp, aOp in Hn. rewrite Hnone in Hn. simpl in Hn. lia.
Qed.

Lemma aOp_set_new_space p s : aOp (set_new_space p s) = aOp p.
Proof. reflexivity. Qed.
Lemma aOp_set_abort p d : aOp (set_abort p d) = aOp p.
Proof. reflexivity. Qed.
Lemma aOp_raise p c a : aOp (raise p c a) = aOp p.
Proof. reflexivity. Qed.
Lemma aOp_set_nMem p n : aOp (set_nMem p n) = aOp p.
Proof. reflexivity. Qed.
Lemma aOp_set_nTab p n : aOp (set_nTab p n) = aOp p.
Proof. reflexivity. Qed.
Lemma aOp_set_range p i n : aOp (set_range p i n) = aOp p.
Proof. reflexivity. Qed.
Lemma aOp_set_record_list p l : aOp (set_record_list p l) = aOp p.
Proof. reflexivity. Qed.
Lemma aOp_set_checks p n l : aOp (set_checks p n l) = aOp p.
Proof. reflexivity. Qed.
Lemma aOp_sql_set_multi_write p b : aOp (sql_set_multi_write p b) = aOp p.
Proof. reflexivity. Qed.
Lemma aOp_save_record p a b c d : aOp (save_record p a b c d) = aOp p.
Proof. reflexivity. Qed.
Lemma aOp_sqlVdbeAddOp4 p o a b c d :
  aOp (sqlVdbeAddOp4 p o a b c d) = aOp p ++ [mk_op o a b c d 0].
Proof. reflexivity. Qed.
Lemma aOp_sqlVdbeAddOp3 p o a b c :
  aOp (sqlVdbeAddOp3 p o a b c) = aOp p ++ [mk_op o a b c P4_NOTUSED 0].
Proof. reflexivity. Qed.
Lemma aOp_sqlVdbeAddOp2 p o a b :
  aOp (sqlVdbeAddOp2 p o a b) = aOp p ++ [mk_op o a b 0 P4_NOTUSED 0].
Proof. reflexivity. Qed.
Lemma aOp_sqlVdbeAddOp1 p o a :
  aOp (sqlVdbeAddOp1 p o a) = aOp p ++ [mk_op o a 0 0 P4_NOTUSED 0].
Proof. reflexivity. Qed.
Lemma aOp_sqlVdbeAddOp0 p o :
  aOp (sqlVdbeAddOp0 p o) = aOp p ++ [mk_op o 0 0 0 P4_NOTUSED 0].
Proof. reflexivity. Qed.
Lemma aOp_sqlVdbeAddOp4Int p o a b c n :
  aOp (sqlVdbeAddOp4Int p o a b c n) = aOp p ++ [mk_op o a b c (P4_INT32 n) 0].
Proof. reflexivity. Qed.
Lemma aOp_sqlVdbeChangeP2 p addr val :
  aOp (sqlVdbeChangeP2 p addr val)
  = alter (fun o => set_p2 o val) addr (aOp p).
Proof. reflexivity. Qed.
Lemma aOp_sqlVdbeChangeP5 p val :
  aOp (sqlVdbeChangeP5 p val)
  = alter (fun o => set_p5 o val) (nOp p - 1) (aOp p).
Proof. reflexivity. Qed.

Lemma record_list_save_record p a b c d :
  record_list (save_record p a b c d)
  = mk_saved_record a b c d :: record_list p.
Proof. reflexivity. Qed.
Lemma record_list_set_pVdbe p v : record_list (set_pVdbe p v) = record_list p.
Proof. reflexivity. Qed.
Lemma record_list_set_nMem p n : record_list (set_nMem p n) = record_list p.
Proof. reflexivity. Qed.
Lemma record_list_set_nTab p n : record_list (set_nTab p n) = record_list p.
Proof. reflexivity. Qed.
Lemma record_list_set_range p i n : record_list (set_range p i n) = record_list p.
Proof. reflexivity. Qed.
Lemma record_list_set_new_space p s :
  record_list (set_new_space p s) = record_list p.
Proof. reflexivity. Qed.
Lemma record_list_set_abort p d : record_list (set_abort p d) = record_list p.
Proof. reflexivity. Qed.

End Frames.

Create Rewrite HintDb vdbe_program.

#[local] Hint Rewrite aOp_set_new_space aOp_set_abort aOp_raise aOp_set_nMem
  aOp_set_nTab aOp_set_range aOp_set_record_list aOp_set_checks
  aOp_sql_set_multi_write aOp_save_record aOp_sqlVdbeAddOp4 aOp_sqlVdbeAddOp3
  aOp_sqlVdbeAddOp2 aOp_sqlVdbeAddOp1 aOp_sqlVdbeAddOp0 aOp_sqlVdbeAddOp4Int
  : vdbe_program.

(** ** CREATE TABLE without a primary key *)

Section NoPrimaryKey.
Context `{BoxApi}.

Lemma errors_only_frame p p' :
  errors_only p p' ->
  aOp p' = aOp p /\ record_list p' = record_list p /\ new_space p' = new_space p.
Proof. intros (b & d & ->). auto. Qed.

Lemma sqlEndTable_without_pk p def :
  new_space p = Some def ->
  sql_space_primary_key def = None ->
  sqlEndTable p
  = raise p ER_CREATE_SPACE [space_name def; "PRIMARY KEY missing"].
Proof.
  intros Hsp Hpk. unfold sqlEndTable. rewrite Hsp, Hpk.
  rewrite bool_decide_eq_true_2 by reflexivity. reflexivity.
Qed.

Lemma no_primary_key_attached_spec def :
  Forall (fun i => iid i <> 0) (index def) -> sql_space_primary_key def = None.
Proof.
  unfold sql_space_primary_key. destruct (index def) as [|i l]; [reflexivity|].
  intros Hall. inversion Hall as [|? ? Hi _]; subst.
  destruct (Nat.eqb_spec (iid i) 0); [contradiction|reflexivity].
Qed.

Lemma merge_with_existing_unique idx l l' :
  merge_with_existing SQL_INDEX_TYPE_CONSTRAINT_UNIQUE idx l = Some l' -> l' = l.
Proof.
  revert l'. induction l as [|e rest IH]; intros l'; simpl; [discriminate|].
  destruct (same_key_parts (parts idx) (parts e)); simpl.
  - destruct (negb (constraint_is_named (index_name idx))).
    + intros [= <-]. reflexivity.
    + destruct (merge_with_existing _ idx rest); [|discriminate].
      intros [= <-]. f_equal. apply IH. reflexivity.
  - destruct (merge_with_existing _ idx rest); [|discriminate].
    intros [= <-]. f_equal. apply IH. reflexivity.
Qed.

Lemma table_add_index_secondary def idx :
  iid idx <> 0 ->
  index (table_add_index def idx) = index def ++ [idx].
Proof.
  intros Hiid. unfold table_add_index.
  destruct (index def) as [|first others] eqn:Hix; [reflexivity|].
  destruct (Nat.eqb_spec (iid idx) 0); [contradiction|].
  reflexivity.
Qed.

(** A UNIQUE constraint leaves the attached indexes as they are or
    appends one index whose id is not 0. *)
Lemma sql_create_index_unique p name columns def' :
  new_space (sql_create_index p
               (mk_create_index_def name columns
                  SQL_INDEX_TYPE_CONSTRAINT_UNIQUE)) = Some def' ->
  exists def,
    new_space p = Some def
    /\ (index def' = index def
        \/ exists idx, iid idx <> 0 /\ index def' = index def ++ [idx]).
Proof.
  unfold sql_create_index.
  destruct (sql_create_index_prepare p _) as [p1 r] eqn:Hprep.
  apply sql_create_index_prepare_spec in Hprep as [Herr Hr].
  apply errors_only_frame in Herr as (_ & _ & Hsp).
  destruct r as [[def idx]|].
  - destruct (Hr def idx eq_refl) as (Hdef & Hiid & _). simpl in Hiid.
    destruct (merge_with_existing _ idx (index def)) as [ix|] eqn:Hm; simpl.
    + apply merge_with_existing_unique in Hm as ->.
      intros [= <-]. exists def. split; [exact Hdef|left; reflexivity].
    + intros [= <-]. exists def. split; [exact Hdef|]. right. exists idx.
      assert (iid idx <> 0) by lia.
      split; [assumption|]. apply table_add_index_secondary. assumption.
  - intros Hnew. exists def'. split; [congruence|left; reflexivity].
Qed.

Lemma sqlAddColumn_frame p name type :
  aOp (sqlAddColumn p name type) = aOp p
  /\ record_list (sqlAddColumn p name type) = record_list p
  /\ forall def', new_space (sqlAddColumn p name type) = Some def' ->
       exists def, new_space p = Some def /\ index def' = index def.
Proof.
  unfold sqlAddColumn. destruct (new_space p) as [def|] eqn:Hsp;
    [|rewrite Hsp; split; [reflexivity|split; [reflexivity|discriminate]]].
  repeat case_match; simpl; (split; [reflexivity|split; [reflexivity|]]);
    intros def'; rewrite ?Hsp; intros [= <-]; exists def;
    (split; [reflexivity|]); unfold sql_field_retrieve;
    repeat case_match; reflexivity.
Qed.

Lemma sql_column_add_nullable_action_frame p action :
  aOp (sql_column_add_nullable_action p action) = aOp p
  /\ record_list (sql_column_add_nullable_action p action) = record_list p
  /\ forall def',
       new_space (sql_column_add_nullable_action p action) = Some def' ->
       exists def, new_space p = Some def /\ index def' = index def.
Proof.
  unfold sql_column_add_nullable_action.
  destruct (new_space p) as [def|] eqn:Hsp;
    [|rewrite Hsp; split; [reflexivity|split; [reflexivity|discriminate]]].
  repeat case_match; simpl; (split; [reflexivity|split; [reflexivity|]]);
    intros def'; rewrite ?Hsp; intros [= <-]; exists def;
    (split; reflexivity).
Qed.

Lemma sql_create_check_contraint_frame p name expr_span p' :
  sql_create_check_contraint p name expr_span = Some p' ->
  aOp p' = aOp p /\ record_list p' = record_list p
  /\ new_space p' = new_space p.
Proof.
  unfold sql_create_check_contraint.
  destruct (new_space p) as [def|] eqn:Hsp; [|discriminate].
  destruct name; simpl; destruct (trim_space_snprintf _ _); try discriminate;
    intros [= <-]; simpl; auto.
Qed.

Lemma sql_create_index_frame p cid :
  aOp (sql_create_index p cid) = aOp p
  /\ record_list (sql_create_index p cid) = record_list p.
Proof.
  unfold sql_create_index.
  destruct (sql_create_index_prepare p cid) as [p1 r] eqn:Hprep.
  apply sql_create_index_prepare_spec in Hprep as [Herr _].
  apply errors_only_frame in Herr as (Hops & Hrec & _).
  destruct r as [[def idx]|]; [|auto].
  destruct (merge_with_existing _ idx (index def)); simpl; auto.
Qed.

Lemma sqlGetVdbe_no_insert p :
  no_catalog_insert p -> no_catalog_insert (sqlGetVdbe p).
Proof.
  intros [Hrec Hops]. unfold sqlGetVdbe.
  destruct (pVdbe p) eqn:Hv; [split; assumption|].
  split; [exact Hrec|]. unfold aOp. simpl.
  repeat constructor; simpl; discriminate.
Qed.

Lemma create_table_invariant p0 name :
  no_catalog_insert p0 ->
  no_catalog_insert (create_table p0 name)
  /\ no_primary_key_attached (create_table p0 name).
Proof.
  intros [Hrec Hops]. unfold create_table, sqlStartTable.
  pose proof (sqlGetVdbe_no_insert p0 (conj Hrec Hops)) as Hget.
  destruct (sqlCheckIdentifierName (sqlGetVdbe p0) name) as [p1 ok] eqn:Hname.
  apply sqlCheckIdentifierName_errors in Hname as [Herr _].
  apply errors_only_frame in Herr as (Hops1 & Hrec1 & _).
  destruct Hget as [Hrec0 Hops0].
  destruct ok; simpl; unfold no_catalog_insert, no_primary_key_attached;
    simpl; autorewrite with vdbe_program; rewrite Hops1, Hrec1;
    (split; [split; assumption|]).
  - intros def [= <-]. constructor.
  - intros def Hdef. discriminate.
Qed.

Lemma run_builder_call_invariant p c p' :
  is_primary_key_call c = false ->
  run_builder_call p c = Some p' ->
  no_catalog_insert p /\ no_primary_key_attached p ->
  no_catalog_insert p' /\ no_primary_key_attached p'.
Proof.
  intros Hc Hrun [[Hrec Hops] Hpk]. unfold no_primary_key_attached in *.
  destruct c as [n t|a|n l|n l|n e]; simpl in *; try discriminate.
  - injection Hrun as <-.
    destruct (sqlAddColumn_frame p n t) as (Ho & Hr & Hs).
    split; [split; congruence|].
    intros def' Hdef'. destruct (Hs def' Hdef') as (def & Hdef & ->). auto.
  - injection Hrun as <-.
    destruct (sql_column_add_nullable_action_frame p a) as (Ho & Hr & Hs).
    split; [split; congruence|].
    intros def' Hdef'. destruct (Hs def' Hdef') as (def & Hdef & ->). auto.
  - injection Hrun as <-.
    destruct (sql_create_index_frame p
                (mk_create_index_def n l SQL_INDEX_TYPE_CONSTRAINT_UNIQUE))
      as (Ho & Hr).
    split; [split; congruence|].
    intros def' Hdef'.
    destruct (sql_create_index_unique _ _ _ _ Hdef')
      as (def & Hdef & [-> | (idx & Hiid & ->)]); [auto|].
    apply Forall_app. split; [auto|]. repeat constructor. exact Hiid.
  - apply sql_create_check_contraint_frame in Hrun as (Ho & Hr & Hs).
    split; [split; congruence|].
    intros def'. rewrite Hs. auto.
Qed.

Lemma run_builder_calls_invariant calls : forall p p',
  forallb (fun c => negb (is_primary_key_call c)) calls = true ->
  run_builder_calls p calls = Some p' ->
  no_catalog_insert p /\ no_primary_key_attached p ->
  no_catalog_insert p' /\ no_primary_key_attached p'.
Proof.
  induction calls as [|c rest IH]; intros p p' Hcalls; simpl.
  - intros [= <-]. auto.
  - simpl in Hcalls. apply andb_prop in Hcalls as [Hc Hrest].
    apply negb_true_iff in Hc.
    destruct (run_builder_call p c) as [p1|] eqn:Hrun; [|discriminate].
    intros Hruns Hinv. apply (IH p1 p' Hrest Hruns).
    eapply run_builder_call_invariant; eassumption.
Qed.

(** C7: whatever columns, NULL / NOT NULL clauses, UNIQUE constraints
    and checks a CREATE TABLE declares, if it declares no primary key
    then sqlEndTable fails with the "PRIMARY KEY missing" error and
    emits nothing, and the finished program contains no catalog
    insertion. *)
Theorem create_table_without_primary_key p0 name calls p def :
  no_catalog_insert p0 ->
  forallb (fun c => negb (is_primary_key_call c)) calls = true ->
  run_builder_calls (create_table p0 name) calls = Some p ->
  new_space p = Some def ->
  let q := sqlEndTable p in
  is_aborted q = true
  /\ diag q
     = Some (ClientError ER_CREATE_SPACE [space_name def; "PRIMARY KEY missing"])
  /\ aOp q = aOp p
  /\ record_list q = []
  /\ Forall (fun o => op o <> OP_SInsert) (aOp (sql_finish_coding q)).
Proof.
  intros Hp0 Hcalls Hrun Hdef q.
  destruct (run_builder_calls_invariant calls _ _ Hcalls Hrun
              (create_table_invariant p0 name Hp0)) as [[Hrec Hops] Hpk].
  assert (Hq : q = raise p ER_CREATE_SPACE [space_name def; "PRIMARY KEY missing"]).
  { apply sqlEndTable_without_pk; [exact Hdef|].
    apply no_primary_key_attached_spec. apply Hpk. exact Hdef. }
  rewrite Hq. split; [reflexivity|]. split; [reflexivity|].
  split; [reflexivity|]. split; [exact Hrec|].
  unfold sql_finish_coding. cbv zeta. unfold sql_finish_coding_cleanup.
  assert (Hget : Forall (fun o => op o <> OP_SInsert)
                   (aOp (sqlGetVdbe
                           (raise p ER_CREATE_SPACE
                              [space_name def; "PRIMARY KEY missing"])))).
  { apply sqlGetVdbe_no_insert. split; [exact Hrec|exact Hops]. }
  assert (Hrl : record_list
                  (sqlVdbeAddOp0
                     (sqlGetVdbe
                        (raise p ER_CREATE_SPACE
                           [space_name def; "PRIMARY KEY missing"])) OP_Halt)
                = []).
  { unfold sqlGetVdbe. simpl. destruct (pVdbe p); simpl; exact Hrec. }
  rewrite Hrl.
  assert (Hab : is_aborted
                  (sqlVdbeAddOp0
                     (sqlGetVdbe
                        (raise p ER_CREATE_SPACE
                           [space_name def; "PRIMARY KEY missing"])) OP_Halt)
                = true).
  { unfold sqlGetVdbe. simpl. destruct (pVdbe p); reflexivity. }
  unfold sql_finish_coding_termination. rewrite Hab.
  unfold sqlVdbeAddOp0, sqlVdbeAddOp3, sqlVdbeAddOp4. unfold aOp at 1. simpl.
  apply Forall_app. split; [exact Hget|]. repeat constructor; simpl; discriminate.
Qed.

End NoPrimaryKey.

Lemma create_table_without_primary_key_witness :
  let p := @sql_create_index reference_api
             (sqlAddColumn (@create_table reference_api fresh_parse "T") "A"
                FIELD_TYPE_INTEGER)
             (unique_constraint None ["A"]) in
  is_aborted (@sqlEndTable reference_api p) = true
  /\ aOp (@sqlEndTable reference_api p) = aOp p.
Proof.
  intros p.
  destruct (@create_table_without_primary_key reference_api fresh_parse "T"
              [AddColumn "A" FIELD_TYPE_INTEGER;
               AddUnique None (Some [TK_ID "A"])]
              p
              (mk_space 0 "T" "memtx" false true
                 [mk_field_def "A" FIELD_TYPE_INTEGER ON_CONFLICT_ACTION_DEFAULT
                    true COLL_NONE None] 1
                 [mk_index_def "unique_unnamed_T_1" 1 true
                    [mk_key_part 0 FIELD_TYPE_INTEGER ON_CONFLICT_ACTION_DEFAULT
                       false COLL_NONE 0]] 1 [] [] [] [] None))
    as (Hab & _ & Hops & _).
  - split; [reflexivity|constructor].
  - reflexivity.
  - reflexivity.
  - reflexivity.
  - split; [exact Hab|exact Hops].
Defined.

(** ** DROP TABLE and foreign keys *)

Section DropTable.
Context `{BoxApi}.

Lemma alter_last {A} (f : A -> A) (l : list A) (x : A) :
  alter f (length l) (l ++ [x]) = l ++ [f x].
Proof.
  rewrite <- (Nat.add_0_r (length l)). rewrite alter_app_r. reflexivity.
Qed.

Lemma sql_code_drop_table_last p sp view :
  exists reg,
    last (aOp (sql_code_drop_table p sp view))
    = Some (mk_op OP_SDelete BOX_SPACE_ID reg 0 P4_NOTUSED OPFLAG_NCHANGE).
Proof.
  unfold sql_code_drop_table. cbv zeta.
  match goal with
  | |- context [sqlVdbeChangeP5 (sqlVdbeAddOp2 ?x OP_SDelete BOX_SPACE_ID ?r) _] =>
      generalize x; intros q; exists r
  end.
  rewrite aOp_sqlVdbeChangeP5. unfold nOp.
  rewrite aOp_sqlVdbeAddOp2, length_app. simpl.
  replace (length (aOp q) + 1 - 1) with (length (aOp q)) by lia.
  rewrite alter_last. rewrite last_snoc. reflexivity.
Qed.

Lemma space_by_name_sqlGetVdbe p name :
  space_by_name (sqlGetVdbe p) name = space_by_name p name.
Proof. unfold space_by_name, sqlGetVdbe. destruct (pVdbe p); reflexivity. Qed.

(** C8: for a table found in the schema and dropped with the matching
    statement, a foreign key that references it from another table
    (child and parent differ) makes sql_drop_table fail with the
    "other objects depend on it" error without emitting an
    instruction; when every foreign key that references the table is a
    self-reference, the drop sequence is emitted, down to the deletion
    of the table's row from "_space". *)
Theorem drop_table_referenced_by_foreign_key p drop_def sp :
  space_by_name p (entity_name drop_def) = Some sp ->
  drop_view drop_def = is_view sp ->
  let q := sql_drop_table p drop_def in
  ((exists fk, fk ∈ parent_fk_constraint sp /\ child_id fk <> parent_id fk) ->
   is_aborted q = true
   /\ diag q
      = Some (ClientError ER_DROP_SPACE
                [entity_name drop_def; "other objects depend on it"])
   /\ aOp q = aOp (sqlGetVdbe p))
  /\ ((forall fk, fk ∈ parent_fk_constraint sp -> child_id fk = parent_id fk) ->
      q = sql_code_drop_table (sqlGetVdbe p) sp (drop_view drop_def)
      /\ exists reg,
           last (aOp q)
           = Some (mk_op OP_SDelete BOX_SPACE_ID reg 0 P4_NOTUSED
                     OPFLAG_NCHANGE)).
Proof.
  intros Hsp Hkind q. unfold q, sql_drop_table.
  rewrite space_by_name_sqlGetVdbe, Hsp, Hkind.
  rewrite andb_negb_r, andb_negb_l.
  split.
  - intros (fk & Hin & Hne).
    assert (Hex : existsb (fun fk => negb (fk_constraint_is_self_referenced fk))
                    (parent_fk_constraint sp) = true).
    { apply existsb_exists. exists fk. split.
      - apply list_elem_of_In. exact Hin.
      - unfold fk_constraint_is_self_referenced.
        apply negb_true_iff. apply Nat.eqb_neq. exact Hne. }
    rewrite Hex. split; [reflexivity|]. split; reflexivity.
  - intros Hall.
    assert (Hex : existsb (fun fk => negb (fk_constraint_is_self_referenced fk))
                    (parent_fk_constraint sp) = false).
    { apply not_true_is_false. intros Hex.
      apply existsb_exists in Hex as (fk & Hin & Hfk).
      apply list_elem_of_In in Hin. apply Hall in Hin.
      unfold fk_constraint_is_self_referenced in Hfk.
      apply negb_true_iff in Hfk. apply Nat.eqb_neq in Hfk. contradiction. }
    rewrite Hex. split; [reflexivity|]. apply sql_code_drop_table_last.
Qed.

End DropTable.

Lemma drop_table_referenced_by_foreign_key_witness :
  is_aborted
    (@sql_drop_table reference_api schema_with_foreign_keys
       (mk_drop_table_def "P" false false)) = true
  /\ exists reg,
       last (aOp (@sql_drop_table reference_api schema_with_foreign_keys
                    (mk_drop_table_def "S" false false)))
       = Some (mk_op OP_SDelete BOX_SPACE_ID reg 0 P4_NOTUSED OPFLAG_NCHANGE).
Proof.
  split.
  - refine (proj1 (proj1 (@drop_table_referenced_by_foreign_key reference_api
                            schema_with_foreign_keys
                            (mk_drop_table_def "P" false false) _
                            eq_refl eq_refl) _)).
    eexists. split; [apply list_elem_of_here|]. simpl. lia.
  - refine (proj2 (proj2 (@drop_table_referenced_by_foreign_key reference_api
                            schema_with_foreign_keys
                            (mk_drop_table_def "S" false false) _
                            eq_refl eq_refl) _)).
    intros fk Hin. apply list_elem_of_singleton in Hin. subst. reflexivity.
Defined.

(** ** UNIQUE and PRIMARY KEY over the same columns *)

Section UniquePrimaryKey.
Context `{BoxApi}.

Lemma merge_pk_repurposes idx l1 e l2 :
  repurposable idx e = true ->
  Forall (fun x => repurposable idx x = false) l1 ->
  merge_with_existing SQL_INDEX_TYPE_CONSTRAINT_PK idx (l1 ++ e :: l2)
  = Some (l1 ++ set_iid e 0 :: l2).
Proof.
  unfold repurposable. intros He Hl1.
  induction Hl1 as [|x l1 Hx Hl1 IH]; simpl.
  - apply andb_prop in He as [He Hnamed]. apply andb_prop in He as [Hsame Hiid].
    rewrite Hsame, Hiid, Hnamed. reflexivity.
  - destruct (same_key_parts (parts idx) (parts x)); simpl in *.
    + rewrite Hx. simpl. rewrite IH. reflexivity.
    + rewrite IH. reflexivity.
Qed.

Lemma merge_pk_attaches idx l :
  Forall (fun x => repurposable idx x = false) l ->
  merge_with_existing SQL_INDEX_TYPE_CONSTRAINT_PK idx l = None.
Proof.
  unfold repurposable. intros Hl.
  induction Hl as [|x l Hx Hl IH]; simpl; [reflexivity|].
  destruct (same_key_parts (parts idx) (parts x)); simpl in *.
  - rewrite Hx. simpl. rewrite IH. reflexivity.
  - rewrite IH. reflexivity.
Qed.

Lemma merge_unique_unnamed_drops idx l e :
  constraint_is_named (index_name idx) = false ->
  e ∈ l ->
  same_key_parts (parts idx) (parts e) = true ->
  merge_with_existing SQL_INDEX_TYPE_CONSTRAINT_UNIQUE idx l = Some l.
Proof.
  intros Hname Hin Hsame.
  induction Hin as [e l|e x l Hin IH]; simpl.
  - rewrite Hsame, Hname. reflexivity.
  - rewrite Hname, (IH Hsame). simpl.
    destruct (same_key_parts (parts idx) (parts x)); reflexivity.
Qed.

Lemma merge_unique_named_attaches idx l :
  constraint_is_named (index_name idx) = true ->
  merge_with_existing SQL_INDEX_TYPE_CONSTRAINT_UNIQUE idx l = None.
Proof.
  intros Hname. induction l as [|x l IH]; simpl; [reflexivity|].
  rewrite Hname, IH. simpl.
  destruct (same_key_parts (parts idx) (parts x)); reflexivity.
Qed.

Lemma table_add_index_primary def idx :
  iid idx = 0 ->
  exists rest,
    index (table_add_index def idx) = idx :: rest
    /\ length rest = length (index def).
Proof.
  intros Hiid. unfold table_add_index.
  destruct (index def) as [|first others]; [exists []; auto|].
  rewrite Hiid. simpl. exists (others ++ [first]). split; [reflexivity|].
  rewrite length_app. simpl. lia.
Qed.

Lemma prefix_append pat s : String.prefix pat (pat +:+ s) = true.
Proof.
  induction pat as [|a pat IH]; simpl; [destruct s; reflexivity|].
  destruct (ascii_dec a a); [exact IH|contradiction].
Qed.

(** The generated name of an unnamed constraint is recognised as
    generated. *)
Lemma unnamed_constraint_is_not_named t space_name idx_count :
  constraint_is_named (constraint_index_name t None space_name idx_count)
  = false.
Proof.
  unfold constraint_is_named, constraint_index_name.
  destruct t; rewrite (prefix_append _ _); simpl;
    rewrite ?andb_false_r; reflexivity.
Qed.

Lemma prefix_before_separator pat : forall c rest,
  Forall (fun ch => ch <> "_"%char) (list_ascii_of_string pat) ->
  String.prefix pat c = false ->
  String.prefix (pat +:+ "_") (c +:+ String "_" rest) = false.
Proof.
  induction pat as [|a pat IH]; intros c rest Hpat; simpl.
  - destruct c; discriminate.
  - inversion Hpat as [|? ? Ha Hpat']; subst.
    destruct c as [|x c]; simpl.
    + destruct (ascii_dec a "_"); [contradiction|reflexivity].
    + destruct (ascii_dec a x); [apply IH; assumption|reflexivity].
Qed.

(** The index of a UNIQUE constraint with a name of its own counts as
    named, unless the name is empty or starts with "unnamed". *)
Lemma named_unique_constraint_is_named c space_name idx_count :
  c <> "" ->
  String.prefix "unnamed" c = false ->
  constraint_is_named
    (constraint_index_name SQL_INDEX_TYPE_CONSTRAINT_UNIQUE (Some c)
       space_name idx_count) = true.
Proof.
  intros Hne Hpre. unfold constraint_index_name.
  destruct (String.eqb_spec c ""); [contradiction|].
  unfold constraint_is_named.
  change ("unique_" +:+ c +:+ "_" +:+ decimal (idx_count + 1))
    with ("unique_" +:+ (c +:+ String "_" (decimal (idx_count + 1)))).
  assert (Hu : String.prefix "unique_unnamed_"
                 ("unique_" +:+ (c +:+ String "_" (decimal (idx_count + 1))))
               = false).
  { change (String.prefix ("unnamed" +:+ "_")
              (c +:+ String "_" (decimal (idx_count + 1))) = false).
    apply prefix_before_separator; [|exact Hpre].
    repeat constructor; discriminate. }
  rewrite Hu. reflexivity.
Qed.

(** C2 (amended): when sql_create_index gets as far as comparing the
    new index [idx] with the attached ones, (1) a PRIMARY KEY, named or
    not, takes over the first attached index over the same columns and
    collations that is not a primary key and has a generated name: that
    index gets id 0 and no index is added; (2) an unnamed UNIQUE over
    the columns of an attached index is not created; (3) a UNIQUE with
    a name of its own is always added; (4) a PRIMARY KEY that finds no
    index to take over is added in slot 0. *)
Theorem unique_and_primary_key_merge p cid p' def idx :
  sql_create_index_prepare p cid = (p', Some (def, idx)) ->
  let q := sql_create_index p cid in
  (idx_type cid = SQL_INDEX_TYPE_CONSTRAINT_PK ->
   forall l1 e l2,
     index def = l1 ++ e :: l2 ->
     repurposable idx e = true ->
     Forall (fun x => repurposable idx x = false) l1 ->
     exists def',
       new_space q = Some def'
       /\ index def' = l1 ++ set_iid e 0 :: l2
       /\ index_count def' = index_count def)
  /\ (idx_type cid = SQL_INDEX_TYPE_CONSTRAINT_UNIQUE ->
      constraint_is_named (index_name idx) = false ->
      forall e,
        e ∈ index def ->
        same_key_parts (parts idx) (parts e) = true ->
        exists def', new_space q = Some def' /\ index def' = index def)
  /\ (idx_type cid = SQL_INDEX_TYPE_CONSTRAINT_UNIQUE ->
      constraint_is_named (index_name idx) = true ->
      exists def',
        new_space q = Some def'
        /\ index def' = index def ++ [idx]
        /\ index_count def' = index_count def + 1)
  /\ (idx_type cid = SQL_INDEX_TYPE_CONSTRAINT_PK ->
      Forall (fun x => repurposable idx x = false) (index def) ->
      exists def' rest,
        new_space q = Some def'
        /\ index def' = idx :: rest
        /\ index_count def' = index_count def + 1).
Proof.
  intros Hprep q. unfold q, sql_create_index. rewrite Hprep.
  destruct (sql_create_index_prepare_spec _ _ _ _ Hprep) as [_ Hr].
  destruct (Hr def idx eq_refl) as (_ & Hiid & _).
  split; [|split; [|split]].
  - intros Ht l1 e l2 Hix He Hl1. rewrite Ht, Hix.
    rewrite merge_pk_repurposes by assumption.
    eexists. split; [reflexivity|]. split; [reflexivity|].
    unfold index_count. simpl. rewrite Hix, !length_app. reflexivity.
  - intros Ht Hname e Hin Hsame. rewrite Ht.
    rewrite (merge_unique_unnamed_drops idx (index def) e) by assumption.
    eexists. split; reflexivity.
  - intros Ht Hname. rewrite Ht in *.
    rewrite merge_unique_named_attaches by assumption.
    assert (Hne : iid idx <> 0) by (simpl in Hiid; lia).
    eexists. split; [reflexivity|].
    rewrite (table_add_index_secondary def idx Hne).
    split; [reflexivity|]. unfold index_count.
    rewrite (table_add_index_secondary def idx Hne), length_app. reflexivity.
  - intros Ht Hall. rewrite Ht in *.
    rewrite merge_pk_attaches by assumption.
    destruct (table_add_index_primary def idx Hiid) as (rest & Hix & Hlen).
    eexists _, rest. split; [reflexivity|]. split; [exact Hix|].
    unfold index_count. rewrite Hix. simpl. lia.
Qed.

End UniquePrimaryKey.

(** The two statements of the specification:
    CREATE TABLE t(a INT, UNIQUE(a), PRIMARY KEY(a)) leaves one index,
    the UNIQUE one with id 0;
    CREATE TABLE t(a INT, CONSTRAINT u UNIQUE(a), PRIMARY KEY(a))
    leaves two. *)
Lemma unique_then_primary_key_examples :
  attached_indexes
    (run_create_table
       [AddColumn "A" FIELD_TYPE_INTEGER;
        AddUnique None (Some [TK_ID "A"]);
        AddPrimaryKey None (Some [TK_ID "A"])])
  = Some [("unique_unnamed_T_1", 0)]
  /\ attached_indexes
       (run_create_table
          [AddColumn "A" FIELD_TYPE_INTEGER;
           AddUnique (Some "U") (Some [TK_ID "A"]);
           AddPrimaryKey None (Some [TK_ID "A"])])
     = Some [("pk_unnamed_T_2", 0); ("unique_U_1", 1)]
  /\ attached_indexes
       (run_create_table
          [AddColumn "A" FIELD_TYPE_INTEGER;
           AddPrimaryKey None (Some [TK_ID "A"]);
           AddUnique None (Some [TK_ID "A"])])
     = Some [("pk_unnamed_T_1", 0)].
Proof. repeat split; vm_compute; reflexivity. Qed.

Lemma unique_and_primary_key_merge_witness :
  let p := sqlAddColumn (@create_table reference_api fresh_parse "T") "A"
             FIELD_TYPE_INTEGER in
  let p1 := @sql_create_index reference_api p (unique_constraint None ["A"]) in
  (exists def',
      new_space (@sql_create_index reference_api p1
                   (primary_key_constraint (Some "P") ["A"])) = Some def'
      /\ index_count def' = 1)
  /\ (exists def',
         new_space (@sql_create_index reference_api p1
                      (unique_constraint (Some "U") ["A"])) = Some def'
         /\ index_count def' = 2).
Proof.
  intros p p1.
  pose (part := mk_key_part 0 FIELD_TYPE_INTEGER ON_CONFLICT_ACTION_DEFAULT
                  false COLL_NONE 0).
  pose (unique := mk_index_def "unique_unnamed_T_1" 1 true [part]).
  pose (def := mk_space 0 "T" "memtx" false true
                 [mk_field_def "A" FIELD_TYPE_INTEGER ON_CONFLICT_ACTION_DEFAULT
                    true COLL_NONE None] 1 [unique] 1 [] [] [] [] None).
  split.
  - destruct (@unique_and_primary_key_merge reference_api p1
                (primary_key_constraint (Some "P") ["A"]) p1 def
                (mk_index_def "pk_P_2" 0 true [part]) eq_refl)
      as (Hpk & _).
    destruct (Hpk eq_refl [] unique [] eq_refl eq_refl (List.Forall_nil _))
      as (def' & Hdef' & _ & Hcount).
    exists def'. split; [exact Hdef'|exact Hcount].
  - destruct (@unique_and_primary_key_merge reference_api p1
                (unique_constraint (Some "U") ["A"]) p1 def
                (mk_index_def "unique_U_2" 2 true [part]) eq_refl)
      as (_ & _ & Hnamed & _).
    destruct (Hnamed eq_refl eq_refl) as (def' & Hdef' & _ & Hcount).
    exists def'. split; [exact Hdef'|exact Hcount].
Defined.

(** C2 as stated fails: an explicit name on the PRIMARY KEY does not
    keep the two indexes apart.
    CREATE TABLE t(a INT, CONSTRAINT p PRIMARY KEY(a), UNIQUE(a)) and
    CREATE TABLE t(a INT, UNIQUE(a), CONSTRAINT p PRIMARY KEY(a)) both
    end with one index, not two. *)
Lemma named_primary_key_still_merges :
  attached_indexes
    (run_create_table
       [AddColumn "A" FIELD_TYPE_INTEGER;
        AddPrimaryKey (Some "P") (Some [TK_ID "A"]);
        AddUnique None (Some [TK_ID "A"])])
  = Some [("pk_P_1", 0)]
  /\ attached_indexes
       (run_create_table
          [AddColumn "A" FIELD_TYPE_INTEGER;
           AddUnique None (Some [TK_ID "A"]);
           AddPrimaryKey (Some "P") (Some [TK_ID "A"])])
     = Some [("unique_unnamed_T_1", 0)].
Proof. split; vm_compute; reflexivity. Qed.

(** ** The primary key and slot 0 *)


(** C9 (violated by the code): for
    CREATE TABLE t(a INT, b INT, UNIQUE(b), UNIQUE(a), PRIMARY KEY(a))
    sql_create_index gives id 0 to the index of UNIQUE(a) where it
    stands, in slot 1; slot 0 keeps the index of UNIQUE(b), so
    sql_space_primary_key finds no primary key and the assertion of
    sqlAddPrimaryKey fails. *)
Theorem primary_key_left_outside_slot_0 :
  let declared :=
    [AddColumn "A" FIELD_TYPE_INTEGER; AddColumn "B" FIELD_TYPE_INTEGER;
     AddUnique None (Some [TK_ID "B"]); AddUnique None (Some [TK_ID "A"])] in
  attached_indexes
    (p ← run_create_table declared;
     Some (@sql_create_index reference_api p
             (primary_key_constraint None ["A"])))
  = Some [("unique_unnamed_T_1", 1); ("unique_unnamed_T_2", 0)]
  /\ (p ← run_create_table declared;
      def ← new_space (@sql_create_index reference_api p
                         (primary_key_constraint None ["A"]));
      Some (sql_space_primary_key def)) = Some None
  /\ run_create_table (declared ++ [AddPrimaryKey None (Some [TK_ID "A"])])
     = None.
Proof. repeat split; vm_compute; reflexivity. Qed.

Lemma primary_key_parts_deduplicated_witness :
  let part n := mk_key_part n FIELD_TYPE_STRING ON_CONFLICT_ACTION_DEFAULT
                  false COLL_NONE 0 in
  remove_redundant_parts [part 1; part 0; part 1; part 2; part 0]
  = [part 1; part 0; part 2]
  /\ exists k,
       [part 1; part 0; part 1; part 2; part 0] !! k = Some (part 2)
       /\ forall k' q,
            k' < k ->
            [part 1; part 0; part 1; part 2; part 0] !! k' = Some q ->
            fieldno q <> 2.
Proof.
  intros part.
  destruct (proj1 primary_key_parts_deduplicated
              [part 1; part 0; part 1; part 2; part 0])
    as (Hkept & _ & _ & _ & Hfirst).
  split; [exact Hkept|].
  apply (Hfirst 2 (part 2)). reflexivity.
Defined.

(** ** Emission only appends *)

Section Emission.
Context `{BoxApi}.

Lemma nOp_sqlVdbeAddOp4 p o a b c d : nOp (sqlVdbeAddOp4 p o a b c d) = nOp p + 1.
Proof. unfold nOp. rewrite aOp_sqlVdbeAddOp4, length_app. reflexivity. Qed.

Lemma emits_recs_refl p : emits_recs p p [].
Proof.
  split; [exists []; rewrite app_nil_r; reflexivity|].
  split; [reflexivity|]. split; constructor.
Qed.

Lemma new_record_ok_mono prog base r ops base' :
  base' <= base ->
  new_record_ok prog base r -> new_record_ok (prog ++ ops) base' r.
Proof.
  intros Hle (Hb & o & Ho & Hop & Hp1). split; [lia|].
  exists o. split; [apply lookup_app_l_Some; exact Ho|auto].
Qed.

Lemma emits_recs_trans p q r recs1 recs2 :
  emits_recs p q recs1 -> emits_recs q r recs2 ->
  emits_recs p r (recs2 ++ recs1).
Proof.
  intros ((ops1 & Ho1) & Hr1 & Hok1 & Hnd1) ((ops2 & Ho2) & Hr2 & Hok2 & Hnd2).
  assert (Hlen : nOp p <= nOp q).
  { unfold nOp. rewrite Ho1, length_app. lia. }
  split; [exists (ops1 ++ ops2); rewrite Ho2, Ho1, app_assoc; reflexivity|].
  split; [rewrite Hr2, Hr1, app_assoc; reflexivity|].
  split.
  - apply Forall_app. split.
    + eapply Forall_impl; [exact Hok2|]. intros x (Hb & Hx). split; [lia|exact Hx].
    + rewrite Ho2. eapply Forall_impl; [exact Hok1|]. intros x Hx.
      eapply new_record_ok_mono; [|exact Hx]. lia.
  - rewrite fmap_app. apply NoDup_app. split; [exact Hnd2|].
    split; [|exact Hnd1].
    intros a Ha2 Ha1.
    apply list_elem_of_fmap in Ha2 as (x2 & -> & Hx2).
    apply list_elem_of_fmap in Ha1 as (x1 & Heq & Hx1).
    rewrite Forall_forall in Hok1, Hok2.
    destruct (Hok2 x2 Hx2) as (Hb2 & _).
    destruct (Hok1 x1 Hx1) as (_ & o & Ho & _).
    apply lookup_lt_Some in Ho. unfold nOp in Hb2. lia.
Qed.

Lemma emits_refl p : emits p p.
Proof. exists []. apply emits_recs_refl. Qed.

Lemma emits_trans p q r : emits p q -> emits q r -> emits p r.
Proof.
  intros (r1 & H1) (r2 & H2). exists (r2 ++ r1).
  eapply emits_recs_trans; eassumption.
Qed.

(** A step that leaves the program and the ledger alone. *)
Lemma emits_same p q :
  aOp q = aOp p -> record_list q = record_list p -> emits p q.
Proof.
  intros Ho Hr. exists []. split; [exists []; rewrite app_nil_r; exact Ho|].
  split; [exact Hr|]. split; constructor.
Qed.

Lemma emits_errors_only p q : errors_only p q -> emits p q.
Proof. intros (b & d & ->). apply emits_same; reflexivity. Qed.

Lemma emits_sqlGetVdbe p : emits p (sqlGetVdbe p).
Proof.
  unfold sqlGetVdbe. destruct (pVdbe p) eqn:Hv; [apply emits_refl|].
  exists []. split.
  - unfold aOp. rewrite Hv. simpl. eexists. reflexivity.
  - split; [reflexivity|]. split; constructor.
Qed.

Lemma emits_AddOp4 p o a b c d : emits p (sqlVdbeAddOp4 p o a b c d).
Proof.
  exists []. split; [eexists; apply aOp_sqlVdbeAddOp4|].
  split; [reflexivity|]. split; constructor.
Qed.

Lemma emits_AddOp4_P5 p o a b c d v :
  emits p (sqlVdbeChangeP5 (sqlVdbeAddOp4 p o a b c d) v).
Proof.
  exists []. split.
  - exists [mk_op o a b c d v].
    rewrite aOp_sqlVdbeChangeP5, nOp_sqlVdbeAddOp4, aOp_sqlVdbeAddOp4.
    unfold nOp. replace (length (aOp p) + 1 - 1) with (length (aOp p)) by lia.
    rewrite alter_last. reflexivity.
  - split; [reflexivity|]. split; constructor.
Qed.

(** An insertion together with its record. *)
Lemma emits_insert p space_id reg key count :
  emits_recs p
    (save_record (sqlVdbeAddOp3 p OP_SInsert space_id 0 reg) space_id key count
       (nOp (sqlVdbeAddOp3 p OP_SInsert space_id 0 reg) - 1))
    [mk_saved_record space_id key count (nOp p)].
Proof.
  unfold sqlVdbeAddOp3. rewrite nOp_sqlVdbeAddOp4.
  replace (nOp p + 1 - 1) with (nOp p) by lia.
  split; [eexists; rewrite aOp_save_record; apply aOp_sqlVdbeAddOp4|].
  split; [reflexivity|]. split; [|repeat constructor; apply not_elem_of_nil].
  constructor; [|constructor]. split; [simpl; lia|].
  rewrite aOp_save_record, aOp_sqlVdbeAddOp4. simpl.
  eexists. split; [apply list_lookup_middle; reflexivity|]. split; reflexivity.
Qed.

Lemma emits_insert_P5 p space_id reg key count v :
  emits_recs p
    (save_record
       (sqlVdbeChangeP5 (sqlVdbeAddOp3 p OP_SInsert space_id 0 reg) v)
       space_id key count
       (nOp (sqlVdbeChangeP5 (sqlVdbeAddOp3 p OP_SInsert space_id 0 reg) v) - 1))
    [mk_saved_record space_id key count (nOp p)].
Proof.
  assert (Hops : aOp (sqlVdbeChangeP5
                        (sqlVdbeAddOp3 p OP_SInsert space_id 0 reg) v)
                 = aOp p ++ [mk_op OP_SInsert space_id 0 reg P4_NOTUSED v]).
  { unfold sqlVdbeAddOp3.
    rewrite aOp_sqlVdbeChangeP5, nOp_sqlVdbeAddOp4, aOp_sqlVdbeAddOp4.
    unfold nOp. replace (length (aOp p) + 1 - 1) with (length (aOp p)) by lia.
    rewrite alter_last. reflexivity. }
  assert (Hn : nOp (sqlVdbeChangeP5
                      (sqlVdbeAddOp3 p OP_SInsert space_id 0 reg) v) - 1
               = nOp p).
  { unfold nOp at 1. rewrite Hops, length_app. simpl. unfold nOp. lia. }
  rewrite Hn.
  split; [eexists; rewrite aOp_save_record; exact Hops|].
  split; [reflexivity|]. split; [|repeat constructor; apply not_elem_of_nil].
  constructor; [|constructor]. split; [simpl; lia|].
  rewrite aOp_save_record, Hops. simpl.
  eexists. split; [apply list_lookup_middle; reflexivity|]. split; reflexivity.
Qed.

Lemma emits_of_recs p q recs : emits_recs p q recs -> emits p q.
Proof. intros Hr. exists recs. exact Hr. Qed.

Lemma emits_AddOp3 p o a b c : emits p (sqlVdbeAddOp3 p o a b c).
Proof. apply emits_AddOp4. Qed.
Lemma emits_AddOp2 p o a b : emits p (sqlVdbeAddOp2 p o a b).
Proof. apply emits_AddOp4. Qed.
Lemma emits_AddOp1 p o a : emits p (sqlVdbeAddOp1 p o a).
Proof. apply emits_AddOp4. Qed.
Lemma emits_AddOp0 p o : emits p (sqlVdbeAddOp0 p o).
Proof. apply emits_AddOp4. Qed.
Lemma emits_AddOp4Int p o a b c n : emits p (sqlVdbeAddOp4Int p o a b c n).
Proof. apply emits_AddOp4. Qed.
Lemma emits_AddOp0_P5 p o v : emits p (sqlVdbeChangeP5 (sqlVdbeAddOp0 p o) v).
Proof. apply emits_AddOp4_P5. Qed.
Lemma emits_set_nMem p n : emits p (set_nMem p n).
Proof. apply emits_same; reflexivity. Qed.
Lemma emits_set_nTab p n : emits p (set_nTab p n).
Proof. apply emits_same; reflexivity. Qed.
Lemma emits_set_new_space p s : emits p (set_new_space p s).
Proof. apply emits_same; reflexivity. Qed.
Lemma emits_raise p c a : emits p (raise p c a).
Proof. apply emits_same; reflexivity. Qed.
Lemma emits_open_cursor p a b c : emits p (vdbe_emit_open_cursor p a b c).
Proof. apply emits_AddOp4. Qed.
Lemma emits_open_cursor_P5 p a b c v :
  emits p (sqlVdbeChangeP5 (vdbe_emit_open_cursor p a b c) v).
Proof. apply emits_AddOp4_P5. Qed.
Lemma emits_release p i n : emits p (sqlReleaseTempRange p i n).
Proof.
  unfold sqlReleaseTempRange. destruct (nRangeReg p <? n);
    [apply emits_same; reflexivity|apply emits_refl].
Qed.
Lemma emits_temp_range p n : emits p (fst (sqlGetTempRange p n)).
Proof.
  unfold sqlGetTempRange. destruct (n <=? nRangeReg p);
    apply emits_same; reflexivity.
Qed.
Lemma emits_save_insert p space_id reg key count :
  emits p
    (save_record (sqlVdbeAddOp3 p OP_SInsert space_id 0 reg) space_id key count
       (nOp (sqlVdbeAddOp3 p OP_SInsert space_id 0 reg) - 1)).
Proof. eapply emits_of_recs. apply emits_insert. Qed.
Lemma emits_save_insert_P5 p space_id reg key count v :
  emits p
    (save_record
       (sqlVdbeChangeP5 (sqlVdbeAddOp3 p OP_SInsert space_id 0 reg) v)
       space_id key count
       (nOp (sqlVdbeChangeP5 (sqlVdbeAddOp3 p OP_SInsert space_id 0 reg) v) - 1)).
Proof. eapply emits_of_recs. apply emits_insert_P5. Qed.

End Emission.

(** A chain of emissions is taken apart from its last call inwards. *)
Ltac emits_basic_step :=
  idtac;
  lazymatch goal with
  | |- emits _ (save_record (sqlVdbeChangeP5 _ _) _ _ _ _) =>
      apply emits_save_insert_P5
  | |- emits _ (save_record _ _ _ _ _) => apply emits_save_insert
  | |- emits _ (sqlVdbeChangeP5 (sqlVdbeAddOp4 _ _ _ _ _ _) _) =>
      apply emits_AddOp4_P5
  | |- emits _ (sqlVdbeChangeP5 (sqlVdbeAddOp0 _ _) _) => apply emits_AddOp0_P5
  | |- emits _ (sqlVdbeChangeP5 (vdbe_emit_open_cursor _ _ _ _) _) =>
      apply emits_open_cursor_P5
  | |- emits _ (sqlVdbeAddOp4 _ _ _ _ _ _) => apply emits_AddOp4
  | |- emits _ (sqlVdbeAddOp3 _ _ _ _ _) => apply emits_AddOp3
  | |- emits _ (sqlVdbeAddOp2 _ _ _ _) => apply emits_AddOp2
  | |- emits _ (sqlVdbeAddOp1 _ _ _) => apply emits_AddOp1
  | |- emits _ (sqlVdbeAddOp0 _ _) => apply emits_AddOp0
  | |- emits _ (sqlVdbeAddOp4Int _ _ _ _ _ _) => apply emits_AddOp4Int
  | |- emits _ (vdbe_emit_open_cursor _ _ _ _) => apply emits_open_cursor
  | |- emits _ (set_nMem _ _) => apply emits_set_nMem
  | |- emits _ (set_nTab _ _) => apply emits_set_nTab
  | |- emits _ (set_new_space _ _) => apply emits_set_new_space
  | |- emits _ (raise _ _ _) => apply emits_raise
  | |- emits _ (sqlReleaseTempRange _ _ _) => apply emits_release
  | |- emits _ (sqlGetVdbe _) => apply emits_sqlGetVdbe
  end.

Ltac emits_chain_with step :=
  lazymatch goal with
  | |- emits ?p ?q =>
      first [ constr_eq p q; apply emits_refl
            | eapply emits_trans; [ | step ]; [ emits_chain_with step ] ]
  end.

Ltac emits_chain := emits_chain_with emits_basic_step.

Section Emitters.
Context `{BoxApi}.

Lemma emits_presence_test p a b c d e f g h :
  emits p (vdbe_emit_halt_with_presence_test p a b c d e f g h).
Proof.
  unfold vdbe_emit_halt_with_presence_test. cbv zeta.
  destruct g; cbv beta iota zeta; emits_chain.
Qed.

Lemma emits_getNewSpaceId p : emits p (fst (getNewSpaceId p)).
Proof. unfold getNewSpaceId. cbv beta iota zeta delta [fst]. emits_chain. Qed.

Lemma emits_space_create p a b sp : emits p (vdbe_emit_space_create p a b sp).
Proof. unfold vdbe_emit_space_create. cbv zeta. emits_chain. Qed.

Lemma emits_create_index p def idx a b :
  emits p (vdbe_emit_create_index p def idx a b).
Proof.
  unfold vdbe_emit_create_index. cbv zeta.
  generalize (emits_sqlGetVdbe p). generalize (sqlGetVdbe p). intros p0 H0.
  eapply emits_trans; [exact H0|].
  change (new_space (set_nMem (set_nMem p0 (nMem p0 + 1))
                       (nMem (set_nMem p0 (nMem p0 + 1)) + 6)))
    with (new_space p0).
  destruct (new_space p0); emits_chain.
Qed.

End Emitters.

Ltac emits_step :=
  idtac;
  lazymatch goal with
  | |- emits _ (vdbe_emit_halt_with_presence_test _ _ _ _ _ _ _ _ _) =>
      apply emits_presence_test
  | |- emits _ (vdbe_emit_space_create _ _ _ _) => apply emits_space_create
  | |- emits _ (vdbe_emit_create_index _ _ _ _ _) => apply emits_create_index
  | |- _ => emits_basic_step
  end.

Ltac emits_calls := emits_chain_with emits_step.

Section EndTable.
Context `{BoxApi}.

Lemma emits_sequence_record p a b : emits p (fst (emitNewSysSequenceRecord p a b)).
Proof.
  unfold emitNewSysSequenceRecord. cbv beta iota zeta delta [fst]. emits_chain.
Qed.

Lemma emits_space_sequence_record p a b c :
  emits p (fst (emitNewSysSpaceSequenceRecord p a b c)).
Proof.
  unfold emitNewSysSpaceSequenceRecord. cbv beta iota zeta delta [fst].
  emits_chain.
Qed.

Lemma emits_ck_constraint_create p ck reg :
  emits p (vdbe_emit_ck_constraint_create p ck reg).
Proof.
  unfold vdbe_emit_ck_constraint_create. cbv zeta.
  eapply emits_trans; [apply emits_sqlGetVdbe|].
  generalize (sqlGetVdbe p). clear p. intros p.
  pose proof (emits_temp_range p 6) as Hr.
  destruct (sqlGetTempRange p 6) as [p1 r]. simpl in Hr.
  eapply emits_trans; [exact Hr|]. emits_calls.
Qed.

Lemma emits_fk_constraint_create p fk :
  emits p (vdbe_emit_fk_constraint_create p fk).
Proof.
  unfold vdbe_emit_fk_constraint_create. cbv zeta.
  eapply emits_trans; [apply emits_sqlGetVdbe|].
  generalize (sqlGetVdbe p). clear p. intros p.
  pose proof (emits_temp_range p 10) as Hr.
  destruct (sqlGetTempRange p 10) as [p1 r]. simpl in Hr.
  eapply emits_trans; [exact Hr|].
  change (new_space (sqlVdbeAddOp4 p1 OP_String8 0 r 0 (P4_DYNAMIC (fk_name fk))))
    with (new_space p1).
  destruct (bool_decide (new_space p1 <> None));
    destruct (fk_constraint_is_self_referenced fk);
    cbv beta iota zeta delta [andb]; emits_calls.
Qed.

Lemma emits_fold_left {A} (f : Parse -> A -> Parse) (l : list A) :
  (forall p x, emits p (f p x)) -> forall p, emits p (fold_left f l p).
Proof.
  intros Hf. induction l as [|x l IH]; intros p; simpl; [apply emits_refl|].
  eapply emits_trans; [apply Hf|apply IH].
Qed.

Lemma resolve_link_errors p def name fk p' r :
  resolve_link p def name fk = (p', r) -> errors_only p p'.
Proof.
  unfold resolve_link. destruct (field_by_name (fields def) name);
    intros [= <- <-]; [apply errors_only_refl|apply errors_only_raise].
Qed.

Lemma resolve_selfref_links_errors def fk cols : forall ls p p' r,
  resolve_selfref_links p def fk cols ls = (p', r) -> errors_only p p'.
Proof.
  induction cols as [|c cols IH]; intros ls p p' r; destruct ls as [|[a b] ls];
    simpl; try (intros [= <- <-]; apply errors_only_refl).
  destruct (resolve_link p def c fk) as [p1 [j|]] eqn:Hl;
    apply resolve_link_errors in Hl; [|intros [= <- <-]; exact Hl].
  destruct (resolve_selfref_links p1 def fk cols ls) as [p2 [x|]] eqn:Hrec;
    apply IH in Hrec; intros [= <- <-];
    eapply errors_only_trans; eassumption.
Qed.

Lemma emits_new_fkeys new_space reg fks : forall p,
  emits p (fst (emit_new_fkeys p new_space reg fks)).
Proof.
  induction fks as [|fk_parse rest IH]; intros p; simpl; [apply emits_refl|].
  match goal with
  | |- emits _ (fst (let '(_, _) := ?X in _)) => destruct X as [p1 res] eqn:Hres
  end.
  assert (Hp1 : emits p p1).
  { destruct (selfref_cols fk_parse) as [cols|].
    - destruct (resolve_selfref_links p new_space _ cols _) as [p2 [ls|]] eqn:Hl;
        apply resolve_selfref_links_errors in Hl;
        injection Hres as <- <-; apply emits_errors_only; exact Hl.
    - destruct (is_self_referenced fk_parse);
        [destruct (negb _)|]; injection Hres as <- <-;
        first [apply emits_raise|apply emits_refl]. }
  destruct res as [fk|]; simpl; [|exact Hp1].
  eapply emits_trans; [exact Hp1|].
  eapply emits_trans; [apply emits_fk_constraint_create|apply IH].
Qed.

Lemma emits_sqlEndTable_constraints p new_space reg :
  emits p (sqlEndTable_constraints p new_space reg).
Proof.
  unfold sqlEndTable_constraints.
  pose proof (emits_new_fkeys new_space reg (new_fkey p) p) as Hfk.
  destruct (emit_new_fkeys p new_space reg (new_fkey p)) as [p1 [|]];
    simpl in Hfk; [|exact Hfk].
  eapply emits_trans; [exact Hfk|].
  apply emits_fold_left. intros. apply emits_ck_constraint_create.
Qed.

Lemma emits_sqlEndTable_sequence p new_space reg :
  emits p (sqlEndTable_sequence p new_space reg).
Proof.
  unfold sqlEndTable_sequence. destruct (has_autoinc p); [|apply emits_refl].
  cbv zeta.
  match goal with
  | |- emits _ (let '(_, _) := emitNewSysSequenceRecord ?x ?a ?b in _) =>
      pose proof (emits_sequence_record x a b) as H1;
      destruct (emitNewSysSequenceRecord x a b) as [p1 r1]; simpl in H1
  end.
  match goal with
  | |- emits _ (let '(_, _) := emitNewSysSpaceSequenceRecord ?x ?a ?b ?c in _) =>
      pose proof (emits_space_sequence_record x a b c) as H2;
      destruct (emitNewSysSpaceSequenceRecord x a b c) as [p2 r2]; simpl in H2
  end.
  eapply emits_trans; [|apply emits_save_insert].
  eapply emits_trans; [|exact H2].
  eapply emits_trans; [|apply emits_save_insert].
  eapply emits_trans; [|exact H1].
  emits_calls.
Qed.

(** When the ledger of [q] is known, so are the records linked in. *)
Lemma emits_recs_known p q recs :
  emits p q -> record_list q = recs ++ record_list p -> emits_recs p q recs.
Proof.
  intros (recs' & Ho & Hr & Hok & Hnd) Hq.
  assert (recs' = recs) as <-; [|repeat split; assumption].
  rewrite Hr in Hq. eapply app_inv_tail. exact Hq.
Qed.

End EndTable.

(** ** The rows sqlEndTable inserts *)

(** Unfold the program of a chain of emit calls. *)
Ltac program_of_chain :=
  repeat first
    [ rewrite aOp_save_record | rewrite aOp_sqlVdbeAddOp4
    | rewrite aOp_sqlVdbeAddOp3 | rewrite aOp_sqlVdbeAddOp2
    | rewrite aOp_sqlVdbeAddOp1 | rewrite aOp_sqlVdbeAddOp0
    | rewrite aOp_set_nMem | rewrite aOp_set_nTab
    | rewrite aOp_set_record_list ].

Section Rows.
Context `{BoxApi}.

Lemma nOp_sqlVdbeChangeP5 p v : nOp (sqlVdbeChangeP5 p v) = nOp p.
Proof. unfold nOp. rewrite aOp_sqlVdbeChangeP5. apply length_alter. Qed.

Lemma sqlEndTable_begin_spec p sp p1 sp' name_reg reg :
  sqlEndTable_begin p sp = (p1, sp', name_reg, reg) ->
  emits p p1
  /\ record_list p1 = record_list p
  /\ 1 <= nOp p1
  /\ new_space p1 = Some sp'
  /\ index sp' = index sp
  /\ is_aborted p1 = is_aborted p
  /\ initiateTTrans p1 = initiateTTrans p.
Proof.
  unfold sqlEndTable_begin. cbv zeta. unfold getNewSpaceId. cbv zeta.
  intros [= <- <- <- <-].
  split; [emits_calls|].
  unfold sqlGetVdbe. simpl pVdbe.
  destruct (pVdbe p); unfold vdbe_emit_halt_with_presence_test; cbv zeta;
    simpl if_not_exist; destruct (if_not_exist p);
    (split; [reflexivity|]);
    (split; [unfold sqlVdbeAddOp1, sqlVdbeAddOp3; rewrite nOp_sqlVdbeAddOp4; lia|]);
    repeat split; reflexivity.
Qed.

(** The row of the table: what vdbe_emit_space_create records. *)
Lemma vdbe_emit_space_create_record p reg name_reg sp :
  1 <= nOp p ->
  record_list (vdbe_emit_space_create p reg name_reg sp)
  = mk_saved_record BOX_SPACE_ID (nMem p + 1) 1 (nOp p + 8) :: record_list p
  /\ new_space (vdbe_emit_space_create p reg name_reg sp) = new_space p
  /\ is_aborted (vdbe_emit_space_create p reg name_reg sp) = is_aborted p
  /\ initiateTTrans (vdbe_emit_space_create p reg name_reg sp)
     = initiateTTrans p.
Proof.
  intros Hn. unfold vdbe_emit_space_create. rewrite (sqlGetVdbe_nOp p Hn).
  cbv zeta. rewrite record_list_save_record.
  split; [|repeat split; reflexivity].
  f_equal.
  - f_equal. rewrite nOp_sqlVdbeChangeP5. unfold nOp.
    program_of_chain. rewrite !length_app. simpl. lia.
Qed.





Lemma sqlEndTable_unfold p def :
  new_space p = Some def ->
  sql_space_primary_key def <> None ->
  sqlEndTable p
  = sqlEndTable_constraints
      (sqlEndTable_sequence
         (sqlEndTable_rows (sqlEndTable_begin p def).1.1.1
            (sqlEndTable_begin p def).1.1.2 (sqlEndTable_begin p def).1.2
            (sqlEndTable_begin p def).2)
         (sqlEndTable_begin p def).1.1.2 (sqlEndTable_begin p def).2)
      (sqlEndTable_begin p def).1.1.2 (sqlEndTable_begin p def).2.
Proof.
  intros Hsp Hpk. unfold sqlEndTable. rewrite Hsp.
  rewrite bool_decide_eq_false_2 by assumption.
  generalize (sqlEndTable_begin p def). intros [[[p1 sp'] name_reg] reg].
  reflexivity.
Qed.











End Rows.



(** ** The clean-up code of a CREATE TABLE statement *)

Section CleanupCode.

Lemma cleanup_code_length l mem : length (cleanup_code l mem) = 2 * length l.
Proof.
  revert mem. induction l as [|r l IH]; intros mem; [reflexivity|].
  simpl. rewrite IH. lia.
Qed.

Lemma cleanup_code_app l1 l2 mem :
  cleanup_code (l1 ++ l2) mem
  = cleanup_code l1 mem ++ cleanup_code l2 (mem + length l1).
Proof.
  revert mem. induction l1 as [|r l1 IH]; intros mem; simpl.
  - rewrite Nat.add_0_r. reflexivity.
  - rewrite IH. replace (mem + 1 + length l1) with (mem + S (length l1)) by lia.
    reflexivity.
Qed.

Lemma deletes_of_cleanup_code l mem :
  deletes_of (cleanup_code l mem ++ [halt_with_error]) = rec_space_id <$> l.
Proof.
  revert mem. induction l as [|r l IH]; intros mem; [reflexivity|].
  unfold deletes_of in *. simpl cleanup_code. simpl app.
  rewrite filter_cons_False by (simpl; discriminate).
  rewrite filter_cons_True by reflexivity.
  rewrite fmap_cons, IH. reflexivity.
Qed.

Lemma patch_all_length l : forall prog addr,
  length (patch_all prog l addr) = length prog.
Proof.
  induction l as [|r l IH]; intros prog addr; [reflexivity|].
  simpl. rewrite IH. apply length_alter.
Qed.

Lemma patch_all_lookup_other l : forall prog addr a,
  a ∉ insertion_opcode <$> l -> patch_all prog l addr !! a = prog !! a.
Proof.
  induction l as [|r l IH]; intros prog addr a Ha; [reflexivity|].
  rewrite fmap_cons in Ha. apply not_elem_of_cons in Ha as [Hne Ha].
  simpl. rewrite IH by exact Ha. apply list_lookup_alter_ne. congruence.
Qed.

Lemma patch_all_lookup l : forall prog addr i r o,
  NoDup (insertion_opcode <$> l) ->
  l !! i = Some r ->
  prog !! insertion_opcode r = Some o ->
  patch_all prog l addr !! insertion_opcode r
  = Some (set_p2 o (addr + 2 * S i)).
Proof.
  induction l as [|r0 l IH]; intros prog addr i r o Hnd Hi Ho; [discriminate|].
  rewrite fmap_cons in Hnd. apply NoDup_cons in Hnd as [Hnotin Hnd].
  destruct i as [|i]; simpl in Hi.
  - injection Hi as ->. simpl patch_all.
    rewrite patch_all_lookup_other by exact Hnotin.
    rewrite list_lookup_alter, decide_True by reflexivity.
    rewrite Ho. reflexivity.
  - simpl patch_all.
    rewrite (IH _ _ i r o Hnd Hi).
    + do 2 f_equal. lia.
    + rewrite list_lookup_alter_ne; [exact Ho|].
      intros Heq. apply Hnotin. rewrite Heq.
      apply list_elem_of_fmap_2. eapply list_elem_of_lookup_2. exact Hi.
Qed.

Lemma aOp_emit_record_cleanup p r :
  aOp (emit_record_cleanup p r)
  = alter (fun o => set_p2 o (nOp p + 2)) (insertion_opcode r)
      (aOp p ++ cleanup_of r (nMem p + 1)).
Proof.
  unfold emit_record_cleanup. cbv zeta.
  rewrite aOp_sqlVdbeChangeP2.
  unfold nOp. rewrite aOp_sqlVdbeAddOp2, aOp_sqlVdbeAddOp3, aOp_set_nMem.
  rewrite !length_app, <- app_assoc. simpl.
  replace (length (aOp p) + 1 + 1) with (length (aOp p) + 2) by lia.
  reflexivity.
Qed.

Lemma nMem_emit_record_cleanup p r :
  nMem (emit_record_cleanup p r) = nMem p + 1.
Proof. reflexivity. Qed.

(** The loop of sql_finish_coding: the program it leaves. *)
Lemma aOp_cleanup_loop l : forall p base rest,
  aOp p = base ++ rest ->
  Forall (fun r => insertion_opcode r < length base) l ->
  aOp (fold_left emit_record_cleanup l p)
  = patch_all base l (nOp p) ++ rest ++ cleanup_code l (nMem p).
Proof.
  induction l as [|r l IH]; intros p base rest Hp Hl.
  - simpl. rewrite app_nil_r. exact Hp.
  - apply Forall_cons in Hl as [Hr Hl]. simpl fold_left.
    rewrite (IH (emit_record_cleanup p r)
               (alter (fun o => set_p2 o (nOp p + 2)) (insertion_opcode r) base)
               (rest ++ cleanup_of r (nMem p + 1))).
    + rewrite nMem_emit_record_cleanup. simpl patch_all. simpl cleanup_code.
      assert (Hn : nOp (emit_record_cleanup p r) = nOp p + 2).
      { unfold nOp. rewrite aOp_emit_record_cleanup, length_alter.
        rewrite length_app. reflexivity. }
      rewrite Hn, <- !app_assoc. reflexivity.
    + rewrite aOp_emit_record_cleanup, Hp, <- app_assoc.
      apply alter_app_l. exact Hr.
    + rewrite length_alter. exact Hl.
Qed.

(** Running the clean-up code: every instruction in turn, up to the
    halt. *)
Lemma vdbe_exec_cleanup prog l : forall mem pc fuel,
  (forall k o, (cleanup_code l mem ++ [halt_with_error]) !! k = Some o ->
               prog !! (pc + k) = Some o) ->
  2 * length l < fuel ->
  vdbe_exec prog pc fuel = Some (cleanup_code l mem ++ [halt_with_error]).
Proof.
  induction l as [|r l IH]; intros mem pc fuel Hprog Hfuel.
  - destruct fuel as [|fuel]; [simpl in Hfuel; lia|].
    simpl. pose proof (Hprog 0 _ eq_refl) as H0.
    rewrite Nat.add_0_r in H0. rewrite H0. reflexivity.
  - destruct fuel as [|[|fuel]]; [simpl in Hfuel; lia..|].
    pose proof (Hprog 0 _ eq_refl) as H0.
    pose proof (Hprog 1 _ eq_refl) as H1.
    rewrite Nat.add_0_r in H0. rewrite Nat.add_1_r in H1.
    cbn [vdbe_exec]. rewrite H0. cbn [op].
    cbn [vdbe_exec]. rewrite H1. cbn [op].
    rewrite (IH (mem + 1) (S (S pc)) fuel).
    + reflexivity.
    + intros k o Hk. replace (S (S pc) + k) with (pc + S (S k)) by lia.
      apply Hprog. exact Hk.
    + simpl in Hfuel. lia.
Qed.

(** The termination code leaves every instruction but the first one
    as it is. *)
Lemma sql_finish_coding_termination_lookup p :
  1 <= nOp p ->
  nOp p <= nOp (sql_finish_coding_termination p)
  /\ forall a, 1 <= a -> a < nOp p ->
       aOp (sql_finish_coding_termination p) !! a = aOp p !! a.
Proof.
  intros Hn. unfold sql_finish_coding_termination.
  destruct (is_aborted p); [split; [lia|reflexivity]|].
  cbv zeta. destruct (initiateTTrans p) eqn:Htt.
  - change (initiateTTrans (sqlVdbeAddOp0 p OP_TTransaction))
      with (initiateTTrans p). rewrite Htt.
    unfold nOp in *.
    rewrite aOp_sqlVdbeAddOp3, aOp_sqlVdbeChangeP2, aOp_sqlVdbeAddOp0.
    split.
    + rewrite !length_app, length_alter, length_app. lia.
    + intros a Ha1 Ha2.
      rewrite lookup_app_l by (rewrite length_alter, length_app; lia).
      rewrite list_lookup_alter_ne by lia.
      apply lookup_app_l. exact Ha2.
  - rewrite Htt. split; [lia|reflexivity].
Qed.

End CleanupCode.

(** ** The failure of an insertion *)

Section FailedInsertion.

Lemma set_p2_eq o a b : a = b -> Some (set_p2 o a) = Some (set_p2 o b).
Proof. intros ->. reflexivity. Qed.

(** The finished program over a well-formed ledger: when the insertion
    of the record at position [i] of the ledger (the record linked in
    last is at position 0) fails, the clean-up code of the records
    behind it runs, in the order of the ledger, and then the halt with
    the error status. *)
Lemma sql_finish_coding_on_failure q i r :
  ledger_wf q ->
  record_list q !! i = Some r ->
  vdbe_on_insert_failure (aOp (sql_finish_coding q)) (insertion_opcode r)
  = Some (cleanup_code (drop (S i) (record_list q)) (nMem q + i)
          ++ [halt_with_error]).
Proof.
  intros [Hnd Hok] Hi.
  destruct (record_list q) as [|r0 rest] eqn:HL; [discriminate|].
  assert (Hbase : exists base, pVdbe q = Some base).
  { apply Forall_cons in Hok as [(_ & o & Ho & _) _].
    unfold aOp in Ho. destruct (pVdbe q) as [base|]; [eauto|discriminate]. }
  destruct Hbase as [base Hb].
  assert (Hget : sqlGetVdbe q = q) by (unfold sqlGetVdbe; rewrite Hb; reflexivity).
  assert (HaOp : aOp q = base) by (unfold aOp; rewrite Hb; reflexivity).
  assert (Hall : Forall (fun r => 1 <= insertion_opcode r < length base
                          /\ exists o, base !! insertion_opcode r = Some o
                                       /\ op o = OP_SInsert) (r0 :: rest)).
  { eapply Forall_impl; [exact Hok|]. intros x (Hx & o & Ho & Hop & _).
    rewrite HaOp in Ho. split; [split; [exact Hx|]|eauto].
    eapply lookup_lt_Some. exact Ho. }
  unfold sql_finish_coding. cbv zeta. rewrite Hget.
  unfold sql_finish_coding_cleanup.
  change (record_list (sqlVdbeAddOp0 q OP_Halt)) with (record_list q).
  rewrite HL. cbv zeta.
  set (q2 := sqlVdbeChangeP2 (set_record_list (sqlVdbeAddOp0 q OP_Halt) rest)
               (insertion_opcode r0)
               (nOp (set_record_list (sqlVdbeAddOp0 q OP_Halt) rest))).
  set (q4 := sqlVdbeAddOp1 (fold_left emit_record_cleanup rest q2) OP_Halt
               SQL_TARANTOOL_ERROR).
  set (base2 := alter (fun o => set_p2 o (length base + 1))
                  (insertion_opcode r0) base).
  pose proof (Forall_inv Hall) as ((Hr0 & Hr0lt) & o0 & Ho0 & Hop0).
  pose proof (Forall_inv_tail Hall) as Hrest.
  assert (Hq2 : aOp q2 = base2 ++ [mk_op OP_Halt 0 0 0 P4_NOTUSED 0]).
  { unfold q2. rewrite aOp_sqlVdbeChangeP2. unfold nOp.
    rewrite aOp_set_record_list, aOp_sqlVdbeAddOp0, HaOp, length_app.
    apply alter_app_l. exact Hr0lt. }
  assert (Hn2 : nOp q2 = length base + 1).
  { unfold nOp. rewrite Hq2, length_app. unfold base2.
    rewrite length_alter. reflexivity. }
  set (PB := patch_all base2 rest (length base + 1)).
  assert (HPB : length PB = length base).
  { unfold PB. rewrite patch_all_length. apply length_alter. }
  assert (Hq4 : aOp q4
                = (PB ++ [mk_op OP_Halt 0 0 0 P4_NOTUSED 0]
                      ++ cleanup_code (take i rest) (nMem q))
                  ++ (cleanup_code (drop i rest) (nMem q + i)
                      ++ [halt_with_error])).
  { unfold q4. rewrite aOp_sqlVdbeAddOp1.
    rewrite (aOp_cleanup_loop rest q2 base2 _ Hq2).
    - rewrite Hn2. change (nMem q2) with (nMem q). fold PB.
      rewrite <- (take_drop i rest) at 1.
      rewrite cleanup_code_app, length_take_le.
      + rewrite <- !app_assoc. reflexivity.
      + apply lookup_lt_Some in Hi. simpl in Hi. lia.
    - eapply Forall_impl; [exact Hrest|]. intros x [[_ Hx] _].
      unfold base2. rewrite length_alter. exact Hx. }
  assert (Hi' : i <= length rest).
  { apply lookup_lt_Some in Hi. simpl in Hi. lia. }
  assert (Hpre : length (PB ++ [mk_op OP_Halt 0 0 0 P4_NOTUSED 0]
                           ++ cleanup_code (take i rest) (nMem q))
                 = length base + 1 + 2 * i).
  { rewrite !length_app, HPB, cleanup_code_length, length_take_le by exact Hi'.
    simpl. lia. }
  assert (Hn4 : nOp q4
                = length base + 1 + 2 * i + (2 * length (drop i rest) + 1)).
  { unfold nOp. rewrite Hq4, length_app, Hpre, length_app, cleanup_code_length.
    simpl. lia. }
  destruct (sql_finish_coding_termination_lookup q4) as [Hlen Hlook]; [lia|].
  assert (Hins : exists o,
             aOp (sql_finish_coding_termination q4) !! insertion_opcode r
             = Some (set_p2 o (length base + 1 + 2 * i))
             /\ op o = OP_SInsert).
  { assert (Hr : r ∈ r0 :: rest) by (eapply list_elem_of_lookup_2; exact Hi).
    pose proof (proj1 (Forall_forall _ _) Hall r Hr)
      as ((Hr1 & Hrlt) & o & Ho & Hop).
    rewrite fmap_cons in Hnd. apply NoDup_cons in Hnd as [Hnotin Hnd].
    rewrite Hlook by lia.
    rewrite Hq4, <- !app_assoc, lookup_app_l by lia.
    destruct i as [|i]; simpl in Hi.
    - injection Hi as ->. exists o0. split; [|exact Hop0].
      unfold PB. rewrite patch_all_lookup_other by exact Hnotin.
      unfold base2. rewrite list_lookup_alter, decide_True by reflexivity.
      rewrite Ho0. simpl.
      apply set_p2_eq. lia.
    - exists o. split; [|exact Hop].
      unfold PB. rewrite (patch_all_lookup rest base2 _ i r o Hnd Hi).
      + apply set_p2_eq. lia.
      + unfold base2. rewrite list_lookup_alter_ne; [exact Ho|].
        intros Heq. apply Hnotin. rewrite Heq.
        apply list_elem_of_fmap_2. eapply list_elem_of_lookup_2. exact Hi. }
  destruct Hins as (o & Ho & Hop).
  unfold vdbe_on_insert_failure. rewrite Ho.
  rewrite bool_decide_eq_true_2 by exact Hop.
  change (p2 (set_p2 o (length base + 1 + 2 * i)))
    with (length base + 1 + 2 * i).
  change (drop (S i) (r0 :: rest)) with (drop i rest).
  apply vdbe_exec_cleanup.
  - intros k o' Hk. pose proof (lookup_lt_Some _ _ _ Hk) as Hklt.
    rewrite length_app, cleanup_code_length in Hklt. simpl in Hklt.
    rewrite Hlook by lia.
    rewrite Hq4, lookup_app_r by lia.
    rewrite Hpre.
    replace (length base + 1 + 2 * i + k - (length base + 1 + 2 * i))
      with k by lia.
    exact Hk.
  - fold (nOp (sql_finish_coding_termination q4)). lia.
Qed.

End FailedInsertion.

(** ** The undo ledger of CREATE TABLE *)

Section UndoLedger.
Context `{BoxApi}.

Lemma new_record_ok_base prog b1 b2 r :
  b1 <= b2 -> new_record_ok prog b2 r -> new_record_ok prog b1 r.
Proof. intros Hb [Hr Ho]. split; [lia|exact Ho]. Qed.

(** The ledger sqlEndTable leaves when it starts from an empty one: it
    is well formed and the record of the table row was linked in
    first. *)
Lemma sqlEndTable_ledger p :
  record_list p = [] ->
  ledger_wf (sqlEndTable p)
  /\ (record_list (sqlEndTable p) = []
      \/ exists recs r,
           record_list (sqlEndTable p) = recs ++ [r]
           /\ rec_space_id r = BOX_SPACE_ID).
Proof.
  intros Hrec.
  assert (Hempty : forall q, record_list q = [] -> ledger_wf q).
  { intros q Hq. unfold ledger_wf. rewrite Hq. split; constructor. }
  destruct (new_space p) as [def|] eqn:Hsp.
  2: { assert (Hq : sqlEndTable p = p)
         by (unfold sqlEndTable; rewrite Hsp; reflexivity).
       rewrite Hq. split; [apply Hempty; exact Hrec|left; exact Hrec]. }
  destruct (sql_space_primary_key def) as [pk|] eqn:Hpk.
  2: { rewrite (sqlEndTable_without_pk p def Hsp Hpk).
       split; [apply Hempty; exact Hrec|left; exact Hrec]. }
  rewrite (sqlEndTable_unfold p def Hsp) by congruence.
  destruct (sqlEndTable_begin p def) as [[[p1 sp'] name_reg] reg] eqn:Hb.
  cbn [fst snd].
  apply sqlEndTable_begin_spec in Hb as (_ & Hrl & Hn1 & _).
  set (q := sqlEndTable_constraints _ _ _).
  set (p3 := vdbe_emit_space_create p1 reg name_reg sp').
  assert (H3 : emits p3 q).
  { unfold q.
    eapply emits_trans; [|apply emits_sqlEndTable_constraints].
    eapply emits_trans; [|apply emits_sqlEndTable_sequence].
    unfold sqlEndTable_rows. cbv zeta.
    apply emits_fold_left. intros. apply emits_create_index. }
  pose proof (emits_trans _ _ _ (emits_space_create p1 reg name_reg sp') H3)
    as (recs & _ & Hr & Hok & Hnd).
  rewrite Hrl, Hrec, app_nil_r in Hr.
  split.
  - unfold ledger_wf. rewrite Hr. split; [exact Hnd|].
    eapply Forall_impl; [exact Hok|].
    intros x Hx. eapply new_record_ok_base; [|exact Hx]. exact Hn1.
  - right. destruct H3 as (recs3 & _ & Hr3 & _).
    unfold p3 in Hr3.
    rewrite (proj1 (vdbe_emit_space_create_record p1 reg name_reg sp' Hn1)) in Hr3.
    rewrite Hrl, Hrec in Hr3. eexists _, _. split; [exact Hr3|reflexivity].
Qed.

(** C1 (amended): take the insertions of a compiled CREATE TABLE in the
    order of emission, the table row first (position 0) and the K
    dependent rows after it (positions 1 to K).  When the insertion at
    position [j] fails, the program runs exactly [j] compensating
    deletes, one for each insertion emitted before it, most recent
    first and the table row last, and then the one halt with the error
    status; nothing is deleted for the insertion [j] or a later one, so
    the last insertion is never undone.  The j-th dependent insertion
    therefore runs j deletes. *)
Theorem undo_ledger_on_failed_insertion p j r :
  record_list p = [] ->
  let q := sqlEndTable p in
  ledger_of q !! j = Some r ->
  rec_space_id <$> ledger_of q !! 0 = Some BOX_SPACE_ID
  /\ exists trace,
       vdbe_on_insert_failure (aOp (sql_finish_coding q)) (insertion_opcode r)
       = Some trace
       /\ trace
          = cleanup_code (reverse (take j (ledger_of q)))
              (nMem q + (length (ledger_of q) - S j))
            ++ [halt_with_error]
       /\ deletes_of trace = rec_space_id <$> reverse (take j (ledger_of q))
       /\ length (deletes_of trace) = j.
Proof.
  intros Hrec q Hj.
  destruct (sqlEndTable_ledger p Hrec) as [Hwf Hfirst]. fold q in Hwf, Hfirst.
  unfold ledger_of in *.
  pose proof (lookup_lt_Some _ _ _ Hj) as Hlt. rewrite length_reverse in Hlt.
  split.
  - destruct Hfirst as [Hnil|(recs & r0 & Hr0 & Hid)].
    + rewrite Hnil in Hlt. simpl in Hlt. lia.
    + rewrite Hr0, reverse_snoc. simpl. rewrite Hid. reflexivity.
  - rewrite reverse_lookup in Hj by exact Hlt.
    eexists. split; [apply (sql_finish_coding_on_failure q _ r Hwf Hj)|].
    rewrite take_reverse, reverse_involutive, length_reverse.
    replace (S (length (record_list q) - S j))
      with (length (record_list q) - j) by lia.
    split; [reflexivity|].
    rewrite deletes_of_cleanup_code. split; [reflexivity|].
    rewrite length_fmap, length_drop. lia.
Qed.

End UndoLedger.

Lemma undo_ledger_on_failed_insertion_witness :
  let p := default fresh_parse
             (run_create_table
                [AddColumn "A" FIELD_TYPE_INTEGER; AddPrimaryKey None None]) in
  let q := @sqlEndTable reference_api p in
  exists trace,
    vdbe_on_insert_failure (aOp (sql_finish_coding q)) 23 = Some trace
    /\ deletes_of trace = [BOX_SPACE_ID].
Proof.
  intros p q.
  destruct (@undo_ledger_on_failed_insertion reference_api p 1
              (mk_saved_record BOX_INDEX_ID 11 2 23))
    as (_ & trace & Hrun & _ & Hdel & _).
  - reflexivity.
  - reflexivity.
  - exists trace. split; [exact Hrun|exact Hdel].
Defined.

(** C1 as stated fails: CREATE TABLE t(a INT PRIMARY KEY) has one
    dependent insertion beyond the table row, the row of the primary
    key index (K = 1).  When this insertion fails (j = 1), one
    compensating delete runs, for the table row, and not none; when
    the table row's own insertion fails, no delete runs. *)
Lemma failed_index_row_deletes_table_row :
  (p ← run_create_table
         [AddColumn "A" FIELD_TYPE_INTEGER; AddPrimaryKey None None];
   let q := @sqlEndTable reference_api p in
   Some (rec_space_id <$> ledger_of q,
         (fun r => deletes_of
                     <$> vdbe_on_insert_failure (aOp (sql_finish_coding q))
                           (insertion_opcode r))
           <$> ledger_of q))
  = Some ([BOX_SPACE_ID; BOX_INDEX_ID], [Some []; Some [BOX_SPACE_ID]]).
Proof. vm_compute. reflexivity. Qed.

(** * Further properties of the code *)

(** ** Whitespace normalization is idempotent *)

Section TrimSpaceAgain.

Lemma trim_space_text_idempotent str : forall quote_type is_prev_chr_space,
  trim_space_text quote_type is_prev_chr_space
    (trim_space_text quote_type is_prev_chr_space str)
  = trim_space_text quote_type is_prev_chr_space str.
Proof.
  induction str as [|c rest IH]; intros q b; [reflexivity|].
  simpl. destruct (Ascii.eqb q NUL) eqn:Hq.
  - destruct (Ascii.eqb c squote || Ascii.eqb c dquote) eqn:Hquote.
    + simpl. rewrite Hq, Hquote, IH. reflexivity.
    + destruct (isspace c) eqn:Hsp.
      * destruct b; [apply IH|].
        simpl. rewrite Hq. simpl. rewrite IH. reflexivity.
      * simpl. rewrite Hq, Hquote, Hsp, IH. reflexivity.
  - destruct (Ascii.eqb c q) eqn:Hc.
    + simpl. rewrite Hq, Hc, IH. reflexivity.
    + simpl. rewrite Hq, Hc, IH. reflexivity.
Qed.

(** The characters stored are characters of the source or spaces. *)
Lemma trim_space_text_no_terminator str : forall quote_type is_prev_chr_space,
  Forall (fun c => c <> NUL) (list_ascii_of_string str) ->
  Forall (fun c => c <> NUL)
    (list_ascii_of_string (trim_space_text quote_type is_prev_chr_space str)).
Proof.
  induction str as [|c rest IH]; intros q b Hstr; [constructor|].
  inversion Hstr as [|? ? Hc Hrest]; subst. simpl.
  repeat case_match; simpl; try (constructor; [assumption|]);
    try (constructor; [discriminate|]); apply IH; assumption.
Qed.

Lemma cstring_terminated text rest :
  Forall (fun c => c <> NUL) (list_ascii_of_string text) ->
  cstring (list_ascii_of_string text ++ NUL :: rest) = text.
Proof.
  induction text as [|c text IH]; intros Htext; simpl.
  - reflexivity.
  - inversion Htext as [|? ? Hc Hrest]; subst.
    rewrite (proj2 (Ascii.eqb_neq c NUL) Hc), IH by assumption. reflexivity.
Qed.

(** The text a call leaves in the destination is the normalized
    source. *)
Lemma trim_space_snprintf_cstring wptr str :
  Forall (fun c => c <> NUL) (list_ascii_of_string str) ->
  length wptr = String.length str + 1 ->
  cstring <$> trim_space_snprintf wptr str
  = Some (trim_space_text NUL false str).
Proof.
  intros Hstr Hlen.
  rewrite (trim_space_snprintf_stores wptr str Hlen). simpl. f_equal.
  apply cstring_terminated. apply trim_space_text_no_terminator. exact Hstr.
Qed.

(** Normalizing a normalized expression changes nothing: the text
    trim_space_snprintf leaves in its destination, given to
    trim_space_snprintf again, is stored as it is. *)
Theorem trim_space_snprintf_idempotent wptr wptr' str :
  Forall (fun c => c <> NUL) (list_ascii_of_string str) ->
  length wptr = String.length str + 1 ->
  exists text,
    cstring <$> trim_space_snprintf wptr str = Some text
    /\ (length wptr' = String.length text + 1 ->
        cstring <$> trim_space_snprintf wptr' text = Some text).
Proof.
  intros Hstr Hlen. exists (trim_space_text NUL false str).
  split; [apply trim_space_snprintf_cstring; assumption|].
  intros Hlen'.
  rewrite trim_space_snprintf_cstring.
  - rewrite trim_space_text_idempotent. reflexivity.
  - apply trim_space_text_no_terminator. exact Hstr.
  - exact Hlen'.
Qed.

End TrimSpaceAgain.

Lemma trim_space_snprintf_idempotent_witness :
  cstring <$> trim_space_snprintf (replicate 9 NUL) "a   =  b"
  = Some "a = b"
  /\ cstring <$> trim_space_snprintf (replicate 6 NUL) "a = b" = Some "a = b".
Proof.
  destruct (trim_space_snprintf_idempotent (replicate 9 NUL) (replicate 6 NUL)
              "a   =  b") as (text & Hfirst & Hagain).
  - repeat constructor; discriminate.
  - reflexivity.
  - assert (Htext : text = "a = b").
    { vm_compute in Hfirst. injection Hfirst as <-. reflexivity. }
    subst text. split; [exact Hfirst|]. apply Hagain. reflexivity.
Defined.

(** ** The run-time test for the presence of a catalog row *)

Section PresenceTest.
Context `{BoxApi}.

Lemma nTab_sqlGetVdbe p : nTab (sqlGetVdbe p) = nTab p.
Proof. unfold sqlGetVdbe. destruct (pVdbe p); reflexivity. Qed.

Lemma sqlGetVdbe_idemp p : sqlGetVdbe (sqlGetVdbe p) = sqlGetVdbe p.
Proof.
  unfold sqlGetVdbe. destruct (pVdbe p) eqn:Hv; simpl; rewrite ?Hv;
    reflexivity.
Qed.

Lemma aOp_presence_test p space_id index_id key_reg key_len code error_src
    no_error cond_opcode :
  aOp (vdbe_emit_halt_with_presence_test p space_id index_id key_reg key_len
         code error_src no_error cond_opcode)
  = aOp (sqlGetVdbe p)
    ++ [mk_op OP_IteratorOpen (nTab p) index_id 0 (P4_SPACEPTR space_id)
          OPFLAG_SYSTEMSP;
        mk_op cond_opcode (nTab p) (nOp (sqlGetVdbe p) + 4) key_reg
          (P4_INT32 key_len) 0;
        (if no_error then mk_op OP_Halt 0 0 0 P4_NOTUSED 0
         else mk_op OP_Halt SQL_TARANTOOL_ERROR 0 0 (P4_DYNAMIC error_src)
                (tnt_errcode code));
        mk_op OP_Close (nTab p) 0 0 P4_NOTUSED 0].
Proof.
  unfold vdbe_emit_halt_with_presence_test. cbv zeta.
  rewrite <- (nTab_sqlGetVdbe p). generalize (sqlGetVdbe p). clear p.
  intros p.
  set (p1 := sqlVdbeChangeP5
               (vdbe_emit_open_cursor (set_nTab p (nTab p + 1)) (nTab p)
                  index_id space_id) OPFLAG_SYSTEMSP).
  assert (H1 : aOp p1
               = aOp p ++ [mk_op OP_IteratorOpen (nTab p) index_id 0
                             (P4_SPACEPTR space_id) OPFLAG_SYSTEMSP]).
  { unfold p1, vdbe_emit_open_cursor. rewrite aOp_sqlVdbeChangeP5.
    unfold nOp. rewrite aOp_sqlVdbeAddOp4, aOp_set_nTab, length_app. simpl.
    replace (length (aOp p) + 1 - 1) with (length (aOp p)) by lia.
    rewrite alter_last. reflexivity. }
  assert (Hn1 : nOp p1 = nOp p + 1).
  { unfold nOp. rewrite H1, length_app. reflexivity. }
  rewrite aOp_sqlVdbeAddOp1.
  destruct no_error.
  - rewrite aOp_sqlVdbeAddOp0, aOp_sqlVdbeAddOp4Int, H1, Hn1.
    rewrite <- !app_assoc. simpl.
    replace (nOp p + 1 + 3) with (nOp p + 4) by lia. reflexivity.
  - rewrite aOp_sqlVdbeChangeP5. unfold nOp at 1.
    rewrite aOp_sqlVdbeAddOp4, aOp_sqlVdbeAddOp4Int, length_app. simpl.
    match goal with
    | |- context [alter ?f (length ?l + 1 - 1) (?l ++ [?x])] =>
        replace (length l + 1 - 1) with (length l) by lia;
        rewrite (alter_last f l x)
    end.
    rewrite H1, Hn1, <- !app_assoc. simpl.
    replace (nOp p + 1 + 3) with (nOp p + 4) by lia. reflexivity.
Qed.

(** vdbe_emit_halt_with_presence_test creates the program when there
    is none yet and appends four instructions: the cursor is opened
    on the system space, the test jumps to the first instruction
    after the block, the halt is silent when the error is to be
    ignored and carries the error otherwise, and the cursor the block
    took is closed.  No register is used and nothing is recorded. *)
Theorem vdbe_emit_halt_with_presence_test_block p space_id index_id key_reg
    key_len code error_src no_error cond_opcode :
  let q := vdbe_emit_halt_with_presence_test p space_id index_id key_reg
             key_len code error_src no_error cond_opcode in
  aOp q
  = aOp (sqlGetVdbe p)
    ++ [mk_op OP_IteratorOpen (nTab p) index_id 0 (P4_SPACEPTR space_id)
          OPFLAG_SYSTEMSP;
        mk_op cond_opcode (nTab p) (nOp q) key_reg (P4_INT32 key_len) 0;
        (if no_error then mk_op OP_Halt 0 0 0 P4_NOTUSED 0
         else mk_op OP_Halt SQL_TARANTOOL_ERROR 0 0 (P4_DYNAMIC error_src)
                (tnt_errcode code));
        mk_op OP_Close (nTab p) 0 0 P4_NOTUSED 0]
  /\ aOp (sqlGetVdbe p)
     = match pVdbe p with
       | Some prog => prog
       | None => [mk_op OP_Init 0 1 0 P4_NOTUSED 0]
       end
  /\ nOp q = nOp (sqlGetVdbe p) + 4
  /\ nTab q = nTab p + 1
  /\ nMem q = nMem p
  /\ record_list q = record_list p
  /\ is_aborted q = is_aborted p.
Proof.
  intros q.
  pose proof (aOp_presence_test p space_id index_id key_reg key_len code
                error_src no_error cond_opcode) as Hops.
  fold q in Hops.
  assert (Hn : nOp q = nOp (sqlGetVdbe p) + 4).
  { unfold nOp. rewrite Hops, length_app. reflexivity. }
  split; [rewrite Hn; exact Hops|].
  split; [unfold sqlGetVdbe, aOp; destruct (pVdbe p) eqn:Hv; simpl;
          rewrite ?Hv; reflexivity|].
  split; [exact Hn|].
  unfold q, vdbe_emit_halt_with_presence_test, sqlGetVdbe. cbv zeta.
  destruct (pVdbe p), no_error; repeat split; reflexivity.
Qed.

End PresenceTest.

(** ** The order of the deletions of DROP TABLE *)

Section Deletions.

Lemma deletes_of_app l1 l2 :
  deletes_of (l1 ++ l2) = deletes_of l1 ++ deletes_of l2.
Proof. unfold deletes_of. rewrite filter_app, fmap_app. reflexivity. Qed.

Lemma appends_deleting_refl p : appends_deleting p p [].
Proof. exists []. rewrite app_nil_r. split; reflexivity. Qed.

Lemma appends_deleting_trans p q r d1 d2 :
  appends_deleting p q d1 -> appends_deleting q r d2 ->
  appends_deleting p r (d1 ++ d2).
Proof.
  intros (o1 & H1 & D1) (o2 & H2 & D2). exists (o1 ++ o2).
  rewrite H2, H1, app_assoc, deletes_of_app, D1, D2. split; reflexivity.
Qed.

Lemma appends_deleting_same p q :
  aOp q = aOp p -> appends_deleting p q [].
Proof. intros Hq. exists []. rewrite app_nil_r. split; [exact Hq|reflexivity]. Qed.

Lemma appends_deleting_AddOp4 p o a b c d :
  appends_deleting p (sqlVdbeAddOp4 p o a b c d)
    (if bool_decide (o = OP_SDelete) then [a] else []).
Proof.
  exists [mk_op o a b c d 0]. split; [reflexivity|].
  unfold deletes_of. destruct (decide (o = OP_SDelete)) as [->|Hne].
  - reflexivity.
  - rewrite bool_decide_eq_false_2 by exact Hne.
    rewrite filter_cons_False by exact Hne. reflexivity.
Qed.

Lemma appends_deleting_AddOp4_P5 p o a b c d v :
  appends_deleting p (sqlVdbeChangeP5 (sqlVdbeAddOp4 p o a b c d) v)
    (if bool_decide (o = OP_SDelete) then [a] else []).
Proof.
  exists [mk_op o a b c d v]. split.
  - rewrite aOp_sqlVdbeChangeP5. unfold nOp.
    rewrite aOp_sqlVdbeAddOp4, length_app. simpl.
    replace (length (aOp p) + 1 - 1) with (length (aOp p)) by lia.
    rewrite alter_last. reflexivity.
  - unfold deletes_of. destruct (decide (o = OP_SDelete)) as [->|Hne].
    + reflexivity.
    + rewrite bool_decide_eq_false_2 by exact Hne.
      rewrite filter_cons_False by exact Hne. reflexivity.
Qed.

Lemma appends_deleting_sqlGetVdbe p : appends_deleting p (sqlGetVdbe p) [].
Proof.
  unfold sqlGetVdbe, appends_deleting, aOp.
  destruct (pVdbe p) eqn:Hv; simpl.
  - exists []. rewrite Hv, app_nil_r. split; reflexivity.
  - exists [mk_op OP_Init 0 1 0 P4_NOTUSED 0]. split; reflexivity.
Qed.

Lemma appends_deleting_set_nMem p n : appends_deleting p (set_nMem p n) [].
Proof. apply appends_deleting_same. reflexivity. Qed.
Lemma appends_deleting_set_nTab p n : appends_deleting p (set_nTab p n) [].
Proof. apply appends_deleting_same. reflexivity. Qed.
Lemma appends_deleting_set_range p i n :
  appends_deleting p (set_range p i n) [].
Proof. apply appends_deleting_same. reflexivity. Qed.

Lemma appends_deleting_fold_left {A} (f : Parse -> A -> Parse) (l : list A)
    (space : nat) :
  (forall p x, appends_deleting p (f p x) [space]) ->
  forall p, appends_deleting p (fold_left f l p) (replicate (length l) space).
Proof.
  intros Hf. induction l as [|x l IH]; intros p; simpl.
  - apply appends_deleting_refl.
  - change (space :: replicate (length l) space)
      with ([space] ++ replicate (length l) space).
    eapply appends_deleting_trans; [apply Hf|apply IH].
Qed.

End Deletions.

(** One step of a chain of emit calls, for [appends_deleting]. *)
Ltac deleting_step :=
  idtac;
  lazymatch goal with
  | |- appends_deleting _ (sqlVdbeChangeP5 (sqlVdbeAddOp4 _ _ _ _ _ _) _) _ =>
      apply appends_deleting_AddOp4_P5
  | |- appends_deleting _ (sqlVdbeChangeP5 (sqlVdbeAddOp2 _ _ _ _) _) _ =>
      apply appends_deleting_AddOp4_P5
  | |- appends_deleting _ (sqlVdbeAddOp4 _ _ _ _ _ _) _ =>
      apply appends_deleting_AddOp4
  | |- appends_deleting _ (sqlVdbeAddOp3 _ _ _ _ _) _ =>
      apply appends_deleting_AddOp4
  | |- appends_deleting _ (sqlVdbeAddOp2 _ _ _ _) _ =>
      apply appends_deleting_AddOp4
  | |- appends_deleting _ (sqlVdbeAddOp1 _ _ _) _ =>
      apply appends_deleting_AddOp4
  | |- appends_deleting _ (sqlVdbeAddOp0 _ _) _ =>
      apply appends_deleting_AddOp4
  | |- appends_deleting _ (sqlVdbeAddOp4Int _ _ _ _ _ _) _ =>
      apply appends_deleting_AddOp4
  | |- appends_deleting _ (sqlGetVdbe _) _ => apply appends_deleting_sqlGetVdbe
  | |- appends_deleting _ (set_nMem _ _) _ => apply appends_deleting_set_nMem
  | |- appends_deleting _ (set_nTab _ _) _ => apply appends_deleting_set_nTab
  | |- appends_deleting _ (set_range _ _ _) _ =>
      apply appends_deleting_set_range
  end.

(** [appends_deleting p q ?d] for a chain of emit calls [q] over [p]. *)
Ltac deleting_chain_with step :=
  lazymatch goal with
  | |- appends_deleting ?p ?q _ =>
      first [ constr_eq p q; apply appends_deleting_refl
            | eapply appends_deleting_trans; [ | step ];
              [ deleting_chain_with step ] ]
  end.

Ltac deleting_chain := deleting_chain_with deleting_step.

Section DropOrder.
Context `{BoxApi}.

Lemma appends_deleting_eq p q d d' :
  appends_deleting p q d -> d = d' -> appends_deleting p q d'.
Proof. intros Hd <-. exact Hd. Qed.

Lemma aOp_sqlGetTempRange p n : aOp (sqlGetTempRange p n).1 = aOp p.
Proof. unfold sqlGetTempRange. destruct (n <=? nRangeReg p); reflexivity. Qed.

Lemma aOp_sqlReleaseTempRange p i n : aOp (sqlReleaseTempRange p i n) = aOp p.
Proof. unfold sqlReleaseTempRange. destruct (nRangeReg p <? n); reflexivity. Qed.

Lemma appends_deleting_release p i n :
  appends_deleting p (sqlReleaseTempRange p i n) [].
Proof. apply appends_deleting_same, aOp_sqlReleaseTempRange. Qed.

Lemma appends_deleting_presence_test p a b c d e f g h :
  h <> OP_SDelete ->
  appends_deleting p (vdbe_emit_halt_with_presence_test p a b c d e f g h) [].
Proof.
  intros Hh.
  unfold vdbe_emit_halt_with_presence_test, vdbe_emit_open_cursor. cbv zeta.
  destruct g; (eapply appends_deleting_eq; [deleting_chain|]);
    rewrite (bool_decide_eq_false_2 _ Hh); reflexivity.
Qed.

Lemma appends_deleting_fk_drop p name child :
  appends_deleting p (vdbe_emit_fk_constraint_drop p name child)
    [BOX_FK_CONSTRAINT_ID].
Proof.
  unfold vdbe_emit_fk_constraint_drop. cbv zeta.
  pose proof (aOp_sqlGetTempRange (sqlGetVdbe p) 3) as Hr.
  destruct (sqlGetTempRange (sqlGetVdbe p) 3) as [p1 key_reg]. simpl in Hr.
  eapply appends_deleting_eq.
  - eapply appends_deleting_trans; [apply appends_deleting_sqlGetVdbe|].
    eapply appends_deleting_trans;
      [apply appends_deleting_same; exact Hr|].
    eapply appends_deleting_trans; [|apply appends_deleting_release].
    eapply appends_deleting_trans; [|deleting_step].
    eapply appends_deleting_trans; [|deleting_step].
    eapply appends_deleting_trans;
      [|apply appends_deleting_presence_test; discriminate].
    deleting_chain.
  - reflexivity.
Qed.

Lemma appends_deleting_ck_drop p name id :
  appends_deleting p (vdbe_emit_ck_constraint_drop p name id)
    [BOX_CK_CONSTRAINT_ID].
Proof.
  unfold vdbe_emit_ck_constraint_drop. cbv zeta.
  pose proof (aOp_sqlGetTempRange (sqlGetVdbe p) 3) as Hr.
  destruct (sqlGetTempRange (sqlGetVdbe p) 3) as [p1 key_reg]. simpl in Hr.
  eapply appends_deleting_eq.
  - eapply appends_deleting_trans; [apply appends_deleting_sqlGetVdbe|].
    eapply appends_deleting_trans;
      [apply appends_deleting_same; exact Hr|].
    eapply appends_deleting_trans; [|apply appends_deleting_release].
    eapply appends_deleting_trans; [|deleting_step].
    eapply appends_deleting_trans; [|deleting_step].
    eapply appends_deleting_trans;
      [|apply appends_deleting_presence_test; discriminate].
    deleting_chain.
  - reflexivity.
Qed.

(** The catalog spaces the code of DROP TABLE deletes from, in order:
    the spaces of the sequence, _fk_constraint once per foreign key,
    _ck_constraint once per check constraint, _index once per index
    (not for a view), _truncate and _space. *)
Lemma sql_code_drop_table_deletes p sp view :
  appends_deleting
    (fold_left (fun p zName => vdbe_code_drop_trigger p zName false)
       (sql_triggers sp) (sqlGetVdbe p))
    (sql_code_drop_table p sp view)
    ((match sequence sp with
      | Some _ =>
          [BOX_SEQUENCE_DATA_ID; BOX_SPACE_SEQUENCE_ID; BOX_SEQUENCE_ID]
      | None => []
      end)
     ++ replicate (length (child_fk_constraint sp)) BOX_FK_CONSTRAINT_ID
     ++ replicate (length (ck_constraint sp)) BOX_CK_CONSTRAINT_ID
     ++ (if view then []
         else replicate (length (index sp) - 1) BOX_INDEX_ID ++ [BOX_INDEX_ID])
     ++ [BOX_TRUNCATE_ID; BOX_SPACE_ID]).
Proof.
  unfold sql_code_drop_table. cbv zeta.
  set (p0 := fold_left _ (sql_triggers sp) (sqlGetVdbe p)).
  set (p1 := sqlVdbeAddOp1 _ OP_CheckViewReferences _).
  assert (H1 : appends_deleting p0 p1 []).
  { unfold p1. eapply appends_deleting_eq; [deleting_chain|reflexivity]. }
  set (p2 := match sequence sp with Some _ => _ | None => p1 end).
  assert (H2 : appends_deleting p1 p2
                 (match sequence sp with
                  | Some _ =>
                      [BOX_SEQUENCE_DATA_ID; BOX_SPACE_SEQUENCE_ID;
                       BOX_SEQUENCE_ID]
                  | None => []
                  end)).
  { unfold p2. destruct (sequence sp).
    - eapply appends_deleting_eq; [deleting_chain|reflexivity].
    - apply appends_deleting_refl. }
  set (p3 := fold_left _ (child_fk_constraint sp) p2).
  assert (H3 : appends_deleting p2 p3
                 (replicate (length (child_fk_constraint sp))
                    BOX_FK_CONSTRAINT_ID)).
  { unfold p3. apply appends_deleting_fold_left.
    intros. apply appends_deleting_fk_drop. }
  set (p4 := fold_left _ (ck_constraint sp) p3).
  assert (H4 : appends_deleting p3 p4
                 (replicate (length (ck_constraint sp)) BOX_CK_CONSTRAINT_ID)).
  { unfold p4. apply appends_deleting_fold_left.
    intros. apply appends_deleting_ck_drop. }
  set (p5 := if negb view then _ else p4).
  assert (H5 : appends_deleting p4 p5
                 (if view then []
                  else replicate (length (index sp) - 1) BOX_INDEX_ID
                       ++ [BOX_INDEX_ID])).
  { unfold p5. destruct view; simpl; [apply appends_deleting_refl|].
    set (pf := fold_left _ (drop 1 (index sp)) p4).
    assert (Hf : appends_deleting p4 pf
                   (replicate (length (index sp) - 1) BOX_INDEX_ID)).
    { unfold pf. rewrite <- length_drop. apply appends_deleting_fold_left.
      intros q idx.
      eapply appends_deleting_eq; [deleting_chain|reflexivity]. }
    eapply appends_deleting_trans; [exact Hf|].
    eapply appends_deleting_eq; [deleting_chain|reflexivity]. }
  eapply appends_deleting_eq.
  - eapply appends_deleting_trans; [exact H1|].
    eapply appends_deleting_trans; [exact H2|].
    eapply appends_deleting_trans; [exact H3|].
    eapply appends_deleting_trans; [exact H4|].
    eapply appends_deleting_trans; [exact H5|].
    deleting_chain.
  - simpl. rewrite <- ?app_assoc. reflexivity.
Qed.

End DropOrder.

Section DropStatements.
Context `{BoxApi}.

(** DROP TABLE / DROP VIEW generates code only after every check has
    passed: either the table exists, is of the kind the statement
    names and is referenced by no foreign key of another table, and
    the drop code is generated for it; or no instruction is generated,
    no register is taken, and the statement has an error, unless the
    table is missing and IF EXISTS was given. *)
Theorem sql_drop_table_checks_first p drop_def :
  let q := sql_drop_table p drop_def in
  (exists sp,
      space_by_name p (entity_name drop_def) = Some sp
      /\ is_view sp = drop_view drop_def
      /\ Forall (fun fk => child_id fk = parent_id fk)
           (parent_fk_constraint sp)
      /\ q = sql_code_drop_table (sqlGetVdbe p) sp (drop_view drop_def))
  \/ (aOp q = aOp (sqlGetVdbe p)
      /\ nMem q = nMem p
      /\ record_list q = record_list p
      /\ (is_aborted q = true
          \/ (if_exist drop_def = true
              /\ space_by_name p (entity_name drop_def) = None))).
Proof.
  intros q. unfold q, sql_drop_table. cbv zeta.
  rewrite space_by_name_sqlGetVdbe.
  assert (Hmem : nMem (sqlGetVdbe p) = nMem p
                 /\ record_list (sqlGetVdbe p) = record_list p).
  { unfold sqlGetVdbe. destruct (pVdbe p); split; reflexivity. }
  destruct Hmem as [Hmem Hrec].
  destruct (space_by_name p (entity_name drop_def)) as [sp|] eqn:Hsp.
  - destruct (drop_view drop_def) eqn:Hv, (is_view sp) eqn:Hs; simpl;
      try (right; repeat split; try assumption; left; reflexivity).
    + destruct (existsb _ (parent_fk_constraint sp)) eqn:Hex.
      * right. repeat split; try assumption. left. reflexivity.
      * left. exists sp. split; [reflexivity|]. split; [exact Hs|].
        split; [|reflexivity].
        apply Forall_forall. intros fk Hin.
        destruct (Nat.eq_dec (child_id fk) (parent_id fk)) as [|Hne];
          [assumption|]. exfalso.
        assert (Ht : existsb
                       (fun fk => negb (fk_constraint_is_self_referenced fk))
                       (parent_fk_constraint sp) = true); [|congruence].
        apply existsb_exists. exists fk.
        split; [apply list_elem_of_In; exact Hin|].
        apply negb_true_iff, Nat.eqb_neq. exact Hne.
    + destruct (existsb _ (parent_fk_constraint sp)) eqn:Hex.
      * right. repeat split; try assumption. left. reflexivity.
      * left. exists sp. split; [reflexivity|]. split; [exact Hs|].
        split; [|reflexivity].
        apply Forall_forall. intros fk Hin.
        destruct (Nat.eq_dec (child_id fk) (parent_id fk)) as [|Hne];
          [assumption|]. exfalso.
        assert (Ht : existsb
                       (fun fk => negb (fk_constraint_is_self_referenced fk))
                       (parent_fk_constraint sp) = true); [|congruence].
        apply existsb_exists. exists fk.
        split; [apply list_elem_of_In; exact Hin|].
        apply negb_true_iff, Nat.eqb_neq. exact Hne.
  - right. destruct (if_exist drop_def); simpl; repeat split;
      try assumption; [right; split; reflexivity|left; reflexivity].
Qed.

Lemma pVdbe_sqlReleaseTempRange p i n :
  pVdbe (sqlReleaseTempRange p i n) = pVdbe p.
Proof. unfold sqlReleaseTempRange. destruct (nRangeReg p <? n); reflexivity. Qed.

Lemma sqlGetTempRange_frame p n :
  aOp (sqlGetTempRange p n).1 = aOp p
  /\ nTab (sqlGetTempRange p n).1 = nTab p
  /\ is_aborted (sqlGetTempRange p n).1 = is_aborted p
  /\ record_list (sqlGetTempRange p n).1 = record_list p.
Proof.
  unfold sqlGetTempRange. destruct (n <=? nRangeReg p); repeat split.
Qed.

End DropStatements.

(** ** The order of the insertions of CREATE TABLE *)

Section Inserts.

Lemma code_only_refl p : code_only p p.
Proof. destruct p. do 6 eexists. reflexivity. Qed.

Lemma code_only_trans p q r : code_only p q -> code_only q r -> code_only p r.
Proof.
  intros (v & m & t & i & n & l & ->) (v' & m' & t' & i' & n' & l' & ->).
  do 6 eexists. reflexivity.
Qed.

Lemma code_only_frame p q :
  code_only p q ->
  is_aborted q = is_aborted p /\ new_space q = new_space p
  /\ has_autoinc q = has_autoinc p /\ new_fkey q = new_fkey p
  /\ new_check q = new_check p /\ diag q = diag p.
Proof. intros (v & m & t & i & n & l & ->). repeat split. Qed.

Lemma inserts_refl p : inserts p p [].
Proof. split; [apply code_only_refl|]. exists []. split; reflexivity. Qed.

Lemma inserts_trans p q r s1 s2 :
  inserts p q s1 -> inserts q r s2 -> inserts p r (s1 ++ s2).
Proof.
  intros (Hc1 & r1 & Hr1 & Hs1) (Hc2 & r2 & Hr2 & Hs2).
  split; [eapply code_only_trans; eassumption|].
  exists (r2 ++ r1). split.
  - rewrite Hr2, Hr1, app_assoc. reflexivity.
  - rewrite reverse_app, fmap_app, Hs1, Hs2. reflexivity.
Qed.

Lemma inserts_eq p q s s' : inserts p q s -> s = s' -> inserts p q s'.
Proof. intros Hi <-. exact Hi. Qed.

Lemma inserts_set_pVdbe p v : inserts p (set_pVdbe p v) [].
Proof.
  split; [destruct p; do 6 eexists; reflexivity|].
  exists []. split; reflexivity.
Qed.

Lemma inserts_AddOp4 p o a b c d : inserts p (sqlVdbeAddOp4 p o a b c d) [].
Proof. apply inserts_set_pVdbe. Qed.
Lemma inserts_ChangeP5 p v : inserts p (sqlVdbeChangeP5 p v) [].
Proof. apply inserts_set_pVdbe. Qed.
Lemma inserts_set_nMem p n : inserts p (set_nMem p n) [].
Proof.
  split; [destruct p; do 6 eexists; reflexivity|].
  exists []. split; reflexivity.
Qed.
Lemma inserts_set_nTab p n : inserts p (set_nTab p n) [].
Proof.
  split; [destruct p; do 6 eexists; reflexivity|].
  exists []. split; reflexivity.
Qed.
Lemma inserts_set_range p i n : inserts p (set_range p i n) [].
Proof.
  split; [destruct p; do 6 eexists; reflexivity|].
  exists []. split; reflexivity.
Qed.
Lemma inserts_save_record p space_id a b c :
  inserts p (save_record p space_id a b c) [space_id].
Proof.
  split; [destruct p; do 6 eexists; reflexivity|].
  exists [mk_saved_record space_id a b c]. split; reflexivity.
Qed.
Lemma inserts_sqlGetVdbe p : inserts p (sqlGetVdbe p) [].
Proof.
  unfold sqlGetVdbe. destruct (pVdbe p);
    [apply inserts_refl|apply inserts_set_pVdbe].
Qed.
Lemma inserts_after_sqlGetVdbe p q d :
  inserts (sqlGetVdbe p) q d -> inserts p q d.
Proof.
  intros Hq.
  eapply inserts_eq;
    [eapply inserts_trans; [apply inserts_sqlGetVdbe|exact Hq]|reflexivity].
Qed.
Lemma inserts_temp_range p n : inserts p (sqlGetTempRange p n).1 [].
Proof.
  unfold sqlGetTempRange. destruct (n <=? nRangeReg p); simpl;
    [apply inserts_set_range|apply inserts_set_nMem].
Qed.
Lemma inserts_release p i n : inserts p (sqlReleaseTempRange p i n) [].
Proof.
  unfold sqlReleaseTempRange. destruct (nRangeReg p <? n);
    [apply inserts_set_range|apply inserts_refl].
Qed.

Lemma inserts_fold_left {A} (f : Parse -> A -> Parse) (l : list A)
    (space : nat) :
  (forall p x, inserts p (f p x) [space]) ->
  forall p, inserts p (fold_left f l p) (replicate (length l) space).
Proof.
  intros Hf. induction l as [|x l IH]; intros p; simpl.
  - apply inserts_refl.
  - change (space :: replicate (length l) space)
      with ([space] ++ replicate (length l) space).
    eapply inserts_trans; [apply Hf|apply IH].
Qed.

End Inserts.

(** One step of a chain of emit calls, for [inserts]. *)
Ltac inserts_step :=
  idtac;
  lazymatch goal with
  | |- inserts _ (save_record _ _ _ _ _) _ => apply inserts_save_record
  | |- inserts _ (sqlVdbeChangeP5 _ _) _ => apply inserts_ChangeP5
  | |- inserts _ (sqlVdbeAddOp4 _ _ _ _ _ _) _ => apply inserts_AddOp4
  | |- inserts _ (sqlVdbeAddOp3 _ _ _ _ _) _ => apply inserts_AddOp4
  | |- inserts _ (sqlVdbeAddOp2 _ _ _ _) _ => apply inserts_AddOp4
  | |- inserts _ (sqlVdbeAddOp1 _ _ _) _ => apply inserts_AddOp4
  | |- inserts _ (sqlVdbeAddOp0 _ _) _ => apply inserts_AddOp4
  | |- inserts _ (sqlVdbeAddOp4Int _ _ _ _ _ _) _ => apply inserts_AddOp4
  | |- inserts _ (vdbe_emit_open_cursor _ _ _ _) _ => apply inserts_AddOp4
  | |- inserts _ (set_nMem _ _) _ => apply inserts_set_nMem
  | |- inserts _ (set_nTab _ _) _ => apply inserts_set_nTab
  | |- inserts _ (sqlReleaseTempRange _ _ _) _ => apply inserts_release
  | |- inserts _ (sqlGetVdbe _) _ => apply inserts_sqlGetVdbe
  end.

Ltac inserts_chain_with step :=
  lazymatch goal with
  | |- inserts ?p ?q _ =>
      first [ constr_eq p q; apply inserts_refl
            | eapply inserts_trans; [ | step ]; [ inserts_chain_with step ] ]
  end.

Ltac inserts_chain := inserts_chain_with inserts_step.

Section InsertsOfEmitters.
Context `{BoxApi}.

Lemma inserts_presence_test p a b c d e f g h :
  inserts p (vdbe_emit_halt_with_presence_test p a b c d e f g h) [].
Proof.
  unfold vdbe_emit_halt_with_presence_test. cbv zeta.
  destruct g; (eapply inserts_eq; [inserts_chain|reflexivity]).
Qed.

Lemma inserts_space_create p a b sp :
  inserts p (vdbe_emit_space_create p a b sp) [BOX_SPACE_ID].
Proof.
  unfold vdbe_emit_space_create. cbv zeta.
  eapply inserts_eq; [inserts_chain|reflexivity].
Qed.

Lemma inserts_create_index p def idx a b :
  inserts p (vdbe_emit_create_index p def idx a b) [BOX_INDEX_ID].
Proof.
  unfold vdbe_emit_create_index. cbv zeta.
  apply inserts_after_sqlGetVdbe. generalize (sqlGetVdbe p). clear p.
  intros p.
  change (new_space (set_nMem (set_nMem p (nMem p + 1))
                       (nMem (set_nMem p (nMem p + 1)) + 6)))
    with (new_space p).
  destruct (new_space p); (eapply inserts_eq; [inserts_chain|reflexivity]).
Qed.

End InsertsOfEmitters.

Ltac inserts_call_step :=
  idtac;
  lazymatch goal with
  | |- inserts _ (vdbe_emit_halt_with_presence_test _ _ _ _ _ _ _ _ _) _ =>
      apply inserts_presence_test
  | |- _ => inserts_step
  end.

Ltac inserts_calls := inserts_chain_with inserts_call_step.

Section InsertionOrder.
Context `{BoxApi}.

Lemma inserts_sequence_record p a b :
  inserts p (emitNewSysSequenceRecord p a b).1 [].
Proof.
  unfold emitNewSysSequenceRecord. cbv beta iota zeta delta [fst].
  eapply inserts_eq; [inserts_chain|reflexivity].
Qed.

Lemma inserts_space_sequence_record p a b c :
  inserts p (emitNewSysSpaceSequenceRecord p a b c).1 [].
Proof.
  unfold emitNewSysSpaceSequenceRecord. cbv beta iota zeta delta [fst].
  eapply inserts_eq; [inserts_chain|reflexivity].
Qed.

Lemma inserts_ck_create p ck reg :
  inserts p (vdbe_emit_ck_constraint_create p ck reg) [BOX_CK_CONSTRAINT_ID].
Proof.
  unfold vdbe_emit_ck_constraint_create. cbv zeta.
  apply inserts_after_sqlGetVdbe. generalize (sqlGetVdbe p). clear p.
  intros p.
  pose proof (inserts_temp_range p 6) as Hr.
  destruct (sqlGetTempRange p 6) as [p1 r]. simpl in Hr. cbv zeta.
  eapply inserts_eq;
    [eapply inserts_trans; [exact Hr|inserts_calls]|reflexivity].
Qed.

Lemma inserts_fk_create p fk :
  inserts p (vdbe_emit_fk_constraint_create p fk) [BOX_FK_CONSTRAINT_ID].
Proof.
  unfold vdbe_emit_fk_constraint_create. cbv zeta.
  apply inserts_after_sqlGetVdbe. generalize (sqlGetVdbe p). clear p.
  intros p.
  pose proof (inserts_temp_range p 10) as Hr.
  destruct (sqlGetTempRange p 10) as [p1 r]. simpl in Hr. cbv zeta.
  change (new_space (sqlVdbeAddOp4 p1 OP_String8 0 r 0 (P4_DYNAMIC (fk_name fk))))
    with (new_space p1).
  destruct (bool_decide (new_space p1 <> None));
    destruct (fk_constraint_is_self_referenced fk);
    cbv beta iota zeta delta [andb];
    (eapply inserts_eq;
     [eapply inserts_trans; [exact Hr|inserts_calls]|reflexivity]).
Qed.

Lemma inserts_sqlEndTable_rows p sp name_reg reg :
  inserts p (sqlEndTable_rows p sp name_reg reg)
    ([BOX_SPACE_ID] ++ replicate (length (index sp)) BOX_INDEX_ID).
Proof.
  unfold sqlEndTable_rows. cbv zeta.
  eapply inserts_trans; [apply inserts_space_create|].
  apply inserts_fold_left. intros. apply inserts_create_index.
Qed.

Lemma inserts_sqlEndTable_sequence p sp reg :
  inserts p (sqlEndTable_sequence p sp reg)
    (if has_autoinc p then [BOX_SEQUENCE_ID; BOX_SPACE_SEQUENCE_ID] else []).
Proof.
  unfold sqlEndTable_sequence. destruct (has_autoinc p); [|apply inserts_refl].
  cbv zeta.
  match goal with
  | |- inserts _ (let '(_, _) := emitNewSysSequenceRecord ?x ?a ?b in _) _ =>
      pose proof (inserts_sequence_record x a b) as H1;
      destruct (emitNewSysSequenceRecord x a b) as [p1 r1]; simpl in H1
  end.
  match goal with
  | |- inserts _ (let '(_, _) := emitNewSysSpaceSequenceRecord ?x ?a ?b ?c in _)
         _ =>
      pose proof (inserts_space_sequence_record x a b c) as H2;
      destruct (emitNewSysSpaceSequenceRecord x a b c) as [p2 r2]; simpl in H2
  end.
  eapply inserts_eq.
  - eapply inserts_trans; [|inserts_step].
    eapply inserts_trans; [|inserts_step].
    eapply inserts_trans; [|exact H2].
    eapply inserts_trans; [|inserts_step].
    eapply inserts_trans; [|inserts_step].
    eapply inserts_trans; [|exact H1].
    inserts_chain.
  - reflexivity.
Qed.

Lemma resolve_selfref_links_failure def fk cols : forall ls p p',
  resolve_selfref_links p def fk cols ls = (p', None) -> is_aborted p' = true.
Proof.
  induction cols as [|c cols IH]; intros ls p p'; destruct ls as [|[a b] ls];
    simpl; try discriminate.
  unfold resolve_link at 1.
  destruct (field_by_name (fields def) c) as [j|];
    [|intros [= <-]; reflexivity].
  destruct (resolve_selfref_links p def fk cols ls) as [p2 [x|]] eqn:Hrec;
    [discriminate|].
  intros [= <-]. eapply IH. exact Hrec.
Qed.

Lemma resolve_selfref_links_success def fk cols : forall ls p p' r,
  resolve_selfref_links p def fk cols ls = (p', Some r) -> p' = p.
Proof.
  induction cols as [|c cols IH]; intros ls p p' r; destruct ls as [|[a b] ls];
    simpl; try (intros [= <- _]; reflexivity).
  unfold resolve_link at 1.
  destruct (field_by_name (fields def) c) as [j|]; [|discriminate].
  destruct (resolve_selfref_links p def fk cols ls) as [p2 [x|]] eqn:Hrec;
    [|discriminate].
  intros [= <- _]. eapply IH. exact Hrec.
Qed.

(** The loop over the foreign keys either records one insertion per
    foreign key or stops with an error. *)
Lemma inserts_new_fkeys sp reg fks : forall p,
  match emit_new_fkeys p sp reg fks with
  | (q, true) => inserts p q (replicate (length fks) BOX_FK_CONSTRAINT_ID)
  | (q, false) => is_aborted q = true
  end.
Proof.
  induction fks as [|fk_parse rest IH]; intros p; simpl;
    [apply inserts_refl|].
  match goal with
  | |- context [match selfref_cols fk_parse with
                | Some c => @?f c
                | None => ?g
                end] =>
      destruct (match selfref_cols fk_parse with
                | Some c => f c
                | None => g
                end) as [p1 res] eqn:Hres
  end.
  assert (Hp1 : match res with
                | Some _ => p1 = p
                | None => is_aborted p1 = true
                end).
  { destruct (selfref_cols fk_parse) as [cols|].
    - destruct (resolve_selfref_links p sp _ cols _) as [p2 [ls|]] eqn:Hl;
        injection Hres as <- <-.
      + eapply resolve_selfref_links_success. exact Hl.
      + eapply resolve_selfref_links_failure. exact Hl.
    - destruct (is_self_referenced fk_parse);
        [destruct (negb _)|]; injection Hres as <- <-; reflexivity. }
  destruct res as [fk|]; [|exact Hp1]. subst p1.
  specialize (IH (vdbe_emit_fk_constraint_create p
                    (set_fk_ids fk reg (parent_id fk) (links fk)))).
  destruct (emit_new_fkeys _ sp reg rest) as [q [|]]; [|exact IH].
  change (BOX_FK_CONSTRAINT_ID :: replicate (length rest) BOX_FK_CONSTRAINT_ID)
    with ([BOX_FK_CONSTRAINT_ID]
          ++ replicate (length rest) BOX_FK_CONSTRAINT_ID).
  eapply inserts_trans; [apply inserts_fk_create|exact IH].
Qed.

Lemma inserts_is_aborted p q s : inserts p q s -> is_aborted q = is_aborted p.
Proof. intros [Hc _]. apply code_only_frame in Hc. apply Hc. Qed.

Lemma inserts_sqlEndTable_constraints p sp reg :
  is_aborted (sqlEndTable_constraints p sp reg) = false ->
  inserts p (sqlEndTable_constraints p sp reg)
    (replicate (length (new_fkey p)) BOX_FK_CONSTRAINT_ID
     ++ replicate (length (new_check p)) BOX_CK_CONSTRAINT_ID).
Proof.
  unfold sqlEndTable_constraints.
  pose proof (inserts_new_fkeys sp reg (new_fkey p) p) as Hfk.
  destruct (emit_new_fkeys p sp reg (new_fkey p)) as [p1 [|]];
    [|congruence].
  intros _. eapply inserts_trans; [exact Hfk|].
  destruct Hfk as [Hc _]. apply code_only_frame in Hc as (_ & _ & _ & _ & <- & _).
  apply inserts_fold_left. intros. apply inserts_ck_create.
Qed.

Lemma sqlEndTable_begin_inserts p sp p1 sp' name_reg reg :
  sqlEndTable_begin p sp = (p1, sp', name_reg, reg) ->
  inserts (set_new_space p (Some sp')) p1 [].
Proof.
  unfold sqlEndTable_begin. cbv zeta. unfold getNewSpaceId. cbv zeta.
  intros [= <- <- <- <-].
  eapply inserts_eq; [inserts_calls|reflexivity].
Qed.

(** CREATE TABLE inserts in dependency order.  When sqlEndTable
    finishes without an error, the insertions it has generated and
    recorded are, in this order: the row of the table in _space, one
    row of _index per attached index, the rows of _sequence and
    _space_sequence when a column is AUTOINCREMENT, one row of
    _fk_constraint per foreign key and one row of _ck_constraint per
    check constraint. *)
Theorem sqlEndTable_insertion_order p def :
  new_space p = Some def ->
  record_list p = [] ->
  is_aborted (sqlEndTable p) = false ->
  rec_space_id <$> ledger_of (sqlEndTable p)
  = [BOX_SPACE_ID]
    ++ replicate (length (index def)) BOX_INDEX_ID
    ++ (if has_autoinc p then [BOX_SEQUENCE_ID; BOX_SPACE_SEQUENCE_ID] else [])
    ++ replicate (length (new_fkey p)) BOX_FK_CONSTRAINT_ID
    ++ replicate (length (new_check p)) BOX_CK_CONSTRAINT_ID.
Proof.
  intros Hsp Hrec.
  destruct (sql_space_primary_key def) as [pk|] eqn:Hpk;
    [|rewrite (sqlEndTable_without_pk p def Hsp Hpk); discriminate].
  rewrite (sqlEndTable_unfold p def Hsp) by congruence.
  destruct (sqlEndTable_begin p def) as [[[p1 sp'] name_reg] reg] eqn:Hb.
  cbn [fst snd]. intros Hab.
  pose proof (sqlEndTable_begin_inserts _ _ _ _ _ _ Hb) as H0.
  apply sqlEndTable_begin_spec in Hb as (_ & _ & _ & _ & Hix & _).
  pose proof (inserts_sqlEndTable_rows p1 sp' name_reg reg) as H1.
  set (p2 := sqlEndTable_rows p1 sp' name_reg reg) in *.
  pose proof (inserts_sqlEndTable_sequence p2 sp' reg) as H2.
  set (p3 := sqlEndTable_sequence p2 sp' reg) in *.
  pose proof (inserts_sqlEndTable_constraints p3 sp' reg Hab) as H3.
  assert (H03 : code_only (set_new_space p (Some sp')) p3).
  { eapply code_only_trans; [apply H0|].
    eapply code_only_trans; [apply H1|apply H2]. }
  apply code_only_frame in H03 as (_ & _ & _ & Hfk & Hck & _).
  assert (H02 : code_only (set_new_space p (Some sp')) p2).
  { eapply code_only_trans; [apply H0|apply H1]. }
  apply code_only_frame in H02 as (_ & _ & Hai & _).
  rewrite Hfk, Hck in H3. rewrite Hai in H2. simpl in H3, H2.
  pose proof (inserts_trans _ _ _ _ _ H0
                (inserts_trans _ _ _ _ _ H1
                   (inserts_trans _ _ _ _ _ H2 H3)))
    as (_ & recs & Hr & Hs).
  simpl in Hr. rewrite Hrec, app_nil_r in Hr.
  unfold ledger_of. rewrite Hr, Hs, Hix. simpl. reflexivity.
Qed.

End InsertionOrder.

Lemma sqlEndTable_insertion_order_witness :
  let p := default fresh_parse
             (run_create_table
                [AddColumn "A" FIELD_TYPE_INTEGER; AddPrimaryKey None None;
                 AddColumn "B" FIELD_TYPE_INTEGER; AddUnique None None;
                 AddCheck None "b > 0"]) in
  rec_space_id <$> ledger_of (@sqlEndTable reference_api p)
  = [BOX_SPACE_ID; BOX_INDEX_ID; BOX_INDEX_ID; BOX_CK_CONSTRAINT_ID].
Proof.
  intros p.
  assert (Hsp : new_space p
                = Some (default (sql_ephemeral_space_new "") (new_space p)))
    by (vm_compute; reflexivity).
  assert (Hrec : record_list p = []) by (vm_compute; reflexivity).
  assert (Hab : is_aborted (@sqlEndTable reference_api p) = false)
    by (vm_compute; reflexivity).
  pose proof (@sqlEndTable_insertion_order reference_api p _ Hsp Hrec Hab)
    as Horder.
  vm_compute in Horder |- *. exact Horder.
Defined.

Section DropForeignKey.
Context `{BoxApi}.

Lemma inserts_nothing p q :
  inserts p q [] ->
  record_list q = record_list p /\ is_aborted q = is_aborted p.
Proof.
  intros (Hc & recs & Hr & Hs).
  apply code_only_frame in Hc as (Hab & _).
  split; [|exact Hab].
  destruct (reverse recs) as [|x l] eqn:Hrev; [|discriminate].
  apply (f_equal reverse) in Hrev. rewrite reverse_involutive in Hrev.
  rewrite Hr, Hrev. reflexivity.
Qed.

Lemma inserts_fk_drop p name child :
  inserts p (vdbe_emit_fk_constraint_drop p name child) [].
Proof.
  unfold vdbe_emit_fk_constraint_drop. cbv zeta.
  apply inserts_after_sqlGetVdbe. generalize (sqlGetVdbe p). clear p.
  intros p.
  pose proof (inserts_temp_range p 3) as Hr.
  destruct (sqlGetTempRange p 3) as [p1 r]. simpl in Hr. cbv zeta.
  eapply inserts_eq;
    [eapply inserts_trans; [exact Hr|inserts_calls]|reflexivity].
Qed.

Lemma vdbe_emit_fk_constraint_drop_sqlGetVdbe p name child :
  vdbe_emit_fk_constraint_drop p name child
  = vdbe_emit_fk_constraint_drop (sqlGetVdbe p) name child.
Proof.
  unfold vdbe_emit_fk_constraint_drop. cbv zeta.
  rewrite sqlGetVdbe_idemp. reflexivity.
Qed.

Lemma aOp_fk_drop p name child :
  sqlGetVdbe p = p ->
  aOp (vdbe_emit_fk_constraint_drop p name child)
  = aOp p
    ++ [mk_op OP_String8 0 (sqlGetTempRange p 3).2 0 (P4_DYNAMIC name) 0;
        mk_op OP_Integer child ((sqlGetTempRange p 3).2 + 1) 0 P4_NOTUSED 0;
        mk_op OP_IteratorOpen (nTab p) 0 0 (P4_SPACEPTR BOX_FK_CONSTRAINT_ID)
          OPFLAG_SYSTEMSP;
        mk_op OP_Found (nTab p) (nOp p + 6) (sqlGetTempRange p 3).2
          (P4_INT32 2) 0;
        mk_op OP_Halt SQL_TARANTOOL_ERROR 0 0
          (P4_DYNAMIC (tnt_errcode_desc ER_NO_SUCH_CONSTRAINT name))
          (tnt_errcode ER_NO_SUCH_CONSTRAINT);
        mk_op OP_Close (nTab p) 0 0 P4_NOTUSED 0;
        mk_op OP_MakeRecord (sqlGetTempRange p 3).2 2
          ((sqlGetTempRange p 3).2 + 2) P4_NOTUSED 0;
        mk_op OP_SDelete BOX_FK_CONSTRAINT_ID ((sqlGetTempRange p 3).2 + 2) 0
          P4_NOTUSED 0].
Proof.
  intros Hp. unfold vdbe_emit_fk_constraint_drop. rewrite Hp.
  destruct (sqlGetTempRange_frame p 3) as (Hops & Htab & _).
  destruct (sqlGetTempRange p 3) as [p1 key_reg]. cbn [fst snd] in *.
  cbv zeta.
  rewrite aOp_sqlReleaseTempRange, aOp_sqlVdbeAddOp2, aOp_sqlVdbeAddOp3.
  rewrite aOp_presence_test.
  change (sqlGetVdbe (sqlVdbeAddOp2 (sqlVdbeAddOp4 p1 OP_String8 0 key_reg 0
                                       (P4_DYNAMIC name))
                        OP_Integer child (key_reg + 1)))
    with (sqlVdbeAddOp2 (sqlVdbeAddOp4 p1 OP_String8 0 key_reg 0
                           (P4_DYNAMIC name))
            OP_Integer child (key_reg + 1)).
  unfold nOp. rewrite aOp_sqlVdbeAddOp2, aOp_sqlVdbeAddOp4, Hops.
  change (nTab (sqlVdbeAddOp2 (sqlVdbeAddOp4 p1 OP_String8 0 key_reg 0
                                 (P4_DYNAMIC name))
                  OP_Integer child (key_reg + 1)))
    with (nTab p1).
  rewrite Htab, !length_app. cbn [length].
  replace (length (aOp p) + 1 + 1 + 4) with (length (aOp p) + 6) by lia.
  rewrite <- !app_assoc. reflexivity.
Qed.

(** ALTER TABLE t DROP CONSTRAINT c.  When no table t exists, an
    error is raised and nothing is generated.  Otherwise the code
    looks the key (c, id of t) up in _fk_constraint, halts with
    "no such constraint" when it is not there, and else deletes the
    row; the delete is the last instruction and the only one that
    counts as a change. *)
Theorem sql_drop_foreign_key_code p table_name constraint_name :
  let q := sql_drop_foreign_key p table_name constraint_name in
  match space_by_name p table_name with
  | None =>
      is_aborted q = true
      /\ diag q = Some (ClientError ER_NO_SUCH_SPACE [table_name])
      /\ pVdbe q = pVdbe p
  | Some child =>
      let p0 := sqlGetVdbe p in
      let key_reg := (sqlGetTempRange p0 3).2 in
      aOp q
      = aOp p0
        ++ [mk_op OP_String8 0 key_reg 0 (P4_DYNAMIC constraint_name) 0;
            mk_op OP_Integer (space_id child) (key_reg + 1) 0 P4_NOTUSED 0;
            mk_op OP_IteratorOpen (nTab p) 0 0 (P4_SPACEPTR BOX_FK_CONSTRAINT_ID)
              OPFLAG_SYSTEMSP;
            mk_op OP_Found (nTab p) (nOp p0 + 6) key_reg (P4_INT32 2) 0;
            mk_op OP_Halt SQL_TARANTOOL_ERROR 0 0
              (P4_DYNAMIC (tnt_errcode_desc ER_NO_SUCH_CONSTRAINT
                             constraint_name))
              (tnt_errcode ER_NO_SUCH_CONSTRAINT);
            mk_op OP_Close (nTab p) 0 0 P4_NOTUSED 0;
            mk_op OP_MakeRecord key_reg 2 (key_reg + 2) P4_NOTUSED 0;
            mk_op OP_SDelete BOX_FK_CONSTRAINT_ID (key_reg + 2) 0 P4_NOTUSED
              OPFLAG_NCHANGE]
      /\ is_aborted q = is_aborted p
      /\ record_list q = record_list p
  end.
Proof.
  intros q. unfold q, sql_drop_foreign_key.
  destruct (space_by_name p table_name) as [child|];
    [|repeat split; reflexivity].
  cbv zeta. rewrite (vdbe_emit_fk_constraint_drop_sqlGetVdbe p).
  set (p0 := sqlGetVdbe p).
  assert (Htab0 : nTab p0 = nTab p).
  { unfold p0, sqlGetVdbe. destruct (pVdbe p); reflexivity. }
  set (p2 := vdbe_emit_fk_constraint_drop p0 constraint_name (space_id child)).
  pose proof (aOp_fk_drop p0 constraint_name (space_id child)
                (sqlGetVdbe_idemp p)) as H2.
  fold p2 in H2. rewrite Htab0 in H2.
  assert (Hv : pVdbe p2 <> None).
  { intros Hnone. unfold aOp in H2 at 1. rewrite Hnone in H2.
    destruct (aOp p0); discriminate. }
  rewrite (sqlGetVdbe_created p2 Hv).
  split.
  - assert (Hsplit : forall (l : list VdbeOp) a b c d e f g h,
               l ++ [a; b; c; d; e; f; g; h]
               = (l ++ [a; b; c; d; e; f; g]) ++ [h])
      by (intros; rewrite <- app_assoc; reflexivity).
    rewrite aOp_sqlVdbeChangeP5. unfold nOp. rewrite H2, Hsplit.
    rewrite (length_app _ [_]). cbn [length].
    match goal with
    | |- context [alter ?f (length ?l + 1 - 1) (?l ++ [?x])] =>
        replace (length l + 1 - 1) with (length l) by lia;
        rewrite (alter_last f l x)
    end.
    rewrite <- app_assoc. reflexivity.
  - assert (Hi : inserts p (sqlVdbeChangeP5 p2 OPFLAG_NCHANGE) []).
    { eapply inserts_eq.
      - eapply inserts_trans; [apply inserts_sqlGetVdbe|].
        eapply inserts_trans; [apply inserts_fk_drop|].
        apply inserts_ChangeP5.
      - reflexivity. }
    apply inserts_nothing in Hi as [Hr Ha]. split; [exact Ha|exact Hr].
Qed.

End DropForeignKey.

(** ** The code of DROP TABLE, block by block *)

Section DropTableCode.
Context `{BoxApi}.

Lemma aOp_created q : aOp q <> [] -> pVdbe q <> None.
Proof.
  unfold aOp. destruct (pVdbe q); [discriminate|].
  intros Hq. contradiction Hq. reflexivity.
Qed.

Lemma aOp_ck_drop p name id :
  sqlGetVdbe p = p ->
  aOp (vdbe_emit_ck_constraint_drop p name id)
  = aOp p
    ++ ck_constraint_drop_code (sqlGetTempRange p 3).2 (nTab p) (nOp p + 6)
         name id.
Proof.
  intros Hp. unfold vdbe_emit_ck_constraint_drop. rewrite Hp.
  destruct (sqlGetTempRange_frame p 3) as (Hops & Htab & _).
  destruct (sqlGetTempRange p 3) as [p1 key_reg]. cbn [fst snd] in *.
  cbv zeta.
  rewrite aOp_sqlReleaseTempRange, aOp_sqlVdbeAddOp2, aOp_sqlVdbeAddOp3.
  rewrite aOp_presence_test.
  change (sqlGetVdbe (sqlVdbeAddOp4 (sqlVdbeAddOp2 p1 OP_Integer id key_reg)
                        OP_String8 0 (key_reg + 1) 0 (P4_DYNAMIC name)))
    with (sqlVdbeAddOp4 (sqlVdbeAddOp2 p1 OP_Integer id key_reg)
            OP_String8 0 (key_reg + 1) 0 (P4_DYNAMIC name)).
  unfold nOp. rewrite aOp_sqlVdbeAddOp4, aOp_sqlVdbeAddOp2, Hops.
  change (nTab (sqlVdbeAddOp4 (sqlVdbeAddOp2 p1 OP_Integer id key_reg)
                  OP_String8 0 (key_reg + 1) 0 (P4_DYNAMIC name)))
    with (nTab p1).
  rewrite Htab, !length_app. cbn [length].
  replace (length (aOp p) + 1 + 1 + 4) with (length (aOp p) + 6) by lia.
  unfold ck_constraint_drop_code. rewrite <- !app_assoc. reflexivity.
Qed.

(** One foreign key of the dropped table: its block of code. *)
Lemma fk_constraint_drop_block p name child :
  pVdbe p <> None ->
  exists ops,
    aOp (vdbe_emit_fk_constraint_drop p name child) = aOp p ++ ops
    /\ (exists key_reg cursor target,
           ops = fk_constraint_drop_code key_reg cursor target name child)
    /\ pVdbe (vdbe_emit_fk_constraint_drop p name child) <> None.
Proof.
  intros Hv.
  pose proof (aOp_fk_drop p name child (sqlGetVdbe_created p Hv)) as Hops.
  eexists. split; [exact Hops|]. split.
  - do 3 eexists. reflexivity.
  - apply aOp_created. rewrite Hops. intros Hnil.
    apply app_eq_nil in Hnil as [_ Hnil]. discriminate.
Qed.

(** One check constraint of the dropped table: its block of code. *)
Lemma ck_constraint_drop_block p name id :
  pVdbe p <> None ->
  exists ops,
    aOp (vdbe_emit_ck_constraint_drop p name id) = aOp p ++ ops
    /\ (exists key_reg cursor target,
           ops = ck_constraint_drop_code key_reg cursor target name id)
    /\ pVdbe (vdbe_emit_ck_constraint_drop p name id) <> None.
Proof.
  intros Hv.
  pose proof (aOp_ck_drop p name id (sqlGetVdbe_created p Hv)) as Hops.
  eexists. split; [exact Hops|]. split.
  - do 3 eexists. reflexivity.
  - apply aOp_created. rewrite Hops. intros Hnil.
    apply app_eq_nil in Hnil as [_ Hnil]. discriminate.
Qed.

(** A loop that appends one block of code per element. *)
Lemma fold_left_blocks {A} (f : Parse -> A -> Parse)
    (B : A -> list VdbeOp -> Prop) :
  (forall p x,
      pVdbe p <> None ->
      exists ops,
        aOp (f p x) = aOp p ++ ops /\ B x ops /\ pVdbe (f p x) <> None) ->
  forall l p,
    pVdbe p <> None ->
    exists blocks,
      aOp (fold_left f l p) = aOp p ++ concat blocks
      /\ Forall2 B l blocks
      /\ pVdbe (fold_left f l p) <> None.
Proof.
  intros Hf. induction l as [|x l IH]; intros p Hv; simpl.
  - exists []. simpl. rewrite app_nil_r. repeat split; [constructor|exact Hv].
  - destruct (Hf p x Hv) as (ops & Hops & HB & Hv1).
    destruct (IH (f p x) Hv1) as (blocks & Hblocks & Hall & Hv2).
    exists (ops :: blocks). simpl. rewrite Hblocks, Hops, <- app_assoc.
    repeat split; [constructor; assumption|exact Hv2].
Qed.

(** The loop over the secondary indexes of the dropped table. *)
Lemma aOp_drop_secondary_indexes space_id_reg index_id_reg idx_rec_reg l :
  forall p,
    aOp (fold_left
           (fun p idx =>
              let p := sqlVdbeAddOp2 p OP_Integer (iid idx) index_id_reg in
              let p :=
                sqlVdbeAddOp3 p OP_MakeRecord space_id_reg 2 idx_rec_reg in
              sqlVdbeAddOp2 p OP_SDelete BOX_INDEX_ID idx_rec_reg)
           l p)
    = aOp p
      ++ flat_map
           (fun idx =>
              drop_index_row space_id_reg index_id_reg idx_rec_reg (iid idx))
           l.
Proof.
  induction l as [|idx l IH]; intros p; simpl.
  - rewrite app_nil_r. reflexivity.
  - rewrite IH. program_of_chain. rewrite <- !app_assoc. reflexivity.
Qed.

(** DROP TABLE deletes in reverse dependency order, and what it
    deletes.  After the code that drops the triggers,
    sql_code_drop_table loads the id of the table into a register and
    appends, in this order: for a table with a sequence, the deletion
    of the rows of that sequence from _sequence_data, _space_sequence
    and _sequence; for each foreign key of the table, in list order,
    the eight instructions that look the key (name of the foreign key,
    id of the table) up in _fk_constraint and delete the row; for each
    check constraint, the eight instructions that do the same with the
    key (id of the table, name of the constraint) in _ck_constraint;
    for a table (not for a view), the deletion from _index of the row
    (id of the table, id of the index) of every index but the one in
    slot 0, in slot order, and then of the row (id of the table, 0) of
    the primary index; the deletion of the row of _truncate; and,
    last, the deletion of the row of _space, the only instruction that
    counts as a change. *)
Theorem sql_code_drop_table_order p sp view :
  let p0 :=
    fold_left (fun p zName => vdbe_code_drop_trigger p zName false)
      (sql_triggers sp) (sqlGetVdbe p) in
  let idx_rec_reg := nMem p0 + 1 in
  let space_id_reg := nMem p0 + 2 in
  let index_id_reg := nMem p0 + 3 in
  let sequence_id_reg := nMem p0 + 4 in
  appends_deleting p0 (sql_code_drop_table p sp view)
    ((match sequence sp with
      | Some _ =>
          [BOX_SEQUENCE_DATA_ID; BOX_SPACE_SEQUENCE_ID; BOX_SEQUENCE_ID]
      | None => []
      end)
     ++ replicate (length (child_fk_constraint sp)) BOX_FK_CONSTRAINT_ID
     ++ replicate (length (ck_constraint sp)) BOX_CK_CONSTRAINT_ID
     ++ (if view then []
         else replicate (length (index sp) - 1) BOX_INDEX_ID ++ [BOX_INDEX_ID])
     ++ [BOX_TRUNCATE_ID; BOX_SPACE_ID])
  /\ exists fk_blocks ck_blocks,
       aOp (sql_code_drop_table p sp view)
       = aOp p0
         ++ [mk_op OP_Integer (space_id sp) space_id_reg 0 P4_NOTUSED 0;
             mk_op OP_CheckViewReferences space_id_reg 0 0 P4_NOTUSED 0]
         ++ (match sequence sp with
             | Some seq_id =>
                 [mk_op OP_Integer seq_id sequence_id_reg 0 P4_NOTUSED 0;
                  mk_op OP_MakeRecord sequence_id_reg 1 idx_rec_reg
                    P4_NOTUSED 0;
                  mk_op OP_SDelete BOX_SEQUENCE_DATA_ID idx_rec_reg 0
                    P4_NOTUSED 0;
                  mk_op OP_MakeRecord space_id_reg 1 idx_rec_reg P4_NOTUSED 0;
                  mk_op OP_SDelete BOX_SPACE_SEQUENCE_ID idx_rec_reg 0
                    P4_NOTUSED 0;
                  mk_op OP_MakeRecord sequence_id_reg 1 idx_rec_reg
                    P4_NOTUSED 0;
                  mk_op OP_SDelete BOX_SEQUENCE_ID idx_rec_reg 0 P4_NOTUSED 0]
             | None => []
             end)
         ++ concat fk_blocks
         ++ concat ck_blocks
         ++ (if view then []
             else
               flat_map
                 (fun idx =>
                    drop_index_row space_id_reg index_id_reg idx_rec_reg
                      (iid idx))
                 (drop 1 (index sp))
               ++ drop_index_row space_id_reg index_id_reg idx_rec_reg 0)
         ++ [mk_op OP_MakeRecord space_id_reg 1 idx_rec_reg P4_NOTUSED 0;
             mk_op OP_SDelete BOX_TRUNCATE_ID idx_rec_reg 0 P4_NOTUSED 0;
             mk_op OP_MakeRecord space_id_reg 1 idx_rec_reg P4_NOTUSED 0;
             mk_op OP_SDelete BOX_SPACE_ID idx_rec_reg 0 P4_NOTUSED
               OPFLAG_NCHANGE]
       /\ Forall2
            (fun fk ops =>
               exists key_reg cursor target,
                 ops = fk_constraint_drop_code key_reg cursor target
                         (fk_name fk) (space_id sp))
            (child_fk_constraint sp) fk_blocks
       /\ Forall2
            (fun ck ops =>
               exists key_reg cursor target,
                 ops = ck_constraint_drop_code key_reg cursor target
                         (ck_name ck) (space_id sp))
            (ck_constraint sp) ck_blocks.
Proof.
  intros p0 idx_rec_reg space_id_reg index_id_reg sequence_id_reg.
  split; [apply sql_code_drop_table_deletes|].
  unfold sql_code_drop_table. cbv zeta. fold p0.
  fold idx_rec_reg space_id_reg index_id_reg.
  set (p1 := sqlVdbeAddOp1 _ OP_CheckViewReferences _).
  assert (H1 : aOp p1
               = aOp p0
                 ++ [mk_op OP_Integer (space_id sp) space_id_reg 0
                       P4_NOTUSED 0;
                     mk_op OP_CheckViewReferences space_id_reg 0 0
                       P4_NOTUSED 0]).
  { unfold p1. program_of_chain. rewrite <- app_assoc. reflexivity. }
  assert (Hv1 : pVdbe p1 <> None) by discriminate.
  assert (Hm1 : nMem p1 + 1 = sequence_id_reg)
    by (unfold sequence_id_reg; change (nMem p1) with (nMem p0 + 3); lia).
  set (p2 := match sequence sp with Some _ => _ | None => p1 end).
  assert (H2 : aOp p2
               = aOp p1
                 ++ match sequence sp with
                    | Some seq_id =>
                        [mk_op OP_Integer seq_id sequence_id_reg 0
                           P4_NOTUSED 0;
                         mk_op OP_MakeRecord sequence_id_reg 1 idx_rec_reg
                           P4_NOTUSED 0;
                         mk_op OP_SDelete BOX_SEQUENCE_DATA_ID idx_rec_reg 0
                           P4_NOTUSED 0;
                         mk_op OP_MakeRecord space_id_reg 1 idx_rec_reg
                           P4_NOTUSED 0;
                         mk_op OP_SDelete BOX_SPACE_SEQUENCE_ID idx_rec_reg 0
                           P4_NOTUSED 0;
                         mk_op OP_MakeRecord sequence_id_reg 1 idx_rec_reg
                           P4_NOTUSED 0;
                         mk_op OP_SDelete BOX_SEQUENCE_ID idx_rec_reg 0
                           P4_NOTUSED 0]
                    | None => []
                    end).
  { unfold p2. destruct (sequence sp) as [seq_id|];
      [|rewrite app_nil_r; reflexivity].
    rewrite Hm1. program_of_chain. rewrite <- !app_assoc. reflexivity. }
  assert (Hv2 : pVdbe p2 <> None).
  { unfold p2. destruct (sequence sp); [discriminate|exact Hv1]. }
  set (p3 := fold_left _ (child_fk_constraint sp) p2).
  destruct (fold_left_blocks
              (fun p child_fk =>
                 vdbe_emit_fk_constraint_drop p (fk_name child_fk)
                   (space_id sp))
              (fun fk ops =>
                 exists key_reg cursor target,
                   ops = fk_constraint_drop_code key_reg cursor target
                           (fk_name fk) (space_id sp))
              (fun q fk Hq =>
                 fk_constraint_drop_block q (fk_name fk) (space_id sp) Hq)
              (child_fk_constraint sp) p2 Hv2)
    as (fk_blocks & H3 & Hfk & Hv3).
  fold p3 in H3, Hv3.
  set (p4 := fold_left _ (ck_constraint sp) p3).
  destruct (fold_left_blocks
              (fun p ck =>
                 vdbe_emit_ck_constraint_drop p (ck_name ck) (space_id sp))
              (fun ck ops =>
                 exists key_reg cursor target,
                   ops = ck_constraint_drop_code key_reg cursor target
                           (ck_name ck) (space_id sp))
              (fun q ck Hq =>
                 ck_constraint_drop_block q (ck_name ck) (space_id sp) Hq)
              (ck_constraint sp) p3 Hv3)
    as (ck_blocks & H4 & Hck & _).
  fold p4 in H4.
  set (p5 := if negb view then _ else p4).
  assert (H5 : aOp p5
               = aOp p4
                 ++ (if view then []
                     else
                       flat_map
                         (fun idx =>
                            drop_index_row space_id_reg index_id_reg
                              idx_rec_reg (iid idx))
                         (drop 1 (index sp))
                       ++ drop_index_row space_id_reg index_id_reg
                            idx_rec_reg 0)).
  { unfold p5. destruct view; cbn [negb];
      [rewrite app_nil_r; reflexivity|].
    program_of_chain. rewrite aOp_drop_secondary_indexes.
    unfold drop_index_row at 2. rewrite <- !app_assoc. reflexivity. }
  exists fk_blocks, ck_blocks. split; [|split; assumption].
  rewrite aOp_sqlVdbeChangeP5. unfold nOp.
  rewrite aOp_sqlVdbeAddOp2, length_app. cbn [length].
  match goal with
  | |- alter ?f (length ?l + 1 - 1) (?l ++ [?x]) = _ =>
      replace (length l + 1 - 1) with (length l) by lia;
      rewrite (alter_last f l x)
  end.
  program_of_chain. rewrite H5, H4, H3, H2, H1.
  rewrite <- !app_assoc. reflexivity.
Qed.

End DropTableCode.

(** ** What the builder routines leave alone *)

Section Draft.
Context `{BoxApi}.

Lemma draft_only_refl p : draft_only p p.
Proof. destruct p. do 5 eexists. reflexivity. Qed.

Lemma draft_only_trans p q r :
  draft_only p q -> draft_only q r -> draft_only p r.
Proof.
  intros (b & d & s & n & c & ->) (b' & d' & s' & n' & c' & ->).
  do 5 eexists. reflexivity.
Qed.

Lemma draft_only_errors p q : errors_only p q -> draft_only p q.
Proof. intros (b & d & ->). destruct p. do 5 eexists. reflexivity. Qed.

Lemma draft_only_set_new_space p s : draft_only p (set_new_space p s).
Proof. destruct p. do 5 eexists. reflexivity. Qed.

Lemma draft_only_set_checks p n c : draft_only p (set_checks p n c).
Proof. destruct p. do 5 eexists. reflexivity. Qed.

Lemma draft_only_raise p c a : draft_only p (raise p c a).
Proof. apply draft_only_errors, errors_only_raise. Qed.

Lemma draft_only_frame p q :
  draft_only p q ->
  pVdbe q = pVdbe p /\ record_list q = record_list p
  /\ nMem q = nMem p /\ nTab q = nTab p
  /\ limit_column q = limit_column p /\ has_autoinc q = has_autoinc p
  /\ new_fkey q = new_fkey p.
Proof. intros (b & d & s & n & c & ->). repeat split. Qed.

Lemma sqlAddColumn_draft_only p name type :
  draft_only p (sqlAddColumn p name type).
Proof.
  unfold sqlAddColumn. destruct (new_space p) as [def|];
    [|apply draft_only_refl].
  destruct (limit_column p <? field_count def + 1);
    [apply draft_only_raise|].
  cbv zeta.
  destruct (existsb _ _).
  - eapply draft_only_trans;
      [apply draft_only_set_new_space|apply draft_only_raise].
  - eapply draft_only_trans; apply draft_only_set_new_space.
Qed.

Lemma sql_column_add_nullable_action_draft_only p action :
  draft_only p (sql_column_add_nullable_action p action).
Proof.
  unfold sql_column_add_nullable_action.
  destruct (new_space p) as [def|]; [|apply draft_only_refl].
  destruct (fields def !! (field_count def - 1)) as [f|];
    [|apply draft_only_refl].
  destruct (_ && _); [apply draft_only_raise|apply draft_only_set_new_space].
Qed.

Lemma sql_create_index_draft_only p cid : draft_only p (sql_create_index p cid).
Proof.
  unfold sql_create_index.
  destruct (sql_create_index_prepare p cid) as [p1 r] eqn:Hprep.
  apply sql_create_index_prepare_spec in Hprep as [Herr _].
  apply draft_only_errors in Herr.
  destruct r as [[def idx]|]; [|exact Herr].
  destruct (merge_with_existing _ idx (index def));
    (eapply draft_only_trans; [exact Herr|apply draft_only_set_new_space]).
Qed.

Lemma field_def_create_for_pk_errors p f name p' f' :
  field_def_create_for_pk p f name = (p', f') -> errors_only p p'.
Proof.
  unfold field_def_create_for_pk. repeat case_match; intros [= <- <-];
    first [apply errors_only_raise|apply errors_only_refl].
Qed.

Lemma pk_fields_not_null_errors name pk_parts : forall p fs p' fs',
  pk_fields_not_null p fs name pk_parts = (p', fs') -> errors_only p p'.
Proof.
  induction pk_parts as [|part rest IH]; intros p fs p' fs'; simpl.
  - intros [= <- <-]. apply errors_only_refl.
  - destruct (fs !! fieldno part) as [f|]; [|apply IH].
    destruct (field_def_create_for_pk p f name) as [p1 f1] eqn:Hf.
    apply field_def_create_for_pk_errors in Hf.
    intros Hrest. apply IH in Hrest.
    eapply errors_only_trans; eassumption.
Qed.

(** The shape of a successful sqlAddPrimaryKey: either the routine
    left through its exit with the state [q] of the checks and of
    sql_create_index, or it went on to the loop over the key parts of
    the primary key [pk] found in the first slot. *)
Lemma sqlAddPrimaryKey_shape p cid p' :
  sqlAddPrimaryKey p cid = Some p' ->
  (new_space p = None /\ p' = p)
  \/ (exists c a, p' = raise p c a)
  \/ (exists cid',
        idx_type cid' = idx_type cid
        /\ (forall def, new_space p = Some def ->
            sql_space_primary_key def = None)
        /\ let q := sql_create_index p cid' in
           (is_aborted q = true /\ p' = q)
           \/ exists sp pk p2 fs,
                new_space q = Some sp
                /\ sql_space_primary_key sp = Some pk
                /\ pk_fields_not_null q (fields sp) (space_name sp) (parts pk)
                   = (p2, fs)
                /\ p' = set_new_space p2
                          (Some (set_fields sp fs (exact_field_count sp)))).
Proof.
  unfold sqlAddPrimaryKey.
  destruct (new_space p) as [space|]; [|intros [= <-]; left; auto].
  destruct (bool_decide (sql_space_primary_key space <> None)) eqn:Hold;
    [intros [= <-]; right; left; eauto|].
  assert (Hnopk : forall def, Some space = Some def ->
                              sql_space_primary_key def = None).
  { intros def [= <-]. apply bool_decide_eq_false in Hold.
    destruct (sql_space_primary_key space); [|reflexivity].
    exfalso. apply Hold. discriminate. }
  match goal with
  | |- match ?S with _ => _ end = _ -> _ => destruct S as [[iCol nTerm]|]
  end; [|intros [= <-]; right; left; eauto].
  match goal with
  | |- (let '(_, _) := ?X in _) = _ -> _ => destruct X as [p1 go_on] eqn:Hgo
  end.
  assert (Hp1 : (go_on = false /\ exists c a, p1 = raise p c a)
                \/ exists cid',
                     idx_type cid' = idx_type cid
                     /\ p1 = sql_create_index p cid'
                     /\ (go_on = false -> is_aborted p1 = true)).
  { revert Hgo.
    match goal with
    | |- match ?S with _ => _ end = _ -> _ => destruct S as [name|]
    end.
    - intros [= <- <-]. right. eexists. split; [|split; [reflexivity|]].
      + reflexivity.
      + discriminate.
    - destruct (has_autoinc p).
      + intros [= <- <-]. left. eauto.
      + intros [= <- <-]. right. exists cid.
        split; [reflexivity|]. split; [reflexivity|].
        intros Hneg. apply negb_false_iff in Hneg. exact Hneg. }
  destruct go_on.
  - destruct Hp1 as [[? _]|(cid' & Ht & -> & _)]; [discriminate|].
    destruct (new_space (sql_create_index p cid')) as [sp|] eqn:Hsp;
      [|discriminate].
    destruct (sql_space_primary_key sp) as [pk|] eqn:Hpk; [|discriminate].
    destruct (pk_fields_not_null _ (fields sp) (space_name sp) (parts pk))
      as [p2 fs] eqn:Hloop.
    intros [= <-]. right. right. exists cid'. split; [exact Ht|].
    split; [exact Hnopk|].
    cbv zeta. right. exists sp, pk, p2, fs. rewrite Hsp. auto.
  - intros [= <-].
    destruct Hp1 as [[_ (c & a & ->)]|(cid' & Ht & -> & Hab)].
    + right. left. eauto.
    + right. right. exists cid'. split; [exact Ht|].
      split; [exact Hnopk|]. left. auto.
Qed.

Lemma sqlAddPrimaryKey_draft_only p cid p' :
  sqlAddPrimaryKey p cid = Some p' -> draft_only p p'.
Proof.
  intros Hadd. apply sqlAddPrimaryKey_shape in Hadd
    as [[_ ->]|[(c & a & ->)|(cid' & _ & _ & Hq)]].
  - apply draft_only_refl.
  - apply draft_only_raise.
  - cbv zeta in Hq.
    pose proof (sql_create_index_draft_only p cid') as Hidx.
    destruct Hq as [[_ ->]|(sp & pk & p2 & fs & _ & _ & Hloop & ->)];
      [exact Hidx|].
    apply pk_fields_not_null_errors, draft_only_errors in Hloop.
    eapply draft_only_trans; [exact Hidx|].
    eapply draft_only_trans; [exact Hloop|apply draft_only_set_new_space].
Qed.

Lemma sql_create_check_contraint_draft_only p name expr_span p' :
  sql_create_check_contraint p name expr_span = Some p' -> draft_only p p'.
Proof.
  unfold sql_create_check_contraint.
  destruct (new_space p) as [def|]; [|discriminate].
  destruct name; cbv zeta; destruct (trim_space_snprintf _ _);
    try discriminate; intros [= <-].
  - apply draft_only_set_checks.
  - eapply draft_only_trans; apply draft_only_set_checks.
Qed.

Lemma run_builder_call_draft_only p c p' :
  run_builder_call p c = Some p' -> draft_only p p'.
Proof.
  destruct c as [n t|a|n l|n l|n e]; simpl.
  - intros [= <-]. apply sqlAddColumn_draft_only.
  - intros [= <-]. apply sql_column_add_nullable_action_draft_only.
  - intros [= <-]. apply sql_create_index_draft_only.
  - apply sqlAddPrimaryKey_draft_only.
  - apply sql_create_check_contraint_draft_only.
Qed.

Lemma run_builder_calls_draft_only calls : forall p p',
  run_builder_calls p calls = Some p' -> draft_only p p'.
Proof.
  induction calls as [|c calls IH]; intros p p'; simpl.
  - intros [= <-]. apply draft_only_refl.
  - destruct (run_builder_call p c) as [p1|] eqn:Hc; [|discriminate].
    intros Hrest. apply run_builder_call_draft_only in Hc.
    eapply draft_only_trans; [exact Hc|apply IH; exact Hrest].
Qed.

(** The table of CREATE TABLE is staged: whatever columns, NULL /
    NOT NULL clauses, UNIQUE, PRIMARY KEY and CHECK constraints the
    parser reports, the builder routines generate no instruction, take
    no register and no cursor, and record nothing in the ledger; code
    is generated by sqlEndTable only. *)
Theorem builder_calls_generate_no_code p calls p' :
  run_builder_calls p calls = Some p' ->
  pVdbe p' = pVdbe p
  /\ record_list p' = record_list p
  /\ nMem p' = nMem p
  /\ nTab p' = nTab p.
Proof.
  intros Hrun. apply run_builder_calls_draft_only, draft_only_frame in Hrun
    as (Hv & Hr & Hm & Ht & _).
  auto.
Qed.

End Draft.

Lemma builder_calls_generate_no_code_witness :
  let p := @create_table reference_api fresh_parse "T" in
  exists p',
    @run_builder_calls reference_api p
      [AddColumn "A" FIELD_TYPE_INTEGER; AddNullableAction ON_CONFLICT_ACTION_ABORT;
       AddPrimaryKey None None; AddColumn "B" FIELD_TYPE_STRING;
       AddUnique (Some "U") None; AddCheck None "a > 0"] = Some p'
    /\ pVdbe p' = pVdbe p /\ record_list p' = record_list p
    /\ nMem p' = nMem p /\ nTab p' = nTab p.
Proof.
  intros p.
  destruct (@run_builder_calls reference_api p
              [AddColumn "A" FIELD_TYPE_INTEGER;
               AddNullableAction ON_CONFLICT_ACTION_ABORT;
               AddPrimaryKey None None; AddColumn "B" FIELD_TYPE_STRING;
               AddUnique (Some "U") None; AddCheck None "a > 0"])
    as [p'|] eqn:Hrun; [|vm_compute in Hrun; discriminate].
  exists p'. split; [reflexivity|].
  exact (@builder_calls_generate_no_code reference_api p _ p' Hrun).
Defined.

(** ** The columns of the table under construction *)

Section Columns.
Context `{BoxApi}.

Lemma columns_wf_kept limit def def' :
  field_name <$> fields def' = field_name <$> fields def ->
  exact_field_count def' = exact_field_count def ->
  columns_wf limit def -> columns_wf limit def'.
Proof.
  unfold columns_wf, field_count. intros Hn Hc (H1 & H2 & H3).
  assert (Hl : length (fields def') = length (fields def)).
  { rewrite <- (length_fmap field_name (fields def')), Hn.
    apply length_fmap. }
  rewrite Hn, Hc, Hl. auto.
Qed.

Lemma existsb_name_false z fs :
  existsb (fun f => String.eqb z (field_name f)) fs = false ->
  z ∉ field_name <$> fs.
Proof.
  intros Hex Hin. apply list_elem_of_fmap in Hin as (f & -> & Hf).
  assert (Ht : existsb (fun g => String.eqb (field_name f) (field_name g)) fs
               = true); [|congruence].
  apply existsb_exists. exists f. split; [apply list_elem_of_In; exact Hf|].
  apply String.eqb_refl.
Qed.

Lemma sql_field_retrieve_room def :
  field_count def <= exact_field_count def ->
  fields (sql_field_retrieve def (field_count def)) = fields def
  /\ field_count def
     < exact_field_count (sql_field_retrieve def (field_count def)).
Proof.
  intros Hcap. unfold sql_field_retrieve.
  destruct (Nat.leb_spec (exact_field_count def) (field_count def)) as [Hle|Hlt];
    [|split; [reflexivity|exact Hlt]].
  cbv zeta. split; [reflexivity|]. simpl.
  destruct (Nat.ltb_spec 0 (exact_field_count def)); lia.
Qed.

(** sqlAddColumn keeps the columns well formed. *)
Lemma sqlAddColumn_columns_wf p name type def' :
  new_space (sqlAddColumn p name type) = Some def' ->
  exists def,
    new_space p = Some def
    /\ space_name def' = space_name def
    /\ (columns_wf (limit_column p) def -> columns_wf (limit_column p) def').
Proof.
  unfold sqlAddColumn. destruct (new_space p) as [def|] eqn:Hsp;
    [|rewrite Hsp; discriminate].
  intros Hnew. exists def. split; [reflexivity|]. revert Hnew.
  destruct (Nat.ltb_spec (limit_column p) (field_count def + 1)) as [Hlim|Hlim].
  - simpl. rewrite Hsp. intros [= <-]. auto.
  - cbv zeta. intros Hnew.
    assert (Hname : space_name (sql_field_retrieve def (field_count def))
                    = space_name def).
    { unfold sql_field_retrieve. destruct (_ <=? _); reflexivity. }
    set (def1 := sql_field_retrieve def (field_count def)) in *.
    destruct (existsb _ (fields def1)) eqn:Hex; simpl in Hnew;
      injection Hnew as <-; (split; [exact Hname|]);
      intros (Hcap & Hnd & Hcnt);
      destruct (sql_field_retrieve_room def Hcap) as [Hf Hroom];
      fold def1 in Hf, Hroom.
    + unfold columns_wf, field_count in *. rewrite Hf.
      split; [lia|]. split; assumption.
    + rewrite Hf in Hex. apply existsb_name_false in Hex.
      unfold columns_wf, field_count in *. simpl.
      rewrite Hf, fmap_app, length_app. simpl.
      split; [lia|]. split; [|lia].
      apply NoDup_app. split; [exact Hnd|]. split; [|apply NoDup_singleton].
      intros x Hx Hx'. apply list_elem_of_singleton in Hx'. subst x.
      contradiction.
Qed.

Lemma set_nullable_name_kept (fs : list field_def) (i : nat) f a n :
  fs !! i = Some f ->
  field_name <$> <[i := set_nullable f a n]> fs = field_name <$> fs.
Proof.
  intros Hi. rewrite list_fmap_insert. apply list_insert_id.
  rewrite list_lookup_fmap, Hi. reflexivity.
Qed.

Lemma sql_column_add_nullable_action_columns p action def' :
  new_space (sql_column_add_nullable_action p action) = Some def' ->
  exists def,
    new_space p = Some def
    /\ field_name <$> fields def' = field_name <$> fields def
    /\ exact_field_count def' = exact_field_count def
    /\ space_name def' = space_name def.
Proof.
  unfold sql_column_add_nullable_action.
  destruct (new_space p) as [def|] eqn:Hsp; [|rewrite Hsp; discriminate].
  intros Hnew. exists def. split; [reflexivity|]. revert Hnew.
  destruct (fields def !! (field_count def - 1)) as [f|] eqn:Hf;
    [|rewrite Hsp; intros [= <-]; auto].
  destruct (_ && _); simpl; [rewrite Hsp|]; intros [= <-]; [auto|].
  simpl. split; [|auto]. apply set_nullable_name_kept. exact Hf.
Qed.

Lemma table_add_index_fields def idx :
  fields (table_add_index def idx) = fields def
  /\ exact_field_count (table_add_index def idx) = exact_field_count def
  /\ space_name (table_add_index def idx) = space_name def.
Proof.
  unfold table_add_index. destruct (index def); [auto|].
  destruct (iid idx =? 0); auto.
Qed.

Lemma sql_create_index_columns p cid def' :
  new_space (sql_create_index p cid) = Some def' ->
  exists def,
    new_space p = Some def
    /\ fields def' = fields def
    /\ exact_field_count def' = exact_field_count def
    /\ space_name def' = space_name def.
Proof.
  unfold sql_create_index.
  destruct (sql_create_index_prepare p cid) as [p1 r] eqn:Hprep.
  apply sql_create_index_prepare_spec in Hprep as [Herr Hr].
  apply errors_only_frame in Herr as (_ & _ & Hsp).
  destruct r as [[def idx]|].
  - destruct (Hr def idx eq_refl) as (Hdef & _).
    destruct (merge_with_existing _ idx (index def)); simpl;
      intros [= <-]; exists def; (split; [exact Hdef|]).
    + auto.
    + apply table_add_index_fields.
  - intros Hnew. exists def'. split; [congruence|auto].
Qed.

Lemma field_def_create_for_pk_name p f name p' f' :
  field_def_create_for_pk p f name = (p', f') -> field_name f' = field_name f.
Proof.
  unfold field_def_create_for_pk. repeat case_match; intros [= <- <-];
    reflexivity.
Qed.

Lemma pk_fields_not_null_names name pk_parts : forall p fs p' fs',
  pk_fields_not_null p fs name pk_parts = (p', fs') ->
  field_name <$> fs' = field_name <$> fs.
Proof.
  induction pk_parts as [|part rest IH]; intros p fs p' fs'; simpl.
  - intros [= <- <-]. reflexivity.
  - destruct (fs !! fieldno part) as [f|] eqn:Hf; [|apply IH].
    destruct (field_def_create_for_pk p f name) as [p1 f1] eqn:Hpk.
    apply field_def_create_for_pk_name in Hpk.
    intros Hrest. apply IH in Hrest. rewrite Hrest.
    rewrite list_fmap_insert. apply list_insert_id.
    rewrite list_lookup_fmap, Hf. simpl. congruence.
Qed.

Lemma sqlAddPrimaryKey_columns p cid p' def' :
  sqlAddPrimaryKey p cid = Some p' ->
  new_space p' = Some def' ->
  exists def,
    new_space p = Some def
    /\ field_name <$> fields def' = field_name <$> fields def
    /\ exact_field_count def' = exact_field_count def
    /\ space_name def' = space_name def.
Proof.
  intros Hadd Hnew. apply sqlAddPrimaryKey_shape in Hadd
    as [[_ ->]|[(c & a & ->)|(cid' & _ & _ & Hq)]].
  - exists def'. auto.
  - exists def'. auto.
  - cbv zeta in Hq.
    destruct Hq as [[_ ->]|(sp & pk & p2 & fs & Hsp & _ & Hloop & ->)].
    + destruct (sql_create_index_columns p cid' def' Hnew)
        as (def & Hdef & Hf & Hc & Hn).
      exists def. rewrite Hf. auto.
    + destruct (sql_create_index_columns p cid' sp Hsp)
        as (def & Hdef & Hf & Hc & Hn).
      apply pk_fields_not_null_names in Hloop.
      simpl in Hnew. injection Hnew as <-. simpl.
      exists def. rewrite Hloop, Hf. auto.
Qed.

Lemma run_builder_call_columns_wf p c p' def' :
  run_builder_call p c = Some p' ->
  new_space p' = Some def' ->
  exists def,
    new_space p = Some def
    /\ space_name def' = space_name def
    /\ (columns_wf (limit_column p) def -> columns_wf (limit_column p) def').
Proof.
  destruct c as [n t|a|n l|n l|n e]; simpl.
  - intros [= <-] Hnew. exact (sqlAddColumn_columns_wf p n t def' Hnew).
  - intros [= <-] Hnew.
    destruct (sql_column_add_nullable_action_columns p a def' Hnew)
      as (def & Hdef & Hn & Hc & Hname).
    exists def. split; [exact Hdef|]. split; [exact Hname|].
    apply columns_wf_kept; assumption.
  - intros [= <-] Hnew.
    destruct (sql_create_index_columns p _ def' Hnew)
      as (def & Hdef & Hf & Hc & Hn).
    exists def. split; [exact Hdef|]. split; [exact Hn|].
    apply columns_wf_kept; [rewrite Hf; reflexivity|exact Hc].
  - intros Hadd Hnew.
    destruct (sqlAddPrimaryKey_columns p _ p' def' Hadd Hnew)
      as (def & Hdef & Hf & Hc & Hn).
    exists def. split; [exact Hdef|]. split; [exact Hn|].
    apply columns_wf_kept; assumption.
  - intros Hck Hnew.
    apply sql_create_check_contraint_frame in Hck as (_ & _ & Hsp).
    exists def'. split; [congruence|]. auto.
Qed.

(** At every point of a CREATE TABLE the columns of the table under
    construction are well formed: the column array has room for every
    declared column (and sqlAddColumn makes room before it writes),
    the column names are pairwise distinct, the number of columns
    does not exceed the column limit, and the table keeps its name. *)
Theorem create_table_columns_wf p0 name calls p def :
  run_builder_calls (create_table p0 name) calls = Some p ->
  new_space p = Some def ->
  columns_wf (limit_column p0) def /\ space_name def = name.
Proof.
  assert (Hgen : forall calls q p def,
             run_builder_calls q calls = Some p ->
             new_space p = Some def ->
             exists def0,
               new_space q = Some def0
               /\ space_name def = space_name def0
               /\ (columns_wf (limit_column q) def0 ->
                   columns_wf (limit_column q) def)).
  { clear. intros calls. induction calls as [|c calls IH]; intros q p def; simpl.
    - intros [= <-] Hdef. exists def. auto.
    - destruct (run_builder_call q c) as [q1|] eqn:Hc; [|discriminate].
      intros Hrun Hdef.
      destruct (IH q1 p def Hrun Hdef) as (def1 & Hdef1 & Hn1 & Hwf1).
      destruct (run_builder_call_columns_wf q c q1 def1 Hc Hdef1)
        as (def0 & Hdef0 & Hn0 & Hwf0).
      apply run_builder_call_draft_only, draft_only_frame in Hc
        as (_ & _ & _ & _ & Hlim & _).
      rewrite Hlim in Hwf1.
      exists def0. split; [exact Hdef0|]. split; [congruence|auto]. }
  intros Hrun Hdef.
  destruct (Hgen calls _ p def Hrun Hdef) as (def0 & Hdef0 & Hn & Hwf).
  revert Hdef0 Hwf. unfold create_table, sqlStartTable.
  destruct (sqlCheckIdentifierName (sqlGetVdbe p0) name) as [p1 ok] eqn:Hname.
  apply sqlCheckIdentifierName_errors in Hname as [(b & d & ->) _].
  destruct ok; simpl; [|discriminate].
  intros [= <-] Hwf. simpl in *.
  assert (Hlim : limit_column (sqlGetVdbe p0) = limit_column p0).
  { unfold sqlGetVdbe. destruct (pVdbe p0); reflexivity. }
  rewrite Hlim in Hwf.
  split; [|exact Hn]. apply Hwf.
  unfold columns_wf, field_count. simpl.
  split; [lia|]. split; [constructor|lia].
Qed.

End Columns.

Lemma create_table_columns_wf_witness :
  exists p def,
    run_create_table
      [AddColumn "A" FIELD_TYPE_INTEGER; AddColumn "A" FIELD_TYPE_STRING;
       AddColumn "B" FIELD_TYPE_STRING] = Some p
    /\ new_space p = Some def
    /\ columns_wf 2000 def
    /\ space_name def = "T".
Proof.
  unfold run_create_table.
  destruct (@run_builder_calls reference_api
              (@create_table reference_api fresh_parse "T")
              [AddColumn "A" FIELD_TYPE_INTEGER; AddColumn "A" FIELD_TYPE_STRING;
               AddColumn "B" FIELD_TYPE_STRING])
    as [p|] eqn:Hrun; [|vm_compute in Hrun; discriminate].
  destruct (new_space p) as [def|] eqn:Hdef;
    [|vm_compute in Hrun; injection Hrun as <-; discriminate].
  exists p, def. split; [reflexivity|]. split; [exact Hdef|].
  exact (@create_table_columns_wf reference_api fresh_parse "T" _ p def Hrun
           Hdef).
Defined.

(** ** The primary key columns are NOT NULL *)

Section PrimaryKeyColumns.
Context `{BoxApi}.

Lemma field_def_create_for_pk_abort p f name p' f' :
  field_def_create_for_pk p f name = (p', f') ->
  (is_aborted p = true -> is_aborted p' = true)
  /\ (is_aborted p' = false ->
      nullable_action f' = ON_CONFLICT_ACTION_ABORT).
Proof.
  unfold field_def_create_for_pk.
  destruct (nullable_action f) eqn:Hact; cbn; intros [= <- <-];
    (split; [auto|]); try discriminate; try reflexivity.
  intros _. exact Hact.
Qed.

Lemma pk_fields_not_null_aborted name pk_parts : forall p fs p' fs',
  pk_fields_not_null p fs name pk_parts = (p', fs') ->
  is_aborted p = true -> is_aborted p' = true.
Proof.
  induction pk_parts as [|part rest IH]; intros p fs p' fs'; simpl.
  - intros [= <- <-]. auto.
  - destruct (fs !! fieldno part) as [f|]; [|apply IH].
    destruct (field_def_create_for_pk p f name) as [p1 f1] eqn:Hf.
    apply field_def_create_for_pk_abort in Hf as [Hf _].
    intros Hrest Hab. eapply IH; [exact Hrest|auto].
Qed.

Lemma pk_fields_not_null_length name pk_parts : forall p fs p' fs',
  pk_fields_not_null p fs name pk_parts = (p', fs') -> length fs' = length fs.
Proof.
  intros p fs p' fs' Hloop. apply pk_fields_not_null_names in Hloop.
  rewrite <- (length_fmap field_name fs'), Hloop. apply length_fmap.
Qed.

(** The loop over the key parts: when it ends without an error, every
    column it has visited, and every column that was NOT NULL before,
    is NOT NULL. *)
Lemma pk_fields_not_null_spec name pk_parts : forall p fs p' fs',
  pk_fields_not_null p fs name pk_parts = (p', fs') ->
  is_aborted p' = false ->
  (forall i f, fs !! i = Some f ->
               nullable_action f = ON_CONFLICT_ACTION_ABORT ->
               exists f', fs' !! i = Some f'
                          /\ nullable_action f' = ON_CONFLICT_ACTION_ABORT)
  /\ Forall (fun part =>
               forall f, fs' !! fieldno part = Some f ->
                         nullable_action f = ON_CONFLICT_ACTION_ABORT)
       pk_parts.
Proof.
  induction pk_parts as [|part rest IH]; intros p fs p' fs'; simpl.
  - intros [= <- <-] _. split; [eauto|constructor].
  - destruct (fs !! fieldno part) as [field|] eqn:Hfield.
    + destruct (field_def_create_for_pk p field name) as [p1 f1] eqn:Hf.
      apply field_def_create_for_pk_abort in Hf as [_ Hf].
      intros Hrest Hab.
      assert (Hab1 : is_aborted p1 = false).
      { destruct (is_aborted p1) eqn:Hp1; [|reflexivity].
        rewrite (pk_fields_not_null_aborted _ _ _ _ _ _ Hrest Hp1) in Hab.
        discriminate. }
      specialize (Hf Hab1).
      destruct (IH _ _ _ _ Hrest Hab) as [Hkeep Hrestok].
      assert (Hlt : fieldno part < length fs)
        by (eapply lookup_lt_Some; exact Hfield).
      split.
      * intros i f Hi Hact.
        destruct (Nat.eq_dec i (fieldno part)) as [->|Hne].
        -- apply (Hkeep (fieldno part) f1);
             [apply list_lookup_insert_eq; exact Hlt|exact Hf].
        -- apply (Hkeep i f); [|exact Hact].
           rewrite list_lookup_insert_ne by congruence. exact Hi.
      * constructor; [|exact Hrestok].
        intros f Hfs'.
        destruct (Hkeep (fieldno part) f1) as (f' & Hf' & Hact');
          [apply list_lookup_insert_eq; exact Hlt|exact Hf|].
        congruence.
    + intros Hrest Hab.
      destruct (IH _ _ _ _ Hrest Hab) as [Hkeep Hrestok].
      split; [exact Hkeep|]. constructor; [|exact Hrestok].
      intros f Hfs'. apply lookup_lt_Some in Hfs'.
      rewrite (pk_fields_not_null_length _ _ _ _ _ _ Hrest) in Hfs'.
      apply lookup_ge_None_1 in Hfield. lia.
Qed.

(** A PRIMARY KEY declaration that succeeds leaves every column of the
    primary key NOT NULL: a column without a NULL / NOT NULL clause is
    made NOT NULL (with the ABORT action), and a column declared NULL
    or NOT NULL with another conflict action makes the declaration
    fail with an error. *)
Theorem primary_key_columns_not_null p cid p' def' pk :
  sqlAddPrimaryKey p cid = Some p' ->
  is_aborted p' = false ->
  new_space p' = Some def' ->
  sql_space_primary_key def' = Some pk ->
  Forall (fun part =>
            forall f, fields def' !! fieldno part = Some f ->
                      nullable_action f = ON_CONFLICT_ACTION_ABORT)
    (parts pk).
Proof.
  intros Hadd Hab Hnew Hpk. apply sqlAddPrimaryKey_shape in Hadd
    as [[Hnone ->]|[(c & a & ->)|(cid' & _ & _ & Hq)]];
    [congruence|discriminate|].
  cbv zeta in Hq.
  destruct Hq as [[Haborted ->]|(sp & pk' & p2 & fs & Hsp & Hpk' & Hloop & ->)];
    [congruence|].
  simpl in Hnew. injection Hnew as <-.
  assert (pk' = pk) as -> by (unfold sql_space_primary_key in *; simpl in Hpk;
                              congruence).
  apply (pk_fields_not_null_spec _ _ _ _ _ _ Hloop). exact Hab.
Qed.

End PrimaryKeyColumns.

Lemma primary_key_columns_not_null_witness :
  let p1 := sqlAddColumn
              (sqlAddColumn (@create_table reference_api fresh_parse "T") "A"
                 FIELD_TYPE_STRING) "B" FIELD_TYPE_INTEGER in
  exists p' def' pk,
    @sqlAddPrimaryKey reference_api p1
      (mk_create_index_def None (Some [TK_ID "B"; TK_ID "A"])
         SQL_INDEX_TYPE_CONSTRAINT_PK) = Some p'
    /\ new_space p' = Some def'
    /\ sql_space_primary_key def' = Some pk
    /\ Forall (fun part =>
                 forall f, fields def' !! fieldno part = Some f ->
                           nullable_action f = ON_CONFLICT_ACTION_ABORT)
         (parts pk).
Proof.
  intros p1.
  destruct (@sqlAddPrimaryKey reference_api p1
              (mk_create_index_def None (Some [TK_ID "B"; TK_ID "A"])
                 SQL_INDEX_TYPE_CONSTRAINT_PK)) as [p'|] eqn:Hadd;
    [|vm_compute in Hadd; discriminate].
  destruct (new_space p') as [def'|] eqn:Hdef;
    [|vm_compute in Hadd; injection Hadd as <-; discriminate].
  destruct (sql_space_primary_key def') as [pk|] eqn:Hpk;
    [|vm_compute in Hadd; injection Hadd as <-; vm_compute in Hdef;
      injection Hdef as <-; discriminate].
  assert (Hab : is_aborted p' = false)
    by (vm_compute in Hadd; injection Hadd as <-; reflexivity).
  exists p', def', pk.
  split; [reflexivity|]. split; [exact Hdef|]. split; [exact Hpk|].
  exact (@primary_key_columns_not_null reference_api p1 _ p' def' pk
           Hadd Hab Hdef Hpk).
Defined.

(** ** The indexes of the table under construction *)

Section Indexes.
Context `{BoxApi}.

Lemma part_collation_success p def e f p' c :
  part_collation p def e f = (p', Some c) -> p' = p.
Proof.
  unfold part_collation, sql_get_coll_seq.
  destruct e; try (intros [= <- _]; reflexivity).
  destruct (list_find _ _) as [[? c0]|]; [|discriminate].
  destruct (coll_ptr c0 =? 0); [discriminate|].
  intros [= <- _]. reflexivity.
Qed.

(** index_fill_def hands over key parts only when no error has been
    reported; every part is a column of the table. *)
Lemma index_fill_parts_success def l : forall p p' ps,
  index_fill_parts p def l = (p', Some ps) ->
  p' = p
  /\ (l <> [] -> is_aborted p = false)
  /\ Forall (fun k => fieldno k < field_count def) ps.
Proof.
  induction l as [|e rest IH]; intros p p' ps; simpl.
  - intros [= <- <-]. split; [reflexivity|]. split; [congruence|constructor].
  - unfold sql_resolve_self_reference.
    destruct (resolve_names (fields def) e) as [r|z]; [|discriminate].
    destruct (is_aborted p) eqn:Hab; [discriminate|].
    destruct (sqlExprSkipCollate r) as [| | fno |]; try discriminate.
    destruct (part_collation p def r fno) as [p2 c] eqn:Hc.
    destruct c as [cid|]; [|discriminate].
    apply part_collation_success in Hc as ->.
    destruct (fields def !! fno) as [f|] eqn:Hf; [|discriminate].
    destruct (index_fill_parts p def rest) as [p3 [ps'|]] eqn:Hrec;
      [|discriminate].
    apply IH in Hrec as (-> & _ & Hps). intros [= <- <-].
    split; [reflexivity|]. split; [reflexivity|].
    constructor; [|exact Hps]. simpl. apply lookup_lt_Some in Hf. exact Hf.
Qed.

Lemma remove_redundant_parts_wf count ps :
  Forall (fun k => fieldno k < count) ps ->
  NoDup (fieldno <$> remove_redundant_parts ps)
  /\ Forall (fun k => fieldno k < count) (remove_redundant_parts ps).
Proof.
  destruct ps as [|p0 rest]; simpl; [split; constructor|].
  intros Hps. rewrite remove_redundant_loop_spec. simpl. split.
  - constructor; [|apply first_occurrences_NoDup].
    intros Hin. apply list_elem_of_fmap in Hin as (q & Hq & Hin).
    pose proof (first_occurrences_fresh [fieldno p0] rest) as Hfresh.
    rewrite Forall_forall in Hfresh. apply (Hfresh q Hin).
    rewrite <- Hq. apply list_elem_of_here.
  - apply Forall_cons in Hps as [H0 Hrest]. constructor; [exact H0|].
    rewrite Forall_forall in Hrest. apply Forall_forall. intros q Hq.
    apply Hrest.
    exact (elem_of_sublist _ _ _ Hq (first_occurrences_sublist _ _)).
Qed.

(** When the first half of sql_create_index hands over an index, it
    has reported no error and the key parts are well formed. *)
Lemma sql_create_index_prepare_success p cid p' def idx :
  sql_create_index_prepare p cid = (p', Some (def, idx)) ->
  p' = p /\ is_aborted p = false /\ parts_wf (field_count def) idx.
Proof.
  unfold sql_create_index_prepare.
  destruct (is_aborted p) eqn:Hab; [discriminate|].
  destruct (new_space p) as [def0|]; [|discriminate].
  destruct (is_view def0); [discriminate|].
  destruct (field_count def0 =? 0); [discriminate|].
  unfold sqlCheckIdentifierName.
  destruct (_ <? _)%N; [discriminate|].
  destruct (negb (identifier_check _)); [discriminate|].
  cbn [negb].
  match goal with
  | |- (let '(_, _) := ?X in _) = _ -> _ => destruct X as [p2 col_list] eqn:Hcols
  end.
  unfold index_fill_def.
  destruct (index_fill_parts p2 def0 col_list) as [p3 [ps|]] eqn:Hfill;
    [|discriminate].
  apply index_fill_parts_success in Hfill as (-> & Hne & Hps).
  destruct (index_def_is_valid _ _); [|discriminate].
  cbn [negb]. intros [= <- <- <-].
  assert (Hp2 : p2 = p).
  { destruct (cols cid) as [l|]; [|injection Hcols as <- _; reflexivity].
    destruct (Nat.ltb_spec (limit_column p) (length l)) as [Hlim|Hlim];
      injection Hcols as <- <-; [|reflexivity].
    assert (Hl : l <> []) by (intros ->; simpl in Hlim; lia).
    apply Hne in Hl. discriminate. }
  subst p2. split; [reflexivity|]. split; [reflexivity|].
  apply remove_redundant_parts_wf. exact Hps.
Qed.

(** What the search among the attached indexes can do: leave them as
    they are, or give the id 0 to one of them, for a primary key. *)
Lemma merge_with_existing_shape t idx l l' :
  merge_with_existing t idx l = Some l' ->
  l' = l
  \/ (t = SQL_INDEX_TYPE_CONSTRAINT_PK
      /\ exists l1 e l2, l = l1 ++ e :: l2 /\ l' = l1 ++ set_iid e 0 :: l2).
Proof.
  revert l'. induction l as [|x l IH]; intros l'; simpl; [discriminate|].
  assert (Hrec : cons x <$> merge_with_existing t idx l = Some l' ->
                 l' = x :: l
                 \/ (t = SQL_INDEX_TYPE_CONSTRAINT_PK
                     /\ exists l1 e l2, x :: l = l1 ++ e :: l2
                                        /\ l' = l1 ++ set_iid e 0 :: l2)).
  { destruct (merge_with_existing t idx l) as [m|]; [|discriminate].
    intros [= <-].
    destruct (IH m eq_refl) as [->|(Ht & l1 & e & l2 & -> & ->)];
      [left; reflexivity|].
    right. split; [exact Ht|]. exists (x :: l1), e, l2. auto. }
  destruct (same_key_parts _ _); [|exact Hrec].
  destruct (bool_decide_reflect (t = SQL_INDEX_TYPE_CONSTRAINT_PK)) as [Ht|Ht];
    simpl.
  - destruct (negb (iid x =? 0) && negb _).
    + intros [= <-]. right. split; [exact Ht|]. exists [], x, l. auto.
    + destruct (bool_decide _ && _); [intros [= <-]; left; reflexivity|].
      exact Hrec.
  - destruct (bool_decide _ && _); [intros [= <-]; left; reflexivity|].
    exact Hrec.
Qed.

(** The three things sql_create_index can do to the table. *)
Lemma sql_create_index_shape p cid def' :
  new_space (sql_create_index p cid) = Some def' ->
  exists def,
    new_space p = Some def
    /\ fields def' = fields def
    /\ ((index def' = index def /\ index_id_max def' = index_id_max def)
        \/ (is_aborted (sql_create_index p cid) = false
            /\ ((idx_type cid = SQL_INDEX_TYPE_CONSTRAINT_PK
                 /\ index_id_max def' = index_id_max def
                 /\ exists l1 e l2,
                      index def = l1 ++ e :: l2
                      /\ index def' = l1 ++ set_iid e 0 :: l2)
                \/ exists idx,
                     def' = table_add_index def idx
                     /\ parts_wf (field_count def) idx
                     /\ iid idx = match idx_type cid with
                                  | SQL_INDEX_TYPE_CONSTRAINT_PK => 0
                                  | _ => index_id_max def + 1
                                  end
                     /\ index_name idx
                        = constraint_index_name (idx_type cid) (cid_name cid)
                            (space_name def) (index_count def)))).
Proof.
  unfold sql_create_index.
  destruct (sql_create_index_prepare p cid) as [p1 r] eqn:Hprep.
  pose proof (sql_create_index_prepare_spec _ _ _ _ Hprep) as [Herr Hr].
  destruct r as [[def idx]|].
  - destruct (Hr def idx eq_refl) as (Hdef & Hiid & Hnm).
    apply sql_create_index_prepare_success in Hprep as (-> & Hab & Hparts).
    destruct (merge_with_existing _ idx (index def)) as [ix|] eqn:Hmerge;
      simpl; intros [= <-]; exists def; (split; [exact Hdef|]).
    + split; [reflexivity|]. simpl.
      apply merge_with_existing_shape in Hmerge
        as [->|(Ht & l1 & e & l2 & Hl & ->)]; [left; auto|].
      right. split; [exact Hab|]. left. split; [exact Ht|].
      split; [reflexivity|]. exists l1, e, l2. auto.
    + split; [apply table_add_index_fields|].
      right. split; [exact Hab|]. right. exists idx. auto.
  - apply errors_only_frame in Herr as (_ & _ & Hsp).
    intros Hnew. exists def'. split; [congruence|]. auto.
Qed.

Lemma parts_wf_mono n m i : n <= m -> parts_wf n i -> parts_wf m i.
Proof.
  intros Hle [Hnd Hall]. split; [exact Hnd|].
  eapply Forall_impl; [exact Hall|]. simpl. intros. lia.
Qed.

Lemma indexes_wf_kept def def' :
  index def' = index def ->
  index_id_max def' = index_id_max def ->
  field_count def <= field_count def' ->
  indexes_wf def -> indexes_wf def'.
Proof.
  unfold indexes_wf. intros -> -> Hle (H1 & H2 & H3 & H4).
  split; [exact H1|]. split; [exact H2|]. split; [exact H3|].
  eapply Forall_impl; [exact H4|]. intros i. apply parts_wf_mono. exact Hle.
Qed.

(** A new secondary index goes to the end of the list with an id
    larger than every id in use. *)
Lemma table_add_index_secondary_wf def idx :
  iid idx = index_id_max def + 1 ->
  parts_wf (field_count def) idx ->
  indexes_wf def -> indexes_wf (table_add_index def idx).
Proof.
  unfold indexes_wf. intros Hiid Hparts (Hnd & Hmax & Hz & Hall).
  assert (Hshape : index (table_add_index def idx) = index def ++ [idx]
                   /\ index_id_max (table_add_index def idx)
                      = index_id_max def + 1
                   /\ field_count (table_add_index def idx) = field_count def).
  { unfold table_add_index, field_count.
    destruct (index def) as [|first others]; simpl.
    - rewrite Hiid. split; [reflexivity|]. split; [lia|reflexivity].
    - rewrite Hiid. replace (index_id_max def + 1 =? 0) with false
        by (symmetry; apply Nat.eqb_neq; lia).
      simpl. split; [reflexivity|]. split; [lia|reflexivity]. }
  destruct Hshape as (-> & -> & ->).
  split; [|split; [|split]].
  - rewrite fmap_app. apply NoDup_app. split; [exact Hnd|].
    split; [|apply NoDup_singleton].
    intros x Hx Hx'. apply list_elem_of_singleton in Hx'. subst x.
    apply list_elem_of_fmap in Hx as (i & Hi & Hin).
    rewrite Forall_forall in Hmax. specialize (Hmax i Hin). lia.
  - apply Forall_app. split.
    + eapply Forall_impl; [exact Hmax|]. simpl. intros. lia.
    + constructor; [lia|constructor].
  - destruct (index def) as [|first others]; simpl; [constructor|].
    simpl in Hz. apply Forall_app. split; [exact Hz|].
    constructor; [lia|constructor].
  - apply Forall_app. split; [exact Hall|]. constructor; [exact Hparts|constructor].
Qed.

(** A table without primary key has no index with the id 0. *)
Lemma indexes_wf_no_primary_key def :
  indexes_wf def -> sql_space_primary_key def = None ->
  Forall (fun i => iid i <> 0) (index def).
Proof.
  unfold indexes_wf, sql_space_primary_key.
  intros (_ & _ & Hz & _). destruct (index def) as [|first others];
    [constructor|].
  simpl in Hz. destruct (Nat.eqb_spec (iid first) 0); [discriminate|].
  intros _. constructor; assumption.
Qed.

Lemma NoDup_nonzero_cons_zero (l : list nat) :
  NoDup l -> Forall (fun n => n <> 0) l -> NoDup (0 :: l).
Proof.
  intros Hnd Hz. constructor; [|exact Hnd].
  intros Hin. rewrite Forall_forall in Hz. exact (Hz 0 Hin eq_refl).
Qed.

(** The index of a primary key goes to the first slot. *)
Lemma table_add_index_primary_wf def idx :
  iid idx = 0 ->
  parts_wf (field_count def) idx ->
  Forall (fun i => iid i <> 0) (index def) ->
  indexes_wf def -> indexes_wf (table_add_index def idx).
Proof.
  unfold indexes_wf. intros Hiid Hparts Hnz (Hnd & Hmax & _ & Hall).
  unfold table_add_index, field_count in *.
  destruct (index def) as [|first others]; simpl.
  - rewrite Hiid. split; [apply NoDup_singleton|].
    split; [constructor; [lia|constructor]|].
    split; [constructor|]. constructor; [exact Hparts|constructor].
  - rewrite Hiid. simpl.
    apply Forall_cons in Hnz as [Hf Ho].
    apply Forall_cons in Hmax as [Hmf Hmo].
    apply Forall_cons in Hall as [Haf Hao].
    simpl in Hnd. apply NoDup_cons in Hnd as [Hnf Hno].
    split; [|split; [|split]].
    + rewrite Hiid. apply NoDup_nonzero_cons_zero.
      * rewrite fmap_app. apply NoDup_app. split; [exact Hno|].
        split; [|apply NoDup_singleton].
        intros x Hx Hx'. apply list_elem_of_singleton in Hx'. subst x.
        contradiction.
      * rewrite fmap_app. apply Forall_app. split.
        -- apply Forall_fmap. exact Ho.
        -- constructor; [exact Hf|constructor].
    + constructor; [lia|]. apply Forall_app. split.
      * eapply Forall_impl; [exact Hmo|]. simpl. intros. lia.
      * constructor; [lia|constructor].
    + apply Forall_app. split; [exact Ho|]. constructor; [exact Hf|constructor].
    + constructor; [exact Hparts|]. apply Forall_app. split; [exact Hao|].
      constructor; [exact Haf|constructor].
Qed.

(** An attached index that becomes the primary key where it stands:
    the table stays well formed when it stands in the first slot. *)
Lemma repurposed_index_wf def def' e l2 :
  index def = e :: l2 ->
  index def' = set_iid e 0 :: l2 ->
  index_id_max def' = index_id_max def ->
  field_count def' = field_count def ->
  Forall (fun i => iid i <> 0) (index def) ->
  indexes_wf def -> indexes_wf def'.
Proof.
  unfold indexes_wf. intros Hl -> -> -> Hnz. rewrite Hl in *.
  intros (Hnd & Hmax & _ & Hall).
  apply Forall_cons in Hnz as [Hf Ho].
  apply Forall_cons in Hmax as [Hmf Hmo].
  apply Forall_cons in Hall as [Haf Hao].
  simpl in Hnd. apply NoDup_cons in Hnd as [Hnf Hno].
  simpl. split; [|split; [|split]].
  - apply NoDup_nonzero_cons_zero; [exact Hno|]. apply Forall_fmap. exact Ho.
  - constructor; [simpl; lia|exact Hmo].
  - exact Ho.
  - constructor; [exact Haf|exact Hao].
Qed.

Lemma sqlAddColumn_indexes p name type def' :
  new_space (sqlAddColumn p name type) = Some def' ->
  exists def,
    new_space p = Some def
    /\ index def' = index def
    /\ index_id_max def' = index_id_max def
    /\ field_count def <= field_count def'.
Proof.
  unfold sqlAddColumn. destruct (new_space p) as [def|] eqn:Hsp;
    [|rewrite Hsp; discriminate].
  intros Hnew. exists def. split; [reflexivity|]. revert Hnew.
  assert (Hret : forall n,
             index (sql_field_retrieve def n) = index def
             /\ index_id_max (sql_field_retrieve def n) = index_id_max def
             /\ fields (sql_field_retrieve def n) = fields def).
  { intros n. unfold sql_field_retrieve. destruct (_ <=? _); auto. }
  destruct (Hret (field_count def)) as (Hi & Hm & Hf).
  destruct (limit_column p <? field_count def + 1);
    [simpl; rewrite Hsp; intros [= <-]; auto|].
  cbv zeta. set (def1 := sql_field_retrieve def (field_count def)) in *.
  destruct (existsb _ (fields def1)); simpl; intros [= <-]; simpl;
    unfold field_count; simpl; rewrite Hf, ?length_app; auto with lia.
Qed.

Lemma sql_column_add_nullable_action_indexes p action def' :
  new_space (sql_column_add_nullable_action p action) = Some def' ->
  exists def,
    new_space p = Some def
    /\ index def' = index def
    /\ index_id_max def' = index_id_max def
    /\ field_count def' = field_count def.
Proof.
  unfold sql_column_add_nullable_action.
  destruct (new_space p) as [def|] eqn:Hsp; [|rewrite Hsp; discriminate].
  intros Hnew. exists def. split; [reflexivity|]. revert Hnew.
  repeat case_match; simpl; rewrite ?Hsp; intros [= <-]; simpl;
    unfold field_count; simpl; rewrite ?length_insert; auto.
Qed.

(** A UNIQUE constraint keeps the indexes well formed. *)
Lemma sql_create_index_unique_wf p cid def' :
  idx_type cid = SQL_INDEX_TYPE_CONSTRAINT_UNIQUE ->
  new_space (sql_create_index p cid) = Some def' ->
  exists def, new_space p = Some def /\ (indexes_wf def -> indexes_wf def').
Proof.
  intros Ht Hnew. apply sql_create_index_shape in Hnew
    as (def & Hdef & Hf & Hcases).
  exists def. split; [exact Hdef|]. intros Hwf.
  destruct Hcases as [[Hi Hm]|[_ [(Hpk & _)|(idx & -> & Hparts & Hiid & _)]]].
  - apply (indexes_wf_kept def); auto. unfold field_count. rewrite Hf. lia.
  - congruence.
  - rewrite Ht in Hiid. apply table_add_index_secondary_wf; assumption.
Qed.

(** A PRIMARY KEY constraint keeps the indexes well formed. *)
Lemma sqlAddPrimaryKey_indexes_wf p cid p' def' :
  idx_type cid = SQL_INDEX_TYPE_CONSTRAINT_PK ->
  sqlAddPrimaryKey p cid = Some p' ->
  new_space p' = Some def' ->
  exists def, new_space p = Some def /\ (indexes_wf def -> indexes_wf def').
Proof.
  intros Ht Hadd Hnew. apply sqlAddPrimaryKey_shape in Hadd
    as [[_ ->]|[(c & a & ->)|(cid' & Ht' & Hnopk & Hq)]].
  - exists def'. auto.
  - exists def'. auto.
  - cbv zeta in Hq. rewrite Ht in Ht'.
    assert (Hcreate : forall sp,
               new_space (sql_create_index p cid') = Some sp ->
               (is_aborted (sql_create_index p cid') = true
                \/ exists pk, sql_space_primary_key sp = Some pk) ->
               exists def, new_space p = Some def
                           /\ (indexes_wf def -> indexes_wf sp)).
    { intros sp Hsp Hcase.
      apply sql_create_index_shape in Hsp as (def & Hdef & Hf & Hcases).
      exists def. split; [exact Hdef|]. intros Hwf.
      pose proof (indexes_wf_no_primary_key def Hwf (Hnopk def Hdef)) as Hnz.
      assert (Hfc : field_count sp = field_count def)
        by (unfold field_count; rewrite Hf; reflexivity).
      destruct Hcases
        as [[Hi Hm]|[Hab [(_ & Hm & l1 & e & l2 & Hl & Hl')
                         |(idx & -> & Hparts & Hiid & _)]]].
      - apply (indexes_wf_kept def); auto. lia.
      - destruct Hcase as [Hab'|[pk Hpk]]; [congruence|].
        destruct l1 as [|x l1].
        + apply (repurposed_index_wf def sp e l2); assumption.
        + exfalso. unfold sql_space_primary_key in Hpk.
          rewrite Hl' in Hpk. simpl in Hpk.
          rewrite Hl in Hnz. apply Forall_cons in Hnz as [Hx _].
          destruct (Nat.eqb_spec (iid x) 0); [contradiction|discriminate].
      - rewrite Ht' in Hiid.
        apply table_add_index_primary_wf; assumption. }
    destruct Hq as [[Hab ->]|(sp & pk & p2 & fs & Hsp & Hpk & Hloop & ->)].
    + apply (Hcreate def' Hnew). left. exact Hab.
    + simpl in Hnew. injection Hnew as <-.
      destruct (Hcreate sp Hsp) as (def & Hdef & Hwf); [right; eauto|].
      exists def. split; [exact Hdef|]. intros Hd.
      apply (indexes_wf_kept sp); [reflexivity|reflexivity| |auto].
      unfold field_count. simpl.
      rewrite (pk_fields_not_null_length _ _ _ _ _ _ Hloop). lia.
Qed.

Lemma run_builder_call_indexes_wf p c p' def' :
  run_builder_call p c = Some p' ->
  new_space p' = Some def' ->
  exists def, new_space p = Some def /\ (indexes_wf def -> indexes_wf def').
Proof.
  destruct c as [n t|a|n l|n l|n e]; simpl.
  - intros [= <-] Hnew.
    destruct (sqlAddColumn_indexes p n t def' Hnew)
      as (def & Hdef & Hi & Hm & Hc).
    exists def. split; [exact Hdef|]. apply indexes_wf_kept; assumption.
  - intros [= <-] Hnew.
    destruct (sql_column_add_nullable_action_indexes p a def' Hnew)
      as (def & Hdef & Hi & Hm & Hc).
    exists def. split; [exact Hdef|]. apply indexes_wf_kept; auto. lia.
  - intros [= <-] Hnew.
    eapply sql_create_index_unique_wf; [|exact Hnew]. reflexivity.
  - intros Hadd Hnew.
    eapply sqlAddPrimaryKey_indexes_wf; [|exact Hadd|exact Hnew]. reflexivity.
  - intros Hck Hnew.
    apply sql_create_check_contraint_frame in Hck as (_ & _ & Hsp).
    exists def'. split; [congruence|]. auto.
Qed.

(** At every point of a CREATE TABLE that has tripped no assertion the
    indexes attached to the table under construction are well formed:
    the index ids are pairwise distinct and no larger than
    [index_id_max], the id 0 of the primary key occurs in the first
    slot only, and the key parts of every index are pairwise distinct
    columns of the table. *)
Theorem create_table_indexes_wf p0 name calls p def :
  run_builder_calls (create_table p0 name) calls = Some p ->
  new_space p = Some def ->
  indexes_wf def.
Proof.
  assert (Hgen : forall calls q p def,
             run_builder_calls q calls = Some p ->
             new_space p = Some def ->
             exists def0,
               new_space q = Some def0 /\ (indexes_wf def0 -> indexes_wf def)).
  { clear. intros calls. induction calls as [|c calls IH]; intros q p def; simpl.
    - intros [= <-] Hdef. exists def. auto.
    - destruct (run_builder_call q c) as [q1|] eqn:Hc; [|discriminate].
      intros Hrun Hdef.
      destruct (IH q1 p def Hrun Hdef) as (def1 & Hdef1 & Hwf1).
      destruct (run_builder_call_indexes_wf q c q1 def1 Hc Hdef1)
        as (def0 & Hdef0 & Hwf0).
      exists def0. split; [exact Hdef0|auto]. }
  intros Hrun Hdef.
  destruct (Hgen calls _ p def Hrun Hdef) as (def0 & Hdef0 & Hwf).
  apply Hwf. revert Hdef0. unfold create_table, sqlStartTable.
  destruct (sqlCheckIdentifierName (sqlGetVdbe p0) name) as [p1 ok] eqn:Hname.
  apply sqlCheckIdentifierName_errors in Hname as [(b & d & ->) _].
  destruct ok; simpl; [|discriminate].
  intros [= <-]. unfold indexes_wf. simpl.
  split; [constructor|]. split; [constructor|]. split; constructor.
Qed.

End Indexes.

Lemma create_table_indexes_wf_witness :
  exists p def,
    run_create_table
      [AddColumn "A" FIELD_TYPE_INTEGER; AddColumn "B" FIELD_TYPE_STRING;
       AddUnique None (Some [TK_ID "A"; TK_ID "A"]);
       AddUnique (Some "U") (Some [TK_ID "B"; TK_ID "A"]);
       AddPrimaryKey None (Some [TK_ID "A"])] = Some p
    /\ new_space p = Some def
    /\ length (index def) = 2
    /\ indexes_wf def.
Proof.
  unfold run_create_table.
  destruct (@run_builder_calls reference_api
              (@create_table reference_api fresh_parse "T")
              [AddColumn "A" FIELD_TYPE_INTEGER; AddColumn "B" FIELD_TYPE_STRING;
               AddUnique None (Some [TK_ID "A"; TK_ID "A"]);
               AddUnique (Some "U") (Some [TK_ID "B"; TK_ID "A"]);
               AddPrimaryKey None (Some [TK_ID "A"])])
    as [p|] eqn:Hrun; [|vm_compute in Hrun; discriminate].
  destruct (new_space p) as [def|] eqn:Hdef;
    [|vm_compute in Hrun; injection Hrun as <-; discriminate].
  exists p, def. split; [reflexivity|]. split; [exact Hdef|].
  split; [vm_compute in Hrun; injection Hrun as <-; vm_compute in Hdef;
          injection Hdef as <-; reflexivity|].
  exact (@create_table_indexes_wf reference_api fresh_parse "T" _ p def Hrun
           Hdef).
Defined.

(** ** Growing arrays and identifier lists *)

Section Arrays.

Lemma int_ok_intro z : (- 2 ^ 31 <= z < 2 ^ 31)%Z -> int_ok z = true.
Proof.
  intros [Hlo Hhi]. unfold int_ok.
  apply andb_true_intro. split; [apply Z.leb_le|apply Z.ltb_lt]; assumption.
Qed.

(** If [n & (n - 1)] is zero, so is [2n & (2n - 1)]. *)
Lemma land_double n :
  Z.land n (n - 1) = 0%Z -> Z.land (2 * n) (2 * n - 1) = 0%Z.
Proof.
  intros H. replace (2 * n - 1)%Z with (2 * (n - 1) + 1)%Z by lia.
  apply Z.bits_inj'. intros i Hi. rewrite Z.land_spec, Z.bits_0.
  destruct (Z.eq_dec i 0%Z) as [->|Hne].
  - rewrite Z.testbit_even_0. reflexivity.
  - replace i with (Z.succ (i - 1)%Z) by lia.
    rewrite Z.testbit_even_succ, Z.testbit_odd_succ by lia.
    rewrite <- Z.land_spec, H. apply Z.bits_0.
Qed.

Lemma length_sqlDbRealloc {A} (cells : list (option A)) sz :
  length (sqlDbRealloc cells sz) = sz.
Proof.
  unfold sqlDbRealloc. rewrite length_app, length_take, length_replicate. lia.
Qed.

Lemma take_sqlDbRealloc {A} (cells : list (option A)) sz n :
  n <= sz -> n <= length cells ->
  take n (sqlDbRealloc cells sz) = take n cells.
Proof.
  intros Hsz Hlen. unfold sqlDbRealloc.
  rewrite take_app_le by (rewrite length_take; lia).
  rewrite take_take. f_equal. lia.
Qed.

Lemma memset_zero_one {A} (zero : A) (cells : list (option A)) n :
  n < length cells ->
  memset_zero zero cells n 1
  = Some (take n cells ++ Some zero :: drop (n + 1) cells).
Proof.
  intros Hn. unfold memset_zero.
  destruct (Nat.leb_spec (n + 1) (length cells)); [reflexivity|lia].
Qed.

(** sqlArrayAllocate on an array that is full exactly when the number
    of its elements is zero or a power of two: the new element is
    inside the allocation, the elements in use are kept, and the
    array is such an array again. *)
Lemma sqlArrayAllocate_spec {A} (zero : A) (a used : list (option A)) sz :
  take (length used) a = used ->
  Z.land (Z.of_nat (length a)) (Z.of_nat (length a) - 1) = 0%Z ->
  (0 < sz)%Z ->
  (2 * (Z.of_nat (length used) + 1) * sz < 2 ^ 31)%Z ->
  exists a',
    sqlArrayAllocate zero false a sz (Z.of_nat (length used))
    = Some (a', (Z.of_nat (length used) + 1)%Z, Z.of_nat (length used))
    /\ a' = used ++ Some zero :: drop (length used + 1) a'
    /\ Z.land (Z.of_nat (length a')) (Z.of_nat (length a') - 1) = 0%Z.
Proof.
  intros Hused Hfull Hsz Hbound.
  assert (Hle : length used <= length a).
  { rewrite <- Hused at 1. rewrite length_take. lia. }
  set (n := Z.of_nat (length used)) in *.
  assert (Hn : (0 <= n)%Z) by lia.
  unfold sqlArrayAllocate. cbv zeta.
  rewrite (int_ok_intro (n - 1)) by nia. cbn [negb].
  assert (Hgrown : exists a1,
             (if (Z.land n (n - 1) =? 0)%Z
              then sqlDbRealloc a
                     (Z.to_nat (if (n =? 0)%Z then 1%Z else (2 * n)%Z))
              else a) = a1
             /\ take (length used) a1 = used
             /\ length used < length a1
             /\ Z.land (Z.of_nat (length a1)) (Z.of_nat (length a1) - 1)
                = 0%Z).
  { destruct (Z.eqb_spec (Z.land n (n - 1)) 0%Z) as [Hgrow|Hstay].
    - eexists. split; [reflexivity|].
      rewrite length_sqlDbRealloc.
      destruct (Z.eqb_spec n 0%Z) as [Hz|Hnz].
      + split; [rewrite take_sqlDbRealloc by lia; exact Hused|].
        split; [lia|reflexivity].
      + split; [rewrite take_sqlDbRealloc by lia; exact Hused|].
        split; [lia|]. rewrite Z2Nat.id by lia. apply land_double.
        exact Hgrow.
    - exists a. split; [reflexivity|]. split; [exact Hused|].
      split; [|exact Hfull].
      destruct (Nat.eq_dec (length used) (length a)) as [Heq|Hne]; [|lia].
      exfalso. apply Hstay. unfold n. rewrite Heq. exact Hfull. }
  destruct Hgrown as (a1 & Ha1 & Hused1 & Hlt & Hfull1).
  assert (Hsizes : int_ok (if (n =? 0)%Z then 1%Z else (2 * n)%Z)
                   && int_ok ((if (n =? 0)%Z then 1%Z else (2 * n)%Z) * sz)
                   = true).
  { destruct (Z.eqb_spec n 0%Z); rewrite !int_ok_intro by nia; reflexivity. }
  rewrite Hsizes, Ha1. cbn [negb]. rewrite !andb_false_r.
  rewrite (int_ok_intro (n * sz)), (int_ok_intro (n + 1)) by nia.
  cbn [negb andb].
  destruct (Z.ltb_spec n 0%Z) as [Hneg|_]; [lia|].
  unfold n at 1. rewrite Nat2Z.id, memset_zero_one by exact Hlt.
  rewrite Hused1. eexists. split; [reflexivity|].
  assert (Hlen : length (used ++ Some zero :: drop (length used + 1) a1)
                 = length a1).
  { rewrite length_app. simpl. rewrite length_drop. lia. }
  split; [|rewrite Hlen; exact Hfull1].
  f_equal. f_equal. rewrite drop_app_add. reflexivity.
Qed.

End Arrays.

Section IdLists.

Lemma store_member_app {A} (pre : list (option A)) x post f :
  store_member (pre ++ Some x :: post) (Z.of_nat (length pre)) f
  = Some (pre ++ Some (f x) :: post).
Proof.
  unfold store_member. rewrite length_app. simpl.
  destruct (Z.leb_spec 0 (Z.of_nat (length pre))) as [_|Hneg]; [|lia].
  destruct (Z.ltb_spec (Z.of_nat (length pre))
              (Z.of_nat (length pre + S (length post)))) as [_|Hge]; [|lia].
  simpl. rewrite Nat2Z.id.
  replace (length pre) with (length pre + 0) at 1 by lia.
  rewrite alter_app_r. reflexivity.
Qed.

(** The allocation of an identifier list is full exactly when the
    number of names is zero or a power of two. *)
Lemma sql_id_list_append_spec sz pList names name :
  id_list_holds pList names ->
  (let a := id_a (default (mk_IdList [] 0%Z) pList) in
   Z.land (Z.of_nat (length a)) (Z.of_nat (length a) - 1) = 0%Z) ->
  (0 < sz)%Z ->
  (2 * (Z.of_nat (length names) + 1) * sz < 2 ^ 31)%Z ->
  exists l',
    sql_id_list_append false sz pList name = Some (Some l')
    /\ id_list_holds (Some l') (names ++ [name])
    /\ Z.land (Z.of_nat (length (id_a l')))
         (Z.of_nat (length (id_a l')) - 1) = 0%Z.
Proof.
  intros Hholds Hfull Hsz Hbound. cbv zeta in Hfull.
  set (used := (fun z => Some (mk_IdList_item (Some z))) <$> names).
  assert (Hlen : length used = length names) by apply length_fmap.
  set (l0 := default (mk_IdList [] 0%Z) pList) in *.
  assert (Hl0 : nId l0 = Z.of_nat (length used)
                /\ take (length used) (id_a l0) = used).
  { rewrite Hlen. destruct pList as [l|]; simpl in Hholds; [exact Hholds|].
    subst names. split; reflexivity. }
  destruct Hl0 as [Hn Hused].
  destruct (sqlArrayAllocate_spec (mk_IdList_item None) (id_a l0) used sz
              Hused Hfull Hsz) as (a' & Halloc & Ha' & Hfull');
    [rewrite Hlen; exact Hbound|].
  assert (Happend : sql_id_list_append false sz pList name
                    = match sqlArrayAllocate (mk_IdList_item None) false
                              (id_a l0) sz (nId l0) with
                      | Some (a, n, i) =>
                          if (0 <=? i)%Z then
                            a ← store_member a i
                                  (fun _ => mk_IdList_item (Some name));
                            Some (Some (mk_IdList a n))
                          else Some None
                      | None => None
                      end).
  { unfold sql_id_list_append, sql_name_from_token. destruct pList; reflexivity. }
  rewrite Happend, Hn, Halloc.
  destruct (Z.leb_spec 0 (Z.of_nat (length used))) as [_|Hneg]; [|lia].
  rewrite Ha', store_member_app. simpl.
  eexists. split; [reflexivity|]. simpl. split.
  - rewrite length_app. simpl. split; [lia|].
    rewrite fmap_app. fold used. simpl.
    rewrite <- Hlen. rewrite take_app_add. reflexivity.
  - rewrite <- Hfull'. rewrite Ha' at 3 4. rewrite !length_app. reflexivity.
Qed.

Lemma sql_id_list_of_spec sz : forall rest done pList,
  id_list_holds pList done ->
  (let a := id_a (default (mk_IdList [] 0%Z) pList) in
   Z.land (Z.of_nat (length a)) (Z.of_nat (length a) - 1) = 0%Z) ->
  (0 < sz)%Z ->
  (2 * Z.of_nat (length done + length rest) * sz < 2 ^ 31)%Z ->
  exists l',
    foldl (fun list name =>
             list ← list; sql_id_list_append false sz list name)
      (Some pList) rest = Some l'
    /\ id_list_holds l' (done ++ rest).
Proof.
  induction rest as [|name rest IH]; intros done pList Hholds Hfull Hsz Hbound.
  - exists pList. rewrite app_nil_r. auto.
  - simpl.
    destruct (sql_id_list_append_spec sz pList done name Hholds Hfull Hsz)
      as (l1 & -> & Hholds1 & Hfull1); [simpl in Hbound; nia|].
    destruct (IH (done ++ [name]) (Some l1) Hholds1 Hfull1 Hsz)
      as (l' & Hfold & Hholds').
    + rewrite length_app. simpl in *.
      replace (length done + 1 + length rest)
        with (length done + S (length rest)) by lia. exact Hbound.
    + exists l'. rewrite <- app_assoc in Hholds'. auto.
Qed.

(** sqlIdListIndex scans the names in order and stops at the first
    match. *)
Lemma sqlIdListIndex_from_spec z : forall names a i,
  (forall j name, names !! j = Some name ->
                  a !! (i + j) = Some (Some (mk_IdList_item (Some name)))) ->
  sqlIdListIndex_from a z i (length names)
  = Some (match list_find (fun n => n = z) names with
          | Some (j, _) => Z.of_nat (i + j)
          | None => (-1)%Z
          end).
Proof.
  induction names as [|n names IH]; intros a i Hslots; simpl; [reflexivity|].
  pose proof (Hslots 0 n eq_refl) as H0. rewrite Nat.add_0_r in H0.
  rewrite H0.
  destruct (String.eqb_spec n z) as [Heq|Hne].
  - rewrite decide_True by exact Heq. rewrite Nat.add_0_r. reflexivity.
  - rewrite decide_False by exact Hne.
    rewrite (IH a (S i)).
    + destruct (list_find _ names) as [[j x]|]; simpl; [|reflexivity].
      do 2 f_equal. lia.
    + intros j name Hj. replace (S i + j) with (i + S j) by lia.
      apply Hslots. exact Hj.
Qed.

(** The identifier list built of a sequence of names holds these
    names, no store of its construction leaves the allocation, and
    sqlIdListIndex finds in it the first position of a name, or -1
    for a name that is not in the list. *)
Theorem sql_id_list_round_trip sz names :
  (0 < sz)%Z ->
  (2 * Z.of_nat (length names) * sz < 2 ^ 31)%Z ->
  exists pList,
    sql_id_list_of sz names = Some pList
    /\ id_list_holds pList names
    /\ forall z, sqlIdListIndex pList z = Some (first_index names z).
Proof.
  intros Hsz Hbound.
  destruct (sql_id_list_of_spec sz names [] None eq_refl eq_refl Hsz Hbound)
    as (pList & Hfold & Hholds).
  exists pList. split; [exact Hfold|]. split; [exact Hholds|].
  intros z. unfold sqlIdListIndex, first_index.
  destruct pList as [l|]; simpl in Hholds; [|subst names; reflexivity].
  destruct Hholds as [Hn Hused].
  rewrite Hn, Nat2Z.id.
  rewrite (sqlIdListIndex_from_spec z names (id_a l) 0); [reflexivity|].
  intros j name Hj. simpl.
  rewrite <- (lookup_take_lt (id_a l) (length names) j)
    by (apply lookup_lt_Some in Hj; exact Hj).
  rewrite Hused, list_lookup_fmap, Hj. reflexivity.
Qed.

End IdLists.

Lemma sql_id_list_round_trip_witness :
  exists pList,
    sql_id_list_of 16 ["A"; "B"; "A"; "C"; "D"] = Some pList
    /\ id_list_holds pList ["A"; "B"; "A"; "C"; "D"]
    /\ sqlIdListIndex pList "A" = Some 0%Z
    /\ sqlIdListIndex pList "D" = Some 4%Z
    /\ sqlIdListIndex pList "E" = Some (-1)%Z.
Proof.
  destruct (sql_id_list_round_trip 16 ["A"; "B"; "A"; "C"; "D"])
    as (pList & Hof & Hholds & Hindex); [lia|simpl; lia|].
  exists pList. split; [exact Hof|]. split; [exact Hholds|].
  rewrite !Hindex. repeat split.
Defined.

(** ** FROM lists *)

Section SrcLists.

Lemma memmove_insert {A} (pre mid rest : list (option A)) k :
  k <= length rest ->
  memmove (pre ++ mid ++ rest) (length pre + k) (length pre) (length mid)
  = Some (pre ++ take k (mid ++ rest) ++ mid ++ drop k rest).
Proof.
  intros Hk. unfold memmove. rewrite !length_app.
  destruct (Nat.leb_spec (length pre + length mid)
              (length pre + (length mid + length rest))) as [_|Hlt]; [|lia].
  destruct (Nat.leb_spec (length pre + k + length mid)
              (length pre + (length mid + length rest))) as [_|Hlt]; [|lia].
  simpl. rewrite take_app_add, drop_app_length, take_app_length.
  replace (length pre + k + length mid)
    with (length pre + (length mid + k)) by lia.
  rewrite !drop_app_add. rewrite <- app_assoc. reflexivity.
Qed.

Lemma memset_zero_app {A} (zero : A) (pre junk post : list (option A)) :
  memset_zero zero (pre ++ junk ++ post) (length pre) (length junk)
  = Some (pre ++ replicate (length junk) (Some zero) ++ post).
Proof.
  unfold memset_zero. rewrite !length_app.
  destruct (Nat.leb_spec (length pre + length junk)
              (length pre + (length junk + length post))) as [_|Hlt]; [|lia].
  rewrite take_app_length, drop_app_add, drop_app_length. reflexivity.
Qed.

Lemma reset_cursors_spec k : forall pre post,
  reset_cursors (pre ++ replicate k (Some SrcList_item_zero) ++ post)
    (length pre) k
  = Some (pre ++ replicate k (Some SrcList_item_fresh) ++ post).
Proof.
  induction k as [|k IH]; intros pre post; simpl; [reflexivity|].
  rewrite store_member_app. simpl.
  specialize (IH (pre ++ [Some SrcList_item_fresh]) post).
  rewrite length_app, <- !app_assoc in IH. simpl in IH.
  rewrite Nat.add_1_r in IH. exact IH.
Qed.

(** The allocation step of sql_src_list_enlarge makes room for the new
    slots and keeps the items. *)
Lemma src_list_wf_cells l items :
  src_list_wf l items ->
  src_a l = (Some <$> items) ++ drop (length items) (src_a l)
  /\ length items <= length (src_a l).
Proof.
  intros (Hn & Hcap & Halloc & Hitems). unfold src_items in Hitems.
  rewrite Hn, Nat2Z.id in Hitems.
  split; [rewrite <- Hitems; symmetry; apply take_drop|lia].
Qed.

Lemma sql_src_list_enlarge_spec sz_head sz_item l items new_slots
    start_idx :
  src_list_wf l items ->
  (0 <= start_idx <= nSrc l)%Z ->
  (1 <= new_slots)%Z ->
  (0 <= sz_head)%Z -> (1 <= sz_item)%Z ->
  (sz_head + (2 * nSrc l + new_slots) * sz_item < 2 ^ 31)%Z ->
  exists l',
    sql_src_list_enlarge false sz_head sz_item l new_slots start_idx
    = Some (Some l')
    /\ src_list_wf l'
         (take (Z.to_nat start_idx) items
            ++ replicate (Z.to_nat new_slots) SrcList_item_fresh
            ++ drop (Z.to_nat start_idx) items).
Proof.
  intros Hwf Hstart Hnew Hhead Hitem Hbound.
  destruct (src_list_wf_cells l items Hwf) as [Hcells Hroom].
  destruct Hwf as (Hn & Hcap & Halloc & _).
  set (n := length items) in *.
  set (s := Z.to_nat start_idx). set (k := Z.to_nat new_slots).
  assert (Hsz : Z.of_nat s = start_idx) by (unfold s; lia).
  assert (Hkz : Z.of_nat k = new_slots) by (unfold k; lia).
  assert (Hs : s <= n) by lia. assert (Hk : 1 <= k) by lia.
  unfold sql_src_list_enlarge.
  destruct (Z.leb_spec 0 start_idx) as [_|?]; [|lia].
  destruct (Z.leb_spec 1 new_slots) as [_|?]; [|lia].
  destruct (Z.leb_spec start_idx (nSrc l)) as [_|?]; [|lia].
  cbn [andb negb].
  rewrite (int_ok_intro (nSrc l + new_slots)) by nia. cbn [negb].
  assert (Hgrown : exists c1 rest1,
             (if (int_of_u32 (nAlloc l) <? nSrc l + new_slots)%Z
              then
                if negb (int_ok (nSrc l * 2)
                         && int_ok (nSrc l * 2 + new_slots)
                         && int_ok (sz_head
                                    + (nSrc l * 2 + new_slots - 1) * sz_item))
                then None
                else Some (Some (mk_SrcList (nSrc l)
                                   (u32_of_int (nSrc l * 2 + new_slots))
                                   (sqlDbRealloc (src_a l)
                                      (Z.to_nat (nSrc l * 2 + new_slots)))))
              else Some (Some l))
             = Some (Some (mk_SrcList (nSrc l) c1
                             ((Some <$> items) ++ rest1)))
             /\ k <= length rest1
             /\ c1 = Z.of_nat (n + length rest1)
             /\ (c1 < 2 ^ 31)%Z).
  { assert (Hcast : int_of_u32 (nAlloc l) = nAlloc l).
    { unfold int_of_u32. destruct (Z.ltb_spec (nAlloc l) (2 ^ 31)); lia. }
    rewrite Hcast.
    destruct (Z.ltb_spec (nAlloc l) (nSrc l + new_slots)) as [Hgrow|Hstay].
    - rewrite (int_ok_intro (nSrc l * 2)), (int_ok_intro (nSrc l * 2 + new_slots)),
        (int_ok_intro (sz_head + (nSrc l * 2 + new_slots - 1) * sz_item))
        by nia.
      cbn [andb negb].
      assert (Hu : u32_of_int (nSrc l * 2 + new_slots)
                   = (nSrc l * 2 + new_slots)%Z).
      { unfold u32_of_int. apply Z.mod_small. nia. }
      rewrite Hu.
      exists (nSrc l * 2 + new_slots)%Z,
        (drop n (src_a l)
           ++ replicate (Z.to_nat (nSrc l * 2 + new_slots) - length (src_a l))
                None).
      split.
      + do 3 f_equal. unfold sqlDbRealloc.
        rewrite take_ge by lia. rewrite Hcells at 1.
        rewrite <- app_assoc. reflexivity.
      + rewrite length_app, length_drop, length_replicate.
        split; [lia|]. split; [lia|nia].
    - exists (nAlloc l), (drop n (src_a l)). split.
      + destruct l as [ns na a]. simpl in *. rewrite Hcells at 1. reflexivity.
      + rewrite length_drop. split; [lia|]. split; lia. }
  destruct Hgrown as (c1 & rest1 & -> & Hrest & Hc1 & Hc1max).
  cbn [nSrc nAlloc src_a].
  set (pre := Some <$> take s items).
  set (mid := Some <$> drop s items).
  assert (Hsplit : (Some <$> items) ++ rest1 = pre ++ mid ++ rest1).
  { unfold pre, mid. rewrite app_assoc, <- fmap_app, take_drop. reflexivity. }
  assert (Hpre : length pre = s).
  { unfold pre. rewrite length_fmap, length_take. fold n. lia. }
  assert (Hmid : length mid = n - s).
  { unfold mid. rewrite length_fmap, length_drop. reflexivity. }
  replace (Z.to_nat (nSrc l - start_idx)) with (length mid) by lia.
  fold s k. rewrite Hsplit.
  assert (Hjunk : length (take k (mid ++ rest1)) = k).
  { rewrite length_take, length_app. lia. }
  assert (Hmove : memmove (pre ++ mid ++ rest1) (s + k) s (length mid)
                  = Some (pre ++ take k (mid ++ rest1) ++ mid
                            ++ drop k rest1)).
  { pose proof (memmove_insert pre mid rest1 k Hrest) as Hmove.
    rewrite Hpre in Hmove. exact Hmove. }
  assert (Hset : memset_zero SrcList_item_zero
                   (pre ++ take k (mid ++ rest1) ++ mid ++ drop k rest1) s k
                 = Some (pre ++ replicate k (Some SrcList_item_zero)
                           ++ mid ++ drop k rest1)).
  { pose proof (memset_zero_app SrcList_item_zero pre
                  (take k (mid ++ rest1)) (mid ++ drop k rest1)) as Hset.
    rewrite Hjunk, Hpre in Hset. exact Hset. }
  assert (Hreset : reset_cursors
                     (pre ++ replicate k (Some SrcList_item_zero)
                        ++ mid ++ drop k rest1) s k
                   = Some (pre ++ replicate k (Some SrcList_item_fresh)
                             ++ mid ++ drop k rest1)).
  { pose proof (reset_cursors_spec k pre (mid ++ drop k rest1)) as Hreset.
    rewrite Hpre in Hreset. exact Hreset. }
  rewrite Hmove. simpl. rewrite Hset. simpl. rewrite Hreset. simpl.
  eexists. split; [reflexivity|].
  unfold src_list_wf, src_items. cbn [nSrc nAlloc src_a].
  rewrite !length_app, length_replicate, length_take, length_drop. fold n.
  split; [lia|]. split; [lia|]. split.
  - rewrite length_replicate, Hpre, Hmid, length_drop. lia.
  - rewrite !fmap_app, fmap_replicate. fold pre mid.
    replace (Z.to_nat (nSrc l + new_slots))
      with (length (pre ++ replicate k (Some SrcList_item_fresh) ++ mid))
      by (rewrite !length_app, length_replicate; lia).
    rewrite !app_assoc. rewrite take_app_length. reflexivity.
Qed.

(** sql_src_list_enlarge opens [new_slots] fresh slots at
    [start_idx]: the items before keep their places, the items from
    [start_idx] on move up by [new_slots], and no access leaves the
    allocation. *)
Theorem sql_src_list_enlarge_inserts sz_head sz_item l items new_slots
    start_idx :
  src_list_wf l items ->
  (0 <= start_idx <= nSrc l)%Z ->
  (1 <= new_slots)%Z ->
  (0 <= sz_head)%Z -> (1 <= sz_item)%Z ->
  (sz_head + (2 * nSrc l + new_slots) * sz_item < 2 ^ 31)%Z ->
  exists l',
    sql_src_list_enlarge false sz_head sz_item l new_slots start_idx
    = Some (Some l')
    /\ src_list_wf l'
         (take (Z.to_nat start_idx) items
            ++ replicate (Z.to_nat new_slots) SrcList_item_fresh
            ++ drop (Z.to_nat start_idx) items).
Proof. apply sql_src_list_enlarge_spec. Qed.

(** The last step of sql_src_list_append: the name goes to the last
    item. *)
Lemma src_list_name_last l items it name_token :
  src_list_wf l (items ++ [it]) ->
  exists l',
    (if negb (int_ok (nSrc l - 1)) then None
     else
       match name_token with
       | Some name_token =>
           let zName := sql_name_from_token false name_token in
           a ← store_member (src_a l) (nSrc l - 1)
                 (fun it => set_src_zName it zName);
           if zName is Some _ then
             Some (Some (mk_SrcList (nSrc l) (nAlloc l) a))
           else Some None
       | None => Some (Some l)
       end) = Some (Some l')
    /\ src_list_wf l'
         (items ++ [match name_token with
                    | Some _ => set_src_zName it name_token
                    | None => it
                    end]).
Proof.
  intros Hwf. destruct (src_list_wf_cells _ _ Hwf) as [Hcells _].
  destruct Hwf as (Hn & Hcap & Halloc & Hitems).
  rewrite length_app in *. simpl in *.
  rewrite (int_ok_intro (nSrc l - 1)) by lia. cbn [negb].
  destruct name_token as [name|];
    [|exists l; split; [reflexivity|]; unfold src_list_wf;
      rewrite length_app; simpl; auto].
  cbv zeta. unfold sql_name_from_token.
  rewrite fmap_app, <- app_assoc in Hcells. simpl in Hcells.
  replace (nSrc l - 1)%Z with (Z.of_nat (length (Some <$> items)))
    by (rewrite length_fmap; lia).
  rewrite Hcells, store_member_app. simpl.
  eexists. split; [reflexivity|].
  unfold src_list_wf, src_items. cbn [nSrc nAlloc src_a].
  rewrite length_app. simpl.
  split; [exact Hn|]. split; [exact Hcap|]. split.
  - rewrite Halloc. rewrite Hcells at 1. rewrite !length_app. reflexivity.
  - rewrite Hn, Nat2Z.id, fmap_app. simpl.
    rewrite <- (length_fmap Some items), take_app_add. reflexivity.
Qed.

Lemma sql_src_list_append_spec sz_head sz_item pList items name_token :
  src_list_holds pList items ->
  (0 <= sz_head)%Z -> (1 <= sz_item)%Z ->
  (sz_head + (2 * Z.of_nat (length items) + 1) * sz_item < 2 ^ 31)%Z ->
  exists l',
    sql_src_list_append false sz_head sz_item pList name_token
    = Some (Some l')
    /\ src_list_wf l'
         (items ++ [set_src_zName SrcList_item_fresh name_token]).
Proof.
  intros Hholds Hhead Hitem Hbound.
  assert (Hfirst : exists l1,
             match pList with
             | None => sql_src_list_new false
             | Some list =>
                 sql_src_list_enlarge false sz_head sz_item list 1 (nSrc list)
             end = Some (Some l1)
             /\ src_list_wf l1 (items ++ [SrcList_item_fresh])).
  { destruct pList as [l|]; simpl in Hholds.
    - pose proof Hholds as (Hn & _).
      destruct (sql_src_list_enlarge_spec sz_head sz_item l items 1
                  (nSrc l) Hholds) as (l1 & Henl & Hwf1); try lia.
      exists l1. split; [exact Henl|].
      rewrite Hn, Nat2Z.id, take_ge, drop_ge in Hwf1 by lia. exact Hwf1.
    - subst items. eexists. split; [reflexivity|].
      unfold src_list_wf. simpl. repeat split; lia. }
  destruct Hfirst as (l1 & Hfirst & Hwf1).
  unfold sql_src_list_append. rewrite Hfirst. simpl.
  destruct (src_list_name_last l1 items SrcList_item_fresh name_token Hwf1)
    as (l' & Hlast & Hwf').
  exists l'. split; [exact Hlast|].
  destruct name_token; exact Hwf'.
Qed.

Lemma sql_src_list_of_spec sz_head sz_item : forall rest done pList,
  src_list_holds pList done ->
  (0 <= sz_head)%Z -> (1 <= sz_item)%Z ->
  (sz_head + 2 * Z.of_nat (length done + length rest) * sz_item < 2 ^ 31)%Z ->
  exists l',
    foldl (fun list name =>
             list ← list;
             sql_src_list_append false sz_head sz_item list name)
      (Some pList) rest = Some l'
    /\ src_list_holds l'
         (done ++ (set_src_zName SrcList_item_fresh <$> rest)).
Proof.
  induction rest as [|name rest IH]; intros done pList Hholds Hhead Hitem Hbound.
  - exists pList. simpl. rewrite app_nil_r. auto.
  - simpl.
    destruct (sql_src_list_append_spec sz_head sz_item pList done name
                Hholds Hhead Hitem) as (l1 & -> & Hwf1);
      [simpl in Hbound; nia|].
    destruct (IH (done ++ [set_src_zName SrcList_item_fresh name]) (Some l1)
                Hwf1 Hhead Hitem) as (l' & Hfold & Hholds').
    + rewrite length_app. simpl in *.
      replace (length done + 1 + length rest)
        with (length done + S (length rest)) by lia. exact Hbound.
    + exists l'. rewrite <- app_assoc in Hholds'. auto.
Qed.

(** The FROM list built of a sequence of table names holds one item
    for each name, in this order, with no cursor yet; no access of
    its construction leaves the allocation. *)
Theorem sql_src_list_of_names sz_head sz_item names :
  (0 <= sz_head)%Z -> (1 <= sz_item)%Z ->
  (sz_head + 2 * Z.of_nat (length names) * sz_item < 2 ^ 31)%Z ->
  exists pList,
    sql_src_list_of sz_head sz_item names = Some pList
    /\ src_list_holds pList
         ((fun name => mk_SrcList_item name None 0 (-1)) <$> names).
Proof.
  intros Hhead Hitem Hbound.
  exact (sql_src_list_of_spec sz_head sz_item names [] None eq_refl Hhead
           Hitem Hbound).
Qed.

Lemma shift_from_snoc t : forall prev y,
  shift_from prev (t ++ [y])
  = shift_from prev t
      ++ [set_jointype y (default prev (jointype <$> last t))].
Proof.
  induction t as [|x t IH]; intros prev y; simpl; [reflexivity|].
  rewrite IH. do 3 f_equal. destruct t as [|s t]; [reflexivity|].
  destruct (proj2 (last_is_Some (s :: t))) as [z Hz]; [discriminate|].
  change (last (x :: s :: t)) with (last (s :: t)). rewrite Hz. reflexivity.
Qed.

Lemma lookup_last_cons {A} (h : A) t :
  (h :: t) !! length t = Some (default h (last t)).
Proof.
  revert h. induction t as [|x t IH]; intros h; [reflexivity|].
  simpl. rewrite IH. destruct t as [|s t]; [reflexivity|].
  destruct (proj2 (last_is_Some (s :: t))) as [z Hz]; [discriminate|].
  change (last (x :: s :: t)) with (last (s :: t)). rewrite Hz. reflexivity.
Qed.

(** The loop of sqlSrcListShiftJoinType from [i] down to 1 gives the
    items 1 to [i] the join types of their predecessors. *)
Lemma shift_jointypes_spec i : forall h t l2 rest,
  length t = i ->
  shift_jointypes ((Some <$> h :: t ++ l2) ++ rest) i
  = Some ((Some <$> h :: shift_from (jointype h) t ++ l2) ++ rest).
Proof.
  induction i as [|j IH]; intros h t l2 rest Hlen.
  - destruct t; [reflexivity|discriminate].
  - destruct (decide (t = [])) as [->|Hne]; [discriminate|].
    destruct (exists_last Hne) as (t0 & y & ->).
    rewrite length_app in Hlen. simpl in Hlen.
    assert (Hj : length t0 = j) by lia.
    cbn [shift_jointypes].
    assert (Hcells : (Some <$> h :: (t0 ++ [y]) ++ l2) ++ rest
                     = (Some <$> h :: t0)
                         ++ Some y :: ((Some <$> l2) ++ rest)).
    { rewrite <- !app_assoc. simpl. rewrite !fmap_app. simpl.
      rewrite <- !app_assoc. reflexivity. }
    rewrite Hcells.
    assert (Hprev : ((Some <$> h :: t0) ++ Some y :: ((Some <$> l2) ++ rest))
                      !! j = Some (Some (default h (last t0)))).
    { rewrite lookup_app_l by (rewrite length_fmap; simpl; lia).
      rewrite list_lookup_fmap, <- Hj, lookup_last_cons. reflexivity. }
    rewrite Hprev.
    replace (Z.of_nat (S j)) with (Z.of_nat (length (Some <$> h :: t0)))
      by (rewrite length_fmap; simpl; lia).
    rewrite store_member_app. cbn [mbind option_bind].
    assert (Hcells' : forall y',
               (Some <$> h :: t0) ++ Some y' :: ((Some <$> l2) ++ rest)
               = (Some <$> h :: t0 ++ y' :: l2) ++ rest).
    { intros y'. simpl. rewrite !fmap_app. simpl.
      rewrite <- !app_assoc. reflexivity. }
    rewrite Hcells', (IH h t0 _ rest Hj).
    rewrite shift_from_snoc, <- app_assoc.
    do 6 f_equal. destruct (last t0); reflexivity.
Qed.

Lemma shift_from_lookup items : forall prev i it,
  items !! i = Some it ->
  shift_from prev items !! i
  = Some (set_jointype it
            match i with
            | 0 => prev
            | S j => default prev (jointype <$> items !! j)
            end).
Proof.
  induction items as [|x items IH]; intros prev i it; [discriminate|].
  destruct i as [|i]; simpl.
  - intros [= <-]. reflexivity.
  - intros Hi. rewrite (IH (jointype x) i it Hi).
    destruct i; simpl; [reflexivity|].
    destruct (items !! i) eqn:Hprev; [reflexivity|].
    apply lookup_lt_Some in Hi. apply lookup_ge_None_1 in Hprev. lia.
Qed.

Lemma length_shift_from items : forall prev,
  length (shift_from prev items) = length items.
Proof.
  induction items as [|x items IH]; intros prev; simpl; [reflexivity|].
  rewrite IH. reflexivity.
Qed.

(** sqlSrcListShiftJoinType moves every join type to the next item:
    the first item gets the join type 0, every other item the join
    type its predecessor had, and nothing else changes. *)
Theorem sqlSrcListShiftJoinType_shifts l items :
  src_list_wf l items ->
  items <> [] ->
  exists l' items',
    sqlSrcListShiftJoinType (Some l) = Some (Some l')
    /\ src_list_wf l' items'
    /\ length items' = length items
    /\ forall i it,
         items !! i = Some it ->
         items' !! i
         = Some (set_jointype it
                   match i with
                   | 0 => 0%Z
                   | S j => default 0%Z (jointype <$> items !! j)
                   end).
Proof.
  intros Hwf Hne. destruct (src_list_wf_cells _ _ Hwf) as [Hcells _].
  destruct Hwf as (Hn & Hcap & Halloc & Hitems).
  destruct items as [|h t]; [congruence|]. clear Hne.
  exists (mk_SrcList (nSrc l) (nAlloc l)
            ((Some <$> shift_from 0 (h :: t))
               ++ drop (length (h :: t)) (src_a l))),
    (shift_from 0 (h :: t)).
  split; [|split; [|split]].
  - unfold sqlSrcListShiftJoinType.
    rewrite (int_ok_intro (nSrc l - 1)) by lia. cbn [negb].
    replace (Z.to_nat (nSrc l - 1)) with (length t) by (simpl in Hn; lia).
    rewrite Hcells at 1.
    pose proof (shift_jointypes_spec (length t) h t []
                  (drop (length (h :: t)) (src_a l)) eq_refl) as Hloop.
    rewrite !app_nil_r in Hloop. rewrite Hloop. simpl.
    unfold store_member. simpl.
    destruct (Z.ltb_spec 0 (Z.pos (Pos.of_succ_nat
                (length (fmap (M:=list) Some (shift_from (jointype h) t)
                           ++ drop (S (length t)) (src_a l))))));
      [reflexivity|lia].
  - unfold src_list_wf, src_items. cbn [nSrc nAlloc src_a].
    rewrite length_shift_from.
    split; [exact Hn|]. split; [exact Hcap|]. split.
    + rewrite Halloc. rewrite Hcells at 1.
      rewrite !length_app, !length_fmap, length_shift_from. reflexivity.
    + rewrite Hn, Nat2Z.id.
      rewrite <- (length_shift_from (h :: t) 0%Z).
      rewrite <- (length_fmap Some (shift_from 0 (h :: t))).
      apply take_app_length.
  - apply length_shift_from.
  - intros i it Hi. apply shift_from_lookup. exact Hi.
Qed.

End SrcLists.

Lemma sql_src_list_enlarge_inserts_witness :
  let a := mk_SrcList_item (Some "A") None 1 (-1) in
  let b := mk_SrcList_item (Some "B") None 0 (-1) in
  exists l',
    sql_src_list_enlarge false 8 112 (mk_SrcList 2 2 [Some a; Some b]) 2 1
    = Some (Some l')
    /\ src_list_wf l' [a; SrcList_item_fresh; SrcList_item_fresh; b].
Proof.
  intros a b.
  apply (sql_src_list_enlarge_inserts 8 112 (mk_SrcList 2 2 [Some a; Some b])
           [a; b] 2 1); simpl; try lia.
  unfold src_list_wf. simpl. repeat split; lia.
Defined.

Lemma sql_src_list_of_names_witness :
  exists pList,
    sql_src_list_of 8 112 [Some "T1"; None; Some "T2"] = Some pList
    /\ src_list_holds pList
         [mk_SrcList_item (Some "T1") None 0 (-1);
          mk_SrcList_item None None 0 (-1);
          mk_SrcList_item (Some "T2") None 0 (-1)].
Proof.
  apply (sql_src_list_of_names 8 112 [Some "T1"; None; Some "T2"]);
    simpl; lia.
Defined.

Lemma sqlSrcListShiftJoinType_shifts_witness :
  let a := mk_SrcList_item (Some "A") None 1 0 in
  let b := mk_SrcList_item (Some "B") None 4 1 in
  let c := mk_SrcList_item (Some "C") None 0 2 in
  exists l' items',
    sqlSrcListShiftJoinType (Some (mk_SrcList 3 4 [Some a; Some b; Some c; None]))
    = Some (Some l')
    /\ src_list_wf l' items'
    /\ jointype <$> items' = [0; 1; 4]%Z.
Proof.
  intros a b c.
  destruct (sqlSrcListShiftJoinType_shifts
              (mk_SrcList 3 4 [Some a; Some b; Some c; None]) [a; b; c])
    as (l' & items' & Hshift & Hwf & Hlen & Hjoin);
    [unfold src_list_wf; simpl; repeat split; lia|discriminate|].
  exists l', items'. split; [exact Hshift|]. split; [exact Hwf|].
  pose proof (Hjoin 0 a eq_refl) as H0.
  pose proof (Hjoin 1 b eq_refl) as H1.
  pose proof (Hjoin 2 c eq_refl) as H2.
  destruct items' as [|x [|y [|z [|w items']]]]; try discriminate.
  simpl in H0, H1, H2. injection H0 as ->. injection H1 as ->.
  injection H2 as ->. reflexivity.
Defined.

(** ** Generated names *)

Section Names.

Lemma append_cons c a b : String c a +:+ b = String c (a +:+ b).
Proof. reflexivity. Qed.

Lemma append_inj_l s x y : s +:+ x = s +:+ y -> x = y.
Proof.
  induction s as [|c s IH]; [auto|].
  rewrite !append_cons. intros [= Heq]. auto.
Qed.

Lemma length_append a b :
  String.length (a +:+ b) = String.length a + String.length b.
Proof.
  induction a as [|c a IH]; [reflexivity|].
  rewrite append_cons. simpl. rewrite IH. reflexivity.
Qed.

Lemma append_inj_r s x : forall y, x +:+ s = y +:+ s -> x = y.
Proof.
  induction x as [|c x IH]; intros [|c' y] Heq.
  - reflexivity.
  - apply (f_equal String.length) in Heq.
    rewrite !length_append in Heq. simpl in Heq. lia.
  - apply (f_equal String.length) in Heq.
    rewrite !length_append in Heq. simpl in Heq. lia.
  - rewrite !append_cons in Heq. injection Heq as -> Heq.
    f_equal. apply IH. exact Heq.
Qed.

(** The "%d" conversion gives different numbers different texts. *)
Lemma decimal_inj n m : decimal n = decimal m -> n = m.
Proof.
  unfold decimal. intros Heq. apply Unsigned.to_uint_inj.
  assert (Hback : forall k,
             NilZero.uint_of_string (NilZero.string_of_uint (Nat.to_uint k))
             = Some (Nat.to_uint k)).
  { intros k. apply NilZero.usu.
    pose proof (Unsigned.to_of (Nat.to_uint k)) as Hnorm.
    rewrite Unsigned.of_to in Hnorm. rewrite Hnorm. apply unorm_nonnil. }
  pose proof (Hback n) as Hn. rewrite Heq, Hback in Hn. congruence.
Qed.

Lemma unnamed_check_name_inj name : Inj (=) (=) (unnamed_check_name name).
Proof.
  intros i j Heq. unfold unnamed_check_name in Heq.
  apply append_inj_l, append_inj_r in Heq. apply decimal_inj. exact Heq.
Qed.

End Names.

Section CheckNames.
Context `{BoxApi}.

Lemma checks_kept_refl p : checks_kept p p.
Proof. split; reflexivity. Qed.

Lemma checks_kept_trans p q r :
  checks_kept p q -> checks_kept q r -> checks_kept p r.
Proof. intros [H1 H2] [H3 H4]. split; congruence. Qed.

Lemma checks_kept_errors p q : errors_only p q -> checks_kept p q.
Proof. intros (b & d & ->). split; reflexivity. Qed.

Lemma checks_kept_set_new_space p s : checks_kept p (set_new_space p s).
Proof. split; reflexivity. Qed.

Lemma checks_kept_raise p c a : checks_kept p (raise p c a).
Proof. apply checks_kept_errors, errors_only_raise. Qed.

Lemma sqlAddColumn_checks_kept p name type :
  checks_kept p (sqlAddColumn p name type).
Proof.
  unfold sqlAddColumn. destruct (new_space p) as [def|];
    [|apply checks_kept_refl].
  destruct (limit_column p <? field_count def + 1);
    [apply checks_kept_raise|].
  cbv zeta.
  destruct (existsb _ _).
  - eapply checks_kept_trans;
      [apply checks_kept_set_new_space|apply checks_kept_raise].
  - eapply checks_kept_trans; apply checks_kept_set_new_space.
Qed.

Lemma sql_column_add_nullable_action_checks_kept p action :
  checks_kept p (sql_column_add_nullable_action p action).
Proof.
  unfold sql_column_add_nullable_action.
  destruct (new_space p) as [def|]; [|apply checks_kept_refl].
  destruct (fields def !! (field_count def - 1)) as [f|];
    [|apply checks_kept_refl].
  destruct (_ && _); [apply checks_kept_raise|apply checks_kept_set_new_space].
Qed.

Lemma sql_create_index_checks_kept p cid :
  checks_kept p (sql_create_index p cid).
Proof.
  unfold sql_create_index.
  destruct (sql_create_index_prepare p cid) as [p1 r] eqn:Hprep.
  apply sql_create_index_prepare_spec in Hprep as [Herr _].
  apply checks_kept_errors in Herr.
  destruct r as [[def idx]|]; [|exact Herr].
  destruct (merge_with_existing _ idx (index def));
    (eapply checks_kept_trans; [exact Herr|apply checks_kept_set_new_space]).
Qed.

Lemma sqlAddPrimaryKey_checks_kept p cid p' :
  sqlAddPrimaryKey p cid = Some p' -> checks_kept p p'.
Proof.
  intros Hadd. apply sqlAddPrimaryKey_shape in Hadd
    as [[_ ->]|[(c & a & ->)|(cid' & _ & _ & Hq)]].
  - apply checks_kept_refl.
  - apply checks_kept_raise.
  - cbv zeta in Hq.
    destruct Hq as [[_ ->]|(sp & pk & p2 & fs & _ & _ & Hloop & ->)].
    + apply sql_create_index_checks_kept.
    + apply pk_fields_not_null_errors, checks_kept_errors in Hloop.
      eapply checks_kept_trans; [apply sql_create_index_checks_kept|].
      eapply checks_kept_trans; [exact Hloop|].
      apply checks_kept_set_new_space.
Qed.

(** The names of the pending CHECK constraints while all of them are
    generated: the latest first. *)
Lemma run_builder_call_check_names name p c p' :
  run_builder_call p c = Some p' ->
  is_named_check c = false ->
  (forall def, new_space p = Some def -> space_name def = name) ->
  ck_name <$> new_check p
  = unnamed_check_name name <$> reverse (seq 1 (check_count p)) ->
  (forall def, new_space p' = Some def -> space_name def = name)
  /\ ck_name <$> new_check p'
     = unnamed_check_name name <$> reverse (seq 1 (check_count p')).
Proof.
  intros Hcall Hunnamed Hname Hnames.
  assert (Hname' : forall def, new_space p' = Some def -> space_name def = name).
  { intros def' Hdef'.
    destruct (run_builder_call_columns_wf p c p' def' Hcall Hdef')
      as (def & Hdef & Hsame & _).
    rewrite Hsame. apply Hname. exact Hdef. }
  split; [exact Hname'|].
  assert (Hkept : checks_kept p p' ->
                  ck_name <$> new_check p'
                  = unnamed_check_name name <$> reverse (seq 1 (check_count p'))).
  { intros [-> ->]. exact Hnames. }
  destruct c as [n t|a|n l|n l|[n|] e]; simpl in Hcall; try discriminate.
  - injection Hcall as <-. apply Hkept, sqlAddColumn_checks_kept.
  - injection Hcall as <-.
    apply Hkept, sql_column_add_nullable_action_checks_kept.
  - injection Hcall as <-. apply Hkept, sql_create_index_checks_kept.
  - apply Hkept. eapply sqlAddPrimaryKey_checks_kept. exact Hcall.
  - unfold sql_create_check_contraint in Hcall.
    destruct (new_space p) as [def|] eqn:Hdef; [|discriminate].
    cbv beta iota zeta in Hcall.
    destruct (trim_space_snprintf _ e) as [buf|]; [|discriminate].
    injection Hcall as <-. clear Hname' Hkept.
    unfold set_checks. cbn [new_check check_count].
    rewrite fmap_cons. cbn [ck_name].
    rewrite Hnames, (Hname def eq_refl), !Nat.add_1_r.
    rewrite seq_S, reverse_snoc, fmap_cons. reflexivity.
Qed.

(** The CHECK constraints without a name of one CREATE TABLE get
    pairwise distinct names: when no CHECK constraint of the statement
    is named, the pending constraints are called
    CK_CONSTRAINT_<i>_<table>, for i from [check_count] down to 1. *)
Theorem unnamed_checks_distinct p0 name calls p :
  check_count p0 = 0 -> new_check p0 = [] ->
  forallb (fun c => negb (is_named_check c)) calls = true ->
  run_builder_calls (create_table p0 name) calls = Some p ->
  ck_name <$> new_check p
  = unnamed_check_name name <$> reverse (seq 1 (check_count p))
  /\ NoDup (ck_name <$> new_check p).
Proof.
  intros Hcount Hnone Hunnamed Hrun.
  assert (Hgen : forall calls q p,
             forallb (fun c => negb (is_named_check c)) calls = true ->
             run_builder_calls q calls = Some p ->
             (forall def, new_space q = Some def -> space_name def = name) ->
             ck_name <$> new_check q
             = unnamed_check_name name <$> reverse (seq 1 (check_count q)) ->
             ck_name <$> new_check p
             = unnamed_check_name name <$> reverse (seq 1 (check_count p))).
  { clear. intros calls. induction calls as [|c calls IH]; intros q p; simpl.
    - intros _ [= <-] _ Hnames. exact Hnames.
    - intros Hall. apply andb_prop in Hall as [Hc Hall].
      apply negb_true_iff in Hc.
      destruct (run_builder_call q c) as [q1|] eqn:Hcall; [|discriminate].
      intros Hrun Hname Hnames.
      destruct (run_builder_call_check_names name q c q1 Hcall Hc Hname Hnames)
        as [Hname1 Hnames1].
      exact (IH q1 p Hall Hrun Hname1 Hnames1). }
  assert (Hnames : ck_name <$> new_check p
                   = unnamed_check_name name
                       <$> reverse (seq 1 (check_count p))).
  { apply (Hgen calls (create_table p0 name) p Hunnamed Hrun).
    - unfold create_table, sqlStartTable.
      destruct (sqlCheckIdentifierName (sqlGetVdbe p0) name) as [p1 ok].
      destruct ok; simpl; [|discriminate]. intros def [= <-]. reflexivity.
    - assert (Hkept : checks_kept p0 (create_table p0 name)).
      { unfold create_table, sqlStartTable.
        destruct (sqlCheckIdentifierName (sqlGetVdbe p0) name) as [p1 ok] eqn:Hn.
        apply sqlCheckIdentifierName_errors in Hn as [(b & d & ->) _].
        unfold sqlGetVdbe. destruct (pVdbe p0), ok; split; reflexivity. }
      destruct Hkept as [-> ->]. rewrite Hcount, Hnone. reflexivity. }
  split; [exact Hnames|]. rewrite Hnames.
  apply (NoDup_fmap_2 (unnamed_check_name name) (Inj0:=unnamed_check_name_inj name)).
  rewrite reverse_Permutation. apply NoDup_seq.
Qed.

End CheckNames.

Lemma unnamed_checks_distinct_witness :
  exists p,
    run_create_table
      [AddColumn "A" FIELD_TYPE_INTEGER; AddCheck None "a > 0";
       AddColumn "B" FIELD_TYPE_INTEGER; AddCheck None "b   >  a"] = Some p
    /\ ck_name <$> new_check p = ["CK_CONSTRAINT_2_T"; "CK_CONSTRAINT_1_T"]
    /\ NoDup (ck_name <$> new_check p).
Proof.
  unfold run_create_table.
  destruct (@run_builder_calls reference_api
              (@create_table reference_api fresh_parse "T")
              [AddColumn "A" FIELD_TYPE_INTEGER; AddCheck None "a > 0";
               AddColumn "B" FIELD_TYPE_INTEGER; AddCheck None "b   >  a"])
    as [p|] eqn:Hrun; [|vm_compute in Hrun; discriminate].
  exists p. split; [reflexivity|].
  destruct (@unnamed_checks_distinct reference_api fresh_parse "T"
              [AddColumn "A" FIELD_TYPE_INTEGER; AddCheck None "a > 0";
               AddColumn "B" FIELD_TYPE_INTEGER; AddCheck None "b   >  a"] p
              eq_refl eq_refl eq_refl Hrun) as [Hnames Hnodup].
  split; [|exact Hnodup].
  vm_compute in Hrun. injection Hrun as <-. reflexivity.
Defined.

(** ** The names of the indexes of the table under construction *)

Section IndexNames.
Context `{BoxApi}.

Lemma append_assoc_string a b c : (a +:+ b) +:+ c = a +:+ b +:+ c.
Proof.
  induction a as [|x a IH]; [reflexivity|].
  rewrite !append_cons, IH. reflexivity.
Qed.

(** The digits of "%d" are no underscores. *)
Lemma string_of_uint_no_underscore d : forall a b,
  NilEmpty.string_of_uint d <> a +:+ String "_" b.
Proof.
  induction d as [|d IH|d IH|d IH|d IH|d IH|d IH|d IH|d IH|d IH|d IH];
    intros [|c a] b; simpl; rewrite ?append_cons;
    try discriminate; intros [= _ Heq]; exact (IH _ _ Heq).
Qed.

Lemma decimal_no_underscore n a b : decimal n <> a +:+ String "_" b.
Proof.
  unfold decimal, NilZero.string_of_uint.
  destruct (Nat.to_uint n) eqn:Hd;
    try (rewrite <- Hd; apply string_of_uint_no_underscore).
  destruct a as [|c [|c' a]]; rewrite ?append_cons; discriminate.
Qed.

(** The text after the last underscore of a name is determined by the
    name. *)
Lemma last_underscore a : forall b x y,
  (forall a' b', x <> a' +:+ String "_" b') ->
  (forall a' b', y <> a' +:+ String "_" b') ->
  a +:+ String "_" x = b +:+ String "_" y -> x = y.
Proof.
  induction a as [|c a IH]; intros [|c' b] x y Hx Hy;
    rewrite ?append_cons.
  - intros [= Heq]. exact Heq.
  - intros [= _ Heq]. exfalso. exact (Hx _ _ Heq).
  - intros [= _ Heq]. exfalso. symmetry in Heq. exact (Hy _ _ Heq).
  - intros [= _ Heq]. exact (IH b x y Hx Hy Heq).
Qed.

Lemma numbered_unique name n m : numbered name n -> numbered name m -> n = m.
Proof.
  intros [a ->] [b Heq]. apply decimal_inj.
  apply (last_underscore a b); [apply decimal_no_underscore..|exact Heq].
Qed.

Lemma constraint_index_name_numbered t c space_name idx_count :
  numbered (constraint_index_name t c space_name idx_count) (idx_count + 1).
Proof.
  unfold constraint_index_name, numbered. eexists.
  rewrite <- append_assoc_string. reflexivity.
Qed.

Lemma index_names_wf_perm names names' :
  names ≡ₚ names' -> index_names_wf names -> index_names_wf names'.
Proof.
  intros Hperm [Hnd Hall]. split; [rewrite <- Hperm; exact Hnd|].
  rewrite <- Hperm. rewrite <- (Permutation_length Hperm). exact Hall.
Qed.

(** A name with the next number is new. *)
Lemma index_names_wf_cons names name :
  numbered name (length names + 1) ->
  index_names_wf names -> index_names_wf (name :: names).
Proof.
  intros Hname [Hnd Hall]. split.
  - constructor; [|exact Hnd]. intros Hin.
    rewrite Forall_forall in Hall.
    destruct (Hall name Hin) as (n & Hn & Hle).
    pose proof (numbered_unique _ _ _ Hname Hn). lia.
  - constructor.
    + exists (length names + 1). split; [exact Hname|simpl; lia].
    + eapply Forall_impl; [exact Hall|].
      intros x (n & Hn & Hle). exists n. split; [exact Hn|simpl; lia].
Qed.

Lemma table_add_index_names def idx :
  index_name <$> index (table_add_index def idx)
  ≡ₚ index_name idx :: (index_name <$> index def).
Proof.
  unfold table_add_index. destruct (index def) as [|first others];
    [reflexivity|].
  destruct (iid idx =? 0); simpl.
  - rewrite fmap_app. simpl. rewrite <- Permutation_cons_append.
    reflexivity.
  - rewrite fmap_app. simpl.
    rewrite <- (Permutation_cons_append (index_name <$> others)).
    apply perm_swap.
Qed.

Lemma sql_create_index_names p cid def' :
  new_space (sql_create_index p cid) = Some def' ->
  exists def,
    new_space p = Some def
    /\ (index_names_wf (index_name <$> index def) ->
        index_names_wf (index_name <$> index def')).
Proof.
  intros Hnew. apply sql_create_index_shape in Hnew
    as (def & Hdef & _ & Hcases).
  exists def. split; [exact Hdef|]. intros Hwf.
  destruct Hcases
    as [[-> _]|[_ [(_ & _ & l1 & e & l2 & Hl & ->)
                  |(idx & -> & _ & _ & Hname)]]].
  - exact Hwf.
  - rewrite Hl in Hwf. rewrite fmap_app in *. exact Hwf.
  - eapply index_names_wf_perm; [symmetry; apply table_add_index_names|].
    apply index_names_wf_cons; [|exact Hwf].
    rewrite Hname, length_fmap. apply constraint_index_name_numbered.
Qed.

Lemma run_builder_call_index_names p c p' def' :
  run_builder_call p c = Some p' ->
  new_space p' = Some def' ->
  exists def,
    new_space p = Some def
    /\ (index_names_wf (index_name <$> index def) ->
        index_names_wf (index_name <$> index def')).
Proof.
  destruct c as [n t|a|n l|n l|n e]; simpl.
  - intros [= <-] Hnew.
    destruct (sqlAddColumn_indexes p n t def' Hnew) as (def & Hdef & -> & _).
    exists def. auto.
  - intros [= <-] Hnew.
    destruct (sql_column_add_nullable_action_indexes p a def' Hnew)
      as (def & Hdef & -> & _).
    exists def. auto.
  - intros [= <-] Hnew. apply sql_create_index_names in Hnew. exact Hnew.
  - intros Hadd Hnew. apply sqlAddPrimaryKey_shape in Hadd
      as [[_ ->]|[(c & a & ->)|(cid' & _ & _ & Hq)]].
    + exists def'. auto.
    + exists def'. auto.
    + cbv zeta in Hq.
      destruct Hq as [[_ ->]|(sp & pk & p2 & fs & Hsp & _ & _ & ->)].
      * apply sql_create_index_names in Hnew. exact Hnew.
      * simpl in Hnew. injection Hnew as <-. simpl.
        apply sql_create_index_names in Hsp. exact Hsp.
  - intros Hck Hnew.
    apply sql_create_check_contraint_frame in Hck as (_ & _ & Hsp).
    exists def'. split; [congruence|]. auto.
Qed.

(** The indexes attached to the table under construction have
    pairwise distinct names: every name sql_create_index generates
    ends with the number of indexes attached so far plus one, and an
    attached index keeps its name. *)
Theorem create_table_index_names_distinct p0 name calls p def :
  run_builder_calls (create_table p0 name) calls = Some p ->
  new_space p = Some def ->
  NoDup (index_name <$> index def).
Proof.
  assert (Hgen : forall calls q p def,
             run_builder_calls q calls = Some p ->
             new_space p = Some def ->
             exists def0,
               new_space q = Some def0
               /\ (index_names_wf (index_name <$> index def0) ->
                   index_names_wf (index_name <$> index def))).
  { clear. intros calls. induction calls as [|c calls IH]; intros q p def; simpl.
    - intros [= <-] Hdef. exists def. auto.
    - destruct (run_builder_call q c) as [q1|] eqn:Hc; [|discriminate].
      intros Hrun Hdef.
      destruct (IH q1 p def Hrun Hdef) as (def1 & Hdef1 & Hwf1).
      destruct (run_builder_call_index_names q c q1 def1 Hc Hdef1)
        as (def0 & Hdef0 & Hwf0).
      exists def0. split; [exact Hdef0|auto]. }
  intros Hrun Hdef.
  destruct (Hgen calls _ p def Hrun Hdef) as (def0 & Hdef0 & Hwf).
  apply Hwf. revert Hdef0. unfold create_table, sqlStartTable.
  destruct (sqlCheckIdentifierName (sqlGetVdbe p0) name) as [p1 ok] eqn:Hname.
  apply sqlCheckIdentifierName_errors in Hname as [(b & d & ->) _].
  destruct ok; simpl; [|discriminate].
  intros [= <-]. split; constructor.
Qed.

End IndexNames.

Lemma create_table_index_names_distinct_witness :
  exists p def,
    run_create_table
      [AddColumn "A" FIELD_TYPE_INTEGER; AddColumn "B" FIELD_TYPE_STRING;
       AddUnique (Some "U") (Some [TK_ID "B"]);
       AddUnique (Some "U") (Some [TK_ID "B"; TK_ID "A"]);
       AddPrimaryKey None (Some [TK_ID "A"])] = Some p
    /\ new_space p = Some def
    /\ index_name <$> index def = ["pk_unnamed_T_3"; "unique_U_2"; "unique_U_1"]
    /\ NoDup (index_name <$> index def).
Proof.
  unfold run_create_table.
  destruct (@run_builder_calls reference_api
              (@create_table reference_api fresh_parse "T")
              [AddColumn "A" FIELD_TYPE_INTEGER; AddColumn "B" FIELD_TYPE_STRING;
               AddUnique (Some "U") (Some [TK_ID "B"]);
               AddUnique (Some "U") (Some [TK_ID "B"; TK_ID "A"]);
               AddPrimaryKey None (Some [TK_ID "A"])])
    as [p|] eqn:Hrun; [|vm_compute in Hrun; discriminate].
  destruct (new_space p) as [def|] eqn:Hdef;
    [|vm_compute in Hrun; injection Hrun as <-; discriminate].
  exists p, def. split; [reflexivity|]. split; [exact Hdef|].
  split; [vm_compute in Hrun; injection Hrun as <-; vm_compute in Hdef;
          injection Hdef as <-; reflexivity|].
  exact (@create_table_index_names_distinct reference_api fresh_parse "T" _ p
           def Hrun Hdef).
Defined.

(** ** The nullability of the columns *)

Section ColumnNullability.
Context `{BoxApi}.

Lemma sqlAddColumn_nullability p name type def' :
  new_space (sqlAddColumn p name type) = Some def' ->
  exists def,
    new_space p = Some def
    /\ (Forall nullability_open_or_decided (fields def) ->
        Forall nullability_open_or_decided (fields def')).
Proof.
  unfold sqlAddColumn. destruct (new_space p) as [def|] eqn:Hsp;
    [|rewrite Hsp; discriminate].
  intros Hnew. exists def. split; [reflexivity|]. revert Hnew.
  assert (Hf : fields (sql_field_retrieve def (field_count def)) = fields def).
  { unfold sql_field_retrieve. destruct (_ <=? _); reflexivity. }
  destruct (limit_column p <? field_count def + 1);
    [simpl; rewrite Hsp; intros [= <-]; auto|].
  cbv zeta. set (def1 := sql_field_retrieve def (field_count def)) in *.
  destruct (existsb _ (fields def1)); simpl; intros [= <-]; simpl;
    rewrite Hf; [auto|].
  intros Hall. apply Forall_app. split; [exact Hall|].
  constructor; [left; reflexivity|constructor].
Qed.

Lemma sql_column_add_nullable_action_nullability p action def' :
  new_space (sql_column_add_nullable_action p action) = Some def' ->
  exists def,
    new_space p = Some def
    /\ (Forall nullability_open_or_decided (fields def) ->
        Forall nullability_open_or_decided (fields def')).
Proof.
  unfold sql_column_add_nullable_action.
  destruct (new_space p) as [def|] eqn:Hsp; [|rewrite Hsp; discriminate].
  intros Hnew. exists def. split; [reflexivity|]. revert Hnew.
  destruct (fields def !! (field_count def - 1)) as [f|];
    [|rewrite Hsp; intros [= <-]; auto].
  destruct (_ && _); simpl; [rewrite Hsp|]; intros [= <-]; [auto|].
  simpl. intros Hall. apply Forall_insert; [exact Hall|].
  right. reflexivity.
Qed.

Lemma field_def_create_for_pk_nullability p f name p' f' :
  field_def_create_for_pk p f name = (p', f') ->
  nullability_open_or_decided f -> nullability_open_or_decided f'.
Proof.
  unfold field_def_create_for_pk.
  destruct (_ && _); [intros [= _ <-]; auto|].
  destruct (bool_decide _); intros [= _ <-]; [|auto].
  intros _. right. reflexivity.
Qed.

Lemma pk_fields_not_null_nullability name pk_parts : forall p fs p' fs',
  pk_fields_not_null p fs name pk_parts = (p', fs') ->
  Forall nullability_open_or_decided fs ->
  Forall nullability_open_or_decided fs'.
Proof.
  induction pk_parts as [|part rest IH]; intros p fs p' fs'; simpl.
  - intros [= _ <-]. auto.
  - destruct (fs !! fieldno part) as [f|] eqn:Hf; [|apply IH].
    destruct (field_def_create_for_pk p f name) as [p1 f1] eqn:Hpk.
    intros Hrest Hall. apply (IH _ _ _ _ Hrest).
    apply Forall_insert; [exact Hall|].
    apply (field_def_create_for_pk_nullability _ _ _ _ _ Hpk).
    rewrite Forall_lookup in Hall. exact (Hall _ _ Hf).
Qed.

Lemma run_builder_call_nullability p c p' def' :
  run_builder_call p c = Some p' ->
  new_space p' = Some def' ->
  exists def,
    new_space p = Some def
    /\ (Forall nullability_open_or_decided (fields def) ->
        Forall nullability_open_or_decided (fields def')).
Proof.
  destruct c as [n t|a|n l|n l|n e]; simpl.
  - intros [= <-]. apply sqlAddColumn_nullability.
  - intros [= <-]. apply sql_column_add_nullable_action_nullability.
  - intros [= <-] Hnew.
    destruct (sql_create_index_columns p _ def' Hnew) as (def & Hdef & -> & _).
    exists def. auto.
  - intros Hadd Hnew. apply sqlAddPrimaryKey_shape in Hadd
      as [[_ ->]|[(c & a & ->)|(cid' & _ & _ & Hq)]].
    + exists def'. auto.
    + exists def'. auto.
    + cbv zeta in Hq.
      destruct Hq as [[_ ->]|(sp & pk & p2 & fs & Hsp & _ & Hloop & ->)].
      * destruct (sql_create_index_columns p _ def' Hnew)
          as (def & Hdef & -> & _).
        exists def. auto.
      * simpl in Hnew. injection Hnew as <-. simpl.
        destruct (sql_create_index_columns p _ sp Hsp)
          as (def & Hdef & Hf & _).
        exists def. split; [exact Hdef|]. rewrite <- Hf.
        apply (pk_fields_not_null_nullability _ _ _ _ _ _ Hloop).
  - intros Hck Hnew.
    apply sql_create_check_contraint_frame in Hck as (_ & _ & Hsp).
    exists def'. split; [congruence|]. auto.
Qed.

Lemma sqlEndTable_begin_fields p sp p1 sp' name_reg reg :
  sqlEndTable_begin p sp = (p1, sp', name_reg, reg) ->
  fields sp'
  = map (fun field =>
           if bool_decide (nullable_action field = ON_CONFLICT_ACTION_DEFAULT)
           then set_nullable field ON_CONFLICT_ACTION_NONE true
           else field) (fields sp).
Proof.
  unfold sqlEndTable_begin. cbv zeta. unfold getNewSpaceId. cbv zeta.
  intros [= _ <- _ _]. reflexivity.
Qed.

(** When sqlEndTable starts to generate code for the table that the
    builder routines have staged, the nullability of every column is
    decided: no column carries the marker ON_CONFLICT_ACTION_DEFAULT
    any more, and a column is nullable exactly when its NULL-conflict
    action is NONE. *)
Theorem sqlEndTable_nullability_decided p0 name calls p def p1 def' name_reg
    reg :
  run_builder_calls (create_table p0 name) calls = Some p ->
  new_space p = Some def ->
  sqlEndTable_begin p def = (p1, def', name_reg, reg) ->
  Forall nullability_decided (fields def').
Proof.
  assert (Hgen : forall calls q p def,
             run_builder_calls q calls = Some p ->
             new_space p = Some def ->
             exists def0,
               new_space q = Some def0
               /\ (Forall nullability_open_or_decided (fields def0) ->
                   Forall nullability_open_or_decided (fields def))).
  { clear. intros calls. induction calls as [|c calls IH]; intros q p def; simpl.
    - intros [= <-] Hdef. exists def. auto.
    - destruct (run_builder_call q c) as [q1|] eqn:Hc; [|discriminate].
      intros Hrun Hdef.
      destruct (IH q1 p def Hrun Hdef) as (def1 & Hdef1 & Hwf1).
      destruct (run_builder_call_nullability q c q1 def1 Hc Hdef1)
        as (def0 & Hdef0 & Hwf0).
      exists def0. split; [exact Hdef0|auto]. }
  intros Hrun Hdef Hbegin.
  destruct (Hgen calls _ p def Hrun Hdef) as (def0 & Hdef0 & Hwf).
  assert (Hall : Forall nullability_open_or_decided (fields def)).
  { apply Hwf. revert Hdef0. unfold create_table, sqlStartTable.
    destruct (sqlCheckIdentifierName (sqlGetVdbe p0) name) as [p2 ok] eqn:Hname.
    apply sqlCheckIdentifierName_errors in Hname as [(b & d & ->) _].
    destruct ok; simpl; [|discriminate].
    intros [= <-]. constructor. }
  rewrite (sqlEndTable_begin_fields _ _ _ _ _ _ Hbegin).
  apply Forall_fmap. eapply Forall_impl; [exact Hall|].
  intros f Hf. simpl.
  destruct (bool_decide_reflect
              (nullable_action f = ON_CONFLICT_ACTION_DEFAULT)) as [Hd|Hd].
  - split; [discriminate|reflexivity].
  - destruct Hf as [Hf|Hf]; [contradiction|]. split; assumption.
Qed.

End ColumnNullability.

Lemma sqlEndTable_nullability_decided_witness :
  exists p def,
    run_create_table
      [AddColumn "A" FIELD_TYPE_INTEGER; AddPrimaryKey None None;
       AddColumn "B" FIELD_TYPE_STRING;
       AddColumn "C" FIELD_TYPE_STRING;
       AddNullableAction ON_CONFLICT_ACTION_FAIL] = Some p
    /\ new_space p = Some def
    /\ (nullable_action <$> fields (@sqlEndTable_begin reference_api p def).1.1.2)
       = [ON_CONFLICT_ACTION_ABORT; ON_CONFLICT_ACTION_NONE;
          ON_CONFLICT_ACTION_FAIL]
    /\ Forall nullability_decided
         (fields (@sqlEndTable_begin reference_api p def).1.1.2).
Proof.
  unfold run_create_table.
  destruct (@run_builder_calls reference_api
              (@create_table reference_api fresh_parse "T")
              [AddColumn "A" FIELD_TYPE_INTEGER; AddPrimaryKey None None;
               AddColumn "B" FIELD_TYPE_STRING;
               AddColumn "C" FIELD_TYPE_STRING;
               AddNullableAction ON_CONFLICT_ACTION_FAIL])
    as [p|] eqn:Hrun; [|vm_compute in Hrun; discriminate].
  destruct (new_space p) as [def|] eqn:Hdef;
    [|vm_compute in Hrun; injection Hrun as <-; discriminate].
  exists p, def. split; [reflexivity|]. split; [exact Hdef|].
  destruct (@sqlEndTable_begin reference_api p def)
    as [[[p1 def'] name_reg] reg] eqn:Hbegin.
  cbn [fst snd]. split.
  - rewrite (@sqlEndTable_begin_fields reference_api _ _ _ _ _ _ Hbegin).
    vm_compute in Hrun. injection Hrun as <-. vm_compute in Hdef.
    injection Hdef as <-. reflexivity.
  - exact (@sqlEndTable_nullability_decided reference_api fresh_parse "T" _ p
             def p1 def' name_reg reg Hrun Hdef Hbegin).
Defined.
